(** * nanotron: topology, data loading and optimizer wrappers

    A shallow embedding of the parts of the repository that its
    specification talks about, and of the code around them:

    - [src/nanotron/distributed/parallel_context.py]  (module [ParallelContext])
    - [examples/doremi/dataloader.py]                  (modules [SkipBatchSampler],
      [CombinedDataset], [DistributedSamplerForDoReMi], [SanityCheck],
      [DataCollatorForCLM], [ClmProcess], [WorkerInit], [DatasetMix])
    - [src/nanotron/core/optimizer/optimizer_from_gradient_accumulator.py]
      (module [OptimizerFromGradientAccumulator])
    - [src/nanotron/helpers.py]                        (modules [Helpers],
      [PairTest], [LrScheduler])
    - [src/nanotron/fp8/optim.py]                      (module [FP8Adam])
    - [tests/helpers/dummy.py]                         (module [Dummy])

    Python integers are [Z], list positions are [nat] and floats are the
    values of module [Float], where every operation rounds.  Exceptions are
    values of [exn], and a call that may raise returns a [result]; calls on
    [torch.distributed] thread its state. *)

From Stdlib Require Import ZArith List Lia Bool Permutation QArith Qround Qpower Lqa SpecFloat.
From stdpp Require Import gmap strings list sorting.
Import ListNotations.

Local Open Scope Z_scope.

(** ** Python exceptions and the error monad *)

(** The exceptions the code can end in.  [OutsideModel] marks a call into
    torch or numpy with arguments for which the library is not modelled. *)
Inductive exn : Type :=
| AssertionError (msg : string)
| ValueError (msg : string)
| IndexError (msg : string)
| KeyError (key : string)
| AttributeError (attr : string)
| UnboundLocalError (name : string)
| OverflowError (msg : string)
| ZeroDivisionError
| OutsideModel (what : string).

Inductive result (A : Type) : Type :=
| Ok (a : A)
| Raise (e : exn).
Arguments Ok {A} a.
Arguments Raise {A} e.

(** Sequencing stops at the first exception; [x ← r; k] is stdpp's
    notation for it. *)
#[global] Instance result_ret : MRet result := fun A a => Ok a.
#[global] Instance result_bind : MBind result := fun A B k r =>
  match r with
  | Ok a => k a
  | Raise e => Raise e
  end.

(** Python's [sum] over integers. *)
Definition sum (l : list Z) : Z := fold_right Z.add 0 l.

(** [np.cumsum]: running sums, same length as the input. *)
Fixpoint cumsum_from (acc : Z) (l : list Z) : list Z :=
  match l with
  | [] => []
  | x :: r => (acc + x) :: cumsum_from (acc + x) r
  end.

Definition cumsum (l : list Z) : list Z := cumsum_from 0 l.


(** [seq[i]] on a Python sequence: a negative index counts from the end. *)
Definition py_getitem {A} (l : list A) (i : Z) : result A :=
  let j := if i <? 0 then i + Z.of_nat (length l) else i in
  if j <? 0 then Raise (IndexError "index out of range")
  else match l !! Z.to_nat j with
       | Some x => Ok x
       | None => Raise (IndexError "index out of range")
       end.


(** [l[a:b]]: a negative bound counts from the end, and both bounds are
    clipped to the sequence. *)
Definition py_slice {A} (l : list A) (a b : Z) : list A :=
  let n := Z.of_nat (length l) in
  let clip x := Z.min n (Z.max 0 (if x <? 0 then x + n else x)) in
  take (Z.to_nat (clip b - clip a)) (drop (Z.to_nat (clip a)) l).

(** [range(start, stop, step)] *)
Definition py_range (start stop step : Z) : result (list Z) :=
  if step =? 0 then Raise (ValueError "range() arg 3 must not be zero")
  else
    let count := if 0 <? step then - ((start - stop) / step)
                 else - ((stop - start) / (- step)) in
    Ok (map (fun k => start + k * step) (seqZ 0 count)).

(** ** Floating-point numbers *)

(** Python floats are IEEE 754 doubles and the entries of a torch tensor
    are floats of its dtype.  A finite float is kept as the rational it
    denotes, in lowest terms; an operation computes the exact result and
    rounds it to the nearest float of the format, ties to even, and to an
    infinity from [2^emax] on.  The sign of a zero is not kept: in the code
    modelled here it could only show in the sign of an infinity, and
    [int] and [math.ceil] raise the same exception for both. *)
Module Float.

(** A binary format: [prec] digits and exponents below [emax]. *)
Record format : Type := { prec : Z; emax : Z }.

Definition binary16 : format := {| prec := 11; emax := 16 |}.
Definition bfloat16 : format := {| prec := 8; emax := 128 |}.
Definition binary32 : format := {| prec := 24; emax := 128 |}.
Definition binary64 : format := {| prec := 53; emax := 1024 |}.

(** The floating dtypes of torch. *)
Definition torch_float (fmt : format) : Prop :=
  fmt = binary16 \/ fmt = bfloat16 \/ fmt = binary32 \/ fmt = binary64.

(** The exponent of the least positive float. *)
Definition emin (fmt : format) : Z := 3 - emax fmt - prec fmt.

Inductive float : Type :=
| Finite (q : Q)
| Inf (negative : bool)
| NaN.

Definition pow2 (e : Z) : Q := (2 ^ e)%Q.

(** For [0 < x], the exponent [e] with [2^(e-1) <= x < 2^e]. *)
Definition mag (x : Q) : Z :=
  let e0 := Z.log2 (Qnum x) - Z.log2 (Zpos (Qden x)) in
  if Qle_bool (pow2 e0) x then e0 + 1 else e0.

(** The nearest integer, the even one of two that are equally near. *)
Definition rne (x : Q) : Z :=
  let f := Qfloor x in
  match (x - inject_Z f ?= 1 # 2)%Q with
  | Lt => f
  | Eq => if Z.even f then f else f + 1
  | Gt => f + 1
  end.

(** The exponent of the unit in the last place of [0 < x]. *)
Definition fexp (fmt : format) (x : Q) : Z := Z.max (mag x - prec fmt) (emin fmt).

(** [0 < x] rounded to a multiple of its unit in the last place. *)
Definition round_pos (fmt : format) (x : Q) : Q :=
  (inject_Z (rne (x / pow2 (fexp fmt x))) * pow2 (fexp fmt x))%Q.

Definition round (fmt : format) (x : Q) : float :=
  match (x ?= 0)%Q with
  | Eq => Finite 0
  | Gt => let r := round_pos fmt x in
          if Qle_bool (pow2 (emax fmt)) r then Inf false else Finite (Qred r)
  | Lt => let r := round_pos fmt (- x) in
          if Qle_bool (pow2 (emax fmt)) r then Inf true else Finite (Qred (- r))
  end.

Definition Qneg (x : Q) : bool := negb (Qle_bool 0 x).

Definition fneg (a : float) : float :=
  match a with
  | Finite x => Finite (- x)
  | Inf s => Inf (negb s)
  | NaN => NaN
  end.

Definition fadd (fmt : format) (a b : float) : float :=
  match a, b with
  | NaN, _ | _, NaN => NaN
  | Inf s, Inf s' => if Bool.eqb s s' then Inf s else NaN
  | Inf s, Finite _ | Finite _, Inf s => Inf s
  | Finite x, Finite y => round fmt (x + y)
  end.

Definition fsub (fmt : format) (a b : float) : float := fadd fmt a (fneg b).

Definition fmul (fmt : format) (a b : float) : float :=
  match a, b with
  | NaN, _ | _, NaN => NaN
  | Inf s, Inf s' => Inf (xorb s s')
  | Inf s, Finite y | Finite y, Inf s =>
      if Qeq_bool y 0 then NaN else Inf (xorb s (Qneg y))
  | Finite x, Finite y => round fmt (x * y)
  end.

(** Division without exceptions, as on tensors. *)
Definition fdiv (fmt : format) (a b : float) : float :=
  match a, b with
  | NaN, _ | _, NaN => NaN
  | Inf _, Inf _ => NaN
  | Inf s, Finite y => Inf (xorb s (Qneg y))
  | Finite _, Inf _ => Finite 0
  | Finite x, Finite y =>
      if Qeq_bool y 0 then (if Qeq_bool x 0 then NaN else Inf (Qneg x))
      else round fmt (x / y)
  end.

(** [a <= b] and [a < b]: false when one side is [nan]. *)
Definition fle (a b : float) : bool :=
  match a, b with
  | NaN, _ | _, NaN => false
  | Inf true, _ | _, Inf false => true
  | Inf false, _ | _, Inf true => false
  | Finite x, Finite y => Qle_bool x y
  end.

Definition flt (a b : float) : bool :=
  match a, b with
  | NaN, _ | _, NaN => false
  | Inf s, Inf s' => s && negb s'
  | Inf s, Finite _ => s
  | Finite _, Inf s => negb s
  | Finite x, Finite y => negb (Qle_bool y x)
  end.

Definition is_zero (a : float) : bool :=
  match a with Finite x => Qeq_bool x 0 | _ => false end.

(** A Python int where a float is needed, as in [f * n]. *)
Definition float_of_int (n : Z) : result float :=
  match round binary64 (inject_Z n) with
  | Inf _ => Raise (OverflowError "int too large to convert to float")
  | f => Ok f
  end.

(** [a / b] on Python ints: the quotient, rounded once. *)
Definition int_truediv (a b : Z) : result float :=
  if b =? 0 then Raise ZeroDivisionError
  else match round binary64 (inject_Z a / inject_Z b) with
       | Inf _ => Raise (OverflowError "integer division result too large for a float")
       | f => Ok f
       end.

(** [a / b] on Python floats. *)
Definition float_truediv (a b : float) : result float :=
  if is_zero b then Raise ZeroDivisionError else Ok (fdiv binary64 a b).

(** [f * n] and [f / n] for a Python float and a Python int. *)
Definition mul_int (f : float) (n : Z) : result float :=
  n' ← float_of_int n; Ok (fmul binary64 f n').

Definition div_int (f : float) (n : Z) : result float :=
  n' ← float_of_int n; float_truediv f n'.

(** [int(f)]: truncation towards zero. *)
Definition int (f : float) : result Z :=
  match f with
  | Finite q => Ok (if Qle_bool 0 q then Qfloor q else Qceiling q)
  | Inf _ => Raise (OverflowError "cannot convert float infinity to integer")
  | NaN => Raise (ValueError "cannot convert float NaN to integer")
  end.

(** [math.ceil(f)] *)
Definition ceil (f : float) : result Z :=
  match f with
  | Finite q => Ok (Qceiling q)
  | Inf _ => Raise (OverflowError "cannot convert float infinity to integer")
  | NaN => Raise (ValueError "cannot convert float NaN to integer")
  end.

(** A float of the standard library's specification of IEEE 754
    ([Stdlib.Floats.SpecFloat]) as a value of this model. *)
Definition of_spec (f : spec_float) : float :=
  match f with
  | S754_zero _ => Finite 0
  | S754_infinity s => Inf s
  | S754_nan => NaN
  | S754_finite s m e =>
      Finite (Qred ((if s then - inject_Z (Zpos m) else inject_Z (Zpos m)) * pow2 e))
  end.

(** The sum of the entries of a tensor, added one after the other. *)
Definition sequential_sum (fmt : format) (ws : list float) : float :=
  fold_left (fadd fmt) ws (Finite 0).

End Float.

(** ** [SkipBatchSampler] (examples/doremi/dataloader.py) *)

Module SkipBatchSampler.

Section Sampler.
(** A batch is whatever the wrapped sampler yields. *)
Context {batch : Type}.

Record t : Type := {
  batch_sampler : list batch;
  skip_batches : Z
}.

(** [self.skip_batches = skip_batches // dp_size]: Python's floor
    division, which is [Z.div]; a zero divisor raises. *)
Definition __init__ (batch_sampler0 : list batch) (skip_batches0 dp_size : Z)
  : result t :=
  if dp_size =? 0 then Raise ZeroDivisionError
  else Ok {| batch_sampler := batch_sampler0;
             skip_batches := skip_batches0 / dp_size |}.

(** [enumerate]. *)
Fixpoint enumerate_from (i : Z) (l : list batch) : list (Z * batch) :=
  match l with
  | [] => []
  | x :: r => (i, x) :: enumerate_from (i + 1) r
  end.

(** [for index, samples in enumerate(...): if index >= skip: yield samples] *)
Definition __iter__ (self : t) : list batch :=
  flat_map (fun '(index, samples) =>
              if index >=? skip_batches self then [samples] else [])
           (enumerate_from 0 (batch_sampler self)).

Definition total_length (self : t) : Z := Z.of_nat (length (batch_sampler self)).

Definition __len__ (self : t) : Z :=
  Z.of_nat (length (batch_sampler self)) - skip_batches self.
End Sampler.

End SkipBatchSampler.

(** ** [CombinedDataset] (examples/doremi/dataloader.py) *)

Module CombinedDataset.

Section Dataset.
(** A sub-dataset is the list of its samples. *)
Context {sample : Type}.

Record t : Type := {
  datasets : list (list sample);
  lengths : list Z;
  offsets : list Z
}.

(** [self.lengths = [len(d) for d in datasets]],
    [self.offsets = np.cumsum([0] + self.lengths[:-1])]. *)
Definition __init__ (datasets0 : list (list sample)) : t :=
  let lengths0 := map (fun d => Z.of_nat (length d)) datasets0 in
  {| datasets := datasets0;
     lengths := lengths0;
     offsets := cumsum (0 :: removelast lengths0) |}.

Definition __len__ (self : t) : Z := sum (lengths self).

(** The loop of [get_dataset_and_local_index], at position [i] of
    [enumerate(self.offsets)].  [self.lengths[i]] raises [IndexError]
    itself when [i] is past the end of the list.  The message of the
    final [IndexError] is kept without the index it ends with. *)
Fixpoint scan (lens : list Z) (i : nat) (offs : list Z) (global_idx : Z)
  : result (nat * Z) :=
  match offs with
  | [] => Raise (IndexError "Index out of range")
  | offset :: rest =>
      match lens !! i with
      | None => Raise (IndexError "list index out of range")
      | Some len =>
          if global_idx <? offset + len then Ok (i, global_idx - offset)
          else scan lens (S i) rest global_idx
      end
  end.

Definition get_dataset_and_local_index (self : t) (global_idx : Z)
  : result (nat * Z) :=
  scan (lengths self) 0%nat (offsets self) global_idx.

(** [self.datasets[dataset_idx]["input_ids"][local_idx]]: a sample is a
    row of the [input_ids] column. *)
Definition get_sample (self : t) (global_idx : Z) : result sample :=
  '(dataset_idx, local_idx) ← get_dataset_and_local_index self global_idx;
  match datasets self !! dataset_idx with
  | None => Raise (IndexError "list index out of range")
  | Some dataset => py_getitem dataset local_idx
  end.

(** The argument of [__getitem__] and what it returns: one global index
    and its sample, or a list of both. *)
Inductive indices : Type :=
| Index (global_idx : Z)
| Indices (global_indices : list Z).

Inductive samples : Type :=
| Sample (s : sample)
| Samples (l : list sample).

Definition __getitem__ (self : t) (global_indices : indices) : result samples :=
  match global_indices with
  | Indices l => xs ← mapM (get_sample self) l; Ok (Samples xs)
  | Index g => x ← get_sample self g; Ok (Sample x)
  end.

End Dataset.

End CombinedDataset.

(** ** [get_all_comps] (src/nanotron/helpers.py) *)

Module Helpers.

(** [a.reshape(-1, d)] of a flat array: rows of [d] consecutive elements.
    numpy refuses when [d] does not divide the size. *)
Definition reshape_rows {A} (a : list A) (d : nat) : result (list (list A)) :=
  if bool_decide (d ≠ 0 ∧ (length a mod d = 0))%nat
  then Ok (reshape (replicate (length a / d)%nat d) a)
  else Raise (ValueError "cannot reshape array").

(** [np.roll(row, r)]: the element at position [i] moves to [(i + r) % len]. *)
Definition roll {A} (r : nat) (row : list A) : list A :=
  let k := (length row - r mod length row)%nat in
  drop k row ++ take k row.

(** [lst.T] of a 2-D array with [d] columns: column [j] becomes row [j]. *)
Definition transpose (d : nat) (lst : list (list nat)) : list (list nat) :=
  map (fun j => map (fun row => nth j row 0%nat) lst) (seq 0 d).

(** The inner function [op].  [lst.reshape(-1, d)] is a view of the
    caller's array, so the assignment to [lst[1::2]] writes through to it:
    [op] returns the caller's array after the call together with its
    result [lst.T.reshape(-1)]. *)
Definition op (lst : list nat) (d r : nat) : result (list nat * list nat) :=
  rows ← reshape_rows lst d;
  let rows' := imap (fun i row => if Nat.odd i then roll r row else row) rows in
  Ok (concat rows', concat (transpose d rows')).

(** [for r in range(d): comps.append(op(x, d=d, r=r).copy())] *)
Fixpoint for_r (d : nat) (rs : list nat) (x : list nat) (comps : list (list nat))
  : result (list nat * list (list nat)) :=
  match rs with
  | [] => Ok (x, comps)
  | r :: rs' =>
      '(x', out) ← op x d r;
      for_r d rs' x' (comps ++ [out])
  end.

(** [while d < n: ...; d *= 2], with the number of iterations bounded by
    [fuel]. *)
Fixpoint while_d (fuel : nat) (n d : nat) (x : list nat) (comps : list (list nat))
  : result (list (list nat)) :=
  if (d <? n)%nat then
    match fuel with
    | O => Raise (OutsideModel "while_d: out of fuel")
    | S fuel' =>
        '(x', comps') ← for_r d (seq 0 d) x comps;
        while_d fuel' n (d * 2) x' comps'
    end
  else Ok comps.

(** [np.stack] refuses an empty list. *)
Definition stack (comps : list (list nat)) : result (list (list nat)) :=
  match comps with
  | [] => Raise (ValueError "need at least one array to stack")
  | _ => Ok comps
  end.

Definition get_all_comps (n : Z) : result (list (list (list nat))) :=
  if negb ((Z.land n (n - 1) =? 0) && negb (n =? 0))
  then Raise (ValueError "n must be a power of two")
  else
    let x := seq 0 (Z.to_nat n) in
    comps ← while_d (Z.to_nat n) (Z.to_nat n) 1 x [];
    ret ← stack comps;
    mapM (fun row => reshape_rows row 2) ret.


(** [_vocab_size_with_padding]: [int(ceil(orig / multiple) * multiple)],
    and whether the padding is logged.  The quotient of the two ints is a
    float; [ceil] is [math.ceil]. *)
Definition _vocab_size_with_padding (orig_vocab_size pg_size make_vocab_size_divisible_by : Z)
  : result (Z * bool) :=
  let multiple := make_vocab_size_divisible_by * pg_size in
  q ← Float.int_truediv orig_vocab_size multiple;
  c ← Float.ceil q;
  let after := c * multiple in
  Ok (after, negb (after =? orig_vocab_size)).

End Helpers.

(** ** [test_all_pair_to_pair] (src/nanotron/helpers.py) *)

Module PairTest.

(** What one process does on the world group. *)
Inductive event : Type :=
| LogComparisons
| Barrier
| Send (dst : nat) (tag : Z)
| Recv (src : nat) (tag : Z)
| LogResult (j i a b : nat)
| LogDone.

(** [for k in range(throughput_iters)]: the messages of one comparison.
    The clock is not modelled; the loop binds [duration] when it runs at
    least once. *)
Definition iters_loop (wr a b i : nat) (throughput_iters : Z) : list event :=
  flat_map (fun k => if (wr =? a)%nat then [Send b (Z.of_nat i + k)]
                     else if (wr =? b)%nat then [Recv a (Z.of_nat i + k)]
                     else [])
           (seqZ 0 throughput_iters).

(** [for i, (a, b) in enumerate(comp)], from position [i]; [duration] is
    bound by the first comparison that runs its loop.  The size of the
    tensor sent is not modelled. *)
Fixpoint pair_loop (wr : nat) (only_node_to_node : bool) (throughput_iters : Z)
    (j i : nat) (comp : list (list nat)) (tr : list event) : result unit * list event :=
  match comp with
  | [] => (Ok (), tr)
  | [a; b] :: rest =>
      let tr := tr ++ [Barrier] in
      if negb (bool_decide (wr ∈ [a; b]))
      then pair_loop wr only_node_to_node throughput_iters j (S i) rest tr
      else if only_node_to_node && (negb (a mod 8 =? 0)%nat || negb (b mod 8 =? 0)%nat)
      then pair_loop wr only_node_to_node throughput_iters j (S i) rest tr
      else
        let tr := tr ++ iters_loop wr a b i throughput_iters in
        if throughput_iters <=? 0 then (Raise (UnboundLocalError "duration"), tr)
        else pair_loop wr only_node_to_node throughput_iters j (S i) rest
               (tr ++ [LogResult j i a b])
  | _ :: _ => (Raise (ValueError "wrong number of values to unpack"), tr)
  end.

(** [for j, comp in enumerate(comparisons)], from position [j]. *)
Fixpoint round_loop (wr : nat) (only_node_to_node : bool) (throughput_iters : Z)
    (j : nat) (comparisons : list (list (list nat))) (tr : list event)
  : result unit * list event :=
  match comparisons with
  | [] => (Ok (), tr)
  | comp :: rest =>
      match pair_loop wr only_node_to_node throughput_iters j 0 comp (tr ++ [Barrier]) with
      | (Ok _, tr') => round_loop wr only_node_to_node throughput_iters (S j) rest tr'
      | (Raise e, tr') => (Raise e, tr')
      end
  end.

(** [world_size] is [dpg.world_pg.size()] and [wr] the rank of the
    process in the world group; the two messages for rank 0 are logged by
    that rank. *)
Definition test_all_pair_to_pair (world_size : Z) (wr : nat) (throughput_iters : Z)
    (only_node_to_node : bool) : result unit * list event :=
  match Helpers.get_all_comps world_size with
  | Raise e => (Raise e, [])
  | Ok comparisons =>
      let tr := if (wr =? 0)%nat then [LogComparisons] else [] in
      match round_loop wr only_node_to_node throughput_iters 0 comparisons tr with
      | (Ok _, tr') => (Ok (), tr' ++ (if (wr =? 0)%nat then [LogDone] else []))
      | (Raise e, tr') => (Raise e, tr')
      end
  end.

(** The tags of the messages sent to [dst], and of those received from
    [src], in the order of a trace. *)
Definition sent_to (dst : nat) (tr : list event) : list Z :=
  flat_map (fun ev => match ev with
                      | Send d tag => if (d =? dst)%nat then [tag] else []
                      | _ => []
                      end) tr.

Definition received_from (src : nat) (tr : list event) : list Z :=
  flat_map (fun ev => match ev with
                      | Recv s tag => if (s =? src)%nat then [tag] else []
                      | _ => []
                      end) tr.

Definition barriers (tr : list event) : nat :=
  length (flat_map (fun ev => match ev with Barrier => [()] | _ => [] end) tr).

Definition comparisons_logged (tr : list event) : nat :=
  length (flat_map (fun ev => match ev with LogResult _ _ _ _ => [()] | _ => [] end) tr).

End PairTest.

(** ** [lr_scheduler_builder] (src/nanotron/helpers.py) *)

Module LrScheduler.

(** The fields of [LRSchedulerArgs] that [lr_lambda] reads, with the
    number of warm-up steps given as an int. *)
Record LRSchedulerArgs : Type := {
  lr_warmup_steps : Z;
  lr_warmup_style : option string;
  lr_decay_steps : option Z;
  lr_decay_style : option string;
  min_decay_lr : Float.float
}.

(** [math.pi]: the double nearest to pi. *)
Definition math_pi : Float.float := Float.Finite (884279719003555 # 281474976710656).

Section Lambda.
(** [math.cos] of the C library. *)
Variable math_cos : Float.float -> result Float.float.

(** The [lr_decay_steps] that [lr_scheduler_builder] computes. *)
Definition decay_steps (args : LRSchedulerArgs) (total_training_steps : Z) : Z :=
  match lr_decay_steps args with
  | None => total_training_steps - lr_warmup_steps args
  | Some steps => steps
  end.

(** [min_decay_lr + (learning_rate - min_decay_lr)
     * (1 + math.cos(math.pi * (current_step - warmup) / lr_decay_steps)) / 2] *)
Definition cosine_decay (learning_rate lo : Float.float) (warmup lr_decay_steps0 current_step : Z)
  : result Float.float :=
  a ← Float.mul_int math_pi (current_step - warmup);
  x ← Float.div_int a lr_decay_steps0;
  c ← math_cos x;
  one ← Float.float_of_int 1;
  h ← Float.div_int (Float.fmul Float.binary64 (Float.fsub Float.binary64 learning_rate lo)
                                (Float.fadd Float.binary64 one c)) 2;
  Ok (Float.fadd Float.binary64 lo h).

(** [min_decay_lr + (learning_rate - min_decay_lr)
     * (lr_decay_steps - (current_step - warmup)) / lr_decay_steps] *)
Definition linear_decay (learning_rate lo : Float.float) (warmup lr_decay_steps0 current_step : Z)
  : result Float.float :=
  p ← Float.mul_int (Float.fsub Float.binary64 learning_rate lo)
        (lr_decay_steps0 - (current_step - warmup));
  q ← Float.div_int p lr_decay_steps0;
  Ok (Float.fadd Float.binary64 lo q).

Definition decay (style : string) (learning_rate lo : Float.float)
    (warmup lr_decay_steps0 current_step : Z) : result Float.float :=
  if String.eqb style "cosine"
  then cosine_decay learning_rate lo warmup lr_decay_steps0 current_step
  else if String.eqb style "linear"
  then linear_decay learning_rate lo warmup lr_decay_steps0 current_step
  else Raise (ValueError ("Unknown decay style " +:+ style)).

Definition lr_lambda (learning_rate : Float.float) (args : LRSchedulerArgs)
    (total_training_steps current_step : Z) : result Float.float :=
  let lr_decay_steps0 := decay_steps args total_training_steps in
  let warmup := lr_warmup_steps args in
  let lo := min_decay_lr args in
  if (warmup =? 0) && (lr_decay_steps0 =? 0) then Ok learning_rate
  else
    lmbda ←
      match lr_warmup_style args, lr_decay_style args with
      | Some style, _ =>
          if current_step <=? warmup then
            if String.eqb style "linear"
            then p ← Float.mul_int learning_rate current_step;
                 Float.div_int p (Z.max warmup 1)
            else if String.eqb style "constant" then Ok learning_rate
            else Raise (ValueError ("Unknown warmup style " +:+ style))
          else
            match lr_decay_style args with
            | Some style' =>
                if current_step <? lr_decay_steps0 + warmup
                then decay style' learning_rate lo warmup lr_decay_steps0 current_step
                else Ok lo
            | None => Ok lo
            end
      | None, Some style' =>
          if current_step <? lr_decay_steps0 + warmup
          then decay style' learning_rate lo warmup lr_decay_steps0 current_step
          else Ok lo
      | None, None => Ok lo
      end;
    Float.float_truediv lmbda learning_rate.

End Lambda.

End LrScheduler.

(** ** [DistributedSamplerForDoReMi] (examples/doremi/dataloader.py) *)

Module DistributedSamplerForDoReMi.

Section Sampler.
(** A sub-dataset is the list of its samples; the sampler only takes its
    length. *)
Context {sample : Type}.

(** [domain_weights] is a tensor of floating dtype [dtype].  [tensor_sum]
    is [Tensor.sum()]: the order in which torch adds the entries is not
    fixed by the code. *)
Variable dtype : Float.format.
Variable tensor_sum : list Float.float -> Float.float.

(** numpy's global random state.  [choice c a k] is what the [c]-th call
    [np.random.choice(a, k, replace=False)] of an iteration returns, and
    [shuffle l] is [l] after [np.random.shuffle]. *)
Variable choice : nat -> Z -> Z -> list Z.
Variable shuffle : list Z -> list Z.

Record t : Type := {
  datasets : list (list sample);
  batch_size : Z;
  domain_weights : list Float.float;
  num_replicas : Z;
  rank : Z;
  total_size : Z
}.

(** [math.ceil(total_samples / self.batch_size) * self.batch_size]: the
    quotient of the two ints is a float. *)
Definition calculate_total_size (datasets0 : list (list sample)) (batch_size0 : Z)
  : result Z :=
  let total_samples := sum (map (fun d => Z.of_nat (length d)) datasets0) in
  q ← Float.int_truediv total_samples batch_size0;
  c ← Float.ceil q;
  Ok (c * batch_size0).

(** [super().__init__(datasets, **kwargs)] of torch's [DistributedSampler]
    with [num_replicas] and [rank] given: it refuses a rank outside
    [[0, num_replicas)] and keeps both; what else it sets is not read, or
    set again, by the subclass. *)
Definition super_init (num_replicas0 rank0 : Z) : result unit :=
  if (num_replicas0 <=? rank0) || (rank0 <? 0)
  then Raise (ValueError "Invalid rank, rank should be in the interval [0, num_replicas - 1]")
  else Ok ().

(** [domain_weights / domain_weights.sum()] divides entry by entry in the
    dtype of the tensor. *)
Definition __init__ (domain_weights0 : list Float.float) (datasets0 : list (list sample))
    (batch_size0 num_replicas0 rank0 : Z) : result t :=
  _ ← super_init num_replicas0 rank0;
  let s := tensor_sum domain_weights0 in
  total ← calculate_total_size datasets0 batch_size0;
  Ok {| datasets := datasets0;
        batch_size := batch_size0;
        domain_weights := map (fun w => Float.fdiv dtype w s) domain_weights0;
        num_replicas := num_replicas0;
        rank := rank0;
        total_size := total |}.

(** [np.random.choice(a, size, replace=False)] *)
Definition np_random_choice (call : nat) (a size : Z) : result (list Z) :=
  if size <? 0 then Raise (ValueError "negative dimensions are not allowed")
  else if a <? size
  then Raise (ValueError "Cannot take a larger sample than population when 'replace=False'")
  else Ok (choice call a size).

(** [int(dataset_partition_size * self.domain_weights[i].item())]:
    [item()] gives the entry as a Python float of the same value, and the
    product of the int and the float is a double. *)
Definition num_samples (dataset_partition_size : Z) (w : Float.float) : result Z :=
  x ← Float.mul_int w dataset_partition_size;
  Float.int x.

(** One turn of [for i, dataset in enumerate(self.datasets)]: the
    [global_indices] of sub-dataset [i]. *)
Definition global_indices (self : t) (offsets : list Z) (i : nat) (dataset : list sample)
  : result (list Z) :=
  if num_replicas self =? 0 then Raise ZeroDivisionError else
  let dataset_partition_size := Z.of_nat (length dataset) / num_replicas self in
  let dataset_partition_offsets := rank self * dataset_partition_size in
  match domain_weights self !! i with
  | None => Raise (IndexError "index out of bounds")
  | Some w =>
      n ← num_samples dataset_partition_size w;
      drawn ← np_random_choice i dataset_partition_size n;
      let local_indices := map (fun x => x + dataset_partition_offsets) drawn in
      match offsets !! i with
      | None => Raise (IndexError "index out of bounds")
      | Some offset => Ok (map (fun x => x + offset) local_indices)
      end
  end.

Fixpoint domain_loop (self : t) (offsets : list Z) (i : nat)
    (ds : list (list sample)) (domain_indices : list Z) : result (list Z) :=
  match ds with
  | [] => Ok domain_indices
  | dataset :: rest =>
      g ← global_indices self offsets i dataset;
      domain_loop self offsets (S i) rest (domain_indices ++ g)
  end.

(** [l[:n]]: a negative [n] counts from the end. *)
Definition slice_to (n : Z) (l : list Z) : list Z :=
  if n <? 0 then take (length l - Z.to_nat (- n)) l else take (Z.to_nat n) l.

(** [for i in range(0, len(l), b): yield l[i : i + b]] *)
Fixpoint batches (fuel : nat) (b : nat) (l : list Z) : list (list Z) :=
  match fuel, l with
  | O, _ | _, [] => []
  | S fuel', _ => take b l :: batches fuel' b (drop b l)
  end.

(** [__iter__] up to the shuffle: the [domain_indices] of all
    sub-datasets, with the offsets it computes. *)
Definition domain_indices (self : t) : result (list Z) :=
  let lengths := map (fun d => Z.of_nat (length d)) (datasets self) in
  let offsets := cumsum (0 :: removelast lengths) in
  domain_loop self offsets 0 (datasets self) [].

Definition __iter__ (self : t) : result (list (list Z)) :=
  domain_indices ← domain_indices self;
  let domain_indices := slice_to (total_size self) (shuffle domain_indices) in
  if batch_size self =? 0 then Raise (ValueError "range() arg 3 must not be zero")
  else if batch_size self <? 0 then Ok []
  else Ok (batches (length domain_indices) (Z.to_nat (batch_size self)) domain_indices).

End Sampler.

End DistributedSamplerForDoReMi.

(** ** [sanity_check_dataloader] (examples/doremi/dataloader.py) *)

Module SanityCheck.

(** The contents of a tensor. *)
Definition tensor : Type := list Z.

Inductive value : Type :=
| Tensor (data : tensor)
| TensorPointer (group_rank : Z).

(** A dict, as its items in insertion order. *)
Definition micro_batch : Type := list (string * value).

Inductive pg : Type := dp_pg | tp_pg.

(** What one rank sees of its process groups: its rank in each, and the
    tensor that the broadcast from rank 0 of the group delivers when the
    field [key] of batch number [n] is compared. *)
Record DistributedProcessGroups : Type := {
  get_rank : pg -> Z;
  broadcast : pg -> nat -> string -> tensor
}.

(** Modelled from the spec: [assert_tensor_synced_across_pg] is defined in
    nanotron.core.utils, which is not among the sources.  Section 4.2 of the
    specification has it assert that the tensor is bit-identical across the
    group: every rank compares its tensor with the one of the reference
    rank 0 and raises an [AssertionError] built by [msg] when they differ. *)
Definition assert_tensor_synced_across_pg (dpg : DistributedProcessGroups) (n : nat)
    (key : string) (tensor0 : tensor) (g : pg) (msg : string -> string) : result unit :=
  let reference_tensor :=
    if get_rank dpg g =? 0 then tensor0 else broadcast dpg g n key in
  if bool_decide (tensor0 = reference_tensor) then Ok ()
  else Raise (AssertionError (msg "Tensor-likes are not equal!")).

(** Modelled from the spec: [assert_fail_except_rank_with] is defined in
    nanotron.core.utils, which is not among the sources, and the
    specification does not describe it.  It is taken from its name, its
    arguments at the call site and the comment there (Check input are not
    the same across DP): the body has to raise the given exception on every
    rank of the group but [rank_exception], where it has to pass. *)
Definition assert_fail_except_rank_with (dpg : DistributedProcessGroups)
    (rank_exception : Z) (g : pg) (body : result unit) : result unit :=
  match body with
  | Raise (AssertionError _) =>
      if get_rank dpg g =? rank_exception
      then Raise (AssertionError "Expected rank to not raise AssertionError")
      else Ok ()
  | Raise _ => Raise (AssertionError "Expected AssertionError to be raised, got another exception")
  | Ok _ =>
      if get_rank dpg g =? rank_exception then Ok ()
      else Raise (AssertionError "Expected AssertionError to be raised")
  end.

(** ["mask" in key] *)
Definition contains (sub s : string) : bool :=
  match String.index 0 sub s with Some _ => true | None => false end.

(** [sorted(micro_batch.items(), key=lambda x: x[0])] *)
Definition sorted_items (b : micro_batch) : micro_batch :=
  merge_sort (fun x y => String.le x.1 y.1) b.

(** A log of the comparisons made: the group and the field. *)
Definition log : Type := list (pg * string).

(** First loop: inputs are checked not to be the same across DP. *)
Fixpoint dp_loop (dpg : DistributedProcessGroups) (n : nat) (items : micro_batch)
    (l : log) : result unit * log :=
  match items with
  | [] => (Ok (), l)
  | (key, TensorPointer _) :: rest => dp_loop dpg n rest l
  | (key, Tensor v) :: rest =>
      if contains "mask" key then dp_loop dpg n rest l
      else
        match assert_fail_except_rank_with dpg 0 dp_pg
                (assert_tensor_synced_across_pg dpg n key v dp_pg
                   (fun err => key +:+ " " +:+ err)) with
        | Ok _ => dp_loop dpg n rest (l ++ [(dp_pg, key)])
        | Raise e => (Raise e, l ++ [(dp_pg, key)])
        end
  end.

(** Second loop: inputs are checked to be synchronized throughout TP. *)
Fixpoint tp_loop (dpg : DistributedProcessGroups) (n : nat) (items : micro_batch)
    (l : log) : result unit * log :=
  match items with
  | [] => (Ok (), l)
  | (key, TensorPointer _) :: rest => tp_loop dpg n rest l
  | (key, Tensor v) :: rest =>
      match assert_tensor_synced_across_pg dpg n key v tp_pg
              (fun err => key +:+ " are not synchronized throughout TP " +:+ err) with
      | Ok _ => tp_loop dpg n rest (l ++ [(tp_pg, key)])
      | Raise e => (Raise e, l ++ [(tp_pg, key)])
      end
  end.

(** The body of the generator for batch number [n]: the micro-batch it
    yields, or the exception, and the comparisons made. *)
Definition check_batch (ignore_sanity_checks : bool) (dpg : DistributedProcessGroups)
    (n : nat) (batch : micro_batch) : result micro_batch * log :=
  let micro_batch0 := batch in
  if negb ignore_sanity_checks then
    match dp_loop dpg n (sorted_items micro_batch0) [] with
    | (Raise e, l) => (Raise e, l)
    | (Ok _, l) =>
        match tp_loop dpg n (sorted_items micro_batch0) l with
        | (Raise e, l') => (Raise e, l')
        | (Ok _, l') => (Ok micro_batch0, l')
        end
    end
  else (Ok micro_batch0, []).

(** The generator: the micro-batches yielded until the first exception. *)
Fixpoint sanity_check_dataloader_from (ignore_sanity_checks : bool)
    (dpg : DistributedProcessGroups) (n : nat) (dataloader : list micro_batch)
  : list micro_batch * option exn :=
  match dataloader with
  | [] => ([], None)
  | batch :: rest =>
      match check_batch ignore_sanity_checks dpg n batch with
      | (Raise e, _) => ([], Some e)
      | (Ok mb, _) =>
          let '(ys, e) := sanity_check_dataloader_from ignore_sanity_checks dpg (S n) rest in
          (mb :: ys, e)
      end
  end.

Definition sanity_check_dataloader (dataloader : list micro_batch)
    (dpg : DistributedProcessGroups) (ignore_sanity_checks : bool)
  : list micro_batch * option exn :=
  sanity_check_dataloader_from ignore_sanity_checks dpg 0 dataloader.

End SanityCheck.

(** ** [DataCollatorForCLM] (examples/doremi/dataloader.py) *)

Module DataCollatorForCLM.

(** An example is a dict from column names to rows of token ids, as its
    items in insertion order. *)
Definition example : Type := list (string * list Z).

(** What the collator puts in a batch: a matrix of token ids, a boolean
    mask, or a pointer to the pipeline rank that holds the data. *)
Inductive value : Type :=
| Tensor (rows : list (list Z))
| Mask (rows : list (list bool))
| TensorPointer (group_rank : Z).

(** The fields of the dataclass; [pp_rank] is what
    [dist.get_rank(self.dpg.pp_pg)] returns in this process. *)
Record t : Type := {
  sequence_length : Z;
  input_pp_rank : Z;
  output_pp_rank : Z;
  pp_rank : Z
}.

(** [example[key]] *)
Definition getitem (e : example) (key : string) : result (list Z) :=
  match find (fun kv => String.eqb kv.1 key) e with
  | Some kv => Ok kv.2
  | None => Raise (KeyError key)
  end.

(** [np.vstack] of one-dimensional rows: a matrix with one row per array;
    numpy refuses an empty list and rows of different lengths. *)
Definition vstack (rows : list (list Z)) : result (list (list Z)) :=
  match rows with
  | [] => Raise (ValueError "need at least one array to concatenate")
  | r :: _ =>
      if forallb (fun r' => (length r' =? length r)%nat) rows then Ok rows
      else Raise (ValueError "all the input array dimensions except for the concatenation axis must match exactly")
  end.

(** [input_ids.shape] of a matrix made by [vstack]. *)
Definition shape (m : list (list Z)) : nat * Z :=
  (length m, Z.of_nat (length (hd [] m))).

(** [np.ones((b, s), dtype=np.bool_)] *)
Definition np_ones (b : nat) (s : Z) : result (list (list bool)) :=
  if s <? 0 then Raise (ValueError "negative dimensions are not allowed")
  else Ok (replicate b (replicate (Z.to_nat s) true)).

(** The two [isinstance(result[...], torch.Tensor)] tests before the
    final cast see numpy arrays and pointers only, so neither [ValueError]
    there can be raised; the cast by [torch.from_numpy] keeps the contents. *)
Definition __call__ (self : t) (examples : list example)
  : result (list (string * value)) :=
  let current_pp_rank := pp_rank self in
  if negb (bool_decide (current_pp_rank ∈ [input_pp_rank self; output_pp_rank self]))
  then
    if forallb (fun e => (length e =? 0)%nat) examples
    then Ok [("input_ids", TensorPointer (input_pp_rank self));
             ("input_mask", TensorPointer (input_pp_rank self));
             ("label_ids", TensorPointer (output_pp_rank self));
             ("label_mask", TensorPointer (output_pp_rank self))]
    else Raise (AssertionError "")
  else
    if negb (forallb (fun e => bool_decide (map fst e = ["input_ids"])) examples)
    then Raise (AssertionError "")
    else
      rows ← mapM (fun e => getitem e "input_ids") examples;
      input_ids ← vstack rows;
      let '(batch_size, expanded_input_length) := shape input_ids in
      if negb (expanded_input_length =? sequence_length self + 1)
      then Raise (AssertionError "Samples should be of length (seq_len+1)")
      else
        inputs ← (if current_pp_rank =? input_pp_rank self
                  then m ← np_ones batch_size (sequence_length self);
                       Ok (Tensor (map (fun row => removelast row) input_ids), Mask m)
                  else Ok (TensorPointer (input_pp_rank self),
                           TensorPointer (input_pp_rank self)));
        labels ← (if current_pp_rank =? output_pp_rank self
                  then m ← np_ones batch_size (sequence_length self);
                       Ok (Tensor (map (fun row => tail row) input_ids), Mask m)
                  else Ok (TensorPointer (output_pp_rank self),
                           TensorPointer (output_pp_rank self)));
        Ok [("input_ids", inputs.1); ("input_mask", inputs.2);
            ("label_ids", labels.1); ("label_mask", labels.2)].

End DataCollatorForCLM.

(** ** [clm_process], [get_dataloader_worker_init], [_get_dataset_mix]
       (examples/doremi/dataloader.py) *)

Module ClmProcess.

(** [np.concatenate] of one-dimensional arrays. *)
Definition np_concatenate (v : list (list Z)) : result (list Z) :=
  match v with
  | [] => Raise (ValueError "need at least one array to concatenate")
  | _ => Ok (concat v)
  end.

(** [group_texts] on the columns of a batch.  The dict has a first key
    ([next(iter(examples.keys()))] is taken from it), so the columns come
    as the first one and the others. *)
Definition group_texts (sequence_length : Z)
    (first : string * list (list Z)) (others : list (string * list (list Z)))
  : result (list (string * list (list Z))) :=
  concatenated_examples ←
    mapM (fun '(k, v) => t ← np_concatenate v; Ok (k, t)) (first :: others);
  let total_length :=
    Z.of_nat (length (hd [] (map snd concatenated_examples))) in
  total_length ←
    (if total_length >=? sequence_length + 1
     then if sequence_length =? 0 then Raise ZeroDivisionError
          else Ok (((total_length - 1) / sequence_length) * sequence_length + 1)
     else Ok total_length);
  starts ← py_range 0 (total_length - (sequence_length + 1)) sequence_length;
  Ok (map (fun '(k, t) =>
             (k, map (fun i => py_slice t i (i + sequence_length + 1)) starts))
          concatenated_examples).

End ClmProcess.

Module WorkerInit.

(** The seed that [dataloader_worker_init] hands to [set_random_seed]:
    [2 ** (1 + worker_id) * 3 ** (1 + dp_rank) % (2**32)].  A negative
    exponent makes a power a float and is left out. *)
Definition dataloader_worker_init (dp_rank worker_id : Z) : result Z :=
  if (1 + worker_id <? 0) || (1 + dp_rank <? 0)
  then Raise (OutsideModel "power with a negative exponent")
  else Ok ((2 ^ (1 + worker_id) * 3 ^ (1 + dp_rank)) mod 2 ^ 32).

End WorkerInit.

Module DatasetMix.

Section Mix.
(** A dataset is the list of its rows. *)
Context {row : Type}.

(** The datasets library: [load_dataset(ds, split=split)] and
    [Dataset.shuffle(seed=seed)]. *)
Variable load_dataset : string -> string -> result (list row).
Variable shuffle : Z -> list row -> list row.

(** [dataset.select(range(n))]: the first [n] rows; the library refuses
    more rows than there are. *)
Definition select_range (dataset : list row) (n : Z) : result (list row) :=
  if Z.of_nat (length dataset) <? n
  then Raise (IndexError "Index out of range for dataset")
  else Ok (take (Z.to_nat n) dataset).

(** The local variables of [_get_dataset_mix] that the loops change;
    [split] is unbound until the inner loop has run once. *)
Record locals : Type := {
  raw_train_datasets : list (list row);
  raw_test_datasets : list (list row);
  fracs : list Float.float;
  split : option string
}.

Definition contains (sub s : string) : bool :=
  match String.index 0 sub s with Some _ => true | None => false end.

(** [for split in splits] *)
Fixpoint split_loop (ds : string) (splits : list string) (a : locals) : result locals :=
  match splits with
  | [] => Ok a
  | s :: rest =>
      if contains "train" s then
        d ← load_dataset ds s;
        split_loop ds rest
          {| raw_train_datasets := raw_train_datasets a ++ [d];
             raw_test_datasets := raw_test_datasets a;
             fracs := fracs a;
             split := Some s |}
      else if contains "test" s then
        d ← load_dataset ds s;
        split_loop ds rest
          {| raw_train_datasets := raw_train_datasets a;
             raw_test_datasets := raw_test_datasets a ++ [d];
             fracs := fracs a;
             split := Some s |}
      else Raise (ValueError ("Split type " +:+ s +:+ " not recognized as one of test or train."))
  end.

(** [for ds, frac in dataset_dict.items()] *)
Fixpoint dataset_loop (items : list (string * Float.float)) (splits : list string)
    (a : locals) : result locals :=
  match items with
  | [] => Ok a
  | (ds, frac) :: rest =>
      if Float.flt frac (Float.Finite 0)
      then Raise (ValueError ("Dataset fraction for dataset " +:+ ds +:+ " is negative."))
      else
        a' ← split_loop ds splits
               {| raw_train_datasets := raw_train_datasets a;
                  raw_test_datasets := raw_test_datasets a;
                  fracs := fracs a ++ [frac];
                  split := split a |};
        dataset_loop rest splits a'
  end.

(** [dataset.select(range(int(frac * len(dataset))))]: the fraction is a
    float, and so is its product with the length. *)
Definition train_subset (dataset : list row) (frac : Float.float) : result (list row) :=
  x ← Float.mul_int frac (Z.of_nat (length dataset));
  n ← Float.int x;
  select_range dataset n.

(** The [DatasetDict] returned, as its items in insertion order.  The
    message of the last [ValueError] is kept without the dict of datasets;
    formatting it reads [split], which is unbound when no inner loop ran. *)
Definition _get_dataset_mix (dataset_dict : list (string * Float.float)) (splits : list string)
    (seed : Z) : result (list (string * list row)) :=
  a ← dataset_loop dataset_dict splits
        {| raw_train_datasets := []; raw_test_datasets := []; fracs := []; split := None |};
  train ← (if (0 <? length (raw_train_datasets a))%nat
           then train_subsets ← mapM (fun '(dataset, frac) => train_subset dataset frac)
                                  (zip (raw_train_datasets a) (fracs a));
                Ok [("train", shuffle seed (concat train_subsets))]
           else Ok []);
  let raw_datasets :=
    train ++ (if (0 <? length (raw_test_datasets a))%nat
              then [("test", shuffle seed (concat (raw_test_datasets a)))]
              else []) in
  if (length raw_datasets =? 0)%nat then
    match split a with
    | None => Raise (UnboundLocalError "split")
    | Some s =>
        Raise (ValueError ("Dataset not recognized with split " +:+ s
                           +:+ ". Check the dataset has been correctly formatted."))
    end
  else Ok raw_datasets.

End Mix.

End DatasetMix.

(** ** [ParallelContext] (src/nanotron/distributed/parallel_context.py) *)

Module ParallelContext.

Inductive ParallelMode : Type := GLOBAL | TENSOR | PIPELINE | DATA.

#[global] Instance ParallelMode_eq_dec : EqDecision ParallelMode.
Proof. solve_decision. Defined.

(** A process group is known by its handle: the position of the
    [dist.new_group] call that made it among all such calls. *)
Abbreviation ProcessGroup := nat (only parsing).

(** What the process does to [torch.distributed] and to the device. *)
Inductive event : Type :=
| SetDevice (device_id : Z)
| InitProcessGroup (rank world_size : Z)
| NewGroup (group : ProcessGroup) (ranks : list Z)
| Barrier (group : option ProcessGroup)
| DestroyProcessGroup (group : option ProcessGroup).

(** The state of [torch.distributed] in this process: [created] lists the
    ranks of every group made by [new_group], by handle; [None] as a group
    stands for the default group. *)
Record dist : Type := {
  dist_is_available : bool;
  dist_is_initialized : bool;
  created : list (list Z);
  trace : list event
}.

Record environ : Type := {
  WORLD_SIZE : Z;
  RANK : Z;
  LOCAL_RANK : Z;
  MASTER_ADDR : string;
  MASTER_PORT : Z
}.

(** Calls thread the state of [torch.distributed]; an exception keeps the
    state reached. *)
Definition M (A : Type) : Type := dist -> result A * dist.

#[global] Instance M_ret : MRet M := fun A a d => (Ok a, d).
#[global] Instance M_bind : MBind M := fun A B k m d =>
  match m d with
  | (Ok a, d') => k a d'
  | (Raise e, d') => (Raise e, d')
  end.

Definition raise {A} (e : exn) : M A := fun d => (Raise e, d).

Definition assert (b : bool) (msg : string) : M unit :=
  if b then mret () else raise (AssertionError msg).

Definition emit (ev : event) : M unit := fun d =>
  (Ok (), {| dist_is_available := dist_is_available d;
             dist_is_initialized := dist_is_initialized d;
             created := created d;
             trace := trace d ++ [ev] |}).

Definition dist_init_process_group (rank world_size : Z) : M unit := fun d =>
  (Ok (), {| dist_is_available := dist_is_available d;
             dist_is_initialized := true;
             created := created d;
             trace := trace d ++ [InitProcessGroup rank world_size] |}).

Definition dist_new_group (ranks : list Z) : M ProcessGroup := fun d =>
  let group := length (created d) in
  (Ok group, {| dist_is_available := dist_is_available d;
                dist_is_initialized := dist_is_initialized d;
                created := created d ++ [ranks];
                trace := trace d ++ [NewGroup group ranks] |}).

Definition dist_barrier (group : option ProcessGroup) : M unit :=
  emit (Barrier group).

Definition dist_destroy_process_group (group : option ProcessGroup) : M unit :=
  emit (DestroyProcessGroup group).

Definition get {A} (f : dist -> A) : M A := fun d => (Ok (f d), d).

(** A 3-D array, as nested lists. *)
Definition ndarray3 : Type := list (list (list Z)).

(** [a[i, j, k]] *)
Definition item (a : ndarray3) (i j k : nat) : Z :=
  default 0 (l ← a !! i; r ← l !! j; r !! k).

(** [np.arange(0, n).reshape((n0, n1, n2))], row-major. *)
Definition arange_reshape (n : Z) (n0 n1 n2 : nat) : result ndarray3 :=
  if bool_decide (Z.of_nat (n0 * n1 * n2) = Z.max 0 n)
  then Ok (reshape (replicate n0 n1) (reshape (replicate (n0 * n1)%nat n2) (seqZ 0 n)))
  else Raise (ValueError "cannot reshape array").

Record t : Type := {
  tensor_parallel_size : Z;
  pipeline_parallel_size : Z;
  data_parallel_size : Z;
  _groups : list (ParallelMode * ProcessGroup);
  world_pg : option ProcessGroup;
  tp_pg : option ProcessGroup;
  dp_pg : option ProcessGroup;
  pp_pg : option ProcessGroup;
  world_rank_matrix : ndarray3;
  world_ranks_to_pg : gmap (list Z) ProcessGroup
}.

Definition sorted (ranks : list Z) : list Z := merge_sort Z.le ranks.

(** The body shared by the four loops of [init_parallel_groups]: the
    group of [ranks] is made unless its sorted ranks are registered. *)
Definition new_group_unless_registered (ranks : list Z)
    (world_ranks_to_pg0 : gmap (list Z) ProcessGroup)
  : M (option ProcessGroup * gmap (list Z) ProcessGroup) :=
  let sorted_ranks := sorted ranks in
  match world_ranks_to_pg0 !! sorted_ranks with
  | None =>
      new_group ← dist_new_group ranks;
      mret (Some new_group, <[sorted_ranks := new_group]> world_ranks_to_pg0)
  | Some new_group => mret (Some new_group, world_ranks_to_pg0)
  end.

(** The loops over the tensor, data and pipeline rows: [pg] is the
    loop's [tp_pg], [dp_pg] or [pp_pg], unbound until a row holds [rank]. *)
Fixpoint axis_loop (rank : Z) (rows : list (list Z))
    (world_ranks_to_pg0 : gmap (list Z) ProcessGroup) (pg : option ProcessGroup)
  : M (option ProcessGroup * gmap (list Z) ProcessGroup) :=
  match rows with
  | [] => mret (pg, world_ranks_to_pg0)
  | ranks :: rest =>
      '(new_group, reg) ← new_group_unless_registered ranks world_ranks_to_pg0;
      axis_loop rank rest reg (if bool_decide (rank ∈ ranks) then new_group else pg)
  end.

(** The loop over the model-parallel groups, which keeps no group. *)
Fixpoint model_loop (rows : list (list Z))
    (world_ranks_to_pg0 : gmap (list Z) ProcessGroup)
  : M (gmap (list Z) ProcessGroup) :=
  match rows with
  | [] => mret world_ranks_to_pg0
  | ranks :: rest =>
      '(_, reg) ← new_group_unless_registered ranks world_ranks_to_pg0;
      model_loop rest reg
  end.

(** [ranks.reshape((pp * dp, tp))] *)
Definition ranks_with_tp_last (ranks : ndarray3) : list (list Z) := concat ranks.

(** [ranks.transpose((0, 2, 1)).reshape((pp * tp, dp))] *)
Definition ranks_with_dp_last (ranks : ndarray3) (pp dp tp : nat) : list (list Z) :=
  flat_map (fun p => map (fun t => map (fun d => item ranks p d t) (seq 0 dp)) (seq 0 tp))
           (seq 0 pp).

(** [ranks.transpose((2, 1, 0)).reshape((tp * dp, pp))] *)
Definition ranks_with_pp_last (ranks : ndarray3) (pp dp tp : nat) : list (list Z) :=
  flat_map (fun t => map (fun d => map (fun p => item ranks p d t) (seq 0 pp)) (seq 0 dp))
           (seq 0 tp).

(** [ranks[:, dp_rank, :].reshape(-1)] for [dp_rank in range(dp)] *)
Definition pp_and_tp_ranks (ranks : ndarray3) (pp dp tp : nat) : list (list Z) :=
  map (fun dp_rank =>
         flat_map (fun p => map (fun t => item ranks p dp_rank t) (seq 0 tp)) (seq 0 pp))
      (seq 0 dp).

Definition getattr {A} (name : string) (o : option A) : M A :=
  match o with
  | Some a => mret a
  | None => raise (AttributeError name)
  end.

Definition local {A} (name : string) (o : option A) : M A :=
  match o with
  | Some a => mret a
  | None => raise (UnboundLocalError name)
  end.

Definition set_device (env : environ) : M unit :=
  emit (SetDevice (LOCAL_RANK env)).

Definition init_global_dist (self : t) (rank world_size : Z) (backend : string)
    (host : string) (port : Z) : M t :=
  _ ← assert (bool_decide (backend = "nccl")) "Only nccl backend is supported for now.";
  _ ← (if world_size <=? 0
       then raise (OutsideModel "init_process_group with a world size that is not positive")
       else mret ());
  _ ← dist_init_process_group rank world_size;
  process_group ← dist_new_group (seqZ 0 world_size);
  mret {| tensor_parallel_size := tensor_parallel_size self;
          pipeline_parallel_size := pipeline_parallel_size self;
          data_parallel_size := data_parallel_size self;
          _groups := _groups self;
          world_pg := Some process_group;
          tp_pg := tp_pg self;
          dp_pg := dp_pg self;
          pp_pg := pp_pg self;
          world_rank_matrix := world_rank_matrix self;
          world_ranks_to_pg := world_ranks_to_pg self |}.

Definition init_parallel_groups (env : environ) (self : t) : M t :=
  world ← getattr "world_pg" (world_pg self);
  _ ← dist_barrier (Some world);
  let rank := RANK env in
  let world_size := WORLD_SIZE env in
  _ ← (if (pipeline_parallel_size self <=? 0) || (data_parallel_size self <=? 0)
          || (tensor_parallel_size self <=? 0)
       then raise (OutsideModel "reshape with a size that is not positive")
       else mret ());
  let pp := Z.to_nat (pipeline_parallel_size self) in
  let dp := Z.to_nat (data_parallel_size self) in
  let tp := Z.to_nat (tensor_parallel_size self) in
  ranks ← (fun d => (arange_reshape world_size pp dp tp, d));
  '(tp_pg0, reg) ← axis_loop rank (ranks_with_tp_last ranks) ∅ None;
  '(dp_pg0, reg) ← axis_loop rank (ranks_with_dp_last ranks pp dp tp) reg None;
  '(pp_pg0, reg) ← axis_loop rank (ranks_with_pp_last ranks pp dp tp) reg None;
  reg ← model_loop (pp_and_tp_ranks ranks pp dp tp) reg;
  tp_pg1 ← local "tp_pg" tp_pg0;
  dp_pg1 ← local "dp_pg" dp_pg0;
  pp_pg1 ← local "pp_pg" pp_pg0;
  _ ← dist_barrier None;
  mret {| tensor_parallel_size := tensor_parallel_size self;
          pipeline_parallel_size := pipeline_parallel_size self;
          data_parallel_size := data_parallel_size self;
          _groups := _groups self;
          world_pg := world_pg self;
          tp_pg := Some tp_pg1;
          dp_pg := Some dp_pg1;
          pp_pg := Some pp_pg1;
          world_rank_matrix := ranks;
          world_ranks_to_pg := reg |}.

(** Python's [%] raises on a zero divisor and is [Z.modulo] otherwise. *)
Definition pymod (a b : Z) : M Z :=
  if b =? 0 then raise ZeroDivisionError else mret (a mod b).

Definition pydiv (a b : Z) : M Z :=
  if b =? 0 then raise ZeroDivisionError else mret (a / b).

Definition __init__ (env : environ) (tensor_parallel_size0 pipeline_parallel_size0
    data_parallel_size0 : Z) (backend : string) : M t :=
  let num_gpus_per_model := tensor_parallel_size0 * pipeline_parallel_size0 in
  let world_size := WORLD_SIZE env in
  r ← pymod world_size data_parallel_size0;
  _ ← assert (r =? 0)
        "The total number of processes must be divisible by the data parallel size.";
  r ← pymod world_size num_gpus_per_model;
  _ ← assert (r =? 0)
        "The total number of processes must be divisible bythe number of GPUs per model (tensor_parallel_size * pipeline_parallel_size).";
  _ ← assert (num_gpus_per_model * data_parallel_size0 =? world_size)
        "('The number of process requires to train all replicas', 'must be equal to the world size.')";
  available ← get dist_is_available;
  _ ← (if negb available
       then raise (ValueError "`torch.distributed is not available as a package, please install it.")
       else mret ());
  let self := {| tensor_parallel_size := tensor_parallel_size0;
                 pipeline_parallel_size := pipeline_parallel_size0;
                 data_parallel_size := data_parallel_size0;
                 _groups := [];
                 world_pg := None;
                 tp_pg := None;
                 dp_pg := None;
                 pp_pg := None;
                 world_rank_matrix := [];
                 world_ranks_to_pg := ∅ |} in
  _ ← set_device env;
  initialized ← get dist_is_initialized;
  self ← (if negb initialized
          then init_global_dist self (RANK env) world_size backend
                 (MASTER_ADDR env) (MASTER_PORT env)
          else mret self);
  self ← init_parallel_groups env self;
  _ ← dist_barrier None;
  mret self.

(** [parallel_mode in self._groups] *)
Definition is_initialized (self : t) (parallel_mode : ParallelMode) : bool :=
  bool_decide (parallel_mode ∈ map fst (_groups self)).

Fixpoint dict_get (groups : list (ParallelMode * ProcessGroup)) (mode : ParallelMode)
  : option ProcessGroup :=
  match groups with
  | [] => None
  | (k, v) :: rest => if bool_decide (k = mode) then Some v else dict_get rest mode
  end.

(** [self._groups[parallel_mode] = group]: a key that is present keeps
    its place in the dict. *)
Fixpoint dict_set (groups : list (ParallelMode * ProcessGroup)) (mode : ParallelMode)
    (group : ProcessGroup) : list (ParallelMode * ProcessGroup) :=
  match groups with
  | [] => [(mode, group)]
  | (k, v) :: rest =>
      if bool_decide (k = mode) then (k, group) :: rest
      else (k, v) :: dict_set rest mode group
  end.

Definition with_groups (self : t) (groups : list (ParallelMode * ProcessGroup)) : t :=
  {| tensor_parallel_size := tensor_parallel_size self;
     pipeline_parallel_size := pipeline_parallel_size self;
     data_parallel_size := data_parallel_size self;
     _groups := groups;
     world_pg := world_pg self;
     tp_pg := tp_pg self;
     dp_pg := dp_pg self;
     pp_pg := pp_pg self;
     world_rank_matrix := world_rank_matrix self;
     world_ranks_to_pg := world_ranks_to_pg self |}.

Definition add_group (self : t) (parallel_mode : ParallelMode) (group : ProcessGroup) : t :=
  with_groups self (dict_set (_groups self) parallel_mode group).

Definition get_group (self : t) (parallel_mode : ParallelMode) : M ProcessGroup :=
  match dict_get (_groups self) parallel_mode with
  | Some group => mret group
  | None => raise (KeyError "parallel_mode")
  end.

(** [get_world_size] is commented out in the class: looking it up on
    [self] raises. *)
Definition get_world_size (self : t) (parallel_mode : ParallelMode) : M Z :=
  raise (AttributeError "get_world_size").

(** [dist.get_global_rank(process_group, local_rank)]: the member of the
    group at that position. *)
Definition get_global_rank_from_local_rank (self : t) (local_rank : Z)
    (parallel_mode : ParallelMode) : M Z :=
  process_group ← get_group self parallel_mode;
  members ← get (fun d => created d !! process_group);
  match members ≫= (fun ranks => if local_rank <? 0 then None
                                 else ranks !! Z.to_nat local_rank) with
  | Some rank => mret rank
  | None => raise (ValueError "Group rank is not part of group")
  end.

(** The arithmetic of [get_3d_ranks], given the three world sizes. *)
Definition coordinates (tp_world_size dp_world_size pp_world_size rank : Z)
  : M (Z * Z * Z) :=
  q ← pydiv rank (tp_world_size * dp_world_size);
  pp_rank ← pymod q pp_world_size;
  q ← pydiv rank tp_world_size;
  dp_rank ← pymod q dp_world_size;
  tp_rank ← pymod rank tp_world_size;
  mret (pp_rank, dp_rank, tp_rank).

Definition get_3d_ranks (self : t) (local_rank : Z) (parallel_mode : ParallelMode)
  : M (Z * Z * Z) :=
  rank ← get_global_rank_from_local_rank self local_rank parallel_mode;
  tp_world_size ← get_world_size self TENSOR;
  dp_world_size ← get_world_size self DATA;
  pp_world_size ← get_world_size self PIPELINE;
  coordinates tp_world_size dp_world_size pp_world_size rank.

(** The loop of [destroy] over [self._groups.items()]. *)
Fixpoint destroy_loop (self : t) (items : list (ParallelMode * ProcessGroup)) : M unit :=
  match items with
  | [] => mret ()
  | (mode, _) :: rest =>
      _ ← (if bool_decide (mode ≠ GLOBAL) then
             if is_initialized self mode then
               size ← get_world_size self mode;
               if 1 <? size then
                 group ← get_group self mode;
                 _ ← dist_barrier (Some group);
                 dist_destroy_process_group (Some group)
               else mret ()
             else mret ()
           else mret ());
      destroy_loop self rest
  end.

Definition destroy (self : t) : M t :=
  _ ← assert (is_initialized self GLOBAL)
        "Global group must be initialized before destroying.";
  _ ← destroy_loop self (_groups self);
  _ ← dist_barrier None;
  _ ← dist_destroy_process_group None;
  mret (with_groups self []).

End ParallelContext.

(** ** [OptimizerFromGradientAccumulator]
    (src/nanotron/core/optimizer/optimizer_from_gradient_accumulator.py) *)

Module OptimizerFromGradientAccumulator.

Section Optimizer.
(** The values held in a state dict. *)
Context {V : Type}.

(** The wrapped optimizer, as far as persistence goes. *)
Class BaseOptimizer (O : Type) : Type := {
  base_state_dict : O -> gmap string V;
  base_load_state_dict : O -> gmap string V -> result O
}.

(** The gradient accumulator, as far as persistence goes: its state
    dict is one value of the optimizer's. *)
Class GradientAccumulator (G : Type) : Type := {
  acc_state_dict : G -> V;
  acc_load_state_dict : G -> V -> result G
}.

Context {O G : Type} `{!BaseOptimizer O, !GradientAccumulator G}.

Record t : Type := {
  optimizer : O;
  gradient_accumulator : G
}.

(** Modelled from the spec: [InheritFromOtherOptimizer] is not among the
    sources.  Its [state_dict] and [load_state_dict], reached through
    [super()], hand over to the wrapped base optimizer. *)
Definition super_state_dict (self : t) : gmap string V :=
  base_state_dict (optimizer self).

Definition super_load_state_dict (self : t) (state_dict : gmap string V) : result t :=
  o ← base_load_state_dict (optimizer self) state_dict;
  Ok {| optimizer := o; gradient_accumulator := gradient_accumulator self |}.

Definition state_dict (self : t) : result (gmap string V) :=
  let state_dict0 := super_state_dict self in
  if bool_decide ("gradient_accumulator" ∈ dom state_dict0)
  then Raise (AssertionError "")
  else Ok (<["gradient_accumulator" := acc_state_dict (gradient_accumulator self)]> state_dict0).

(** [load_state_dict] pops the key from the caller's dict: it returns the
    optimizer and that dict as they are after the call. *)
Definition load_state_dict (self : t) (state_dict0 : gmap string V)
  : result (t * gmap string V) :=
  match state_dict0 !! "gradient_accumulator" with
  | None => Raise (KeyError "gradient_accumulator")
  | Some gradient_accumulator_state_dict =>
      let state_dict1 := delete "gradient_accumulator" state_dict0 in
      self1 ← super_load_state_dict self state_dict1;
      g ← acc_load_state_dict (gradient_accumulator self1) gradient_accumulator_state_dict;
      Ok ({| optimizer := optimizer self1; gradient_accumulator := g |}, state_dict1)
  end.

End Optimizer.

Arguments t : clear implicits.

Section Init.
(** Parameters as the caller has them ([P]) and as the accumulator hands
    them to the optimizer ([P']); the other entries of a parameter group
    ([Opt]). *)
Context {P P' Opt O G : Type}.

(** A parameter group: the dict with the key "named_params" and its other
    entries. *)
Record param_group (X : Type) : Type := {
  named_params : list (string * X);
  options : list (string * Opt)
}.
Arguments named_params {X} _.
Arguments options {X} _.

(** [named_params_or_groups]: named parameters, or parameter groups. *)
Inductive named_params_or_groups : Type :=
| NamedParams (l : list (string * P))
| ParamGroups (l : list (param_group P)).

(** The two builders, and the accumulator's
    [get_parameter_for_optimizer]. *)
Variable gradient_accumulator_builder : list (string * P) -> result G.
Variable get_parameter_for_optimizer : G -> string -> result P'.
Variable optimizer_builder : list (param_group P') -> result O.

(** [if len(named_param_groups) == 0 or not isinstance(named_param_groups[0], dict)] *)
Definition as_groups (x : named_params_or_groups) : list (param_group P) :=
  match x with
  | NamedParams l => [{| named_params := l; options := [] |}]
  | ParamGroups [] => [{| named_params := []; options := [] |}]
  | ParamGroups l => l
  end.

(** [for name, param in named_param_group["named_params"]]; the dict
    [name_to_param] as its items in insertion order. *)
Fixpoint params_loop (nps : list (string * P)) (name_to_param : list (string * P))
  : result (list (string * P)) :=
  match nps with
  | [] => Ok name_to_param
  | (name, param) :: rest =>
      if bool_decide (name ∈ map fst name_to_param)
      then Raise (ValueError ("Duplicate key. " +:+ name +:+ " is already in `name_to_param`"))
      else params_loop rest (name_to_param ++ [(name, param)])
  end.

(** [for named_param_group in named_param_groups] *)
Fixpoint groups_loop (groups : list (param_group P)) (name_to_param : list (string * P))
  : result (list (string * P)) :=
  match groups with
  | [] => Ok name_to_param
  | g :: rest =>
      name_to_param' ← params_loop (named_params g) name_to_param;
      groups_loop rest name_to_param'
  end.

(** One entry of [converted_named_param_group]. *)
Definition convert_group (acc : G) (g : param_group P) : result (param_group P') :=
  nps ← mapM (fun '(name, _) => p ← get_parameter_for_optimizer acc name; Ok (name, p))
             (named_params g);
  Ok {| named_params := nps; options := options g |}.

Definition __init__ (x : named_params_or_groups) : result (t O G) :=
  let named_param_groups := as_groups x in
  name_to_param ← groups_loop named_param_groups [];
  acc ← gradient_accumulator_builder name_to_param;
  converted_named_param_group ← mapM (convert_group acc) named_param_groups;
  opt ← optimizer_builder converted_named_param_group;
  Ok {| optimizer := opt; gradient_accumulator := acc |}.

End Init.

Arguments named_params {Opt X} _.
Arguments options {Opt X} _.

End OptimizerFromGradientAccumulator.

(** ** [FP8Adam.__init__] (src/nanotron/fp8/optim.py) *)

Module FP8Adam.

(** A parameter, as [isinstance(p, FP8Parameter)] sees it. *)
Inductive parameter : Type :=
| FP8Parameter (name : string)
| OtherParameter (name : string).

Definition isinstance_FP8Parameter (p : parameter) : bool :=
  match p with FP8Parameter _ => true | OtherParameter _ => false end.

(** The dict [defaults]; hyperparameters are finite floats, taken as
    rationals. *)
Record defaults : Type := {
  lr : Q;
  betas : Q * Q;
  eps : Q;
  weight_decay : Q;
  amsgrad : bool
}.

(** [assert [isinstance(p, FP8Parameter) for p in params]] tests the list
    of booleans for being non-empty, not its elements.  The result is what
    is handed to [Optimizer.__init__]. *)
Definition __init__ (params : list parameter) (lr0 : Q) (betas0 : Q * Q) (eps0 : Q)
    (weight_decay0 : Q) (amsgrad0 : bool) : result (list parameter * defaults) :=
  match map isinstance_FP8Parameter params with
  | [] => Raise (AssertionError "All parameters should be FP8Parameter")
  | _ =>
      if negb (Qle_bool 0 lr0) then Raise (ValueError "Invalid learning rate")
      else if negb (Qle_bool 0 eps0) then Raise (ValueError "Invalid epsilon value")
      else if negb (Qle_bool 0 betas0.1 && negb (Qle_bool 1 betas0.1))
      then Raise (ValueError "Invalid beta parameter at index 0")
      else if negb (Qle_bool 0 betas0.2 && negb (Qle_bool 1 betas0.2))
      then Raise (ValueError "Invalid beta parameter at index 1")
      else Ok (params, {| lr := lr0; betas := betas0; eps := eps0;
                          weight_decay := weight_decay0; amsgrad := amsgrad0 |})
  end.

End FP8Adam.

(** ** [init_dummy_model] (tests/helpers/dummy.py) *)

Module Dummy.




End Dummy.

(** ** A small optimizer and accumulator, for examples *)

Module Examples.
Import OptimizerFromGradientAccumulator.

(** A base optimizer with one buffer, which refuses a state dict that
    holds a key of the wrapper. *)
Record momentum : Type := { exp_avg : list Z }.

(** An accumulator with one fp32 buffer. *)
Record fp32_accumulator : Type := { fp32_grad : list Z }.

#[global] Instance momentum_optimizer : BaseOptimizer (V := list Z) momentum := {|
  base_state_dict o := {[ "exp_avg" := exp_avg o ]};
  base_load_state_dict o d :=
    match d !! "gradient_accumulator", d !! "exp_avg" with
    | Some _, _ => Raise (ValueError "unexpected key gradient_accumulator")
    | None, Some e => Ok {| exp_avg := e |}
    | None, None => Raise (KeyError "exp_avg")
    end
|}.

#[global] Instance fp32_gradient_accumulator
  : GradientAccumulator (V := list Z) fp32_accumulator := {|
  acc_state_dict g := fp32_grad g;
  acc_load_state_dict g v := Ok {| fp32_grad := v |}
|}.

Definition wrapped : t momentum fp32_accumulator :=
  {| optimizer := {| exp_avg := [1; 2; 3] |};
     gradient_accumulator := {| fp32_grad := [4; 5; 6] |} |}.

(** A random state for examples: [choice] takes the first indices and
    [shuffle] leaves the list as it is. *)
Definition first_indices (call : nat) (a size : Z) : list Z := seqZ 0 size.

Definition no_shuffle (l : list Z) : list Z := l.

(** A rank of a data-parallel group of two whose replicas hold the same
    [input_ids], and one whose replicas hold different ones. *)
Definition second_replica (reference : SanityCheck.tensor) : SanityCheck.DistributedProcessGroups :=
  {| SanityCheck.get_rank g :=
       match g with SanityCheck.dp_pg => 1 | SanityCheck.tp_pg => 0 end;
     SanityCheck.broadcast g n key := reference |}.

Definition one_field : SanityCheck.micro_batch :=
  [("input_ids", SanityCheck.Tensor [1; 2]);
   ("input_mask", SanityCheck.Tensor [1; 1]);
   ("label_ids", SanityCheck.TensorPointer 3)].

(** A process of a fresh job: [torch.distributed] is there and not
    yet initialized. *)
Definition fresh : ParallelContext.dist :=
  {| ParallelContext.dist_is_available := true;
     ParallelContext.dist_is_initialized := false;
     ParallelContext.created := [];
     ParallelContext.trace := [] |}.

Definition env (world_size rank : Z) : ParallelContext.environ :=
  {| ParallelContext.WORLD_SIZE := world_size;
     ParallelContext.RANK := rank;
     ParallelContext.LOCAL_RANK := rank;
     ParallelContext.MASTER_ADDR := "localhost";
     ParallelContext.MASTER_PORT := 29500 |}.

End Examples.

(** ** Predicates of the specification *)

(** What [np.random.choice(a, k, replace=False)] promises: [k] distinct
    indices below [a]. *)
Definition choice_without_replacement (choice : nat -> Z -> Z -> list Z) : Prop :=
  forall (c : nat) (a k : Z),
    0 <= k <= a ->
    length (choice c a k) = Z.to_nat k
    /\ NoDup (choice c a k)
    /\ Forall (fun x => 0 <= x < a) (choice c a k).

(** A finite float of the format that is not negative. *)
Definition nonneg_float (fmt : Float.format) (a : Float.float) : Prop :=
  exists x, a = Float.Finite x /\ (0 <= x)%Q /\ Float.round fmt x = Float.Finite x.

(** What [Tensor.sum()] promises whatever the order in which it adds:
    over finite floats of the dtype that are not negative, a result,
    possibly [inf], that is not below any of them. *)
Definition sum_dominates (fmt : Float.format) (tensor_sum : list Float.float -> Float.float)
  : Prop :=
  forall ws, Forall (nonneg_float fmt) ws ->
    forall w, w ∈ ws -> Float.fle w (tensor_sum ws) = true.

(** A positive multiple [m * 2^e] of a power of two with at most [prec]
    digits and an exponent of the format. *)
Definition in_format (fmt : Float.format) (x : Q) : Prop :=
  exists m e, 0 < m <= 2 ^ Float.prec fmt /\ Float.emin fmt <= e
              /\ (x == inject_Z m * Float.pow2 e)%Q.

(** What [np.random.shuffle] promises: the same elements. *)
Definition shuffle_permutes (shuffle : list Z -> list Z) : Prop :=
  forall l, Permutation (shuffle l) l.

(** The comparison of one field passes on this rank: for the
    data-parallel group, where the inputs of the replicas have to differ,
    and for the tensor-parallel group, where they have to be the same.
    Rank 0 of a group is the reference and always passes. *)
Definition dp_check_passes (dpg : SanityCheck.DistributedProcessGroups) (n : nat)
    (key : string) (v : SanityCheck.tensor) : Prop :=
  SanityCheck.get_rank dpg SanityCheck.dp_pg = 0
  \/ v ≠ SanityCheck.broadcast dpg SanityCheck.dp_pg n key.

Definition tp_check_passes (dpg : SanityCheck.DistributedProcessGroups) (n : nat)
    (key : string) (v : SanityCheck.tensor) : Prop :=
  SanityCheck.get_rank dpg SanityCheck.tp_pg = 0
  \/ v = SanityCheck.broadcast dpg SanityCheck.tp_pg n key.

(** The field is the same as on rank 0 of the group. *)
Definition identical_across (g : SanityCheck.pg) (dpg : SanityCheck.DistributedProcessGroups)
    (n : nat) (key : string) (v : SanityCheck.tensor) : Prop :=
  SanityCheck.get_rank dpg g = 0 \/ v = SanityCheck.broadcast dpg g n key.

(** The exceptions the two comparisons end in. *)
Definition dp_failure : exn := AssertionError "Expected AssertionError to be raised".

Definition tp_failure (key : string) : exn :=
  AssertionError (key +:+ " are not synchronized throughout TP " +:+ "Tensor-likes are not equal!").

(** The registry of [init_parallel_groups] and the groups made from
    handle [b] on: a key is registered with a group made of ranks that sort
    to the key, and every group made is registered under its sorted ranks. *)
Definition registry_inv (b : nat) (reg : gmap (list Z) ParallelContext.ProcessGroup)
    (d : ParallelContext.dist) : Prop :=
  (forall k g, reg !! k = Some g ->
     (b <= g)%nat
     /\ exists ranks, ParallelContext.created d !! g = Some ranks
                      /\ ParallelContext.sorted ranks = k)
  /\ (forall g ranks, (b <= g)%nat -> ParallelContext.created d !! g = Some ranks ->
        reg !! ParallelContext.sorted ranks = Some g).

(** The three conditions on the sizes that the constructor asserts. *)
Definition size_conditions (world_size tp pp dp : Z) : Prop :=
  world_size mod dp ≠ 0 \/ world_size mod (tp * pp) ≠ 0 \/ tp * dp * pp ≠ world_size.

(** A call only adds to the trace of the process. *)
Definition trace_grows {A} (m : ParallelContext.M A) : Prop :=
  forall d, exists evs,
    ParallelContext.trace (m d).2 = ParallelContext.trace d ++ evs.

(** * Theorems *)

(** ** Floating-point rounding *)

Section FloatFacts.
Import Float.
Local Open Scope Q_scope.

(** *** Powers of two and magnitudes *)

Lemma pow2_gt_0 (e : Z) : 0 < pow2 e.
Proof. apply Qpower_0_lt. reflexivity. Qed.

Lemma pow2_add (a b : Z) : pow2 (a + b) == pow2 a * pow2 b.
Proof. apply Qpower_plus. discriminate. Qed.

Lemma pow2_le (a b : Z) : (a <= b)%Z -> pow2 a <= pow2 b.
Proof. intros H. apply Qpower_le_compat_l; [exact H|discriminate]. Qed.

Lemma pow2_lt (a b : Z) : (a < b)%Z -> pow2 a < pow2 b.
Proof. intros H. apply Qpower_lt_compat_l; [exact H|reflexivity]. Qed.

Lemma pow2_lt_inv (a b : Z) : pow2 a < pow2 b -> (a < b)%Z.
Proof. intros H. eapply Qpower_lt_compat_l_inv; [exact H|reflexivity]. Qed.

Lemma pow2_Z (e : Z) : (0 <= e)%Z -> pow2 e == inject_Z (2 ^ e).
Proof. intros H. unfold pow2. rewrite Zpower_Qpower by exact H. reflexivity. Qed.

Lemma pow2_0 : pow2 0 == 1.
Proof. reflexivity. Qed.

Lemma pow2_succ (e : Z) : pow2 (e + 1) == 2 * pow2 e.
Proof. rewrite pow2_add. change (pow2 1) with 2. ring. Qed.

Lemma pow2_sub (a b : Z) : pow2 (a - b) == pow2 a / pow2 b.
Proof. apply Qpower_minus. discriminate. Qed.

Lemma mag_spec (x : Q) : 0 < x -> pow2 (mag x - 1) <= x /\ x < pow2 (mag x).
Proof.
  intros Hx. unfold mag.
  assert (0 < Qnum x)%Z as Hn by (unfold Qlt in Hx; simpl in Hx; lia).
  pose proof (Z.log2_spec (Qnum x) Hn) as [Hn1 Hn2].
  pose proof (Z.log2_spec (Z.pos (Qden x)) ltac:(lia)) as [Hd1 Hd2].
  pose proof (Z.log2_nonneg (Qnum x)) as Hln.
  pose proof (Z.log2_nonneg (Z.pos (Qden x))) as Hld.
  set (a := Z.log2 (Qnum x)) in *. set (b := Z.log2 (Z.pos (Qden x))) in *.
  assert (E : x == inject_Z (Qnum x) / inject_Z (Z.pos (Qden x))).
  { destruct x as [n d]. apply Qmake_Qdiv. }
  assert (0 < inject_Z (Z.pos (Qden x))) as Hd0 by (rewrite <- (Zlt_Qlt 0); lia).
  assert (pow2 a <= inject_Z (Qnum x)) as A1 by (rewrite pow2_Z by lia; rewrite <- Zle_Qle; lia).
  assert (inject_Z (Qnum x) < pow2 (a + 1)) as A2.
  { rewrite pow2_Z by lia. rewrite <- Zlt_Qlt. replace (a + 1)%Z with (Z.succ a) by lia. lia. }
  assert (pow2 b <= inject_Z (Z.pos (Qden x))) as B1
    by (rewrite pow2_Z by lia; rewrite <- Zle_Qle; lia).
  assert (inject_Z (Z.pos (Qden x)) < pow2 (b + 1)) as B2.
  { rewrite pow2_Z by lia. rewrite <- Zlt_Qlt. replace (b + 1)%Z with (Z.succ b) by lia. lia. }
  pose proof (pow2_gt_0 (a - b)) as P0. pose proof (pow2_gt_0 b) as Pb.
  assert (pow2 a == pow2 (a - b) * pow2 b) as Ea.
  { rewrite <- pow2_add. replace (a - b + b)%Z with a by lia. reflexivity. }
  assert (pow2 (a + 1) == 2 * pow2 (a - b) * pow2 b) as Ea1.
  { rewrite pow2_succ, Ea. ring. }
  assert (pow2 (b + 1) == 2 * pow2 b) as Eb1 by apply pow2_succ.
  assert (pow2 (a - b + 1) == 2 * pow2 (a - b)) as Eab1 by apply pow2_succ.
  assert (pow2 (a - b) == 2 * pow2 (a - b - 1)) as Eab2.
  { rewrite <- pow2_succ. replace (a - b - 1 + 1)%Z with (a - b)%Z by lia. reflexivity. }
  set (N := inject_Z (Qnum x)) in *. set (D := inject_Z (Z.pos (Qden x))) in *.
  assert (Hxd : x * D == N) by (rewrite E; field; lra).
  rewrite Ea in A1. rewrite Ea1 in A2. rewrite Eb1 in B2.
  set (P := pow2 (a - b)) in *. set (B := pow2 b) in *.
  destruct (Qle_bool P x) eqn:Hc.
  - apply Qle_bool_iff in Hc. replace (a - b + 1 - 1)%Z with (a - b)%Z by lia. fold P.
    split; [exact Hc|]. rewrite Eab1.
    apply Qnot_le_lt. intros Hge.
    assert (2 * P * D <= x * D) as H1 by (apply Qmult_le_compat_r; lra).
    assert (P * B <= P * D) as H2 by (apply Qmult_le_l; lra).
    lra.
  - assert (x < P) as Hlt.
    { apply Qnot_le_lt. intros Hge. apply Qle_bool_iff in Hge. congruence. }
    split; [|exact Hlt].
    apply Qnot_lt_le. intros Hlt'.
    set (P' := pow2 (a - b - 1)) in *.
    assert (x * D < P' * D) as H1 by (apply Qmult_lt_compat_r; lra).
    assert (P' * D <= P' * (2 * B)) as H2.
    { apply Qmult_le_l; [|lra]. apply pow2_gt_0. }
    assert (P * B == P' * (2 * B)) as H3 by (rewrite Eab2; ring).
    lra.
Qed.

Lemma mag_le (x : Q) (e : Z) : 0 < x -> x < pow2 e -> (mag x <= e)%Z.
Proof.
  intros Hx H. destruct (mag_spec x Hx) as [H1 _].
  assert (pow2 (mag x - 1) < pow2 e) as H2 by lra.
  apply pow2_lt_inv in H2. lia.
Qed.

Lemma mag_ge (x : Q) (e : Z) : 0 < x -> pow2 (e - 1) <= x -> (e <= mag x)%Z.
Proof.
  intros Hx H. destruct (mag_spec x Hx) as [_ H1].
  assert (pow2 (e - 1) < pow2 (mag x)) as H2 by lra.
  apply pow2_lt_inv in H2. lia.
Qed.

Lemma mag_mono (x y : Q) : 0 < x -> x <= y -> (mag x <= mag y)%Z.
Proof.
  intros Hx Hxy. apply mag_le; [exact Hx|].
  destruct (mag_spec y ltac:(lra)) as [_ H]. lra.
Qed.

Lemma mag_comp (x y : Q) : 0 < x -> x == y -> mag x = mag y.
Proof.
  intros Hx E. assert (0 < y) as Hy by lra.
  pose proof (mag_mono x y Hx ltac:(lra)). pose proof (mag_mono y x Hy ltac:(lra)). lia.
Qed.

Lemma inject_Z_sub (x y : Z) : inject_Z (x - y) = inject_Z x - inject_Z y.
Proof. unfold Z.sub, Qminus. by rewrite inject_Z_plus, inject_Z_opp. Qed.

(** *** Rounding to the nearest integer *)

Lemma rne_comp (x y : Q) : x == y -> rne x = rne y.
Proof.
  intros E. unfold rne. rewrite (Qfloor_comp _ _ E).
  assert ((x - inject_Z (Qfloor y) ?= 1 # 2) = (y - inject_Z (Qfloor y) ?= 1 # 2)) as ->.
  { apply Qcompare_comp; [|reflexivity]. rewrite E. reflexivity. }
  reflexivity.
Qed.

Lemma rne_bounds (x : Q) : (Qfloor x <= rne x <= Qfloor x + 1)%Z.
Proof.
  unfold rne. destruct (x - inject_Z (Qfloor x) ?= 1 # 2); [destruct (Z.even _)| |]; lia.
Qed.

Lemma rne_Z (n : Z) : rne (inject_Z n) = n.
Proof.
  unfold rne. rewrite Qfloor_Z.
  assert ((inject_Z n - inject_Z n ?= 1 # 2) = Lt) as ->; [|reflexivity].
  apply (proj1 (Qlt_alt _ _)). lra.
Qed.

Lemma rne_mono (x y : Q) : x <= y -> (rne x <= rne y)%Z.
Proof.
  intros Hxy. pose proof (Qfloor_resp_le x y Hxy) as Hf.
  destruct (Z.eq_dec (Qfloor x) (Qfloor y)) as [E|Hne].
  - unfold rne. rewrite E.
    destruct (x - inject_Z (Qfloor y) ?= 1 # 2) eqn:Cx;
      destruct (y - inject_Z (Qfloor y) ?= 1 # 2) eqn:Cy;
      try (destruct (Z.even (Qfloor y))); try lia;
      try apply (proj2 (Qeq_alt _ _)) in Cx; try apply (proj2 (Qlt_alt _ _)) in Cx;
      try apply (proj2 (Qgt_alt _ _)) in Cx;
      try apply (proj2 (Qeq_alt _ _)) in Cy; try apply (proj2 (Qlt_alt _ _)) in Cy;
      try apply (proj2 (Qgt_alt _ _)) in Cy; lra.
  - pose proof (rne_bounds x). pose proof (rne_bounds y). lia.
Qed.

Lemma rne_half_up (n : Z) (x : Q) : inject_Z n + (1 # 2) < x -> (n + 1 <= rne x)%Z.
Proof.
  intros H. pose proof (rne_bounds x) as Hb.
  assert (n <= Qfloor x)%Z as Hn.
  { rewrite <- (Qfloor_Z n). apply Qfloor_resp_le. lra. }
  destruct (Z.eq_dec n (Qfloor x)) as [->|Hne]; [|lia].
  unfold rne in *.
  assert ((x - inject_Z (Qfloor x) ?= 1 # 2) = Gt) as ->; [|lia].
  apply (proj1 (Qgt_alt _ _)). lra.
Qed.

Lemma rne_half_down (n : Z) (x : Q) : x < inject_Z n - (1 # 2) -> (rne x <= n - 1)%Z.
Proof.
  intros H. pose proof (rne_bounds x) as Hb.
  pose proof (Qfloor_le x) as Hf. pose proof (Qlt_floor x) as Hf'.
  assert (Qfloor x <= n - 1)%Z as Hn.
  { assert (inject_Z (Qfloor x) < inject_Z n) as H' by lra.
    rewrite <- Zlt_Qlt in H'. lia. }
  destruct (Z.eq_dec (Qfloor x) (n - 1)%Z) as [E|Hne]; [|lia].
  unfold rne in *.
  assert ((x - inject_Z (Qfloor x) ?= 1 # 2) = Lt) as ->; [|lia].
  apply (proj1 (Qlt_alt _ _)). rewrite E, inject_Z_sub. change (inject_Z 1) with 1. lra.
Qed.

Lemma rne_nonneg (x : Q) : 0 <= x -> (0 <= rne x)%Z.
Proof. intros H. rewrite <- (rne_Z 0). apply rne_mono. exact H. Qed.

Lemma rne_ge (n : Z) (x : Q) : inject_Z n <= x -> (n <= rne x)%Z.
Proof. intros H. rewrite <- (rne_Z n). apply rne_mono. exact H. Qed.

Lemma rne_le (n : Z) (x : Q) : x <= inject_Z n -> (rne x <= n)%Z.
Proof. intros H. rewrite <- (rne_Z n). apply rne_mono. exact H. Qed.

(** *** Rounding a positive number to a format *)

Section Rounding.
Variable fmt : format.
Hypothesis prec_pos : (1 <= prec fmt)%Z.


Lemma round_pos_eq (x : Q) :
  round_pos fmt x = inject_Z (rne (x / pow2 (fexp fmt x))) * pow2 (fexp fmt x).
Proof. reflexivity. Qed.

Lemma round_pos_nonneg (x : Q) : 0 < x -> 0 <= round_pos fmt x.
Proof.
  intros Hx. rewrite round_pos_eq. pose proof (pow2_gt_0 (fexp fmt x)) as Hp.
  apply Qmult_le_0_compat; [|lra].
  change 0 with (inject_Z 0). rewrite <- Zle_Qle. apply rne_nonneg.
  apply Qle_shift_div_l; [exact Hp|]. lra.
Qed.

(** A number that is an integer multiple of its unit in the last place
    is not changed. *)
Lemma round_pos_exact (x : Q) (m e : Z) :
  (0 < m <= 2 ^ prec fmt)%Z -> (emin fmt <= e)%Z -> x == inject_Z m * pow2 e ->
  round_pos fmt x == x.
Proof.
  intros Hm He Ex. rewrite round_pos_eq.
  pose proof (pow2_gt_0 e) as Pe.
  assert (0 < inject_Z m) as Hm0 by (rewrite <- (Zlt_Qlt 0); lia).
  assert (0 < x) as Hx by (rewrite Ex; apply Qmult_lt_0_compat; lra).
  assert (exists k, (0 <= k)%Z /\ x / pow2 (fexp fmt x) == inject_Z k) as (k & Hk & Ek).
  { destruct (Z.eq_dec m (2 ^ prec fmt)%Z) as [Em|Hne].
    - (* x = 2^(prec + e) *)
      assert (x == pow2 (prec fmt + e)) as Ex'.
      { rewrite Ex, Em, pow2_add, <- pow2_Z by lia. reflexivity. }
      assert (mag x = prec fmt + e + 1)%Z as Emag.
      { apply Z.le_antisymm.
        - apply mag_le; [exact Hx|]. rewrite Ex'. apply pow2_lt. lia.
        - apply mag_ge; [exact Hx|]. rewrite Ex'. apply pow2_le. lia. }
      unfold fexp. rewrite Emag.
      replace (Z.max (prec fmt + e + 1 - prec fmt) (emin fmt)) with (e + 1)%Z by lia.
      exists (2 ^ (prec fmt - 1))%Z. split; [lia|].
      rewrite Ex', <- pow2_Z by lia. rewrite <- pow2_sub. apply Qpower_comp; [reflexivity|lia].
    - assert (mag x <= prec fmt + e)%Z as Hmag.
      { apply mag_le; [exact Hx|]. rewrite Ex, pow2_add.
        apply Qmult_lt_compat_r; [exact Pe|]. rewrite pow2_Z by lia. rewrite <- Zlt_Qlt. lia. }
      assert (fexp fmt x <= e)%Z as Hfe by (unfold fexp; lia).
      exists (m * 2 ^ (e - fexp fmt x))%Z. split; [lia|].
      rewrite inject_Z_mult, <- pow2_Z by lia. set (f := fexp fmt x) in *.
      rewrite Ex, pow2_sub. pose proof (pow2_gt_0 f). field. lra. }
  rewrite (rne_comp _ _ Ek), rne_Z, <- Ek. pose proof (pow2_gt_0 (fexp fmt x)). field. lra.
Qed.

(** The rounded number is a multiple of the unit in the last place with
    at most [prec] digits. *)
Lemma round_pos_digits (x : Q) :
  0 < x -> (0 <= rne (x / pow2 (fexp fmt x)) <= 2 ^ prec fmt)%Z.
Proof.
  intros Hx. pose proof (pow2_gt_0 (fexp fmt x)) as Hp.
  destruct (mag_spec x Hx) as [_ Hm]. split.
  - apply rne_nonneg. apply Qle_shift_div_l; [exact Hp|]. lra.
  - apply rne_le.
    apply Qle_shift_div_r; [exact Hp|]. rewrite <- pow2_Z, <- pow2_add by lia.
    apply Qlt_le_weak. eapply Qlt_le_trans; [exact Hm|]. apply pow2_le. unfold fexp. lia.
Qed.

Lemma round_pos_mono (x y : Q) : 0 < x -> x <= y -> round_pos fmt x <= round_pos fmt y.
Proof.
  intros Hx Hxy. assert (0 < y) as Hy by lra.
  pose proof (mag_mono x y Hx Hxy) as Hmag.
  rewrite !round_pos_eq.
  pose proof (pow2_gt_0 (fexp fmt x)) as Px. pose proof (pow2_gt_0 (fexp fmt y)) as Py.
  destruct (Z.eq_dec (fexp fmt x) (fexp fmt y)) as [E|Hne].
  - rewrite E. apply Qmult_le_compat_r; [|lra].
    rewrite <- Zle_Qle. apply rne_mono. apply Qmult_le_compat_r; [exact Hxy|].
    apply Qlt_le_weak, Qinv_lt_0_compat, Py.
  - assert (fexp fmt x < fexp fmt y)%Z as Hlt by (unfold fexp in *; lia).
    assert (fexp fmt y = mag y - prec fmt)%Z as Ey by (unfold fexp in *; lia).
    (* the rounded x is at most 2^(fexp fmt x + prec), and the rounded y is at
       least 2^(mag y - 1) = 2^(fexp fmt y + prec - 1) *)
    destruct (round_pos_digits x Hx) as [_ Hdx].
    destruct (mag_spec y Hy) as [Hy1 _].
    assert (2 ^ (prec fmt - 1) <= rne (y / pow2 (fexp fmt y)))%Z as Hdy.
    { apply rne_ge.
      apply Qle_shift_div_l; [exact Py|]. rewrite <- pow2_Z, <- pow2_add by lia.
      rewrite Ey. replace (prec fmt - 1 + (mag y - prec fmt))%Z with (mag y - 1)%Z by lia.
      exact Hy1. }
    apply Qle_trans with (inject_Z (2 ^ prec fmt) * pow2 (fexp fmt x)).
    { apply Qmult_le_compat_r; [|lra]. rewrite <- Zle_Qle. exact Hdx. }
    apply Qle_trans with (inject_Z (2 ^ (prec fmt - 1)) * pow2 (fexp fmt y)).
    2:{ apply Qmult_le_compat_r; [|lra]. rewrite <- Zle_Qle. exact Hdy. }
    rewrite <- !pow2_Z, <- !pow2_add by lia. apply pow2_le. lia.
Qed.

End Rounding.

(** *** Rounding to a float *)


Lemma in_format_pos (fmt : format) (x : Q) : in_format fmt x -> 0 < x.
Proof.
  intros (m & e & Hm & _ & ->). apply Qmult_lt_0_compat; [|apply pow2_gt_0].
  rewrite <- (Zlt_Qlt 0). lia.
Qed.

Lemma Qcompare_Gt (x : Q) : 0 < x -> (x ?= 0) = Gt.
Proof. intros H. by apply (proj1 (Qgt_alt _ _)). Qed.

Lemma Qcompare_Eq (x : Q) : x == 0 -> (x ?= 0) = Eq.
Proof. intros H. by apply (proj1 (Qeq_alt _ _)). Qed.

Lemma Qle_bool_false (x y : Q) : y < x -> Qle_bool x y = false.
Proof.
  intros H. destruct (Qle_bool x y) eqn:E; [|done]. apply Qle_bool_iff in E. lra.
Qed.

Lemma Qle_bool_true (x y : Q) : x <= y -> Qle_bool x y = true.
Proof. intros H. by apply Qle_bool_iff. Qed.

Section RoundingFloat.
Variable fmt : format.
Hypothesis prec_pos : (1 <= prec fmt)%Z.

Lemma round_zero (x : Q) : x == 0 -> round fmt x = Finite 0.
Proof. intros H. unfold round. by rewrite Qcompare_Eq. Qed.

Lemma round_pos_comp (x y : Q) : 0 < x -> x == y -> round_pos fmt x == round_pos fmt y.
Proof.
  intros Hx E. rewrite !round_pos_eq. unfold fexp. rewrite (mag_comp x y Hx E).
  set (e := Z.max _ _). rewrite (rne_comp (x / pow2 e) (y / pow2 e)); [reflexivity|].
  by rewrite E.
Qed.

Lemma round_positive (x : Q) :
  0 < x ->
  round fmt x = if Qle_bool (pow2 (emax fmt)) (round_pos fmt x) then Inf false
                else Finite (Qred (round_pos fmt x)).
Proof. intros H. unfold round. by rewrite Qcompare_Gt. Qed.

Lemma round_comp (x y : Q) : 0 <= x -> x == y -> round fmt x = round fmt y.
Proof.
  intros Hx E. destruct (Qlt_le_dec 0 x) as [Hpos|Hle].
  - rewrite !round_positive by lra. pose proof (round_pos_comp x y Hpos E) as Er.
    assert (Qle_bool (pow2 (emax fmt)) (round_pos fmt x)
            = Qle_bool (pow2 (emax fmt)) (round_pos fmt y)) as ->.
    { destruct (Qle_bool _ (round_pos fmt y)) eqn:Ey.
      - apply Qle_bool_true. apply Qle_bool_iff in Ey. lra.
      - apply Qle_bool_false. destruct (Qlt_le_dec (round_pos fmt y) (pow2 (emax fmt)));
          [lra|]. apply Qle_bool_true in q. congruence. }
    by rewrite (Qred_complete _ _ Er).
  - rewrite !round_zero by lra. done.
Qed.

Lemma round_exact (x : Q) :
  in_format fmt x -> x < pow2 (emax fmt) -> round fmt x = Finite (Qred x).
Proof.
  intros Hex Hlt. pose proof (in_format_pos _ _ Hex) as Hx.
  destruct Hex as (m & e & Hm & He & Ex).
  pose proof (round_pos_exact fmt prec_pos x m e Hm He Ex) as Er.
  rewrite round_positive by done. rewrite Qle_bool_false by lra.
  by rewrite (Qred_complete _ _ Er).
Qed.

(** Rounding does not cross a float: up to a float above, ... *)
Lemma round_le (x b : Q) :
  0 <= x -> x <= b -> in_format fmt b -> b < pow2 (emax fmt) ->
  exists q, round fmt x = Finite q /\ 0 <= q <= b.
Proof.
  intros Hx Hxb Hex Hlt. destruct (Qlt_le_dec 0 x) as [Hpos|Hle].
  - rewrite round_positive by done.
    destruct Hex as (m & e & Hm & He & Eb).
    pose proof (round_pos_exact fmt prec_pos b m e Hm He Eb) as Er.
    pose proof (round_pos_mono fmt prec_pos x b Hpos Hxb) as Hmono.
    pose proof (round_pos_nonneg fmt x Hpos) as H0.
    rewrite Qle_bool_false by lra. eexists. split; [done|]. rewrite Qred_correct. lra.
  - rewrite round_zero by lra. exists 0. split; [done|].
    pose proof (in_format_pos _ _ Hex). lra.
Qed.

(** ... and down to a float below. *)
Lemma round_ge (x b : Q) :
  b <= x -> in_format fmt b ->
  round fmt x = Inf false \/ exists q, round fmt x = Finite q /\ b <= q.
Proof.
  intros Hbx Hex. pose proof (in_format_pos _ _ Hex) as Hb.
  rewrite round_positive by lra.
  destruct Hex as (m & e & Hm & He & Eb).
  pose proof (round_pos_exact fmt prec_pos b m e Hm He Eb) as Er.
  pose proof (round_pos_mono fmt prec_pos b x Hb Hbx) as Hmono.
  destruct (Qle_bool _ _); [by left|]. right. eexists. split; [done|].
  rewrite Qred_correct. lra.
Qed.

Lemma round_nonneg (x : Q) :
  0 <= x -> round fmt x = Inf false \/ exists q, round fmt x = Finite q /\ 0 <= q.
Proof.
  intros Hx. destruct (Qlt_le_dec 0 x) as [Hpos|Hle].
  - rewrite round_positive by done. destruct (Qle_bool _ _); [by left|]. right.
    eexists. split; [done|]. rewrite Qred_correct. by apply round_pos_nonneg.
  - rewrite round_zero by lra. right. exists 0. split; [done|lra].
Qed.

Lemma round_mono (x y : Q) : 0 <= x -> x <= y -> fle (round fmt x) (round fmt y) = true.
Proof.
  intros Hx Hxy. destruct (Qlt_le_dec 0 x) as [Hpos|Hle].
  - rewrite !round_positive by lra.
    pose proof (round_pos_mono fmt prec_pos x y Hpos Hxy) as Hmono.
    destruct (Qle_bool _ (round_pos fmt y)) eqn:Ey.
    + destruct (Qle_bool (pow2 (emax fmt)) (round_pos fmt x)); reflexivity.
    + rewrite Qle_bool_false.
      * simpl. apply Qle_bool_true. by rewrite !Qred_correct.
      * destruct (Qlt_le_dec (round_pos fmt y) (pow2 (emax fmt))) as [|Hge]; [lra|].
        apply Qle_bool_true in Hge. congruence.
  - rewrite (round_zero x) by lra.
    destruct (round_nonneg y ltac:(lra)) as [->|(q & -> & Hq)]; [done|].
    simpl. by apply Qle_bool_true.
Qed.

(** What rounding gives is a float of the format. *)
Lemma round_is_exact (x q : Q) :
  0 < x -> round fmt x = Finite q -> q == 0 \/ in_format fmt q.
Proof.
  intros Hx. rewrite round_positive by done.
  destruct (Qle_bool _ _); [done|]. intros [= <-].
  destruct (round_pos_digits fmt prec_pos x Hx) as [H0 H1].
  destruct (Z.eq_dec (rne (x / pow2 (fexp fmt x))) 0%Z) as [E|Hne].
  - left. rewrite Qred_correct, round_pos_eq, E. ring.
  - right. exists (rne (x / pow2 (fexp fmt x))), (fexp fmt x).
    split; [lia|]. split; [unfold fexp; lia|]. by rewrite Qred_correct.
Qed.

End RoundingFloat.

(** *** Quotients of integers *)

Section Above.
Variable fmt : format.

(** A number that lies above the integer [n] by more than half a unit in
    the last place is rounded to a number above [n]. *)
Lemma round_pos_above (x d : Q) (n : Z) :
  (1 <= n)%Z -> inject_Z n + d <= x -> x < pow2 (prec fmt) ->
  (emin fmt <= 1 - prec fmt)%Z -> pow2 (mag x - prec fmt) < 2 * d ->
  inject_Z n < round_pos fmt x.
Proof.
  intros Hn Hd Hx He Hulp.
  assert (1 <= inject_Z n) as Hn1 by (change 1 with (inject_Z 1); rewrite <- Zle_Qle; lia).
  pose proof (pow2_gt_0 (mag x - prec fmt)) as Pu.
  assert (0 < x) as Hx0 by lra.
  assert (1 <= mag x <= prec fmt)%Z as Hmag.
  { split; [apply mag_ge; [done|]; change (pow2 (1 - 1)) with 1; lra|by apply mag_le]. }
  rewrite round_pos_eq.
  assert (fexp fmt x = mag x - prec fmt)%Z as -> by (unfold fexp; lia).
  set (e := (mag x - prec fmt)%Z) in *. set (k := (- e)%Z).
  pose proof (pow2_gt_0 k) as Pk.
  assert (pow2 e * pow2 k == 1) as Eek.
  { rewrite <- pow2_add. replace (e + k)%Z with 0%Z by lia. reflexivity. }
  assert (x / pow2 e == x * pow2 k) as Ex.
  { unfold Qdiv. apply Qmult_comp; [reflexivity|]. unfold k, pow2. symmetry. apply Qpower_opp. }
  assert (inject_Z (n * 2 ^ k) == inject_Z n * pow2 k) as EN.
  { rewrite inject_Z_mult, <- pow2_Z by lia. reflexivity. }
  assert (n * 2 ^ k + 1 <= rne (x / pow2 e))%Z as Hr.
  { apply rne_half_up. rewrite EN, Ex.
    assert ((1 # 2) < d * pow2 k) as H1.
    { assert (pow2 e * pow2 k < 2 * d * pow2 k) by (apply Qmult_lt_compat_r; lra). lra. }
    assert ((inject_Z n + d) * pow2 k <= x * pow2 k) by (apply Qmult_le_compat_r; lra).
    lra. }
  apply Qlt_le_trans with (inject_Z (n * 2 ^ k + 1) * pow2 e).
  - rewrite inject_Z_plus, EN. change (inject_Z 1) with 1.
    assert (inject_Z n * pow2 k * pow2 e == inject_Z n) as E1.
    { rewrite <- Qmult_assoc, (Qmult_comm (pow2 k)), Eek. ring. }
    lra.
  - apply Qmult_le_compat_r; [|lra]. by rewrite <- Zle_Qle.
Qed.

End Above.

Lemma in_format_Z (fmt : format) (n : Z) :
  (0 < n <= 2 ^ prec fmt)%Z -> (emin fmt <= 0)%Z -> in_format fmt (inject_Z n).
Proof.
  intros Hn He. exists n, 0%Z. split; [done|]. split; [done|].
  change (pow2 0) with 1. ring.
Qed.

Lemma in_format_pow2 (fmt : format) (e : Z) :
  (0 <= prec fmt)%Z -> (emin fmt <= e)%Z -> in_format fmt (pow2 e).
Proof.
  intros Hp He. exists 1%Z, e. split; [|split; [done|]].
  - pose proof (Z.pow_pos_nonneg 2 (prec fmt) ltac:(lia) Hp). lia.
  - change (inject_Z 1) with 1. ring.
Qed.

Lemma ceil_div_bounds (a b : Z) :
  (0 < b)%Z ->
  let c := (- ((- a) / b))%Z in ((c - 1) * b < a <= c * b)%Z.
Proof.
  intros Hb c. subst c.
  pose proof (Z.div_mod (- a) b ltac:(lia)).
  pose proof (Z.mod_pos_bound (- a) b Hb). nia.
Qed.

Lemma Qceiling_unique (q : Q) (c : Z) :
  inject_Z c - 1 < q -> q <= inject_Z c -> Qceiling q = c.
Proof.
  intros H1 H2. pose proof (Qle_ceiling q) as H3. pose proof (Qceiling_lt q) as H4.
  rewrite inject_Z_sub in H4. change (inject_Z 1) with 1 in H4.
  assert (inject_Z (Qceiling q) < inject_Z c + 1) as H5 by lra.
  assert (inject_Z c < inject_Z (Qceiling q) + 1) as H6 by lra.
  change 1 with (inject_Z 1) in H5, H6. rewrite <- inject_Z_plus in H5, H6.
  rewrite <- Zlt_Qlt in H5, H6. lia.
Qed.

(** [math.ceil(a / b)] on integers below [2^53] is the exact ceiling of
    the quotient. *)
Lemma ceil_truediv (a b : Z) :
  (0 <= a < 2 ^ 53)%Z -> (0 < b < 2 ^ 53)%Z ->
  exists q, int_truediv a b = Ok q /\ ceil q = Ok (- ((- a) / b))%Z.
Proof.
  intros Ha Hb. unfold int_truediv.
  destruct (Z.eqb_spec b 0) as [|_]; [lia|].
  set (A := inject_Z a). set (B := inject_Z b). set (x := A / B).
  assert (0 < B) as HB by (subst B; rewrite <- (Zlt_Qlt 0); lia).
  assert (x * B == A) as ExB by (subst x; field; lra).
  destruct (ceil_div_bounds a b ltac:(lia)) as [Hc1 Hc2]. cbv zeta in Hc1, Hc2.
  set (c := (- (- a / b))%Z) in *.
  assert (prec binary64 = 53%Z) as Hprec by reflexivity.
  destruct (Z.eq_dec a 0%Z) as [->|Hne].
  { assert (x == 0) as E0 by (subst x A; field; lra).
    rewrite (round_zero binary64 x E0). exists (Finite 0). split; [done|].
    subst c. reflexivity. }
  assert (0 < A) as HA by (subst A; rewrite <- (Zlt_Qlt 0); lia).
  assert (0 < x) as Hx.
  { subst x. apply Qlt_shift_div_l; lra. }
  assert (1 <= c)%Z as Hc by nia.
  assert (c <= a)%Z as Hca by nia.
  assert (x <= inject_Z c) as Hxc.
  { subst x. apply Qle_shift_div_r; [done|]. subst A B.
    rewrite <- inject_Z_mult, <- Zle_Qle. lia. }
  destruct (round_le binary64 ltac:(done) x (inject_Z c) ltac:(lra) Hxc) as (q & Hq & Hq0 & Hqc).
  { apply in_format_Z; [|done]. rewrite Hprec. lia. }
  { rewrite pow2_Z by done. rewrite <- Zlt_Qlt. change (emax binary64) with 1024%Z.
    assert (2 ^ 53 < 2 ^ 1024)%Z by (apply Z.pow_lt_mono_r; lia). lia. }
  rewrite Hq. exists (Finite q). split; [done|]. cbn [ceil]. f_equal.
  apply Qceiling_unique; [|done].
  (* the rounded quotient is above c - 1 *)
  assert (1 <= A - inject_Z (c - 1) * B) as Hgap.
  { subst A B. rewrite <- inject_Z_mult, <- inject_Z_sub. change 1 with (inject_Z 1).
    rewrite <- Zle_Qle. lia. }
  assert (inject_Z (c - 1) + 1 / B <= x) as Hxd.
  { subst x. apply Qle_shift_div_l; [done|].
    assert ((inject_Z (c - 1) + 1 / B) * B == inject_Z (c - 1) * B + 1) as -> by (field; lra).
    lra. }
  assert (inject_Z c - 1 == inject_Z (c - 1)) as -> by (by rewrite inject_Z_sub).
  destruct (Z.eq_dec c 1%Z) as [Ec|Hc1'].
  - rewrite Ec. change (inject_Z (1 - 1)) with 0.
    assert (pow2 (-53) <= x) as Hlow.
    { rewrite Ec in Hxd. change (inject_Z (1 - 1)) with 0 in Hxd.
      assert (pow2 (-53) * B <= 1); [|].
      { assert (B <= pow2 53) as HB53.
        { subst B. rewrite pow2_Z by done. rewrite <- Zle_Qle. lia. }
        assert (pow2 (-53) * pow2 53 == 1) as E1 by reflexivity.
        assert (pow2 (-53) * B <= pow2 (-53) * pow2 53); [|lra].
        apply Qmult_le_l; [apply pow2_gt_0|done]. }
      assert (pow2 (-53) <= 1 / B); [|lra].
      apply Qle_shift_div_l; [done|lra]. }
    destruct (round_ge binary64 ltac:(done) x (pow2 (-53)) Hlow) as [E|(q' & Hq' & Hq'')].
    { apply in_format_pow2; done. }
    + congruence.
    + rewrite Hq in Hq'. injection Hq' as <-. pose proof (pow2_gt_0 (-53)). lra.
  - assert (round binary64 x = Finite (Qred (round_pos binary64 x))) as Hr.
    { rewrite round_positive in Hq |- * by done.
      destruct (Qle_bool _ _); [done|reflexivity]. }
    rewrite Hq in Hr. injection Hr as ->. rewrite Qred_correct.
    assert (x < pow2 53) as Hx53.
    { apply Qle_lt_trans with (inject_Z c); [done|].
      rewrite pow2_Z by done. rewrite <- Zlt_Qlt. lia. }
    apply (round_pos_above binary64 x (1 / B) (c - 1)%Z); [lia|done|done|done|].
    rewrite Hprec.
    destruct (mag_spec x Hx) as [Hm1 _].
    assert (pow2 (mag x - 1) * B < pow2 53) as H1.
    { apply Qle_lt_trans with (x * B); [apply Qmult_le_compat_r; lra|].
      rewrite ExB. subst A. rewrite pow2_Z by done. rewrite <- Zlt_Qlt. lia. }
    assert (pow2 (mag x - 1) == pow2 (mag x - 53) * pow2 52) as E1.
    { rewrite <- pow2_add. apply Qpower_comp; [reflexivity|lia]. }
    assert (pow2 53 == 2 * pow2 52) as E2 by reflexivity.
    pose proof (pow2_gt_0 52) as P52. pose proof (pow2_gt_0 (mag x - 53)) as Pm.
    rewrite E1, E2 in H1.
    assert (pow2 (mag x - 53) * B < 2) as H2.
    { apply Qnot_le_lt. intros Hge.
      assert (2 * pow2 52 <= pow2 (mag x - 53) * B * pow2 52)
        by (apply Qmult_le_compat_r; lra).
      lra. }
    assert (2 * (1 / B) == 2 / B) as -> by (field; lra).
    apply Qlt_shift_div_l; [done|lra].
Qed.

(** *** Floats in [[0, 1]] and their products with integers *)


Lemma torch_float_bounds (fmt : format) :
  torch_float fmt ->
  (1 <= prec fmt <= 53)%Z /\ (1 <= emax fmt <= 1024)%Z /\ (emin binary64 <= emin fmt <= 0)%Z.
Proof. intros [ -> | [ -> | [ -> | -> ] ] ]; vm_compute; repeat split; discriminate. Qed.


Lemma fle_trans (a b c : float) : fle a b = true -> fle b c = true -> fle a c = true.
Proof.
  destruct a as [x|[]|], b as [y|[]|], c as [z|[]|]; simpl; try done.
  intros H1 H2. apply Qle_bool_iff in H1, H2. apply Qle_bool_iff. lra.
Qed.

Lemma fle_Finite (x y : Q) : fle (Finite x) (Finite y) = true <-> x <= y.
Proof. apply Qle_bool_iff. Qed.

Lemma flt_Finite (x y : Q) : flt (Finite x) (Finite y) = true <-> x < y.
Proof.
  simpl. split.
  - intros H. destruct (Qle_bool y x) eqn:E; [done|].
    apply Qnot_le_lt. intros H'. apply Qle_bool_iff in H'. congruence.
  - intros H. by rewrite Qle_bool_false.
Qed.

Lemma Qeq_bool_false (x y : Q) : ~ x == y -> Qeq_bool x y = false.
Proof.
  intros H. destruct (Qeq_bool x y) eqn:E; [|done]. by apply Qeq_bool_iff in E.
Qed.

Section Unit.
Variable fmt : format.
Hypothesis prec_pos : (1 <= prec fmt)%Z.
Hypothesis emin_neg : (emin fmt <= 0)%Z.
Hypothesis emax_pos : (1 <= emax fmt)%Z.

Lemma in_format_one : in_format fmt 1 /\ 1 < pow2 (emax fmt).
Proof.
  split.
  - apply (in_format_pow2 fmt 0); lia.
  - change 1 with (pow2 0). apply pow2_lt. lia.
Qed.

(** A quotient of a float by one that is not smaller lies in [[0, 1]]. *)
Lemma fdiv_unit (x : Q) (s : float) :
  0 <= x -> fle (Finite x) s = true -> flt (Finite 0) s = true ->
  exists nw, fdiv fmt (Finite x) s = Finite nw /\ 0 <= nw <= 1
             /\ (nw == 0 \/ in_format fmt nw).
Proof.
  intros Hx Hle Hpos. destruct s as [y|[]|]; try done.
  - apply fle_Finite in Hle. apply flt_Finite in Hpos.
    cbn [fdiv]. rewrite Qeq_bool_false by lra.
    destruct in_format_one as [H1 H2].
    assert (0 <= x / y) as H0 by (apply Qle_shift_div_l; lra).
    destruct (round_le fmt prec_pos (x / y) 1 H0) as (q & Hq & Hq01); [|done|done|].
    { apply Qle_shift_div_r; lra. }
    exists q. split; [done|]. split; [done|].
    destruct (Qlt_le_dec 0 (x / y)) as [Hp|Hz].
    + by apply (round_is_exact fmt prec_pos (x / y)).
    + left. rewrite round_zero in Hq by lra. by injection Hq as <-.
  - exists 0. split; [done|]. split; [lra|by left].
Qed.

End Unit.

(** [ps * w] for a Python int below [2^53] and a float in [[0, 1]]. *)
Lemma float_of_int_exact (n : Z) :
  (0 <= n <= 2 ^ 53)%Z -> exists p, float_of_int n = Ok (Finite p) /\ p == inject_Z n.
Proof.
  intros Hn. unfold float_of_int. destruct (Z.eq_dec n 0%Z) as [->|Hne].
  - rewrite round_zero by done. by exists 0.
  - rewrite (round_exact binary64 ltac:(done)).
    + eexists. split; [done|]. apply Qred_correct.
    + apply in_format_Z; [|done]. change (prec binary64) with 53%Z. lia.
    + rewrite pow2_Z by done. rewrite <- Zlt_Qlt. change (emax binary64) with 1024%Z.
      assert (2 ^ 53 < 2 ^ 1024)%Z by (apply Z.pow_lt_mono_r; lia). lia.
Qed.

Lemma int_times_unit (ps : Z) (nw : Q) :
  (0 <= ps < 2 ^ 53)%Z -> 0 <= nw <= 1 ->
  exists q,
    mul_int (Finite nw) ps = Ok (Finite q)
    /\ round binary64 (inject_Z ps * nw) = Finite q
    /\ int (Finite q) = Ok (Qfloor q) /\ (0 <= Qfloor q <= ps)%Z.
Proof.
  intros Hps Hnw. destruct (float_of_int_exact ps ltac:(lia)) as (p & Hp & Ep).
  unfold mul_int. rewrite Hp. cbn [mbind result_bind fmul].
  assert (0 <= inject_Z ps) as Hps0 by (rewrite <- (Zle_Qle 0); lia).
  assert (0 <= nw * p) as H0 by (rewrite Ep; apply Qmult_le_0_compat; lra).
  assert (round binary64 (nw * p) = round binary64 (inject_Z ps * nw)) as Er.
  { apply round_comp; [done|]. rewrite Ep. ring. }
  assert (exists q, round binary64 (nw * p) = Finite q /\ 0 <= q <= inject_Z ps)
    as (q & Hq & Hq0 & Hq1).
  { destruct (Z.eq_dec ps 0%Z) as [->|Hne].
    - rewrite round_zero; [|rewrite Ep; change (inject_Z 0) with 0; ring].
      exists 0. split; [done|]. change (inject_Z 0) with 0. lra.
    - apply (round_le binary64 ltac:(done)); [done| | |].
      + rewrite Ep. rewrite <- (Qmult_1_l (inject_Z ps)) at 2.
        apply Qmult_le_compat_r; lra.
      + apply in_format_Z; [|done]. change (prec binary64) with 53%Z. lia.
      + rewrite pow2_Z by done. rewrite <- Zlt_Qlt. change (emax binary64) with 1024%Z.
        assert (2 ^ 53 < 2 ^ 1024)%Z by (apply Z.pow_lt_mono_r; lia). lia. }
  exists q. split; [by rewrite Hq|]. split; [by rewrite <- Er|]. split.
  { cbn [int]. by rewrite Qle_bool_true. }
  split.
  - rewrite <- (Qfloor_Z 0). by apply Qfloor_resp_le.
  - rewrite <- (Qfloor_Z ps). by apply Qfloor_resp_le.
Qed.

(** The product is exact when the digits of both factors fit a double. *)
Lemma int_times_float_exact (fmt : format) (ps : Z) (nw : Q) :
  (0 <= prec fmt <= 53)%Z -> (emin binary64 <= emin fmt)%Z ->
  (0 <= ps < 2 ^ (53 - prec fmt))%Z -> 0 <= nw <= 1 -> nw == 0 \/ in_format fmt nw ->
  round binary64 (inject_Z ps * nw) = Finite (Qred (inject_Z ps * nw)).
Proof.
  intros Hprec Hemin Hps Hnw Hex.
  destruct (Z.eq_dec ps 0%Z) as [->|Hne].
  { assert (inject_Z 0 * nw == 0) as E by (change (inject_Z 0) with 0; ring).
    by rewrite (round_zero _ _ E), (Qred_complete _ _ E). }
  destruct Hex as [E0|(m & e & Hm & He & Em)].
  { assert (inject_Z ps * nw == 0) as E by (rewrite E0; ring).
    by rewrite (round_zero _ _ E), (Qred_complete _ _ E). }
  assert (0 < inject_Z ps) as Hps0 by (rewrite <- (Zlt_Qlt 0); lia).
  apply (round_exact binary64 ltac:(done)).
  - exists (ps * m)%Z, e. split; [|split; [lia|]].
    + change (prec binary64) with 53%Z. split; [nia|].
      assert (2 ^ 53 = 2 ^ (53 - prec fmt) * 2 ^ prec fmt)%Z as E53.
      { rewrite <- Z.pow_add_r by lia. f_equal. lia. }
      assert (0 < 2 ^ prec fmt)%Z by (apply Z.pow_pos_nonneg; lia).
      rewrite E53. nia.
    + rewrite Em, inject_Z_mult. ring.
  - apply Qle_lt_trans with (inject_Z ps).
    + rewrite <- (Qmult_1_r (inject_Z ps)) at 2. apply Qmult_le_l; lra.
    + rewrite pow2_Z by done. rewrite <- Zlt_Qlt. change (emax binary64) with 1024%Z.
      assert (2 ^ (53 - prec fmt) <= 2 ^ 53)%Z by (apply Z.pow_le_mono_r; lia).
      assert (2 ^ 53 < 2 ^ 1024)%Z by (apply Z.pow_lt_mono_r; lia). lia.
Qed.

(** *** Sums of floats *)


Section Sum.
Variable fmt : format.
Hypothesis prec_pos : (1 <= prec fmt)%Z.

Lemma round_idempotent (x q : Q) :
  0 <= x -> round fmt x = Finite q -> 0 <= q /\ round fmt q = Finite q.
Proof.
  intros Hx Hq. destruct (Qlt_le_dec 0 x) as [Hpos|Hz].
  - pose proof (round_is_exact fmt prec_pos x q Hpos Hq) as Hex.
    rewrite round_positive in Hq by done.
    destruct (Qle_bool _ _) eqn:Hov; [done|]. injection Hq as <-.
    pose proof (round_pos_nonneg fmt x Hpos) as H0.
    split; [by rewrite Qred_correct|].
    destruct Hex as [E0|Hex].
    + rewrite round_zero by done. f_equal.
      rewrite Qred_correct in E0. by rewrite (Qred_complete _ _ E0).
    + rewrite (round_exact fmt prec_pos _ Hex).
      * f_equal. apply Qred_complete, Qred_correct.
      * rewrite Qred_correct. apply Qnot_le_lt. intros H. apply Qle_bool_true in H. congruence.
  - rewrite round_zero in Hq by lra. injection Hq as <-. split; [lra|]. by apply round_zero.
Qed.

Lemma fadd_nonneg (a : float) (x : Q) :
  (a = Inf false \/ exists q, a = Finite q /\ 0 <= q /\ round fmt q = Finite q) ->
  0 <= x -> round fmt x = Finite x ->
  let a' := fadd fmt a (Finite x) in
  (a' = Inf false \/ exists q, a' = Finite q /\ 0 <= q /\ round fmt q = Finite q)
  /\ fle a a' = true /\ fle (Finite x) a' = true.
Proof.
  intros [->|(q & -> & Hq & Hrq)] Hx Hrx; cbn [fadd]; [by (split; [left|])|].
  assert (0 <= q + x) as H0 by lra.
  pose proof (round_mono fmt prec_pos q (q + x) Hq ltac:(lra)) as H1.
  pose proof (round_mono fmt prec_pos x (q + x) Hx ltac:(lra)) as H2.
  rewrite Hrq in H1. rewrite Hrx in H2. split; [|done].
  destruct (round_nonneg fmt (q + x) H0) as [->|(r & Hr & Hr0)]; [by left|].
  right. exists r. split; [done|]. by apply (round_idempotent (q + x)).
Qed.

Lemma fold_fadd_dominates (ws : list float) (a : float) :
  (a = Inf false \/ exists q, a = Finite q /\ 0 <= q /\ round fmt q = Finite q) ->
  Forall (nonneg_float fmt) ws ->
  fle a (fold_left (fadd fmt) ws a) = true
  /\ forall w, w ∈ ws -> fle w (fold_left (fadd fmt) ws a) = true.
Proof.
  intros Ha Hws. revert a Ha. induction Hws as [|w ws (x & -> & Hx & Hrx) _ IH]; intros a Ha.
  - simpl. split; [|by intros w Hw; apply elem_of_nil in Hw].
    destruct Ha as [->|(q & -> & Hq & _)]; [done|]. by apply fle_Finite, Qle_refl.
  - cbn [fold_left]. destruct (fadd_nonneg a x Ha Hx Hrx) as (Ha' & H1 & H2).
    destruct (IH _ Ha') as [I1 I2]. split; [by eapply fle_trans|].
    intros w Hw. apply elem_of_cons in Hw as [->|Hw]; [by eapply fle_trans|by apply I2].
Qed.

Lemma sequential_sum_dominates (ws : list float) (w : float) :
  Forall (nonneg_float fmt) ws -> w ∈ ws -> fle w (sequential_sum fmt ws) = true.
Proof.
  intros Hws Hw. apply fold_fadd_dominates; [|done|done].
  right. exists 0. split; [done|]. split; [lra|by apply round_zero].
Qed.

End Sum.

(** A quotient that is an integer of at most 53 bits is exact. *)
Lemma truediv_multiple (k b : Z) :
  (0 <= k <= 2 ^ 53)%Z -> (0 < b)%Z ->
  exists q, int_truediv (k * b) b = Ok (Finite q) /\ q == inject_Z k.
Proof.
  intros Hk Hb. unfold int_truediv. destruct (Z.eqb_spec b 0) as [|_]; [lia|].
  assert (0 < inject_Z b) as HB by (rewrite <- (Zlt_Qlt 0); lia).
  assert (inject_Z (k * b) / inject_Z b == inject_Z k) as E.
  { rewrite inject_Z_mult. field. lra. }
  assert (0 <= inject_Z k) as Hk0 by (rewrite <- (Zle_Qle 0); lia).
  assert (0 <= inject_Z (k * b) / inject_Z b) as H0 by (by rewrite E).
  rewrite (round_comp binary64 _ _ H0 E).
  destruct (float_of_int_exact k Hk) as (p & Hp & Ep). unfold float_of_int in Hp.
  destruct (round binary64 (inject_Z k)) as [q| |]; try done.
  injection Hp as ->. by exists p.
Qed.

(** A quotient of an int below [2^53] by a positive int is a float. *)
Lemma truediv_finite (a b : Z) :
  (0 <= a <= 2 ^ 53)%Z -> (0 < b)%Z ->
  exists q, int_truediv a b = Ok (Finite q) /\ 0 <= q <= inject_Z a.
Proof.
  intros Ha Hb. unfold int_truediv. destruct (Z.eqb_spec b 0) as [|_]; [lia|].
  assert (1 <= inject_Z b) as HB by (change 1 with (inject_Z 1); rewrite <- Zle_Qle; lia).
  assert (0 <= inject_Z a) as HA by (rewrite <- (Zle_Qle 0); lia).
  assert (0 <= inject_Z a / inject_Z b) as H0 by (apply Qle_shift_div_l; lra).
  destruct (Z.eq_dec a 0%Z) as [->|Hne].
  { rewrite round_zero by (change (inject_Z 0) with 0; field; lra).
    exists 0. split; [done|]. change (inject_Z 0) with 0. lra. }
  destruct (round_le binary64 ltac:(done) (inject_Z a / inject_Z b) (inject_Z a) H0)
    as (q & Hq & Hq01).
  - apply Qle_shift_div_r; [lra|]. rewrite <- (Qmult_1_r (inject_Z a)) at 1.
    apply Qmult_le_l; [|done]. rewrite <- (Zlt_Qlt 0). lia.
  - apply in_format_Z; [|done]. change (prec binary64) with 53%Z. lia.
  - rewrite pow2_Z by done. rewrite <- Zlt_Qlt. change (emax binary64) with 1024%Z.
    assert (2 ^ 53 < 2 ^ 1024)%Z by (apply Z.pow_lt_mono_r; lia). lia.
  - rewrite Hq. by exists q.
Qed.

(** A number below half the least positive float is rounded to zero. *)
Lemma round_underflow (fmt : format) (x : Q) :
  (1 <= prec fmt)%Z -> 0 < x -> x < pow2 (emin fmt - 1) -> round fmt x = Finite 0.
Proof.
  intros Hp Hx Hlt. rewrite round_positive by done.
  assert (mag x <= emin fmt - 1)%Z as Hmag by (by apply mag_le).
  assert (round_pos fmt x == 0) as E.
  { unfold round_pos. 
    assert (fexp fmt x = emin fmt) as -> by (unfold fexp; lia).
    pose proof (pow2_gt_0 (emin fmt)) as Pe.
    assert (pow2 (emin fmt) == 2 * pow2 (emin fmt - 1)) as E2.
    { rewrite <- pow2_succ. apply Qpower_comp; [reflexivity|lia]. }
    set (y := x / pow2 (emin fmt)).
    assert (0 <= y) as Hy0 by (apply Qle_shift_div_l; lra).
    assert (y < 1 # 2) as Hy1 by (apply Qlt_shift_div_r; lra).
    assert (Qfloor y = 0%Z) as Ef.
    { pose proof (Qfloor_le y) as H1. pose proof (Qlt_floor y) as H2.
      assert (inject_Z (Qfloor y) < inject_Z 1) as H3 by (change (inject_Z 1) with 1; lra).
      assert (inject_Z 0 < inject_Z (Qfloor y + 1)) as H4
        by (change (inject_Z 0) with 0; lra).
      rewrite <- Zlt_Qlt in H3, H4. lia. }
    assert (rne y = 0%Z) as ->; [|change (inject_Z 0) with 0; ring].
    unfold rne. rewrite Ef.
    assert ((y - inject_Z 0 ?= 1 # 2) = Lt) as ->; [|done].
    apply (proj1 (Qlt_alt _ _)). change (inject_Z 0) with 0. lra. }
  rewrite Qle_bool_false by (rewrite E; apply pow2_gt_0).
  by rewrite (Qred_complete _ _ E).
Qed.

(** *** Order and the operations *)

Lemma float_of_int_eq (n : Z) :
  (0 <= n <= 2 ^ 53)%Z -> float_of_int n = Ok (Finite (Qred (inject_Z n))).
Proof.
  intros Hn. unfold float_of_int. destruct (Z.eq_dec n 0%Z) as [->|Hne].
  - by rewrite round_zero.
  - rewrite (round_exact binary64 ltac:(done)); [done| |].
    + apply in_format_Z; [|done]. change (prec binary64) with 53%Z. lia.
    + rewrite pow2_Z by done. rewrite <- Zlt_Qlt. change (emax binary64) with 1024%Z.
      assert (2 ^ 53 < 2 ^ 1024)%Z by (apply Z.pow_lt_mono_r; lia). lia.
Qed.

Lemma fle_zero_round (fmt : format) (x : Q) : 0 <= x -> fle (Finite 0) (round fmt x) = true.
Proof.
  intros Hx. destruct (round_nonneg fmt x Hx) as [->|(q & -> & Hq)]; [done|].
  by apply fle_Finite.
Qed.

Lemma fle_zero_cases (a : float) :
  fle (Finite 0) a = true -> a = Inf false \/ exists x, a = Finite x /\ 0 <= x.
Proof.
  destruct a as [x|[]|]; try done; [|by left].
  intros H. apply fle_Finite in H. right. by exists x.
Qed.

Section Monotone.
Variable fmt : format.
Hypothesis prec_pos : (1 <= prec fmt)%Z.

Lemma fmul_mono_r (x y y' : Q) :
  0 <= x -> 0 <= y -> y <= y' ->
  fle (Finite 0) (fmul fmt (Finite x) (Finite y)) = true
  /\ fle (fmul fmt (Finite x) (Finite y)) (fmul fmt (Finite x) (Finite y')) = true.
Proof.
  intros Hx Hy Hyy'. cbn [fmul].
  assert (0 <= x * y) as H0 by (apply Qmult_le_0_compat; lra).
  split; [by apply fle_zero_round|].
  apply (round_mono fmt prec_pos); [done|]. rewrite !(Qmult_comm x). apply Qmult_le_compat_r; lra.
Qed.

Lemma fdiv_mono_l (a a' : float) (c : Q) :
  0 < c -> fle (Finite 0) a = true -> fle a a' = true ->
  fle (Finite 0) (fdiv fmt a (Finite c)) = true
  /\ fle (fdiv fmt a (Finite c)) (fdiv fmt a' (Finite c)) = true.
Proof.
  intros Hc Ha Haa'.
  assert (Qneg c = false) as Hneg by (unfold Qneg; rewrite Qle_bool_true by lra; done).
  destruct (fle_zero_cases a Ha) as [->|(x & -> & Hx)].
  { destruct a' as [?|[]|]; try done. cbn [fdiv]. by rewrite Hneg. }
  assert (0 <= x / c) as H0 by (apply Qle_shift_div_l; lra).
  cbn [fdiv]. rewrite Qeq_bool_false by lra.
  split; [by apply fle_zero_round|].
  destruct a' as [x'|[]|]; try done; cbn [fdiv].
  - apply fle_Finite in Haa'. rewrite Qeq_bool_false by lra.
    apply (round_mono fmt prec_pos); [done|].
    apply Qmult_le_compat_r; [done|]. apply Qlt_le_weak, Qinv_lt_0_compat, Hc.
  - rewrite Hneg. cbn [xorb].
    destruct (round_nonneg fmt (x / c) H0) as [->|(q & -> & _)]; done.
Qed.

Lemma fadd_mono_r (m : Q) (t t' : float) :
  0 <= m -> fle (Finite 0) t = true -> fle t t' = true ->
  fle (Finite 0) (fadd fmt (Finite m) t) = true
  /\ fle (fadd fmt (Finite m) t) (fadd fmt (Finite m) t') = true
  /\ (round fmt m = Finite m -> fle (Finite m) (fadd fmt (Finite m) t) = true).
Proof.
  intros Hm Ht Htt'.
  destruct (fle_zero_cases t Ht) as [->|(x & -> & Hx)].
  { destruct t' as [?|[]|]; try done. }
  cbn [fadd]. split; [apply fle_zero_round; lra|]. split.
  - destruct t' as [x'|[]|]; try done; cbn [fadd].
    + apply fle_Finite in Htt'. apply (round_mono fmt prec_pos); lra.
    + destruct (round_nonneg fmt (m + x) ltac:(lra)) as [->|(q & -> & _)]; done.
  - intros Hrm. rewrite <- Hrm at 1. apply (round_mono fmt prec_pos); lra.
Qed.

End Monotone.

End FloatFacts.

(** *** Agreement with the standard library's IEEE 754 *)

(** The operations of this model give what [SpecFloat]'s give, here on
    the quotients 1/6 and 5/6 in binary32, on the int [2^53 + 1] as a
    double, on the products and quotients of 0.1 * 3 / 3 / 0.1, 0.7 * 10 and
    0.29 * 100 in doubles, and on a quotient that is half the least positive
    double. *)
Example agrees_with_SpecFloat :
  let f32 m e := binary_normalize 24 128 m e false in
  let f64 m e := binary_normalize 53 1024 m e false in
  let tenth := SFdiv 53 1024 (f64 1 0) (f64 10 0) in
  Float.of_spec (SFdiv 24 128 (f32 1 0) (f32 6 0)) = Float.fdiv Float.binary32 (Float.Finite 1) (Float.Finite 6)
  /\ Float.of_spec (SFdiv 24 128 (f32 5 0) (f32 6 0)) = Float.fdiv Float.binary32 (Float.Finite 5) (Float.Finite 6)
  /\ Float.of_spec (f64 (2 ^ 53 + 1) 0) = Float.round Float.binary64 (inject_Z (2 ^ 53 + 1))
  /\ Float.of_spec tenth = Float.round Float.binary64 (1 # 10)
  /\ Float.of_spec (SFdiv 53 1024 (SFdiv 53 1024 (SFmul 53 1024 tenth (f64 3 0)) (f64 3 0)) tenth)
     = Float.fdiv Float.binary64
         (Float.fdiv Float.binary64 (Float.fmul Float.binary64 (Float.round Float.binary64 (1 # 10)) (Float.Finite 3)) (Float.Finite 3))
         (Float.round Float.binary64 (1 # 10))
  /\ Float.of_spec (SFmul 53 1024 (SFdiv 53 1024 (f64 7 0) (f64 10 0)) (f64 10 0))
     = Float.fmul Float.binary64 (Float.round Float.binary64 (7 # 10)) (Float.Finite 10)
  /\ Float.of_spec (SFmul 53 1024 (SFdiv 53 1024 (f64 29 0) (f64 100 0)) (f64 100 0))
     = Float.fmul Float.binary64 (Float.round Float.binary64 (29 # 100)) (Float.Finite 100)
  /\ Float.of_spec (SFdiv 53 1024 (f64 1 (-1000)) (f64 1 75))
     = Float.fdiv Float.binary64 (Float.Finite (Float.pow2 (-1000))) (Float.Finite (Float.pow2 75))
  /\ Float.of_spec (SFdiv 53 1024 (f64 3 (-1000)) (f64 1 75))
     = Float.fdiv Float.binary64 (Float.Finite (3 * Float.pow2 (-1000))%Q) (Float.Finite (Float.pow2 75))
  /\ Float.of_spec (SFmul 53 1024 (f64 1 1000) (f64 1 24)) = Float.fmul Float.binary64 (Float.Finite (Float.pow2 1000)) (Float.Finite (Float.pow2 24)).
Proof. by vm_compute. Qed.

(** ** Skipping batches *)

Lemma skip_enumerate_from {B} (k : Z) (l : list B) (i : Z) :
  flat_map (fun '(index, samples) => if index >=? k then [samples] else [])
           (SkipBatchSampler.enumerate_from i l)
  = drop (Z.to_nat (k - i)) l.
Proof.
  revert i. induction l as [|x r IH]; intros i; simpl.
  - by rewrite drop_nil.
  - rewrite IH. destruct (Z.geb_spec i k) as [Hge|Hlt].
    + replace (Z.to_nat (k - i)) with 0%nat by lia.
      replace (Z.to_nat (k - (i + 1))) with 0%nat by lia. done.
    + replace (Z.to_nat (k - i)) with (S (Z.to_nat (k - (i + 1)))) by lia. done.
Qed.

(** C8: a batch sampler wrapped with skip count [S] and data-parallel
    size [dp_size] yields the batches of the wrapped sampler from position
    [S // dp_size] on, in their order: the first [S // dp_size] are
    dropped. *)
Theorem skip_batch_sampler_iter {B} (batches : list B) (S dp_size : Z) :
  dp_size ≠ 0 ->
  exists self,
    SkipBatchSampler.__init__ batches S dp_size = Ok self
    /\ SkipBatchSampler.skip_batches self = S / dp_size
    /\ SkipBatchSampler.__iter__ self = drop (Z.to_nat (S / dp_size)) batches.
Proof.
  intros Hdp. unfold SkipBatchSampler.__init__.
  destruct (Z.eqb_spec dp_size 0) as [|_]; [done|].
  eexists; split; [reflexivity|]. split; [reflexivity|].
  unfold SkipBatchSampler.__iter__; simpl.
  rewrite skip_enumerate_from. by rewrite Z.sub_0_r.
Qed.

Lemma skip_batch_sampler_iter_witness :
  exists self,
    SkipBatchSampler.__init__ [[1; 2]; [3; 4]; [5; 6]; [7; 8]] 5 2 = Ok self
    /\ SkipBatchSampler.skip_batches self = 5 / 2
    /\ SkipBatchSampler.__iter__ self
       = drop (Z.to_nat (5 / 2)) [[1; 2]; [3; 4]; [5; 6]; [7; 8]].
Proof. apply (skip_batch_sampler_iter [[1; 2]; [3; 4]; [5; 6]; [7; 8]] 5 2). lia. Defined.

Example skip_batch_sampler_example :
  (self ← SkipBatchSampler.__init__ [[1; 2]; [3; 4]; [5; 6]; [7; 8]] 5 2;
   Ok (SkipBatchSampler.__iter__ self))
  = Ok [[5; 6]; [7; 8]].
Proof. reflexivity. Qed.

(** ** The combined dataset *)

Lemma sum_app (l1 l2 : list Z) : sum (l1 ++ l2) = sum l1 + sum l2.
Proof. unfold sum. induction l1 as [|x l1 IH]; simpl; lia. Qed.

Lemma sum_nonneg (l : list Z) : Forall (fun x => 0 <= x) l -> 0 <= sum l.
Proof. unfold sum. induction 1; simpl; lia. Qed.

Lemma sum_take_S (l : list Z) (i : nat) (x : Z) :
  l !! i = Some x -> sum (take (S i) l) = sum (take i l) + x.
Proof.
  intros H. rewrite (take_S_r _ _ _ H), sum_app. unfold sum; simpl. lia.
Qed.

Lemma sum_take_mono (l : list Z) (i j : nat) :
  Forall (fun x => 0 <= x) l -> (i <= j)%nat -> sum (take i l) <= sum (take j l).
Proof.
  intros Hl Hij.
  replace j with (i + (j - i))%nat by lia.
  rewrite <- take_take_drop, sum_app.
  assert (0 <= sum (take (j - i) (drop i l))); [|lia].
  apply sum_nonneg. by apply Forall_take, Forall_drop.
Qed.

Lemma cumsum_from_length (a : Z) (l : list Z) :
  length (cumsum_from a l) = length l.
Proof. revert a. induction l; intros; simpl; auto. Qed.

Lemma cumsum_from_lookup (l : list Z) (a : Z) (i : nat) :
  (i < length l)%nat -> cumsum_from a l !! i = Some (a + sum (take (S i) l)).
Proof.
  revert a i. induction l as [|x l IH]; intros a i Hi; simpl in *; [lia|].
  destruct i as [|i]; simpl.
  - f_equal. unfold sum; simpl. lia.
  - rewrite IH by lia. f_equal. unfold sum; simpl. lia.
Qed.

Lemma removelast_length {A} (l : list A) :
  length (removelast l) = (length l - 1)%nat.
Proof.
  induction l as [|x l IH]; [done|].
  destruct l; [done|]. simpl in *. lia.
Qed.

Lemma take_removelast {A} (l : list A) (i : nat) :
  (i < length l)%nat -> take i (removelast l) = take i l.
Proof.
  revert i. induction l as [|x l IH]; intros i Hi; [done|].
  destruct l as [|y l]; simpl in *.
  - destruct i; [done|lia].
  - destruct i; [done|]. simpl. f_equal. apply IH. simpl. lia.
Qed.

(** The offsets are the running sums of the lengths. *)
Lemma offsets_length (L : list Z) :
  length (cumsum (0 :: removelast L)) = S (length L - 1).
Proof. unfold cumsum. rewrite cumsum_from_length. simpl. by rewrite removelast_length. Qed.

Lemma offsets_lookup (L : list Z) (i : nat) :
  (i < S (length L - 1))%nat ->
  cumsum (0 :: removelast L) !! i = Some (sum (take i L)).
Proof.
  intros Hi. unfold cumsum.
  rewrite cumsum_from_lookup by (simpl; rewrite removelast_length; lia).
  f_equal. simpl. unfold sum at 1; simpl. fold (sum (take i (removelast L))).
  destruct (decide (i < length L)%nat) as [Hlt|Hge].
  - by rewrite take_removelast.
  - rewrite !take_ge; [|lia|rewrite removelast_length; lia].
    assert (L = []) as -> by (destruct L; [done|simpl in *; lia]). done.
Qed.

Lemma scan_from (L : list Z) (g : Z) :
  Forall (fun x => 0 <= x) L ->
  forall k i : nat,
    (i + k = S (length L - 1))%nat ->
    sum (take i L) <= g ->
    match CombinedDataset.scan L i (drop i (cumsum (0 :: removelast L))) g with
    | Ok (j, loc) =>
        (j < length L)%nat /\ loc = g - sum (take j L)
        /\ sum (take j L) <= g < sum (take (S j) L)
    | Raise e => (exists msg, e = IndexError msg) /\ sum L <= g
    end.
Proof.
  intros HL. induction k as [|k IH]; intros i Hik Hg.
  - rewrite drop_ge by (rewrite offsets_length; lia). simpl.
    split; [eauto|]. rewrite take_ge in Hg by lia. done.
  - pose proof (offsets_lookup L i ltac:(lia)) as Hoff.
    rewrite (drop_S _ _ _ Hoff). simpl.
    destruct (L !! i) as [len|] eqn:Hlen.
    + destruct (Z.ltb_spec g (sum (take i L) + len)) as [Hlt|Hge].
      * split; [by eapply lookup_lt_Some|]. split; [done|].
        rewrite (sum_take_S _ _ _ Hlen). lia.
      * apply IH; [lia|]. rewrite (sum_take_S _ _ _ Hlen). lia.
    + split; [eauto|]. apply lookup_ge_None in Hlen.
      rewrite take_ge in Hg by lia. done.
Qed.

(** C9: in a combined dataset over sub-datasets of lengths [L_0 ..],
    [__len__] is the sum of the lengths; a global index [g] with
    [0 <= g < sum] is sent to the one pair [(i, g - offset_i)] with
    [offset_i <= g < offset_i + L_i]; an index [g >= sum] raises
    [IndexError]. *)
Theorem combined_dataset_index {sample} (ds : list (list sample)) (g : Z) :
  let self := CombinedDataset.__init__ ds in
  let L := map (fun d => Z.of_nat (length d)) ds in
  CombinedDataset.__len__ self = sum L
  /\ (0 <= g < sum L ->
      exists i offset len,
        CombinedDataset.get_dataset_and_local_index self g = Ok (i, g - offset)
        /\ CombinedDataset.offsets self !! i = Some offset
        /\ CombinedDataset.lengths self !! i = Some len
        /\ offset = sum (take i L)
        /\ offset <= g < offset + len
        /\ forall j offset' len',
             CombinedDataset.offsets self !! j = Some offset' ->
             CombinedDataset.lengths self !! j = Some len' ->
             offset' <= g < offset' + len' -> j = i)
  /\ (sum L <= g ->
      exists msg,
        CombinedDataset.get_dataset_and_local_index self g = Raise (IndexError msg)).
Proof.
  intros self L.
  assert (HL : Forall (fun x => 0 <= x) L).
  { subst L. clear. induction ds; simpl; constructor; [lia|done]. }
  pose proof (scan_from L g HL (S (length L - 1)) 0 ltac:(lia)) as Hscan.
  rewrite drop_0, take_0 in Hscan.
  change (CombinedDataset.scan L 0 (cumsum (0 :: removelast L)) g)
    with (CombinedDataset.get_dataset_and_local_index self g) in Hscan.
  split; [done|]. split.
  - intros [Hg0 Hg]. specialize (Hscan Hg0).
    destruct (CombinedDataset.get_dataset_and_local_index self g) as [[i loc]|e].
    + destruct Hscan as (Hi & -> & Hlo & Hhi).
      destruct (lookup_lt_is_Some_2 L i Hi) as [len Hlen].
      rewrite (sum_take_S _ _ _ Hlen) in Hhi.
      exists i, (sum (take i L)), len. split; [done|].
      split; [apply offsets_lookup; lia|]. split; [done|]. split; [done|].
      split; [lia|].
      intros j off' len' Hoff' Hlen' Hj. simpl in Hoff', Hlen'.
      fold L in Hoff', Hlen'.
      assert (j < length L)%nat by (by eapply lookup_lt_Some).
      rewrite offsets_lookup in Hoff' by lia. injection Hoff' as <-.
      destruct (Nat.lt_trichotomy j i) as [Hji|[->|Hij]]; [|done|].
      * pose proof (sum_take_mono L (S j) i HL ltac:(lia)).
        rewrite (sum_take_S _ _ _ Hlen') in *. lia.
      * pose proof (sum_take_mono L (S i) j HL ltac:(lia)).
        rewrite (sum_take_S _ _ _ Hlen) in *. lia.
    + destruct Hscan as [_ ?]. lia.
  - intros Hg.
    assert (0 <= g) as Hg0 by (pose proof (sum_nonneg L HL); lia).
    specialize (Hscan Hg0).
    destruct (CombinedDataset.get_dataset_and_local_index self g) as [[i loc]|e].
    + destruct Hscan as (Hi & _ & _ & Hhi).
      pose proof (sum_take_mono L (S i) (length L) HL ltac:(lia)) as Hm.
      rewrite (take_ge L (length L)) in Hm by lia. lia.
    + destruct Hscan as [[msg ->] _]. eauto.
Qed.

Example combined_dataset_example :
  let self := CombinedDataset.__init__ [replicate 100 (); replicate 50 ()] in
  CombinedDataset.offsets self = [0; 100]
  /\ CombinedDataset.get_dataset_and_local_index self 99 = Ok (0%nat, 99)
  /\ CombinedDataset.get_dataset_and_local_index self 100 = Ok (1%nat, 0)
  /\ CombinedDataset.get_dataset_and_local_index self 149 = Ok (1%nat, 49)
  /\ CombinedDataset.get_dataset_and_local_index self 150
     = Raise (IndexError "Index out of range")
  /\ CombinedDataset.get_dataset_and_local_index
       (CombinedDataset.__init__ (sample := unit) []) 0
     = Raise (IndexError "list index out of range").
Proof. vm_compute. repeat split. Qed.

Lemma combined_dataset_index_witness :
  let ds := [replicate 3 (); replicate 2 ()] in
  0 <= 4 < sum (map (fun d => Z.of_nat (length d)) ds)
  /\ exists i offset len,
       CombinedDataset.get_dataset_and_local_index (CombinedDataset.__init__ ds) 4
       = Ok (i, 4 - offset)
       /\ CombinedDataset.offsets (CombinedDataset.__init__ ds) !! i = Some offset
       /\ CombinedDataset.lengths (CombinedDataset.__init__ ds) !! i = Some len
       /\ offset <= 4 < offset + len.
Proof.
  intros ds.
  assert (H : 0 <= 4 < sum (map (fun d => Z.of_nat (length d)) ds)) by (vm_compute; split; congruence).
  split; [exact H|].
  destruct (combined_dataset_index ds 4) as (_ & Hin & _).
  destruct (Hin H) as (i & offset & len & H1 & H2 & H3 & _ & H5 & _).
  exists i, offset, len. auto.
Defined.

(** ** Persistence of the optimizer built from a gradient accumulator *)

Section OptimizerRoundTrip.
Import OptimizerFromGradientAccumulator.
Context {V O G : Type} `{!BaseOptimizer (V := V) O, !GradientAccumulator (V := V) G}.

Lemma state_dict_collision (self : t O G) :
  "gradient_accumulator" ∈ dom (base_state_dict (optimizer self)) ->
  exists msg, state_dict self = Raise (AssertionError msg).
Proof.
  intros Hin. unfold state_dict, super_state_dict.
  rewrite bool_decide_eq_true_2 by done. eauto.
Qed.

Lemma load_state_dict_missing_key (self : t O G) (sd : gmap string V) :
  sd !! "gradient_accumulator" = None ->
  load_state_dict self sd = Raise (KeyError "gradient_accumulator").
Proof. intros H. unfold load_state_dict. by rewrite H. Qed.

End OptimizerRoundTrip.

(** C5: [state_dict] nests the accumulator's state under the key
    "gradient_accumulator", after asserting that the base optimizer's state
    dict does not have that key; [load_state_dict] takes the key out of the
    mapping before the rest goes to the base optimizer, which so never sees
    it; and for a base optimizer and an accumulator that each restore their
    own state from their own state dict, [load_state_dict(state_dict())]
    gives back the same base-optimizer state and accumulator. *)
Theorem optimizer_state_dict_round_trip {V O G : Type}
    `{!OptimizerFromGradientAccumulator.BaseOptimizer (V := V) O,
      !OptimizerFromGradientAccumulator.GradientAccumulator (V := V) G}
    (self : OptimizerFromGradientAccumulator.t O G) :
  let base := OptimizerFromGradientAccumulator.optimizer self in
  let acc := OptimizerFromGradientAccumulator.gradient_accumulator self in
  let base_sd := OptimizerFromGradientAccumulator.base_state_dict base in
  (forall o : O,
     OptimizerFromGradientAccumulator.base_load_state_dict o
       (OptimizerFromGradientAccumulator.base_state_dict o) = Ok o) ->
  (forall g : G,
     OptimizerFromGradientAccumulator.acc_load_state_dict g
       (OptimizerFromGradientAccumulator.acc_state_dict g) = Ok g) ->
  ("gradient_accumulator" ∈ dom base_sd ->
     exists msg,
       OptimizerFromGradientAccumulator.state_dict self = Raise (AssertionError msg))
  /\ ("gradient_accumulator" ∉ dom base_sd ->
      exists sd,
        OptimizerFromGradientAccumulator.state_dict self = Ok sd
        /\ sd !! "gradient_accumulator"
           = Some (OptimizerFromGradientAccumulator.acc_state_dict acc)
        /\ (forall k, k ≠ "gradient_accumulator" -> sd !! k = base_sd !! k)
        /\ OptimizerFromGradientAccumulator.load_state_dict self sd = Ok (self, base_sd))
  /\ (forall (sd : gmap string V) (v : V),
        sd !! "gradient_accumulator" = Some v ->
        let rest := delete "gradient_accumulator" sd in
        rest !! "gradient_accumulator" = None
        /\ OptimizerFromGradientAccumulator.load_state_dict self sd
           = (o ← OptimizerFromGradientAccumulator.base_load_state_dict base rest;
              g ← OptimizerFromGradientAccumulator.acc_load_state_dict acc v;
              Ok ({| OptimizerFromGradientAccumulator.optimizer := o;
                     OptimizerFromGradientAccumulator.gradient_accumulator := g |},
                  rest))).
Proof.
  intros base acc base_sd Hbase Hacc. split; [apply state_dict_collision|]. split.
  - intros Hnotin.
    unfold OptimizerFromGradientAccumulator.state_dict,
      OptimizerFromGradientAccumulator.super_state_dict.
    fold base base_sd acc. rewrite bool_decide_eq_false_2 by done.
    eexists. split; [reflexivity|]. split; [apply lookup_insert_eq|].
    split; [intros k Hk; by apply lookup_insert_ne|].
    unfold OptimizerFromGradientAccumulator.load_state_dict.
    rewrite lookup_insert_eq, delete_insert_id
      by (by apply not_elem_of_dom).
    unfold OptimizerFromGradientAccumulator.super_load_state_dict.
    fold base. subst base_sd. rewrite Hbase. simpl. fold acc. rewrite Hacc. simpl.
    by destruct self.
  - intros sd v Hv rest. split; [apply lookup_delete_eq|].
    unfold OptimizerFromGradientAccumulator.load_state_dict. rewrite Hv.
    unfold OptimizerFromGradientAccumulator.super_load_state_dict. fold rest base.
    destruct (OptimizerFromGradientAccumulator.base_load_state_dict base rest); done.
Qed.

Lemma optimizer_state_dict_round_trip_witness :
  exists sd,
    OptimizerFromGradientAccumulator.state_dict Examples.wrapped = Ok sd
    /\ sd !! "gradient_accumulator" = Some [4; 5; 6]
    /\ OptimizerFromGradientAccumulator.load_state_dict Examples.wrapped sd
       = Ok (Examples.wrapped, {[ "exp_avg" := [1; 2; 3] ]}).
Proof.
  destruct (optimizer_state_dict_round_trip Examples.wrapped) as (_ & H & _).
  - intros [e]. reflexivity.
  - intros [g]. reflexivity.
  - destruct H as (sd & H1 & H2 & _ & H4).
    + apply not_elem_of_dom. vm_compute. reflexivity.
    + exists sd. auto.
Defined.

(** ** Pair-to-pair comparison rounds *)

Lemma concat_reshape_replicate {A} (m d : nat) (l : list A) :
  length l = (m * d)%nat -> concat (reshape (replicate m d) l) = l.
Proof.
  revert l. induction m as [|m IH]; intros l Hl; simpl in *.
  - by destruct l.
  - rewrite IH by (rewrite length_drop; lia). apply take_drop.
Qed.

Lemma reshape_replicate_lengths {A} (m d : nat) (l : list A) :
  length l = (m * d)%nat ->
  Forall (fun row => length row = d) (reshape (replicate m d) l).
Proof.
  revert l. induction m as [|m IH]; intros l Hl; simpl in *; constructor.
  - rewrite length_take. lia.
  - apply IH. rewrite length_drop. lia.
Qed.

Lemma reshape_rows_ok {A} (a : list A) (d : nat) :
  d ≠ 0%nat -> (length a mod d = 0)%nat ->
  exists rows,
    Helpers.reshape_rows a d = Ok rows
    /\ concat rows = a
    /\ length rows = (length a / d)%nat
    /\ Forall (fun row => length row = d) rows.
Proof.
  intros Hd Hmod. unfold Helpers.reshape_rows.
  rewrite bool_decide_eq_true_2 by done.
  assert (length a = (length a / d * d)%nat) as Hlen.
  { pose proof (Nat.div_mod_eq (length a) d). lia. }
  eexists. split; [reflexivity|]. split; [by apply concat_reshape_replicate|].
  split; [by rewrite length_reshape, length_replicate|].
  by apply reshape_replicate_lengths.
Qed.

Lemma roll_Permutation {A} (r : nat) (row : list A) :
  Permutation (Helpers.roll r row) row.
Proof.
  unfold Helpers.roll. rewrite Permutation_app_comm. by rewrite take_drop.
Qed.

Lemma concat_imap_Permutation {A} (f : nat -> list A -> list A) (rows : list (list A)) :
  (forall i row, Permutation (f i row) row) ->
  Permutation (concat (imap f rows)) (concat rows).
Proof.
  revert f. induction rows as [|row rows IH]; intros f Hf; simpl; [done|].
  apply Permutation_app; [apply Hf|]. apply IH. intros i; apply Hf.
Qed.

Lemma imap_lengths {A} (f : nat -> list A -> list A) (d : nat) (rows : list (list A)) :
  (forall i row, length (f i row) = length row) ->
  Forall (fun row => length row = d) rows ->
  Forall (fun row => length row = d) (imap f rows).
Proof.
  intros Hf H. revert f Hf. induction H as [|row rows Hrow _ IH]; intros f Hf; simpl.
  - constructor.
  - constructor; [by rewrite Hf|]. apply IH. intros i; apply Hf.
Qed.

Lemma concat_map_cons_Permutation {A J} (f : J -> A) (g : J -> list A) (js : list J) :
  Permutation (concat (map (fun j => f j :: g j) js)) (map f js ++ concat (map g js)).
Proof.
  induction js as [|j js IH]; simpl; [done|].
  constructor. rewrite IH. apply Permutation_app_swap_app.
Qed.

Lemma map_nth_seq (row : list nat) :
  map (fun j => nth j row 0%nat) (seq 0 (length row)) = row.
Proof.
  apply nth_ext with (d := 0%nat) (d' := 0%nat).
  - by rewrite length_map, length_seq.
  - intros n Hn. rewrite length_map, length_seq in Hn.
    rewrite (nth_indep _ _ (nth 0 row 0%nat)) by (by rewrite length_map, length_seq).
    rewrite (map_nth (fun j => nth j row 0%nat)).
    by rewrite seq_nth.
Qed.

Lemma transpose_Permutation (d : nat) (rows : list (list nat)) :
  Forall (fun row => length row = d) rows ->
  Permutation (concat (Helpers.transpose d rows)) (concat rows).
Proof.
  unfold Helpers.transpose. induction 1 as [|row rows Hrow _ IH]; simpl.
  - induction (seq 0 d); simpl; auto.
  - rewrite (concat_map_cons_Permutation (fun j => nth j row 0%nat)
               (fun j => map (fun row0 => nth j row0 0%nat) rows)).
    rewrite IH. subst d. by rewrite map_nth_seq.
Qed.

Lemma op_ok (x : list nat) (d r : nat) :
  d ≠ 0%nat -> (length x mod d = 0)%nat ->
  exists x' out,
    Helpers.op x d r = Ok (x', out) /\ Permutation x' x /\ Permutation out x.
Proof.
  intros Hd Hmod. unfold Helpers.op.
  destruct (reshape_rows_ok x d Hd Hmod) as (rows & -> & Hcat & _ & Hlen). simpl.
  set (f := fun (i : nat) (row : list nat) => if Nat.odd i then Helpers.roll r row else row).
  assert (Hf : forall i row, Permutation (f i row) row).
  { intros i row. unfold f. destruct (Nat.odd i); [apply roll_Permutation|done]. }
  eexists _, _. split; [reflexivity|].
  assert (Permutation (concat (imap f rows)) x) as Hx'.
  { etrans; [by apply concat_imap_Permutation|]. by rewrite Hcat. }
  split; [done|].
  rewrite transpose_Permutation; [done|].
  apply imap_lengths; [|done]. intros i row. apply Permutation_length, Hf.
Qed.

Lemma for_r_ok (d : nat) (rs : list nat) :
  d ≠ 0%nat ->
  forall (x : list nat) (comps : list (list nat)),
    (length x mod d = 0)%nat ->
    exists x' outs,
      Helpers.for_r d rs x comps = Ok (x', comps ++ outs)
      /\ Permutation x' x
      /\ length outs = length rs
      /\ Forall (fun out => Permutation out x) outs.
Proof.
  intros Hd. induction rs as [|r rs IH]; intros x comps Hmod; simpl.
  - exists x, []. rewrite app_nil_r. auto.
  - destruct (op_ok x d r Hd Hmod) as (x1 & out & -> & Hx1 & Hout). simpl.
    destruct (IH x1 (comps ++ [out])) as (x' & outs & -> & Hx' & Hlen & Houts).
    { by rewrite (Permutation_length Hx1). }
    exists x', (out :: outs). rewrite <- app_assoc. split; [done|].
    split; [by rewrite Hx'|]. split; [simpl; lia|].
    constructor; [done|].
    eapply Forall_impl; [exact Houts|]. intros o Ho. by rewrite Ho.
Qed.

Lemma pow2_pos (j : nat) : (0 < 2 ^ j)%nat.
Proof. induction j; simpl; lia. Qed.

Lemma pow2_mod (j k : nat) : (j <= k)%nat -> (2 ^ k mod 2 ^ j = 0)%nat.
Proof.
  intros Hjk. replace k with ((k - j) + j)%nat by lia.
  rewrite Nat.pow_add_r. apply Nat.Div0.mod_mul.
Qed.

Lemma while_d_ok (k : nat) :
  forall (fuel j : nat) (x : list nat) (comps : list (list nat)),
    (j <= k)%nat -> length x = (2 ^ k)%nat -> (2 ^ k <= fuel + 2 ^ j)%nat ->
    exists outs,
      Helpers.while_d fuel (2 ^ k) (2 ^ j) x comps = Ok (comps ++ outs)
      /\ length outs = (2 ^ k - 2 ^ j)%nat
      /\ Forall (fun out => Permutation out x) outs.
Proof.
  induction fuel as [|fuel IH]; intros j x comps Hjk Hx Hfuel.
  - simpl. destruct (Nat.ltb_spec (2 ^ j) (2 ^ k)) as [Hlt|Hge]; [lia|].
    exists []. rewrite app_nil_r. split; [done|]. split; [simpl; lia|constructor].
  - simpl. destruct (Nat.ltb_spec (2 ^ j) (2 ^ k)) as [Hlt|Hge].
    + assert (j < k)%nat as Hj.
      { destruct (decide (j < k)%nat); [done|].
        assert (j = k) as -> by lia. lia. }
      pose proof (pow2_pos j) as Hpos.
      destruct (for_r_ok (2 ^ j) (seq 0 (2 ^ j)) ltac:(lia) x comps)
        as (x1 & outs1 & -> & Hx1 & Hlen1 & Houts1).
      { rewrite Hx. by apply pow2_mod. }
      simpl. replace (2 ^ j * 2)%nat with (2 ^ S j)%nat by (simpl; lia).
      pose proof (Nat.pow_le_mono_r 2 (S j) k ltac:(lia) ltac:(lia)) as Hle.
      destruct (IH (S j) x1 (comps ++ outs1)) as (outs2 & -> & Hlen2 & Houts2).
      { lia. } { by rewrite (Permutation_length Hx1). } { simpl in *. lia. }
      exists (outs1 ++ outs2). rewrite <- app_assoc. split; [done|].
      split.
      * rewrite length_app, Hlen1, Hlen2, length_seq. simpl in *. lia.
      * apply Forall_app. split; [done|].
        eapply Forall_impl; [exact Houts2|]. intros o Ho. by rewrite Ho.
    + exists []. rewrite app_nil_r. split; [done|]. split; [simpl; lia|constructor].
Qed.

Lemma mapM_reshape_pairs (n : nat) (rounds : list (list nat)) :
  (n mod 2 = 0)%nat ->
  Forall (fun round => length round = n) rounds ->
  exists res,
    mapM (fun row => Helpers.reshape_rows row 2) rounds = Ok res
    /\ Forall2 (fun round pairs =>
                  concat pairs = round /\ length pairs = (n / 2)%nat
                  /\ Forall (fun p => length p = 2%nat) pairs) rounds res.
Proof.
  intros Hn. induction 1 as [|round rounds Hround _ IH].
  - exists []. split; [done|constructor].
  - destruct IH as (res & Hres & HF).
    destruct (reshape_rows_ok round 2 ltac:(lia) ltac:(by rewrite Hround))
      as (pairs & Hpairs & Hcat & Hlen & Hall).
    exists (pairs :: res). split.
    + cbn [mapM]. rewrite Hpairs. simpl. rewrite Hres. done.
    + constructor; [|done]. rewrite <- Hround. auto.
Qed.

Lemma land_pow2_pred (k : Z) : 0 <= k -> Z.land (2 ^ k) (2 ^ k - 1) = 0.
Proof.
  intros Hk. rewrite Z.sub_1_r, <- Z.ones_equiv, Z.land_ones by done.
  apply Z_mod_same_full.
Qed.

Lemma land_pred_power_of_two (p : positive) :
  Z.land (Z.pos p) (Z.pos p - 1) = 0 -> exists k, 0 <= k /\ Z.pos p = 2 ^ k.
Proof.
  induction p as [p IH|p IH|]; intros H.
  - exfalso.
    assert (Z.shiftr (Z.land (Z.pos p~1) (Z.pos p~1 - 1)) 1 = Z.pos p) as Hs.
    { rewrite Z.shiftr_land, !Z.shiftr_div_pow2 by lia.
      replace (Z.pos p~1 / 2 ^ 1) with (Z.pos p) by (change (2 ^ 1) with 2; Z.div_mod_to_equations; lia).
      replace ((Z.pos p~1 - 1) / 2 ^ 1) with (Z.pos p) by (change (2 ^ 1) with 2; Z.div_mod_to_equations; lia).
      apply Z.land_diag. }
    rewrite H in Hs. by rewrite Z.shiftr_0_l in Hs.
  - destruct IH as (k & Hk & Hp).
    + assert (Z.shiftr (Z.land (Z.pos p~0) (Z.pos p~0 - 1)) 1
              = Z.land (Z.pos p) (Z.pos p - 1)) as Hs.
      { rewrite Z.shiftr_land, !Z.shiftr_div_pow2 by lia.
        replace (Z.pos p~0 / 2 ^ 1) with (Z.pos p) by (change (2 ^ 1) with 2; Z.div_mod_to_equations; lia).
        replace ((Z.pos p~0 - 1) / 2 ^ 1) with (Z.pos p - 1)
          by (change (2 ^ 1) with 2; Z.div_mod_to_equations; lia).
        done. }
      rewrite H in Hs. by rewrite Z.shiftr_0_l in Hs.
    + exists (k + 1). split; [lia|].
      rewrite Z.pow_add_r, <- Hp by lia. lia.
  - exists 0. split; [lia|done].
Qed.

(** Whenever [n] is zero or not a power of two, [get_all_comps] raises
    the [ValueError] of its guard. *)
Lemma get_all_comps_not_power_of_two (n : Z) :
  (n = 0 \/ ~ exists k, 0 <= k /\ n = 2 ^ k) ->
  Helpers.get_all_comps n = Raise (ValueError "n must be a power of two").
Proof.
  intros Hn. unfold Helpers.get_all_comps.
  destruct (Z.eqb_spec (Z.land n (n - 1)) 0) as [Hland|Hland]; [|done].
  destruct (Z.eqb_spec n 0) as [Hz|Hz]; [done|].
  exfalso. destruct Hn as [Hn|Hn]; [done|]. apply Hn.
  destruct n as [|p|p]; [done| |].
  - by apply land_pred_power_of_two.
  - assert (Z.land (Z.neg p) (Z.neg p - 1) < 0) by (apply Z.land_neg; lia). lia.
Qed.

(** For a power of two [n >= 2], [get_all_comps] returns [n - 1] rounds,
    and each of them splits the ranks [0 .. n-1] into [n / 2] pairs: every
    rank is in one pair of every round. *)
Lemma get_all_comps_power_of_two (k : nat) :
  (1 <= k)%nat ->
  let n := (2 ^ k)%nat in
  exists rounds,
    Helpers.get_all_comps (Z.of_nat n) = Ok rounds
    /\ length rounds = (n - 1)%nat
    /\ Forall (fun round =>
                 length round = (n / 2)%nat
                 /\ Forall (fun p => length p = 2%nat) round
                 /\ Permutation (concat round) (seq 0 n)) rounds.
Proof.
  intros Hk n. unfold Helpers.get_all_comps.
  pose proof (pow2_pos k) as Hpos. fold n in Hpos.
  assert (Z.of_nat n = 2 ^ Z.of_nat k) as HnZ.
  { subst n. rewrite Nat2Z.inj_pow. done. }
  assert (Z.land (Z.of_nat n) (Z.of_nat n - 1) = 0) as Hguard.
  { rewrite HnZ. apply land_pow2_pred. lia. }
  rewrite Hguard.
  destruct (Z.eqb_spec (Z.of_nat n) 0) as [|_]; [lia|]. simpl.
  rewrite Nat2Z.id.
  destruct (while_d_ok k n 0 (seq 0 n) []) as (comps & Hw & Hlen & Hperm).
  { lia. } { by rewrite length_seq. } { simpl. lia. }
  change (2 ^ 0)%nat with 1%nat in Hw, Hlen. fold n in Hw, Hlen.
  rewrite Hw. cbn [mbind result_bind app].
  assert (2 <= n)%nat as Hn2.
  { subst n. pose proof (Nat.pow_le_mono_r 2 1 k ltac:(lia) ltac:(lia)). simpl in *. lia. }
  assert (Helpers.stack comps = Ok comps) as ->.
  { destruct comps; [simpl in Hlen; lia|done]. }
  cbn [mbind result_bind].
  destruct (mapM_reshape_pairs n comps) as (res & -> & HF).
  { subst n. replace k with (1 + (k - 1))%nat by lia.
    rewrite Nat.pow_add_r. change (2 ^ 1)%nat with 2%nat.
    rewrite Nat.mul_comm. apply Nat.Div0.mod_mul. }
  { eapply Forall_impl; [exact Hperm|]. intros o Ho.
    by rewrite (Permutation_length Ho), length_seq. }
  exists res. split; [done|].
  split; [rewrite <- (Forall2_length _ _ _ HF); exact Hlen|].
  clear Hw Hlen. induction HF as [|round pairs l res (Hcat & Hlen & Hp) _ IH].
  - constructor.
  - inversion Hperm; subst. constructor; [|by apply IH].
    split; [done|]. split; [done|]. done.
Qed.

(** C10 (the case the code misses): [1] is a power of two and passes the
    guard, no round is appended, and [np.stack] of the empty list raises
    [ValueError] where the specification has [n - 1 = 0] rounds returned. *)
Theorem get_all_comps_one :
  1 = 2 ^ 0
  /\ Helpers.get_all_comps 1 = Raise (ValueError "need at least one array to stack").
Proof. split; reflexivity. Qed.

Example get_all_comps_four :
  Helpers.get_all_comps 4
  = Ok [[[0; 1]; [2; 3]]; [[0; 2]; [1; 3]]; [[0; 3]; [1; 2]]]%nat.
Proof. reflexivity. Qed.

(** ** The domain sampler *)

Lemma map_add_NoDup (k : Z) (l : list Z) : NoDup l -> NoDup (map (fun x => x + k) l).
Proof.
  intros H. change (NoDup ((fun x => x + k) <$> l)).
  apply NoDup_fmap_2; [|done]. intros x y ?. lia.
Qed.

Lemma map_add_Forall (k lo hi : Z) (l : list Z) :
  Forall (fun x => lo <= x < hi) l ->
  Forall (fun x => lo + k <= x < hi + k) (map (fun x => x + k) l).
Proof. induction 1; simpl; constructor; [lia|done]. Qed.

Lemma lengths_nonneg {A} (ds : list (list A)) :
  Forall (fun x => 0 <= x) (map (fun d => Z.of_nat (length d)) ds).
Proof. induction ds; simpl; constructor; [lia|done]. Qed.

Lemma lengths_lookup {A} (ds : list (list A)) (i : nat) (d : list A) :
  ds !! i = Some d ->
  map (fun d => Z.of_nat (length d)) ds !! i = Some (Z.of_nat (length d)).
Proof.
  intros H. change (((fun d => Z.of_nat (length d)) <$> ds) !! i = Some (Z.of_nat (length d))).
  by rewrite list_lookup_fmap, H.
Qed.

Lemma lengths_lookup_le {A} (ds : list (list A)) (i : nat) (d : list A) :
  ds !! i = Some d -> Z.of_nat (length d) <= sum (map (fun d => Z.of_nat (length d)) ds).
Proof.
  revert i. induction ds as [|d0 ds IH]; intros i Hd; [done|].
  pose proof (sum_nonneg _ (lengths_nonneg ds)) as H0.
  destruct i as [|i]; simpl in *; unfold sum in *; simpl.
  - injection Hd as ->. lia.
  - specialize (IH i Hd). lia.
Qed.

Lemma ceil_multiple (a b : Z) :
  0 < b ->
  let c := - ((- a) / b) * b in
  a <= c < a + b /\ (b | c) /\ (forall m, (b | m) -> a <= m -> c <= m).
Proof.
  intros Hb c. subst c.
  pose proof (Z.div_mod (- a) b ltac:(lia)) as E.
  pose proof (Z.mod_pos_bound (- a) b Hb) as Hm.
  split; [nia|]. split; [exists (- (- a / b)); lia|].
  intros m [k ->] Hk.
  assert (- k <= - a / b); [|nia].
  apply Z.div_le_lower_bound; [lia|nia].
Qed.

Lemma batches_spec (b : nat) (fuel : nat) (l : list Z) :
  (0 < b)%nat -> (length l <= fuel)%nat ->
  let bl := DistributedSamplerForDoReMi.batches fuel b l in
  concat bl = l
  /\ Forall (fun c => (0 < length c <= b)%nat) bl
  /\ (forall i c, bl !! i = Some c -> (S i < length bl)%nat -> length c = b)
  /\ Z.of_nat (length bl) = - ((- Z.of_nat (length l)) / Z.of_nat b).
Proof.
  intros Hb. revert l. induction fuel as [|fuel IH]; intros l Hl.
  - destruct l; [|simpl in Hl; lia]. simpl. repeat split; done.
  - destruct l as [|x l]; [simpl; repeat split; done|].
    cbn [DistributedSamplerForDoReMi.batches]. cbv zeta.
    set (l0 := x :: l) in *.
    assert (length (drop b l0) <= fuel)%nat as Hdrop.
    { rewrite length_drop. subst l0. simpl in *. lia. }
    destruct (IH (drop b l0) Hdrop) as (Hc & Hf & Hfull & Hn).
    split; [simpl; rewrite Hc; apply take_drop|].
    split.
    { constructor; [|done]. rewrite length_take. subst l0. simpl. lia. }
    split.
    { intros [|i] c Hi Hlen; simpl in *.
      - injection Hi as <-. rewrite length_take.
        destruct (DistributedSamplerForDoReMi.batches fuel b (drop b l0)) eqn:E;
          [simpl in Hlen; lia|].
        assert (drop b l0 <> []) as Hne.
        { intros E'. rewrite E' in E. destruct fuel; done. }
        assert (b < length l0)%nat; [|lia].
        destruct (decide (b < length l0)%nat) as [|Hge]; [done|].
        rewrite drop_ge in Hne by lia. done.
      - apply (Hfull i c Hi). lia. }
    simpl length. rewrite Nat2Z.inj_succ, Hn, length_drop.
    destruct (decide (b <= length l0)%nat) as [Hle|Hgt].
    + rewrite Nat2Z.inj_sub by done.
      replace (- (Z.of_nat (length l0) - Z.of_nat b))
        with (- Z.of_nat (length l0) + 1 * Z.of_nat b) by lia.
      rewrite Z.div_add by lia. subst l0. simpl length. lia.
    + replace (length l0 - b)%nat with 0%nat by lia. simpl Z.of_nat at 1.
      rewrite Z.div_0_l by lia.
      assert (- Z.of_nat (length l0) / Z.of_nat b = -1) as E;
        [|subst l0; simpl length in *; lia].
      symmetry. apply (Z.div_unique _ _ _ (Z.of_nat b - Z.of_nat (length l0))).
      * left. subst l0. simpl length in *. lia.
      * lia.
Qed.

Lemma slice_to_nonneg (n : Z) (l : list Z) :
  0 <= n -> DistributedSamplerForDoReMi.slice_to n l = take (Z.to_nat n) l.
Proof.
  intros H. unfold DistributedSamplerForDoReMi.slice_to.
  by destruct (Z.ltb_spec n 0) as [|_]; [lia|].
Qed.

Lemma concat_length_le {A B} (gs : list (list A)) (ds : list (list B)) :
  length gs = length ds ->
  (forall j g d, gs !! j = Some g -> ds !! j = Some d -> (length g <= length d)%nat) ->
  Z.of_nat (length (concat gs)) <= sum (map (fun d => Z.of_nat (length d)) ds).
Proof.
  revert ds. induction gs as [|g gs IH]; intros [|d ds] Hlen H; simpl in *; try done.
  rewrite length_app.
  pose proof (H 0%nat g d eq_refl eq_refl).
  assert (Z.of_nat (length (concat gs)) <= sum (map (fun d => Z.of_nat (length d)) ds)).
  { apply IH; [lia|]. intros j g' d' Hg Hd. by apply (H (S j)). }
  unfold sum in *. simpl. lia.
Qed.

Section DomainSampler.
Import DistributedSamplerForDoReMi.
Context {sample : Type}.
Variable dtype : Float.format.
Variable tensor_sum : list Float.float -> Float.float.
Variable choice : nat -> Z -> Z -> list Z.
Variable shuffle : list Z -> list Z.
Hypothesis dtype_torch : Float.torch_float dtype.
Hypothesis sum_ok : sum_dominates dtype tensor_sum.
Hypothesis choice_ok : choice_without_replacement choice.

(** The sum of weights that are not negative, one of them positive, is
    positive. *)
Lemma positive_sum (weights : list Float.float) :
  Forall (nonneg_float dtype) weights ->
  Exists (fun w => Float.flt (Float.Finite 0) w = true) weights ->
  Float.flt (Float.Finite 0) (tensor_sum weights) = true.
Proof.
  intros Hws Hex. apply Exists_exists in Hex as (w & Hw & Hpos).
  pose proof (sum_ok weights Hws w Hw) as Hle.
  rewrite Forall_forall in Hws. destruct (Hws w Hw) as (x & -> & Hx & _).
  apply flt_Finite in Hpos.
  destruct (tensor_sum weights) as [y|[]|]; try done.
  apply fle_Finite in Hle. apply flt_Finite. lra.
Qed.

(** A normalized weight is a float of the dtype in [[0, 1]]. *)
Lemma normalized_weight_unit (weights : list Float.float) (i : nat) (w : Float.float) :
  Forall (nonneg_float dtype) weights ->
  Exists (fun w => Float.flt (Float.Finite 0) w = true) weights ->
  weights !! i = Some w ->
  exists nw, Float.fdiv dtype w (tensor_sum weights) = Float.Finite nw
             /\ (0 <= nw <= 1)%Q /\ ((nw == 0)%Q \/ in_format dtype nw).
Proof.
  intros Hws Hex Hi. pose proof (positive_sum weights Hws Hex) as Hpos.
  apply list_elem_of_lookup_2 in Hi.
  pose proof (sum_ok weights Hws w Hi) as Hle.
  rewrite Forall_forall in Hws. destruct (Hws w Hi) as (x & -> & Hx & _).
  destruct (torch_float_bounds dtype dtype_torch) as (Hp & He & Hm).
  apply fdiv_unit; [lia|lia|lia|done|done|done].
Qed.

Lemma num_samples_ok (ps : Z) (nw : Q) :
  0 <= ps < 2 ^ 53 -> (0 <= nw <= 1)%Q ->
  exists product,
    Float.round Float.binary64 (inject_Z ps * nw) = Float.Finite product
    /\ num_samples ps (Float.Finite nw) = Ok (Qfloor product)
    /\ 0 <= Qfloor product <= ps.
Proof.
  intros Hps Hnw. destruct (int_times_unit ps nw Hps Hnw) as (q & Hq & Hr & Hi & Hb).
  exists q. split; [done|]. split; [|done].
  unfold num_samples. rewrite Hq. cbn [mbind result_bind]. exact Hi.
Qed.

Lemma calculate_total_size_ok (ds : list (list sample)) (bs : Z) :
  let total := sum (map (fun d => Z.of_nat (length d)) ds) in
  total < 2 ^ 53 -> 0 < bs ->
  exists ts,
    calculate_total_size ds bs = Ok ts /\ 0 <= ts
    /\ (bs < 2 ^ 53 -> ts = - ((- total) / bs) * bs).
Proof.
  intros total Htotal Hbs. unfold calculate_total_size. fold total.
  pose proof (sum_nonneg _ (lengths_nonneg ds)) as H0. fold total in H0.
  destruct (Z_lt_le_dec bs (2 ^ 53)) as [Hlt|Hge].
  - destruct (ceil_truediv total bs ltac:(lia) ltac:(lia)) as (q & Hq & Hc).
    rewrite Hq. cbn [mbind result_bind]. rewrite Hc. cbn [mbind result_bind].
    eexists. split; [done|]. split; [|done].
    destruct (ceil_multiple total bs Hbs) as [? _]. lia.
  - destruct (truediv_finite total bs ltac:(lia) Hbs) as (q & Hq & Hq0 & _).
    rewrite Hq. cbn [mbind result_bind Float.ceil].
    eexists. split; [done|]. split; [|lia].
    pose proof (Qle_ceiling q) as Hc.
    assert (0 <= inject_Z (Qceiling q))%Q as Hc0 by lra.
    rewrite <- (Zle_Qle 0) in Hc0. lia.
Qed.

Lemma init_ok_sampler (weights : list Float.float) (ds : list (list sample))
    (bs nr rk : Z) :
  sum (map (fun d => Z.of_nat (length d)) ds) < 2 ^ 53 -> 0 < bs -> 0 <= rk < nr ->
  exists ts,
    calculate_total_size ds bs = Ok ts
    /\ __init__ dtype tensor_sum weights ds bs nr rk
       = Ok {| datasets := ds; batch_size := bs;
               domain_weights := map (fun w => Float.fdiv dtype w (tensor_sum weights)) weights;
               num_replicas := nr; rank := rk; total_size := ts |}.
Proof.
  intros Htotal Hbs Hrk.
  destruct (calculate_total_size_ok ds bs Htotal Hbs) as (ts & Hts & _).
  exists ts. split; [done|]. unfold __init__, super_init.
  destruct (Z.leb_spec nr rk) as [|_]; [lia|].
  destruct (Z.ltb_spec rk 0) as [|_]; [lia|].
  cbn [orb mbind result_bind]. by rewrite Hts.
Qed.

(** The draw for sub-dataset [i] on data-parallel rank [rank self], with
    the offsets that [__iter__] computes. *)
Lemma global_indices_draw (self : @t sample) (i : nat) (dataset : list sample) (nw : Q) :
  0 <= rank self -> 0 < num_replicas self ->
  datasets self !! i = Some dataset ->
  domain_weights self !! i = Some (Float.Finite nw) -> (0 <= nw <= 1)%Q ->
  Z.of_nat (length dataset) < 2 ^ 53 ->
  let lengths := map (fun d => Z.of_nat (length d)) (datasets self) in
  let offsets := cumsum (0 :: removelast lengths) in
  let partition_size := Z.of_nat (length dataset) / num_replicas self in
  let start := sum (take i lengths) + rank self * partition_size in
  exists g product,
    global_indices choice self offsets i dataset = Ok g
    /\ Float.round Float.binary64 (inject_Z partition_size * nw) = Float.Finite product
    /\ Z.of_nat (length g) = Qfloor product
    /\ (length g <= length dataset)%nat
    /\ NoDup g
    /\ Forall (fun x => start <= x < start + partition_size) g.
Proof.
  intros Hrk Hnr Hds Hw Hnw Hlen lengths offsets ps start.
  assert (0 <= ps <= Z.of_nat (length dataset)) as Hps.
  { subst ps. split; [apply Z.div_pos; lia|].
    apply Z.div_le_upper_bound; [lia|]. nia. }
  destruct (num_samples_ok ps nw ltac:(lia) Hnw) as (product & Hr & Hn & Hn0 & Hn1).
  unfold global_indices.
  destruct (Z.eqb_spec (num_replicas self) 0) as [|_]; [lia|].
  rewrite Hw. fold ps. rewrite Hn. cbn [mbind result_bind].
  unfold np_random_choice.
  destruct (Z.ltb_spec (Qfloor product) 0) as [|_]; [lia|].
  destruct (Z.ltb_spec ps (Qfloor product)) as [|_]; [lia|].
  cbn [mbind result_bind].
  assert (i < length lengths)%nat as Hi.
  { subst lengths. rewrite length_map. by eapply lookup_lt_Some. }
  subst offsets. rewrite offsets_lookup by lia.
  destruct (choice_ok i ps (Qfloor product) ltac:(lia)) as (Hl & Hnd & Hall).
  eexists _, product. split; [reflexivity|]. split; [done|].
  split; [rewrite !length_map, Hl; lia|].
  split; [rewrite !length_map, Hl; lia|].
  split; [by apply map_add_NoDup, map_add_NoDup|].
  apply (map_add_Forall (rank self * ps)) in Hall.
  apply (map_add_Forall (sum (take i lengths))) in Hall.
  eapply Forall_impl; [exact Hall|]. intros x Hx. simpl in Hx. subst start. lia.
Qed.

(** The blocks of indices that one pass draws, one for each sub-dataset. *)
Lemma domain_loop_blocks (self : @t sample) :
  0 <= rank self -> 0 < num_replicas self ->
  let lengths := map (fun d => Z.of_nat (length d)) (datasets self) in
  let offsets := cumsum (0 :: removelast lengths) in
  sum lengths < 2 ^ 53 ->
  (forall i, (i < length (datasets self))%nat ->
     exists nw, domain_weights self !! i = Some (Float.Finite nw) /\ (0 <= nw <= 1)%Q) ->
  forall rest k acc,
    drop k (datasets self) = rest ->
    exists gs,
      domain_loop choice self offsets k rest acc = Ok (acc ++ concat gs)
      /\ length gs = length rest
      /\ forall j g,
          gs !! j = Some g ->
          exists dataset nw product,
            datasets self !! (k + j)%nat = Some dataset
            /\ domain_weights self !! (k + j)%nat = Some (Float.Finite nw)
            /\ Float.round Float.binary64
                 (inject_Z (Z.of_nat (length dataset) / num_replicas self) * nw)
               = Float.Finite product
            /\ Z.of_nat (length g) = Qfloor product
            /\ (length g <= length dataset)%nat
            /\ NoDup g
            /\ Forall (fun x =>
                 sum (take (k + j) lengths)
                 + rank self * (Z.of_nat (length dataset) / num_replicas self) <= x
                 < sum (take (k + j) lengths)
                   + rank self * (Z.of_nat (length dataset) / num_replicas self)
                   + Z.of_nat (length dataset) / num_replicas self) g.
Proof.
  intros Hrk Hnr lengths offsets Htotal Hweights rest.
  induction rest as [|dataset rest IH]; intros k acc Hdrop.
  - exists []. simpl. rewrite app_nil_r. split; [done|]. split; [done|]. intros ? ? ?; done.
  - assert (datasets self !! k = Some dataset) as Hk.
    { rewrite <- (Nat.add_0_r k), <- lookup_drop, Hdrop. done. }
    assert (drop (S k) (datasets self) = rest) as Hdrop'.
    { replace (S k) with (k + 1)%nat by lia. rewrite <- drop_drop, Hdrop. done. }
    destruct (Hweights k (lookup_lt_Some _ _ _ Hk)) as (nw & Hw & Hnw).
    pose proof (lengths_lookup_le _ _ _ Hk) as Hlen. fold lengths in Hlen.
    destruct (global_indices_draw self k dataset nw Hrk Hnr Hk Hw Hnw ltac:(lia))
      as (g & product & Hg & Hr & Hl & Hle & Hnd & Hall).
    destruct (IH (S k) (acc ++ g) Hdrop') as (gs & Hloop & Hgs & Hblocks).
    exists (g :: gs). cbn [domain_loop]. fold lengths offsets in Hg. rewrite Hg.
    cbn [mbind result_bind]. rewrite Hloop. split; [by rewrite <- app_assoc|].
    split; [simpl; lia|].
    intros [|j] g' Hj; simpl in Hj.
    + injection Hj as <-. rewrite Nat.add_0_r. by exists dataset, nw, product.
    + replace (k + S j)%nat with (S k + j)%nat by lia. by apply Hblocks.
Qed.

(** One pass: what [__init__] builds, the blocks that [__iter__] draws
    and the batches it yields. *)
Lemma sampler_pass (weights : list Float.float) (ds : list (list sample)) (bs nr rk : Z) :
  Forall (nonneg_float dtype) weights ->
  Exists (fun w => Float.flt (Float.Finite 0) w = true) weights ->
  (length ds <= length weights)%nat ->
  0 <= rk < nr -> 0 < bs ->
  let lengths := map (fun d => Z.of_nat (length d)) ds in
  sum lengths < 2 ^ 53 ->
  exists self gs,
    __init__ dtype tensor_sum weights ds bs nr rk = Ok self
    /\ domain_weights self
       = map (fun w => Float.fdiv dtype w (tensor_sum weights)) weights
    /\ 0 <= total_size self
    /\ (bs < 2 ^ 53 -> total_size self = - ((- sum lengths) / bs) * bs)
    /\ domain_indices choice self = Ok (concat gs)
    /\ length gs = length ds
    /\ (forall j g,
          gs !! j = Some g ->
          exists dataset nw product,
            ds !! j = Some dataset
            /\ domain_weights self !! j = Some (Float.Finite nw)
            /\ (0 <= nw <= 1)%Q
            /\ ((nw == 0)%Q \/ in_format dtype nw)
            /\ Float.round Float.binary64 (inject_Z (Z.of_nat (length dataset) / nr) * nw)
               = Float.Finite product
            /\ Z.of_nat (length g) = Qfloor product
            /\ (length g <= length dataset)%nat
            /\ NoDup g
            /\ Forall (fun x =>
                 sum (take j lengths) + rk * (Z.of_nat (length dataset) / nr) <= x
                 < sum (take j lengths) + rk * (Z.of_nat (length dataset) / nr)
                   + Z.of_nat (length dataset) / nr) g)
    /\ (length (shuffle (concat gs)) = length (concat gs) ->
        let pool := take (Z.to_nat (total_size self)) (shuffle (concat gs)) in
        __iter__ choice shuffle self = Ok (batches (length pool) (Z.to_nat bs) pool)
        /\ (bs < 2 ^ 53 -> pool = shuffle (concat gs))).
Proof.
  intros Hws Hex Hlen Hrk Hbs lengths Htotal.
  destruct (calculate_total_size_ok ds bs Htotal Hbs) as (ts & Hts & Hts0 & Htsx).
  destruct (init_ok_sampler weights ds bs nr rk Htotal Hbs Hrk) as (ts' & Hts' & Hinit).
  rewrite Hts in Hts'. injection Hts' as <-.
  set (self := {| datasets := ds; batch_size := bs;
                  domain_weights :=
                    map (fun w => Float.fdiv dtype w (tensor_sum weights)) weights;
                  num_replicas := nr; rank := rk; total_size := ts |}) in *.
  assert (Hweights : forall i, (i < length ds)%nat ->
            exists nw, domain_weights self !! i = Some (Float.Finite nw)
                       /\ (0 <= nw <= 1)%Q /\ ((nw == 0)%Q \/ in_format dtype nw)).
  { intros i Hi. destruct (lookup_lt_is_Some_2 weights i ltac:(lia)) as [w Hw].
    destruct (normalized_weight_unit weights i w Hws Hex Hw) as (nw & Hnw & Hb & Hf).
    exists nw. split; [|done]. cbn [domain_weights self].
    change (((fun w0 => Float.fdiv dtype w0 (tensor_sum weights)) <$> weights) !! i
            = Some (Float.Finite nw)).
    by rewrite list_lookup_fmap, Hw; simpl; rewrite Hnw. }
  destruct (domain_loop_blocks self ltac:(simpl; lia) ltac:(simpl; lia) Htotal) with
    (rest := ds) (k := 0%nat) (acc := @nil Z) as (gs & Hloop & Hgs & Hblocks).
  { intros i Hi. destruct (Hweights i Hi) as (nw & ? & ? & _). by exists nw. }
  { apply drop_0. }
  simpl in Hloop.
  assert (Hdi : domain_indices choice self = Ok (concat gs)) by exact Hloop.
  exists self, gs. split; [done|]. split; [done|]. split; [done|]. split; [done|].
  split; [exact Hdi|]. split; [done|]. split.
  { intros j g Hj. destruct (Hblocks j g Hj) as (d & nw & product & H1 & H2 & H3 & H4).
    cbn [Nat.add] in H1, H2, H3, H4.
    destruct (Hweights j (lookup_lt_Some _ _ _ H1)) as (nw' & Hw' & Hb & Hf).
    rewrite H2 in Hw'. injection Hw' as <-.
    exists d, nw, product. split; [exact H1|]. split; [exact H2|]. split; [exact Hb|].
    split; [exact Hf|]. split; [exact H3|]. exact H4. }
  intros Hsh pool.
  assert (Hiter : __iter__ choice shuffle self
                  = Ok (batches (length pool) (Z.to_nat bs) pool)).
  { unfold __iter__. rewrite Hdi. cbn [mbind result_bind].
    cbn [total_size batch_size self]. rewrite slice_to_nonneg by done. fold pool.
    destruct (Z.eqb_spec bs 0) as [|_]; [lia|].
    by destruct (Z.ltb_spec bs 0) as [|_]; [lia|]. }
  split; [exact Hiter|].
  intros Hbs53. subst pool. apply take_ge. rewrite Hsh.
  assert (Z.of_nat (length (concat gs)) <= sum lengths) as Hle.
  { apply concat_length_le; [done|]. intros j g d Hg Hd.
    destruct (Hblocks j g Hg) as (d' & nw & product & H1 & _ & _ & _ & H5 & _).
    simpl in H1. rewrite Hd in H1. by injection H1 as <-. }
  cbn [total_size self]. rewrite (Htsx Hbs53).
  destruct (ceil_multiple (sum lengths) bs Hbs) as [? _]. unfold lengths in *. lia.
Qed.

End DomainSampler.

(** C7: the count of the draw, in floats.  For weights that are finite
    floats of the tensor's dtype, none negative and one positive, on
    data-parallel rank [0 <= rank < num_replicas] and with fewer than
    [2^53] samples in all, the sampler divides every weight by the sum of
    the weights in that dtype; for sub-dataset [i] it takes the partition
    of size [len // num_replicas] that starts at [rank * partition_size],
    draws without replacement as many indices as the double product of
    [partition_size] and the normalized weight has in its integer part,
    which is [floor(partition_size * normalized_weight)] when that product
    needs no rounding, and shifts them by the summed length of the
    sub-datasets before.  The pass yields these indices and no others.  For
    sub-datasets of length 100 and 50, weights 0.5 and 0.5 and two ranks,
    rank 0 draws 25 indices from [[0, 50)] and 12 from [[100, 125)]. *)
Theorem domain_sampler_draw {sample : Type} (dtype : Float.format)
    (tensor_sum : list Float.float -> Float.float)
    (choice : nat -> Z -> Z -> list Z) (shuffle : list Z -> list Z) :
  Float.torch_float dtype -> sum_dominates dtype tensor_sum ->
  choice_without_replacement choice -> shuffle_permutes shuffle ->
  (forall (weights : list Float.float) (ds : list (list sample))
          (batch_size num_replicas rank : Z),
      Forall (nonneg_float dtype) weights ->
      Exists (fun w => Float.flt (Float.Finite 0) w = true) weights ->
      (length ds <= length weights)%nat ->
      0 <= rank < num_replicas -> 0 < batch_size < 2 ^ 53 ->
      let lengths := map (fun d => Z.of_nat (length d)) ds in
      sum lengths < 2 ^ 53 ->
      exists self gs bl,
        DistributedSamplerForDoReMi.__init__ dtype tensor_sum weights ds
          batch_size num_replicas rank = Ok self
        /\ DistributedSamplerForDoReMi.domain_weights self
           = map (fun w => Float.fdiv dtype w (tensor_sum weights)) weights
        /\ DistributedSamplerForDoReMi.__iter__ choice shuffle self = Ok bl
        /\ Permutation (concat bl) (concat gs)
        /\ length gs = length ds
        /\ forall i dataset g,
             ds !! i = Some dataset -> gs !! i = Some g ->
             let partition_size := Z.of_nat (length dataset) / num_replicas in
             let start := sum (take i lengths) + rank * partition_size in
             exists normalized_weight product,
               DistributedSamplerForDoReMi.domain_weights self !! i
               = Some (Float.Finite normalized_weight)
               /\ (0 <= normalized_weight <= 1)%Q
               /\ Float.round Float.binary64 (inject_Z partition_size * normalized_weight)
                  = Float.Finite product
               /\ Z.of_nat (length g) = Qfloor product
               /\ (partition_size < 2 ^ (53 - Float.prec dtype) ->
                   Z.of_nat (length g)
                   = Qfloor (inject_Z partition_size * normalized_weight))
               /\ NoDup g
               /\ Forall (fun x => start <= x < start + partition_size) g)
  /\ (forall (d0 d1 : list sample) (batch_size : Z),
        length d0 = 100%nat -> length d1 = 50%nat -> 0 < batch_size < 2 ^ 53 ->
        tensor_sum [Float.Finite (1 # 2); Float.Finite (1 # 2)] = Float.Finite 1 ->
        exists self g0 g1 bl,
          DistributedSamplerForDoReMi.__init__ dtype tensor_sum
            [Float.Finite (1 # 2); Float.Finite (1 # 2)] [d0; d1] batch_size 2 0 = Ok self
          /\ DistributedSamplerForDoReMi.domain_weights self
             = [Float.Finite (1 # 2); Float.Finite (1 # 2)]
          /\ DistributedSamplerForDoReMi.__iter__ choice shuffle self = Ok bl
          /\ Permutation (concat bl) (g0 ++ g1)
          /\ length g0 = 25%nat /\ NoDup g0 /\ Forall (fun x => 0 <= x < 50) g0
          /\ length g1 = 12%nat /\ NoDup g1 /\ Forall (fun x => 100 <= x < 125) g1).
Proof.
  intros Hdtype Hsum Hchoice Hshuffle.
  assert (General : forall (weights : list Float.float) (ds : list (list sample))
          (batch_size num_replicas rank : Z),
      Forall (nonneg_float dtype) weights ->
      Exists (fun w => Float.flt (Float.Finite 0) w = true) weights ->
      (length ds <= length weights)%nat ->
      0 <= rank < num_replicas -> 0 < batch_size < 2 ^ 53 ->
      let lengths := map (fun d => Z.of_nat (length d)) ds in
      sum lengths < 2 ^ 53 ->
      exists self gs bl,
        DistributedSamplerForDoReMi.__init__ dtype tensor_sum weights ds
          batch_size num_replicas rank = Ok self
        /\ DistributedSamplerForDoReMi.domain_weights self
           = map (fun w => Float.fdiv dtype w (tensor_sum weights)) weights
        /\ DistributedSamplerForDoReMi.__iter__ choice shuffle self = Ok bl
        /\ Permutation (concat bl) (concat gs)
        /\ length gs = length ds
        /\ forall i dataset g,
             ds !! i = Some dataset -> gs !! i = Some g ->
             let partition_size := Z.of_nat (length dataset) / num_replicas in
             let start := sum (take i lengths) + rank * partition_size in
             exists normalized_weight product,
               DistributedSamplerForDoReMi.domain_weights self !! i
               = Some (Float.Finite normalized_weight)
               /\ (0 <= normalized_weight <= 1)%Q
               /\ Float.round Float.binary64 (inject_Z partition_size * normalized_weight)
                  = Float.Finite product
               /\ Z.of_nat (length g) = Qfloor product
               /\ (partition_size < 2 ^ (53 - Float.prec dtype) ->
                   Z.of_nat (length g)
                   = Qfloor (inject_Z partition_size * normalized_weight))
               /\ NoDup g
               /\ Forall (fun x => start <= x < start + partition_size) g).
  { intros weights ds bs nr rk Hws Hex Hlen Hrk Hbs lengths Htotal.
    destruct (sampler_pass dtype tensor_sum choice shuffle Hdtype Hsum Hchoice
                weights ds bs nr rk Hws Hex Hlen Hrk ltac:(lia) Htotal)
      as (self & gs & Hself & Hdw & _ & _ & _ & Hgs & Hblocks & Hiter).
    pose proof (Permutation_length (Hshuffle (concat gs))) as Hl.
    destruct (Hiter Hl) as [Hit Hpool]. cbv zeta in Hit, Hpool.
    rewrite (Hpool ltac:(lia)) in Hit.
    destruct (batches_spec (Z.to_nat bs) (length (shuffle (concat gs))) (shuffle (concat gs))
                ltac:(lia) ltac:(lia)) as (Hc & _).
    eexists self, gs, _. split; [done|]. split; [done|]. split; [exact Hit|].
    split; [rewrite Hc; apply Hshuffle|]. split; [done|].
    intros i dataset g Hd Hg ps start.
    destruct (Hblocks i g Hg) as (d & nw & product & H1 & H2 & H3 & H4 & H5 & H6 & _ & H8 & H9).
    rewrite Hd in H1. injection H1 as <-. fold ps in H5, H9.
    exists nw, product. split; [done|]. split; [done|]. split; [done|]. split; [done|].
    split; [|done]. intros Hps.
    destruct (torch_float_bounds dtype Hdtype) as (Hp & _ & Hm).
    assert (0 <= ps) as Hps0 by (apply Z.div_pos; lia).
    rewrite (int_times_float_exact dtype ps nw ltac:(lia) ltac:(lia) ltac:(lia) H3 H4) in H5.
    injection H5 as <-. rewrite H6. apply Qfloor_comp, Qred_correct. }
  split; [exact General|].
  intros d0 d1 bs Hd0 Hd1 Hbs Hone.
  set (half := Float.Finite (1 # 2)) in *.
  assert (Hhalf : Float.round dtype (1 # 2) = half
                  /\ Float.fdiv dtype half (Float.Finite 1) = half).
  { destruct Hdtype as [ -> | [ -> | [ -> | -> ] ] ]; by vm_compute. }
  destruct Hhalf as [Hround Hdiv].
  destruct (General [half; half] [d0; d1] bs 2 0) as
    (self & gs & bl & Hself & Hdw & Hit & Hperm & Hgs & Hblocks).
  { repeat constructor; exists (1 # 2)%Q; done. }
  { left. reflexivity. }
  { simpl. lia. }
  { lia. }
  { exact Hbs. }
  { cbn. rewrite Hd0, Hd1. unfold sum. simpl. lia. }
  rewrite Hone in Hdw. cbn [map] in Hdw. rewrite Hdiv in Hdw.
  destruct gs as [|g0 [|g1 [|? ?]]]; try done.
  destruct (Hblocks 0%nat d0 g0 eq_refl eq_refl) as (nw0 & p0 & Hw0 & _ & Hr0 & Hl0 & _ & Hn0 & Hf0).
  destruct (Hblocks 1%nat d1 g1 eq_refl eq_refl) as (nw1 & p1 & Hw1 & _ & Hr1 & Hl1 & _ & Hn1 & Hf1).
  rewrite Hdw in Hw0, Hw1. injection Hw0 as <-. injection Hw1 as <-.
  cbn in Hf0, Hf1. rewrite Hd0, Hd1 in *.
  change (Z.of_nat 100 `div` 2) with 50 in *. change (Z.of_nat 50 `div` 2) with 25 in *.
  assert (p0 = 25%Q) as -> by (vm_compute in Hr0; congruence).
  assert (p1 = (25 # 2)%Q) as -> by (vm_compute in Hr1; congruence).
  exists self, g0, g1, bl. split; [done|]. split; [done|]. split; [done|].
  split; [by rewrite Hperm; simpl; rewrite app_nil_r|].
  split; [change (Qfloor 25) with 25 in Hl0; lia|]. split; [done|].
  split; [eapply Forall_impl; [exact Hf0|]; simpl; intros; lia|].
  split; [change (Qfloor (25 # 2)) with 12 in Hl1; lia|]. split; [done|].
  eapply Forall_impl; [exact Hf1|]. simpl. unfold sum. simpl. intros. lia.
Qed.

Lemma first_indices_without_replacement :
  choice_without_replacement Examples.first_indices.
Proof.
  intros c a k Hk. unfold Examples.first_indices.
  split; [apply length_seqZ|]. split; [apply NoDup_seqZ|].
  apply Forall_seqZ. intros x Hx. lia.
Qed.

Lemma sequential_sum_binary32 : sum_dominates Float.binary32 (Float.sequential_sum Float.binary32).
Proof. intros ws Hws w Hw. by apply sequential_sum_dominates. Qed.

Lemma domain_sampler_draw_witness :
  exists self g0 g1 bl,
    DistributedSamplerForDoReMi.__init__ Float.binary32 (Float.sequential_sum Float.binary32)
      [Float.Finite (1 # 2); Float.Finite (1 # 2)]
      [replicate 100 (); replicate 50 ()] 4 2 0 = Ok self
    /\ DistributedSamplerForDoReMi.domain_weights self
       = [Float.Finite (1 # 2); Float.Finite (1 # 2)]
    /\ DistributedSamplerForDoReMi.__iter__ Examples.first_indices Examples.no_shuffle self
       = Ok bl
    /\ Permutation (concat bl) (g0 ++ g1)
    /\ length g0 = 25%nat /\ NoDup g0 /\ Forall (fun x => 0 <= x < 50) g0
    /\ length g1 = 12%nat /\ NoDup g1 /\ Forall (fun x => 100 <= x < 125) g1.
Proof.
  destruct (domain_sampler_draw (sample := unit) Float.binary32
              (Float.sequential_sum Float.binary32)
              Examples.first_indices Examples.no_shuffle
              (or_intror (or_intror (or_introl eq_refl)))
              sequential_sum_binary32
              first_indices_without_replacement (fun l => Permutation_refl l)) as [_ H].
  apply (H (replicate 100 ()) (replicate 50 ()) 4); [reflexivity|reflexivity|lia|reflexivity].
Defined.

(** The count is not [floor(partition_size * w / sum)] over the
    rationals.  Weights 1 and 5 in a float32 tensor, two sub-datasets of 12
    samples and two ranks: the partitions hold 6 samples, the normalized
    weights are the floats nearest to 1/6 and 5/6, and rank 0 draws 1 and 4
    indices, 5 in all, where [floor(6 * 5/6) = 5] for the second
    sub-dataset alone. *)
Lemma domain_sampler_inexact_weight :
  (self ← DistributedSamplerForDoReMi.__init__ Float.binary32
            (Float.sequential_sum Float.binary32)
            [Float.Finite 1; Float.Finite 5] [replicate 12 (); replicate 12 ()] 4 2 0;
   DistributedSamplerForDoReMi.__iter__ Examples.first_indices Examples.no_shuffle self)
  = Ok [[0; 12; 13; 14]; [15]]
  /\ Float.fdiv Float.binary32 (Float.Finite 5) (Float.Finite 6)
     = Float.Finite (13981013 # 16777216)
  /\ Qfloor (inject_Z (12 / 2) * (5 / (1 + 5))) = 5.
Proof. by vm_compute. Qed.

Example domain_sampler_example :
  (self ← DistributedSamplerForDoReMi.__init__ Float.binary32
            (Float.sequential_sum Float.binary32)
            [Float.Finite (1 # 2); Float.Finite (1 # 2)]
            [replicate 100 (); replicate 50 ()] 4 2 0;
   DistributedSamplerForDoReMi.__iter__ Examples.first_indices Examples.no_shuffle self)
  = Ok (DistributedSamplerForDoReMi.batches 37 4 (seqZ 0 25 ++ seqZ 100 12)).
Proof. vm_compute. reflexivity. Qed.


(** ** The sanity check of the dataloader *)

Section SanityCheckFacts.
Import SanityCheck.
Variable dpg : DistributedProcessGroups.
Variable n : nat.

Lemma dp_step (key : string) (v : tensor) (msg : string -> string) :
  (dp_check_passes dpg n key v
   /\ assert_fail_except_rank_with dpg 0 dp_pg
        (assert_tensor_synced_across_pg dpg n key v dp_pg msg) = Ok ())
  \/ (~ dp_check_passes dpg n key v
      /\ assert_fail_except_rank_with dpg 0 dp_pg
           (assert_tensor_synced_across_pg dpg n key v dp_pg msg) = Raise dp_failure).
Proof.
  unfold dp_check_passes, assert_fail_except_rank_with, assert_tensor_synced_across_pg.
  destruct (Z.eqb_spec (get_rank dpg dp_pg) 0) as [H0|H0].
  - left. rewrite bool_decide_eq_true_2 by done. auto.
  - destruct (decide (v = broadcast dpg dp_pg n key)) as [Heq|Hne].
    + right. rewrite bool_decide_eq_true_2 by done. split; [|done]. intros [?|?]; done.
    + left. rewrite bool_decide_eq_false_2 by done. auto.
Qed.

Lemma tp_step (key : string) (v : tensor) :
  (tp_check_passes dpg n key v
   /\ assert_tensor_synced_across_pg dpg n key v tp_pg
        (fun err => key +:+ " are not synchronized throughout TP " +:+ err) = Ok ())
  \/ (~ tp_check_passes dpg n key v
      /\ assert_tensor_synced_across_pg dpg n key v tp_pg
           (fun err => key +:+ " are not synchronized throughout TP " +:+ err)
         = Raise (tp_failure key)).
Proof.
  unfold tp_check_passes, assert_tensor_synced_across_pg.
  destruct (Z.eqb_spec (get_rank dpg tp_pg) 0) as [H0|H0].
  - left. rewrite bool_decide_eq_true_2 by done. auto.
  - destruct (decide (v = broadcast dpg tp_pg n key)) as [Heq|Hne].
    + left. rewrite bool_decide_eq_true_2 by done. auto.
    + right. rewrite bool_decide_eq_false_2 by done. split; [|done]. intros [?|?]; done.
Qed.

(** The first loop compares the real tensors whose name has no "mask",
    and stops at the first that is the same as on data-parallel rank 0. *)
Lemma dp_loop_spec (items : micro_batch) (l : log) :
  match dp_loop dpg n items l with
  | (r, l') =>
      (exists done_, l' = l ++ map (fun key => (dp_pg, key)) done_
         /\ forall key, key ∈ done_ ->
              exists v, (key, Tensor v) ∈ items /\ contains "mask" key = false)
      /\ match r with
         | Ok _ =>
             forall key v, (key, Tensor v) ∈ items -> contains "mask" key = false ->
                           dp_check_passes dpg n key v
         | Raise e =>
             e = dp_failure
             /\ exists key v, (key, Tensor v) ∈ items /\ contains "mask" key = false
                              /\ ~ dp_check_passes dpg n key v
         end
  end.
Proof.
  revert l. induction items as [|[key val] items IH]; intros l.
  - simpl. split; [exists []; split; [by rewrite app_nil_r|set_solver]|].
    intros key v H. by apply elem_of_nil in H.
  - destruct val as [v|r].
    + cbn [dp_loop]. destruct (contains "mask" key) eqn:Hmask.
      * specialize (IH l). destruct (dp_loop dpg n items l) as [r l'].
        destruct IH as [(ks & -> & Hks) Hr]. split.
        { exists ks. split; [done|]. intros k Hk. destruct (Hks k Hk) as (v' & ? & ?).
          exists v'. split; [by right|done]. }
        destruct r as [[]|e].
        { intros k v' [Heq|Hin]%elem_of_cons Hm; [|by eauto].
          injection Heq as -> ->. congruence. }
        { destruct Hr as (-> & k & v' & Hin & Hm & Hnp). split; [done|].
          exists k, v'. split; [by right|done]. }
      * destruct (dp_step key v (fun err => key +:+ " " +:+ err)) as [[Hp ->]|[Hnp ->]].
        { specialize (IH (l ++ [(dp_pg, key)])).
          destruct (dp_loop dpg n items (l ++ [(dp_pg, key)])) as [r l'].
          destruct IH as [(ks & -> & Hks) Hr]. split.
          { exists (key :: ks). split; [by rewrite <- app_assoc|].
            intros k [->|Hk]%elem_of_cons.
            - exists v. split; [by left|done].
            - destruct (Hks k Hk) as (v' & ? & ?). exists v'. split; [by right|done]. }
          destruct r as [[]|e].
          { intros k v' [Heq|Hin]%elem_of_cons Hm; [|by eauto].
            by injection Heq as -> ->. }
          { destruct Hr as (-> & k & v' & Hin & Hm & Hnp). split; [done|].
            exists k, v'. split; [by right|done]. } }
        { split.
          - exists [key]. split; [done|]. intros k ->%list_elem_of_singleton.
            exists v. split; [by left|done].
          - split; [done|]. exists key, v. split; [by left|done]. }
    + cbn [dp_loop]. specialize (IH l). destruct (dp_loop dpg n items l) as [r0 l'].
      destruct IH as [(ks & -> & Hks) Hr]. split.
      { exists ks. split; [done|]. intros k Hk. destruct (Hks k Hk) as (v' & ? & ?).
        exists v'. split; [by right|done]. }
      destruct r0 as [[]|e].
      { intros k v' [Heq|Hin]%elem_of_cons Hm; [done|by eauto]. }
      { destruct Hr as (-> & k & v' & Hin & Hm & Hnp). split; [done|].
        exists k, v'. split; [by right|done]. }
Qed.

(** The second loop compares every real tensor, and stops at the first
    that differs from the one on tensor-parallel rank 0. *)
Lemma tp_loop_spec (items : micro_batch) (l : log) :
  match tp_loop dpg n items l with
  | (r, l') =>
      (exists done_, l' = l ++ map (fun key => (tp_pg, key)) done_
         /\ forall key, key ∈ done_ -> exists v, (key, Tensor v) ∈ items)
      /\ match r with
         | Ok _ => forall key v, (key, Tensor v) ∈ items -> tp_check_passes dpg n key v
         | Raise e =>
             exists key v, (key, Tensor v) ∈ items /\ ~ tp_check_passes dpg n key v
                           /\ e = tp_failure key
         end
  end.
Proof.
  revert l. induction items as [|[key val] items IH]; intros l.
  - simpl. split; [exists []; split; [by rewrite app_nil_r|set_solver]|].
    intros key v H. by apply elem_of_nil in H.
  - destruct val as [v|r].
    + cbn [tp_loop]. destruct (tp_step key v) as [[Hp ->]|[Hnp ->]].
      * specialize (IH (l ++ [(tp_pg, key)])).
        destruct (tp_loop dpg n items (l ++ [(tp_pg, key)])) as [r l'].
        destruct IH as [(ks & -> & Hks) Hr]. split.
        { exists (key :: ks). split; [by rewrite <- app_assoc|].
          intros k [->|Hk]%elem_of_cons.
          - exists v. by left.
          - destruct (Hks k Hk) as (v' & ?). exists v'. by right. }
        destruct r as [[]|e].
        { intros k v' [Heq|Hin]%elem_of_cons; [|by eauto].
          by injection Heq as -> ->. }
        { destruct Hr as (k & v' & Hin & Hnp & ->).
          exists k, v'. split; [by right|done]. }
      * split.
        { exists [key]. split; [done|]. intros k ->%list_elem_of_singleton.
          exists v. by left. }
        { exists key, v. split; [by left|done]. }
    + cbn [tp_loop]. specialize (IH l). destruct (tp_loop dpg n items l) as [r0 l'].
      destruct IH as [(ks & -> & Hks) Hr]. split.
      { exists ks. split; [done|]. intros k Hk. destruct (Hks k Hk) as (v' & ?).
        exists v'. by right. }
      destruct r0 as [[]|e].
      { intros k v' [Heq|Hin]%elem_of_cons; [done|by eauto]. }
      { destruct Hr as (k & v' & Hin & Hnp & ->).
        exists k, v'. split; [by right|done]. }
Qed.

Lemma elem_of_sorted_items (b : micro_batch) (kv : string * value) :
  kv ∈ sorted_items b <-> kv ∈ b.
Proof. unfold sorted_items. by rewrite merge_sort_Permutation. Qed.

End SanityCheckFacts.

(** C4, as the code has it: with the sanity checks on, every real tensor
    whose name has no "mask" is checked to DIFFER from the tensor of
    data-parallel rank 0 on every other rank of the data-parallel group
    (the inputs of the replicas must not be the same), and every real tensor
    is checked to be the same as on tensor-parallel rank 0; a tensor-parallel
    mismatch raises an [AssertionError] that starts with the name of the
    field; with the checks off nothing is compared; a placeholder is never
    compared. *)
Theorem sanity_check_batch (dpg : SanityCheck.DistributedProcessGroups) (n : nat)
    (batch : SanityCheck.micro_batch) :
  SanityCheck.check_batch true dpg n batch = (Ok batch, [])
  /\ match SanityCheck.check_batch false dpg n batch with
     | (r, l) =>
         (forall g key, (g, key) ∈ l ->
            exists v, (key, SanityCheck.Tensor v) ∈ batch
                      /\ (g = SanityCheck.dp_pg -> SanityCheck.contains "mask" key = false))
         /\ (r = Ok batch <->
             forall key v, (key, SanityCheck.Tensor v) ∈ batch ->
               (SanityCheck.contains "mask" key = false -> dp_check_passes dpg n key v)
               /\ tp_check_passes dpg n key v)
         /\ (forall e, r = Raise e ->
               (e = dp_failure
                /\ exists key v, (key, SanityCheck.Tensor v) ∈ batch
                                 /\ SanityCheck.contains "mask" key = false
                                 /\ ~ dp_check_passes dpg n key v)
               \/ (exists key v, (key, SanityCheck.Tensor v) ∈ batch
                                 /\ ~ tp_check_passes dpg n key v
                                 /\ e = tp_failure key))
     end.
Proof.
  split; [done|]. unfold SanityCheck.check_batch. cbn [negb].
  pose proof (dp_loop_spec dpg n (SanityCheck.sorted_items batch) []) as Hdp.
  destruct (SanityCheck.dp_loop dpg n (SanityCheck.sorted_items batch) []) as [r1 l1].
  destruct Hdp as [(ks1 & -> & Hks1) Hr1]. cbn [app] in *.
  destruct r1 as [[]|e1].
  - pose proof (tp_loop_spec dpg n (SanityCheck.sorted_items batch)
                  (map (fun key => (SanityCheck.dp_pg, key)) ks1)) as Htp.
    destruct (SanityCheck.tp_loop dpg n (SanityCheck.sorted_items batch)
                (map (fun key => (SanityCheck.dp_pg, key)) ks1)) as [r2 l2].
    destruct Htp as [(ks2 & -> & Hks2) Hr2].
    assert (Hlog : forall g key,
               (g, key) ∈ map (fun key => (SanityCheck.dp_pg, key)) ks1
                          ++ map (fun key => (SanityCheck.tp_pg, key)) ks2 ->
               exists v, (key, SanityCheck.Tensor v) ∈ batch
                         /\ (g = SanityCheck.dp_pg ->
                             SanityCheck.contains "mask" key = false)).
    { intros g key [Hin|Hin]%elem_of_app.
      - apply list_elem_of_In, in_map_iff in Hin. destruct Hin as (k & [= <- <-] & Hk).
        apply list_elem_of_In in Hk. destruct (Hks1 k Hk) as (v & Hv & Hm).
        exists v. split; [by apply elem_of_sorted_items|done].
      - apply list_elem_of_In, in_map_iff in Hin. destruct Hin as (k & [= <- <-] & Hk).
        apply list_elem_of_In in Hk. destruct (Hks2 k Hk) as (v & Hv).
        exists v. split; [by apply elem_of_sorted_items|done]. }
    destruct r2 as [[]|e2].
    + split; [exact Hlog|]. split; [|done].
      split; [|done]. intros _ key v Hin%elem_of_sorted_items. split; eauto.
    + split; [exact Hlog|]. destruct Hr2 as (k & v & Hin & Hnp & ->). split.
      * split; [done|]. intros H. exfalso. apply Hnp.
        by apply H, elem_of_sorted_items.
      * intros e [= <-]. right. exists k, v.
        split; [by apply elem_of_sorted_items|done].
  - destruct Hr1 as (-> & k & v & Hin & Hm & Hnp). split.
    { intros g key Hin'. apply list_elem_of_In, in_map_iff in Hin'.
      destruct Hin' as (k' & [= <- <-] & Hk). apply list_elem_of_In in Hk.
      destruct (Hks1 k' Hk) as (v' & Hv & Hm').
      exists v'. split; [by apply elem_of_sorted_items|done]. }
    split.
    + split; [done|]. intros H. exfalso. apply Hnp.
      by apply H; [apply elem_of_sorted_items|].
    + intros e [= <-]. left. split; [done|]. exists k, v.
      split; [by apply elem_of_sorted_items|done].
Qed.

(** The specification's reading fails: on the second replica of a
    data-parallel group whose replicas hold the same [input_ids], every
    field is identical across the data-parallel group (masks apart) and
    across the tensor-parallel group, and the check raises; when the
    replicas hold different [input_ids], it passes. *)
Lemma sanity_check_identical_replicas_rejected :
  (forall key v, (key, SanityCheck.Tensor v) ∈ Examples.one_field ->
     (SanityCheck.contains "mask" key = false ->
      identical_across SanityCheck.dp_pg (Examples.second_replica [1; 2]) 0 key v)
     /\ identical_across SanityCheck.tp_pg (Examples.second_replica [1; 2]) 0 key v)
  /\ SanityCheck.check_batch false (Examples.second_replica [1; 2]) 0 Examples.one_field
     = (Raise dp_failure, [(SanityCheck.dp_pg, "input_ids")])
  /\ ~ identical_across SanityCheck.dp_pg (Examples.second_replica [7; 7]) 0
         "input_ids" [1; 2]
  /\ SanityCheck.check_batch false (Examples.second_replica [7; 7]) 0 Examples.one_field
     = (Ok Examples.one_field,
        [(SanityCheck.dp_pg, "input_ids"); (SanityCheck.tp_pg, "input_ids");
         (SanityCheck.tp_pg, "input_mask")]).
Proof.
  split.
  { intros key v Hin. split; [|by left]. intros Hm. right.
    unfold Examples.one_field in Hin.
    repeat (apply elem_of_cons in Hin as [Hin|Hin]); try (by apply elem_of_nil in Hin).
    - by injection Hin as -> ->.
    - injection Hin as -> ->. vm_compute in Hm. discriminate.
    - discriminate. }
  split; [vm_compute; reflexivity|]. split; [|vm_compute; reflexivity].
  intros [H|H]; vm_compute in H; discriminate.
Qed.

Lemma sanity_check_batch_witness :
  SanityCheck.check_batch false (Examples.second_replica [7; 7]) 0 Examples.one_field
  = (Ok Examples.one_field,
     [(SanityCheck.dp_pg, "input_ids"); (SanityCheck.tp_pg, "input_ids");
      (SanityCheck.tp_pg, "input_mask")])
  /\ forall key v, (key, SanityCheck.Tensor v) ∈ Examples.one_field ->
       (SanityCheck.contains "mask" key = false ->
        dp_check_passes (Examples.second_replica [7; 7]) 0 key v)
       /\ tp_check_passes (Examples.second_replica [7; 7]) 0 key v.
Proof.
  pose proof (sanity_check_batch (Examples.second_replica [7; 7]) 0 Examples.one_field)
    as [_ H].
  assert (E : SanityCheck.check_batch false (Examples.second_replica [7; 7]) 0
                Examples.one_field
              = (Ok Examples.one_field,
                 [(SanityCheck.dp_pg, "input_ids"); (SanityCheck.tp_pg, "input_ids");
                  (SanityCheck.tp_pg, "input_mask")])) by (vm_compute; reflexivity).
  rewrite E in H. destruct H as (_ & [H _] & _). split; [exact E|]. by apply H.
Defined.

(** ** The mesh of ranks *)


Lemma elem_of_grid {A} (f : nat -> nat -> A) (n m : nat) (x : A) :
  x ∈ flat_map (fun i => map (fun j => f i j) (seq 0 m)) (seq 0 n)
  <-> exists i j, (i < n)%nat /\ (j < m)%nat /\ x = f i j.
Proof.
  rewrite list_elem_of_In, in_flat_map. split.
  - intros (i & Hi%in_seq & (j & <- & Hj%in_seq)%in_map_iff). exists i, j.
    split; [lia|]. split; [lia|done].
  - intros (i & j & Hi & Hj & ->). exists i. split; [apply in_seq; lia|].
    apply in_map_iff. exists j. split; [done|apply in_seq; lia].
Qed.

Section Mesh.
Import ParallelContext.
Variables pp dp tp : nat.
Hypothesis pp_pos : (0 < pp)%nat.
Hypothesis dp_pos : (0 < dp)%nat.
Hypothesis tp_pos : (0 < tp)%nat.

Lemma take_drop_seqZ (k m N : nat) :
  (k * m + m <= N)%nat ->
  take m (drop (k * m) (seqZ 0 (Z.of_nat N))) = seqZ (Z.of_nat (k * m)) (Z.of_nat m).
Proof.
  intros HN. apply list_eq. intros i.
  destruct (decide (i < m)%nat) as [Hi|Hi].
  - rewrite lookup_take_lt, lookup_drop by done.
    rewrite !lookup_seqZ_lt by lia. f_equal. lia.
  - rewrite lookup_take_ge by lia. by rewrite lookup_seqZ_ge by lia.
Qed.

Lemma flat_rows_lookup (k : nat) :
  (k < pp * dp)%nat ->
  reshape (replicate (pp * dp) tp) (seqZ 0 (Z.of_nat (pp * dp * tp))) !! k
  = Some (seqZ (Z.of_nat (k * tp)) (Z.of_nat tp)).
Proof.
  intros Hk.
  rewrite sublist_lookup_reshape by (rewrite ?length_seqZ; lia).
  assert (k * tp + tp <= pp * dp * tp)%nat by nia.
  rewrite sublist_lookup_Some by (rewrite length_seqZ; lia).
  by rewrite take_drop_seqZ.
Qed.

Lemma arange_reshape_ok :
  arange_reshape (Z.of_nat (pp * dp * tp)) pp dp tp
  = Ok (reshape (replicate pp dp)
          (reshape (replicate (pp * dp) tp) (seqZ 0 (Z.of_nat (pp * dp * tp))))).
Proof.
  unfold arange_reshape. rewrite bool_decide_eq_true_2; [done|lia].
Qed.

Lemma ranks_plane_row (a : ndarray3) (p d : nat) :
  arange_reshape (Z.of_nat (pp * dp * tp)) pp dp tp = Ok a ->
  (p < pp)%nat -> (d < dp)%nat ->
  exists plane,
    a !! p = Some plane
    /\ length plane = dp
    /\ plane !! d = Some (seqZ (Z.of_nat ((p * dp + d) * tp)) (Z.of_nat tp)).
Proof.
  rewrite arange_reshape_ok. intros [= <-] Hp Hd.
  set (rows := reshape (replicate (pp * dp) tp) (seqZ 0 (Z.of_nat (pp * dp * tp)))).
  assert (length rows = (pp * dp)%nat) as Hrows.
  { unfold rows. by rewrite length_reshape, length_replicate. }
  assert (p * dp + dp <= pp * dp)%nat by nia.
  assert (reshape (replicate pp dp) rows !! p = Some (take dp (drop (p * dp) rows))) as E.
  { rewrite sublist_lookup_reshape by lia. by rewrite sublist_lookup_Some by lia. }
  eexists. split; [exact E|]. split.
  - rewrite length_take, length_drop. lia.
  - rewrite lookup_take_lt, lookup_drop by done.
    apply flat_rows_lookup. nia.
Qed.

Lemma item_ranks (a : ndarray3) (p d t : nat) :
  arange_reshape (Z.of_nat (pp * dp * tp)) pp dp tp = Ok a ->
  (p < pp)%nat -> (d < dp)%nat -> (t < tp)%nat ->
  item a p d t = Z.of_nat ((p * dp + d) * tp + t).
Proof.
  intros Ha Hp Hd Ht. unfold item.
  destruct (ranks_plane_row a p d Ha Hp Hd) as (plane & -> & _ & Hrow). simpl.
  rewrite Hrow. simpl. rewrite lookup_seqZ_lt by lia. simpl. lia.
Qed.

Lemma concat_ranks (a : ndarray3) :
  arange_reshape (Z.of_nat (pp * dp * tp)) pp dp tp = Ok a ->
  concat a = reshape (replicate (pp * dp) tp) (seqZ 0 (Z.of_nat (pp * dp * tp))).
Proof.
  rewrite arange_reshape_ok. intros [= <-].
  apply concat_reshape_replicate. by rewrite length_reshape, length_replicate.
Qed.

(** The coordinates of a rank and the rank at given coordinates. *)
Lemma coordinates_of_rank (rank : Z) (d0 : dist) :
  0 <= rank < Z.of_nat (pp * dp * tp) ->
  exists p d t : nat,
    coordinates (Z.of_nat tp) (Z.of_nat dp) (Z.of_nat pp) rank d0
    = (Ok (Z.of_nat p, Z.of_nat d, Z.of_nat t), d0)
    /\ (p < pp)%nat /\ (d < dp)%nat /\ (t < tp)%nat
    /\ rank = Z.of_nat ((p * dp + d) * tp + t).
Proof.
  intros Hr.
  set (T := Z.of_nat tp). set (D := Z.of_nat dp). set (P := Z.of_nat pp).
  assert (0 < T) by lia. assert (0 < D) by lia. assert (0 < P) by lia.
  assert (rank < P * D * T) as Hlt by (subst P D T; lia).
  assert (0 <= rank / T < P * D) as Hq1.
  { split; [apply Z.div_pos; lia|]. apply Z.div_lt_upper_bound; lia. }
  assert (rank / (T * D) = rank / T / D) as Hdd by (rewrite Z.div_div; lia).
  assert (0 <= rank / T / D < P) as Hq2.
  { split; [apply Z.div_pos; lia|]. apply Z.div_lt_upper_bound; lia. }
  pose proof (Z.mod_pos_bound rank T ltac:(lia)) as Ht.
  pose proof (Z.mod_pos_bound (rank / T) D ltac:(lia)) as Hd.
  pose proof (Z.div_mod rank T ltac:(lia)) as E1.
  pose proof (Z.div_mod (rank / T) D ltac:(lia)) as E2.
  exists (Z.to_nat (rank / T / D)), (Z.to_nat ((rank / T) mod D)), (Z.to_nat (rank mod T)).
  split.
  - unfold coordinates, pydiv, pymod. fold T D P.
    destruct (Z.eqb_spec (T * D) 0) as [|_]; [lia|].
    destruct (Z.eqb_spec P 0) as [|_]; [lia|].
    destruct (Z.eqb_spec T 0) as [|_]; [lia|].
    destruct (Z.eqb_spec D 0) as [|_]; [lia|].
    cbv [mbind mret M_bind M_ret]. rewrite !Z2Nat.id by lia.
    rewrite Hdd, (Z.mod_small (rank / T / D)) by lia. done.
  - split; [lia|]. split; [lia|]. split; [lia|].
    rewrite !Nat2Z.inj_add, !Nat2Z.inj_mul, !Nat2Z.inj_add, !Nat2Z.inj_mul.
    rewrite !Z2Nat.id by lia. fold T D. nia.
Qed.

Lemma rank_of_coordinates (p d t : nat) (d0 : dist) :
  (p < pp)%nat -> (d < dp)%nat -> (t < tp)%nat ->
  let rank := Z.of_nat ((p * dp + d) * tp + t) in
  0 <= rank < Z.of_nat (pp * dp * tp)
  /\ coordinates (Z.of_nat tp) (Z.of_nat dp) (Z.of_nat pp) rank d0
     = (Ok (Z.of_nat p, Z.of_nat d, Z.of_nat t), d0).
Proof.
  intros Hp Hd Ht rank.
  assert (0 <= rank < Z.of_nat (pp * dp * tp)) as Hr.
  { assert (p * dp + d + 1 <= pp * dp)%nat by nia.
    assert ((p * dp + d) * tp + tp <= pp * dp * tp)%nat by nia.
    subst rank. lia. }
  split; [done|].
  destruct (coordinates_of_rank rank d0 Hr) as (p' & d' & t' & -> & Hp' & Hd' & Ht' & E).
  assert ((p * dp + d) * tp + t = (p' * dp + d') * tp + t')%nat as E' by (subst rank; lia).
  assert (t = t') as <-.
  { assert (t = ((p * dp + d) * tp + t) mod tp)%nat as ->.
    { rewrite Nat.add_comm, Nat.Div0.mod_add. by rewrite Nat.mod_small. }
    rewrite E', Nat.add_comm, Nat.Div0.mod_add. by rewrite Nat.mod_small. }
  assert (p * dp + d = p' * dp + d')%nat as E'' by nia.
  assert (d = d') as <-.
  { assert (d = (p * dp + d) mod dp)%nat as ->.
    { rewrite Nat.add_comm, Nat.Div0.mod_add. by rewrite Nat.mod_small. }
    rewrite E'', Nat.add_comm, Nat.Div0.mod_add. by rewrite Nat.mod_small. }
  assert (p = p') as <- by nia. done.
Qed.

Variable a : ndarray3.
Hypothesis a_ranks : arange_reshape (Z.of_nat (pp * dp * tp)) pp dp tp = Ok a.
Variable rank : Z.
Hypothesis rank_range : 0 <= rank < Z.of_nat (pp * dp * tp).

Lemma tp_rows :
  Forall (fun row => length row = tp /\ NoDup row) (ranks_with_tp_last a)
  /\ exists row, row ∈ ranks_with_tp_last a /\ rank ∈ row.
Proof.
  unfold ranks_with_tp_last. rewrite (concat_ranks a a_ranks). split.
  - apply Forall_lookup. intros k row Hk.
    assert (k < pp * dp)%nat as Hlt.
    { apply lookup_lt_Some in Hk. by rewrite length_reshape, length_replicate in Hk. }
    rewrite (flat_rows_lookup k Hlt) in Hk. injection Hk as <-.
    split; [rewrite length_seqZ; lia|apply NoDup_seqZ].
  - destruct (coordinates_of_rank rank
                {| dist_is_available := true; dist_is_initialized := true;
                   created := []; trace := [] |} rank_range)
      as (p & d & t & _ & Hp & Hd & Ht & ->).
    exists (seqZ (Z.of_nat ((p * dp + d) * tp)) (Z.of_nat tp)). split.
    + apply list_elem_of_lookup. exists (p * dp + d)%nat.
      apply flat_rows_lookup. nia.
    + apply elem_of_seqZ. lia.
Qed.

Lemma dp_rows :
  Forall (fun row => length row = dp /\ NoDup row) (ranks_with_dp_last a pp dp tp)
  /\ exists row, row ∈ ranks_with_dp_last a pp dp tp /\ rank ∈ row.
Proof.
  unfold ranks_with_dp_last. split.
  - apply Forall_forall. intros row (p & t & Hp & Ht & ->)%elem_of_grid.
    split; [by rewrite length_map, length_seq|].
    change (NoDup ((fun d' => item a p d' t) <$> seq 0 dp)).
    apply NoDup_fmap_2_strong; [|apply NoDup_seq].
    intros x y Hx%elem_of_seq Hy%elem_of_seq E.
    rewrite !(item_ranks a) in E by (done || lia). nia.
  - destruct (coordinates_of_rank rank
                {| dist_is_available := true; dist_is_initialized := true;
                   created := []; trace := [] |} rank_range)
      as (p & d & t & _ & Hp & Hd & Ht & ->).
    exists (map (fun d' => item a p d' t) (seq 0 dp)). split.
    + apply elem_of_grid. exists p, t. auto.
    + apply list_elem_of_In, in_map_iff. exists d.
      split; [by apply item_ranks|apply in_seq; lia].
Qed.

Lemma pp_rows :
  Forall (fun row => length row = pp /\ NoDup row) (ranks_with_pp_last a pp dp tp)
  /\ exists row, row ∈ ranks_with_pp_last a pp dp tp /\ rank ∈ row.
Proof.
  unfold ranks_with_pp_last. split.
  - apply Forall_forall. intros row (t & d & Ht & Hd & ->)%elem_of_grid.
    split; [by rewrite length_map, length_seq|].
    change (NoDup ((fun p' => item a p' d t) <$> seq 0 pp)).
    apply NoDup_fmap_2_strong; [|apply NoDup_seq].
    intros x y Hx%elem_of_seq Hy%elem_of_seq E.
    rewrite !(item_ranks a) in E by (done || lia). nia.
  - destruct (coordinates_of_rank rank
                {| dist_is_available := true; dist_is_initialized := true;
                   created := []; trace := [] |} rank_range)
      as (p & d & t & _ & Hp & Hd & Ht & ->).
    exists (map (fun p' => item a p' d t) (seq 0 pp)). split.
    + apply elem_of_grid. exists t, d. auto.
    + apply list_elem_of_In, in_map_iff. exists p.
      split; [by apply item_ranks|apply in_seq; lia].
Qed.

End Mesh.

(** ** The registry of process groups *)

Section Registry.
Import ParallelContext.

Lemma new_group_step (b : nat) (ranks : list Z) (reg : gmap (list Z) ProcessGroup)
    (d : dist) :
  registry_inv b reg d -> (b <= length (created d))%nat ->
  exists g reg' d',
    new_group_unless_registered ranks reg d = (Ok (Some g, reg'), d')
    /\ registry_inv b reg' d'
    /\ reg' !! sorted ranks = Some g
    /\ reg ⊆ reg'
    /\ created d `prefix_of` created d'
    /\ dist_is_available d' = dist_is_available d
    /\ dist_is_initialized d' = dist_is_initialized d
    /\ (forall g0, reg !! sorted ranks = Some g0 -> g = g0 /\ reg' = reg /\ d' = d)
    /\ (reg !! sorted ranks = None ->
        g = length (created d) /\ reg' = <[sorted ranks := g]> reg
        /\ created d' = created d ++ [ranks]
        /\ trace d' = trace d ++ [NewGroup g ranks]).
Proof.
  intros [Hreg Hcre] Hb. unfold new_group_unless_registered.
  destruct (reg !! sorted ranks) as [g0|] eqn:Hk.
  - exists g0, reg, d. split; [done|]. split; [done|]. split; [done|].
    split; [done|]. split; [done|]. split; [done|]. split; [done|].
    split; [by intros ? [= <-]|done].
  - set (d' := {| dist_is_available := dist_is_available d;
                  dist_is_initialized := dist_is_initialized d;
                  created := created d ++ [ranks];
                  trace := trace d ++ [NewGroup (length (created d)) ranks] |}).
    exists (length (created d)), (<[sorted ranks := length (created d)]> reg), d'.
    assert (created d' = created d ++ [ranks]) as Hc by done.
    split; [done|]. split; [|split; [apply lookup_insert_eq|]].
    + split.
      * intros k g Hkg. rewrite Hc. destruct (decide (k = sorted ranks)) as [->|Hne].
        { rewrite lookup_insert_eq in Hkg. injection Hkg as <-. split; [done|].
          exists ranks. split; [|done]. by rewrite list_lookup_middle. }
        { rewrite lookup_insert_ne in Hkg by done.
          destruct (Hreg k g Hkg) as (Hbg & r & Hr & Hs). split; [done|].
          exists r. split; [|done]. by apply lookup_app_l_Some. }
      * intros g r Hbg Hr. rewrite Hc in Hr.
        destruct (decide (g < length (created d))%nat) as [Hlt|Hge].
        { rewrite lookup_app_l in Hr by done.
          pose proof (Hcre g r Hbg Hr) as Hg.
          rewrite lookup_insert_ne; [done|]. intros E. rewrite <- E in Hg. congruence. }
        { pose proof (lookup_lt_Some _ _ _ Hr) as Hlen.
          rewrite length_app in Hlen. simpl in Hlen.
          assert (g = length (created d)) as -> by lia.
          rewrite list_lookup_middle in Hr by done. injection Hr as <-.
          apply lookup_insert_eq. }
    + split; [by apply insert_subseteq|]. split; [rewrite Hc; by apply prefix_app_r|].
      split; [done|]. split; [done|]. split; [done|]. done.
Qed.

Lemma axis_loop_spec (rank : Z) (b : nat) (rows : list (list Z)) :
  forall (reg : gmap (list Z) ProcessGroup) (pg : option ProcessGroup) (d : dist),
    registry_inv b reg d -> (b <= length (created d))%nat ->
    exists pg' reg' d',
      axis_loop rank rows reg pg d = (Ok (pg', reg'), d')
      /\ registry_inv b reg' d'
      /\ reg ⊆ reg'
      /\ created d `prefix_of` created d'
      /\ dist_is_available d' = dist_is_available d
      /\ dist_is_initialized d' = dist_is_initialized d
      /\ ((forall row, row ∈ rows -> rank ∉ row) -> pg' = pg)
      /\ ((exists row, row ∈ rows /\ rank ∈ row) ->
          exists row g, row ∈ rows /\ rank ∈ row /\ pg' = Some g
                        /\ reg' !! sorted row = Some g).
Proof.
  induction rows as [|ranks rows IH]; intros reg pg d Hinv Hb.
  - exists pg, reg, d. split; [done|]. split; [done|]. split; [done|].
    split; [done|]. split; [done|]. split; [done|]. split; [done|].
    intros (row & Hin & _). by apply elem_of_nil in Hin.
  - cbn [axis_loop]. cbv [mbind M_bind].
    destruct (new_group_step b ranks reg d Hinv Hb)
      as (g & reg1 & d1 & -> & Hinv1 & Hg & Hsub1 & Hpre1 & Ha1 & Hi1 & _ & _).
    assert (b <= length (created d1))%nat as Hb1.
    { apply prefix_length in Hpre1. lia. }
    destruct (IH reg1 (if bool_decide (rank ∈ ranks) then Some g else pg) d1 Hinv1 Hb1)
      as (pg' & reg' & d' & -> & Hinv' & Hsub' & Hpre' & Ha' & Hi' & Hnone & Hsome).
    exists pg', reg', d'. split; [done|]. split; [done|].
    split; [by etrans|]. split; [by etrans|].
    split; [congruence|]. split; [congruence|]. split.
    + intros Hno. rewrite Hnone.
      * rewrite bool_decide_eq_false_2; [done|]. apply Hno. by left.
      * intros row Hrow. apply Hno. by right.
    + intros (row & Hrow & Hrank).
      destruct (decide (Exists (fun row' => rank ∈ row') rows)) as [Hex|Hnex].
      * apply Exists_exists in Hex. destruct (Hsome Hex) as (row' & g' & Hin' & Hr' & -> & Hl').
        exists row', g'. split; [by right|done].
      * assert (forall row', row' ∈ rows -> rank ∉ row') as Hno.
        { intros row' Hin' Hr'. apply Hnex, Exists_exists. eauto. }
        apply elem_of_cons in Hrow as [->|Hrow]; [|by destruct (Hno row Hrow)].
        rewrite (Hnone Hno). rewrite bool_decide_eq_true_2 by done.
        exists ranks, g. split; [by left|]. split; [done|]. split; [done|].
        by eapply lookup_weaken.
Qed.

Lemma model_loop_spec (b : nat) (rows : list (list Z)) :
  forall (reg : gmap (list Z) ProcessGroup) (d : dist),
    registry_inv b reg d -> (b <= length (created d))%nat ->
    exists reg' d',
      model_loop rows reg d = (Ok reg', d')
      /\ registry_inv b reg' d'
      /\ reg ⊆ reg'
      /\ created d `prefix_of` created d'
      /\ dist_is_available d' = dist_is_available d
      /\ dist_is_initialized d' = dist_is_initialized d.
Proof.
  induction rows as [|ranks rows IH]; intros reg d Hinv Hb.
  - exists reg, d. done.
  - cbn [model_loop]. cbv [mbind M_bind].
    destruct (new_group_step b ranks reg d Hinv Hb)
      as (g & reg1 & d1 & -> & Hinv1 & Hg & Hsub1 & Hpre1 & Ha1 & Hi1 & _ & _).
    assert (b <= length (created d1))%nat as Hb1.
    { apply prefix_length in Hpre1. lia. }
    destruct (IH reg1 d1 Hinv1 Hb1)
      as (reg' & d' & -> & Hinv' & Hsub' & Hpre' & Ha' & Hi').
    exists reg', d'. split; [done|]. split; [done|].
    split; [by etrans|]. split; [by etrans|]. split; congruence.
Qed.

End Registry.

Section InitParallelGroups.
Import ParallelContext.
Variables pp dp tp : nat.
Hypothesis pp_pos : (0 < pp)%nat.
Hypothesis dp_pos : (0 < dp)%nat.
Hypothesis tp_pos : (0 < tp)%nat.

Lemma init_parallel_groups_ok (env : environ) (self : t) (d : dist) (w : nat) :
  world_pg self = Some w ->
  tensor_parallel_size self = Z.of_nat tp ->
  data_parallel_size self = Z.of_nat dp ->
  pipeline_parallel_size self = Z.of_nat pp ->
  WORLD_SIZE env = Z.of_nat (pp * dp * tp) ->
  0 <= RANK env < WORLD_SIZE env ->
  exists self' d' a,
    init_parallel_groups env self d = (Ok self', d')
    /\ arange_reshape (WORLD_SIZE env) pp dp tp = Ok a
    /\ world_rank_matrix self' = a
    /\ registry_inv (length (created d)) (world_ranks_to_pg self') d'
    /\ created d `prefix_of` created d'
    /\ dist_is_available d' = dist_is_available d
    /\ dist_is_initialized d' = dist_is_initialized d
    /\ _groups self' = _groups self
    /\ world_pg self' = world_pg self
    /\ (exists row g, row ∈ ranks_with_tp_last a /\ RANK env ∈ row
                      /\ tp_pg self' = Some g
                      /\ world_ranks_to_pg self' !! sorted row = Some g)
    /\ (exists row g, row ∈ ranks_with_dp_last a pp dp tp /\ RANK env ∈ row
                      /\ dp_pg self' = Some g
                      /\ world_ranks_to_pg self' !! sorted row = Some g)
    /\ (exists row g, row ∈ ranks_with_pp_last a pp dp tp /\ RANK env ∈ row
                      /\ pp_pg self' = Some g
                      /\ world_ranks_to_pg self' !! sorted row = Some g).
Proof.
  intros Hw Htp Hdp Hpp Hws Hrank. unfold init_parallel_groups.
  rewrite Hw, Htp, Hdp, Hpp, Hws, !Nat2Z.id.
  destruct (Z.leb_spec (Z.of_nat pp) 0) as [|_]; [lia|].
  destruct (Z.leb_spec (Z.of_nat dp) 0) as [|_]; [lia|].
  destruct (Z.leb_spec (Z.of_nat tp) 0) as [|_]; [lia|].
  cbv [getattr dist_barrier emit mbind mret M_bind M_ret orb].
  rewrite (arange_reshape_ok pp dp tp) by done.
  set (a := reshape (replicate pp dp)
              (reshape (replicate (pp * dp) tp) (seqZ 0 (Z.of_nat (pp * dp * tp))))).
  assert (Ha : arange_reshape (Z.of_nat (pp * dp * tp)) pp dp tp = Ok a)
    by (by apply arange_reshape_ok).
  rewrite Hws in Hrank.
  set (d1 := {| dist_is_available := dist_is_available d;
                dist_is_initialized := dist_is_initialized d;
                created := created d;
                trace := trace d ++ [Barrier (Some w)] |}).
  set (b := length (created d)).
  assert (Hinv0 : registry_inv b ∅ d1).
  { split; [intros k g Hk; by rewrite lookup_empty in Hk|].
    intros g r Hg Hr. apply lookup_lt_Some in Hr. simpl in Hr. lia. }
  destruct (axis_loop_spec (RANK env) b (ranks_with_tp_last a) ∅ None d1 Hinv0
              ltac:(simpl; lia))
    as (tpg & reg1 & d2 & -> & Hinv1 & Hsub1 & Hpre1 & Ha1 & Hi1 & _ & Htpg).
  destruct (Htpg (proj2 (tp_rows pp dp tp pp_pos dp_pos tp_pos a Ha (RANK env) Hrank)))
    as (row_tp & g_tp & Hrow_tp & Hin_tp & -> & Hreg_tp).
  assert (b <= length (created d2))%nat as Hb2 by (apply prefix_length in Hpre1; simpl in *; lia).
  destruct (axis_loop_spec (RANK env) b (ranks_with_dp_last a pp dp tp) reg1 None d2 Hinv1 Hb2)
    as (dpg & reg2 & d3 & -> & Hinv2 & Hsub2 & Hpre2 & Ha2 & Hi2 & _ & Hdpg).
  destruct (Hdpg (proj2 (dp_rows pp dp tp pp_pos dp_pos tp_pos a Ha (RANK env) Hrank)))
    as (row_dp & g_dp & Hrow_dp & Hin_dp & -> & Hreg_dp).
  assert (b <= length (created d3))%nat as Hb3 by (apply prefix_length in Hpre2; lia).
  destruct (axis_loop_spec (RANK env) b (ranks_with_pp_last a pp dp tp) reg2 None d3 Hinv2 Hb3)
    as (ppg & reg3 & d4 & -> & Hinv3 & Hsub3 & Hpre3 & Ha3 & Hi3 & _ & Hppg).
  destruct (Hppg (proj2 (pp_rows pp dp tp pp_pos dp_pos tp_pos a Ha (RANK env) Hrank)))
    as (row_pp & g_pp & Hrow_pp & Hin_pp & -> & Hreg_pp).
  assert (b <= length (created d4))%nat as Hb4 by (apply prefix_length in Hpre3; lia).
  destruct (model_loop_spec b (pp_and_tp_ranks a pp dp tp) reg3 d4 Hinv3 Hb4)
    as (reg4 & d5 & -> & Hinv4 & Hsub4 & Hpre4 & Ha4 & Hi4).
  cbv [local mret M_ret]. subst d1. cbn in Ha1, Hi1, Hpre1.
  eexists _, _, a. split; [reflexivity|]. split; [done|]. cbn.
  split; [done|]. split.
  { destruct Hinv4 as [H1 H2]. split; [exact H1|exact H2]. }
  split.
  { etrans; [|etrans; [exact Hpre1|]]; [done|].
    etrans; [exact Hpre2|]. etrans; [exact Hpre3|]. done. }
  split; [congruence|]. split; [congruence|]. split; [done|]. split; [done|].
  split; [|split].
  - exists row_tp, g_tp. split; [done|]. split; [done|]. split; [done|].
    eapply lookup_weaken; [|exact Hsub4]. eapply lookup_weaken; [|exact Hsub3].
    by eapply lookup_weaken.
  - exists row_dp, g_dp. split; [done|]. split; [done|]. split; [done|].
    eapply lookup_weaken; [|exact Hsub4]. by eapply lookup_weaken.
  - exists row_pp, g_pp. split; [done|]. split; [done|]. split; [done|].
    by eapply lookup_weaken.
Qed.

End InitParallelGroups.

Lemma registry_inv_created (b : nat) (reg : gmap (list Z) nat)
    (d1 d2 : ParallelContext.dist) :
  ParallelContext.created d1 = ParallelContext.created d2 ->
  registry_inv b reg d1 -> registry_inv b reg d2.
Proof. unfold registry_inv. by intros ->. Qed.

Lemma registered_group_members (b : nat) (reg : gmap (list Z) nat)
    (d : ParallelContext.dist) (row : list Z) (g : nat) :
  registry_inv b reg d -> reg !! ParallelContext.sorted row = Some g ->
  exists members,
    ParallelContext.created d !! g = Some members /\ Permutation members row.
Proof.
  intros [Hreg _] Hg. destruct (Hreg _ _ Hg) as (_ & r & Hr & Hs).
  exists r. split; [done|]. unfold ParallelContext.sorted in Hs.
  rewrite <- (merge_sort_Permutation Z.le r), Hs. apply merge_sort_Permutation.
Qed.

Section Init.
Import ParallelContext.
Variables pp dp tp : nat.
Hypothesis pp_pos : (0 < pp)%nat.
Hypothesis dp_pos : (0 < dp)%nat.
Hypothesis tp_pos : (0 < tp)%nat.

Lemma init_ok (env : environ) (d : dist) :
  dist_is_available d = true -> dist_is_initialized d = false ->
  WORLD_SIZE env = Z.of_nat (pp * dp * tp) ->
  0 <= RANK env < WORLD_SIZE env ->
  exists self d' a,
    __init__ env (Z.of_nat tp) (Z.of_nat pp) (Z.of_nat dp) "nccl" d = (Ok self, d')
    /\ arange_reshape (WORLD_SIZE env) pp dp tp = Ok a
    /\ world_rank_matrix self = a
    /\ _groups self = []
    /\ world_pg self = Some (length (created d))
    /\ (created d ++ [seqZ 0 (WORLD_SIZE env)]) `prefix_of` created d'
    /\ registry_inv (S (length (created d))) (world_ranks_to_pg self) d'
    /\ (exists row g, row ∈ ranks_with_tp_last a /\ RANK env ∈ row
                      /\ tp_pg self = Some g
                      /\ world_ranks_to_pg self !! sorted row = Some g)
    /\ (exists row g, row ∈ ranks_with_dp_last a pp dp tp /\ RANK env ∈ row
                      /\ dp_pg self = Some g
                      /\ world_ranks_to_pg self !! sorted row = Some g)
    /\ (exists row g, row ∈ ranks_with_pp_last a pp dp tp /\ RANK env ∈ row
                      /\ pp_pg self = Some g
                      /\ world_ranks_to_pg self !! sorted row = Some g).
Proof.
  intros Hav Hini Hws Hrank. unfold __init__, pymod.
  destruct (Z.eqb_spec (Z.of_nat dp) 0) as [|_]; [lia|].
  destruct (Z.eqb_spec (Z.of_nat tp * Z.of_nat pp) 0) as [|_]; [lia|].
  assert (WORLD_SIZE env mod Z.of_nat dp = 0) as ->.
  { rewrite Hws. replace (Z.of_nat (pp * dp * tp))
      with (Z.of_nat (pp * tp) * Z.of_nat dp) by lia. apply Z_mod_mult. }
  assert (WORLD_SIZE env mod (Z.of_nat tp * Z.of_nat pp) = 0) as ->.
  { rewrite Hws. replace (Z.of_nat (pp * dp * tp))
      with (Z.of_nat dp * (Z.of_nat tp * Z.of_nat pp)) by lia. apply Z_mod_mult. }
  assert ((Z.of_nat tp * Z.of_nat pp * Z.of_nat dp =? WORLD_SIZE env) = true) as ->.
  { apply Z.eqb_eq. lia. }
  cbv [assert get set_device emit mbind mret M_bind M_ret Z.eqb].
  rewrite Hav. cbn [negb dist_is_initialized dist_is_available created trace].
  rewrite Hini. cbn [negb].
  unfold init_global_dist.
  rewrite bool_decide_eq_true_2 by done.
  destruct (Z.leb_spec (WORLD_SIZE env) 0) as [|_]; [lia|].
  cbv [assert dist_init_process_group dist_new_group mbind mret M_bind M_ret].
  cbn [created dist_is_available dist_is_initialized trace].
  match goal with
  | |- context [init_parallel_groups env ?s ?d1] =>
      destruct (init_parallel_groups_ok pp dp tp pp_pos dp_pos tp_pos env s d1
                  (length (created d)) eq_refl eq_refl eq_refl eq_refl Hws Hrank)
        as (self' & d' & a & -> & Ha & Hm & Hinv & Hpre & _ & _ & Hg & Hw & Htp & Hdp & Hpp)
  end.
  cbv [dist_barrier emit]. cbn in Hinv, Hpre, Hg, Hw.
  rewrite length_app in Hinv. cbn in Hinv. rewrite Nat.add_1_r in Hinv.
  eexists _, _, a. split; [reflexivity|]. split; [done|]. split; [done|].
  split; [done|]. split; [done|]. split; [done|]. split; [|done].
  by eapply registry_inv_created.
Qed.

End Init.

Lemma registered_group_size (b : nat) (reg : gmap (list Z) nat)
    (d : ParallelContext.dist) (rows : list (list Z)) (size : nat) (rank : Z)
    (pg : option nat) :
  registry_inv b reg d ->
  Forall (fun row => length row = size /\ NoDup row) rows ->
  (exists row g, row ∈ rows /\ rank ∈ row /\ pg = Some g
                 /\ reg !! ParallelContext.sorted row = Some g) ->
  exists g members,
    pg = Some g /\ ParallelContext.created d !! g = Some members
    /\ length members = size /\ NoDup members /\ rank ∈ members.
Proof.
  intros Hinv Hrows (row & g & Hrow & Hrank & -> & Hreg).
  destruct (registered_group_members b reg d row g Hinv Hreg) as (members & Hm & Hperm).
  pose proof (proj1 (Forall_forall _ _) Hrows row Hrow) as [Hlen Hnd].
  exists g, members. split; [done|]. split; [done|].
  split; [by rewrite (Permutation_length Hperm)|].
  split; [by rewrite Hperm|by rewrite Hperm].
Qed.

(** C1: for sizes with [tp * dp * pp = world_size], the ranks
    [0 .. world_size - 1] laid out row-major in shape [(pp, dp, tp)] and
    the coordinates [pp_rank = (rank // (tp * dp)) % pp],
    [dp_rank = (rank // tp) % dp], [tp_rank = rank % tp] are inverse to each
    other, and the tensor, data and pipeline groups of every rank have [tp],
    [dp] and [pp] members, the rank among them.  For world size 8 and
    sizes 2, 2, 2, rank 5 is at (pipeline 1, data 0, tensor 1). *)
Theorem mesh_coordinates_and_groups :
  (forall pp dp tp : nat,
     (0 < pp)%nat -> (0 < dp)%nat -> (0 < tp)%nat ->
     let world_size := Z.of_nat tp * Z.of_nat dp * Z.of_nat pp in
     let coordinates :=
       ParallelContext.coordinates (Z.of_nat tp) (Z.of_nat dp) (Z.of_nat pp) in
     exists ranks,
       ParallelContext.arange_reshape world_size pp dp tp = Ok ranks
       /\ (forall rank d0, 0 <= rank < world_size ->
             exists p d t : nat,
               coordinates rank d0 = (Ok (Z.of_nat p, Z.of_nat d, Z.of_nat t), d0)
               /\ (p < pp)%nat /\ (d < dp)%nat /\ (t < tp)%nat
               /\ ParallelContext.item ranks p d t = rank)
       /\ (forall (p d t : nat) d0, (p < pp)%nat -> (d < dp)%nat -> (t < tp)%nat ->
             0 <= ParallelContext.item ranks p d t < world_size
             /\ coordinates (ParallelContext.item ranks p d t) d0
                = (Ok (Z.of_nat p, Z.of_nat d, Z.of_nat t), d0))
       /\ (forall env d,
             ParallelContext.dist_is_available d = true ->
             ParallelContext.dist_is_initialized d = false ->
             ParallelContext.WORLD_SIZE env = world_size ->
             0 <= ParallelContext.RANK env < world_size ->
             exists self d',
               ParallelContext.__init__ env (Z.of_nat tp) (Z.of_nat pp) (Z.of_nat dp)
                 "nccl" d = (Ok self, d')
               /\ ParallelContext.world_rank_matrix self = ranks
               /\ (exists g members,
                     ParallelContext.tp_pg self = Some g
                     /\ ParallelContext.created d' !! g = Some members
                     /\ length members = tp /\ NoDup members
                     /\ ParallelContext.RANK env ∈ members)
               /\ (exists g members,
                     ParallelContext.dp_pg self = Some g
                     /\ ParallelContext.created d' !! g = Some members
                     /\ length members = dp /\ NoDup members
                     /\ ParallelContext.RANK env ∈ members)
               /\ (exists g members,
                     ParallelContext.pp_pg self = Some g
                     /\ ParallelContext.created d' !! g = Some members
                     /\ length members = pp /\ NoDup members
                     /\ ParallelContext.RANK env ∈ members)))
  /\ ParallelContext.arange_reshape 8 2 2 2 = Ok [[[0; 1]; [2; 3]]; [[4; 5]; [6; 7]]]
  /\ ParallelContext.item [[[0; 1]; [2; 3]]; [[4; 5]; [6; 7]]] 1 0 1 = 5
  /\ (forall d0, ParallelContext.coordinates 2 2 2 5 d0 = (Ok (1, 0, 1), d0)).
Proof.
  split; [|split; [reflexivity|split; [reflexivity|intros d0; reflexivity]]].
  intros pp dp tp Hpp Hdp Htp world_size coordinates.
  assert (world_size = Z.of_nat (pp * dp * tp)) as Hws by (subst world_size; lia).
  rewrite Hws. clearbody world_size. subst world_size.
  destruct (ParallelContext.arange_reshape (Z.of_nat (pp * dp * tp)) pp dp tp)
    as [ranks|e] eqn:Hranks;
    [|by rewrite arange_reshape_ok in Hranks].
  exists ranks. split; [done|]. split; [|split].
  - intros rank d0 Hrank.
    destruct (coordinates_of_rank pp dp tp Hpp Hdp Htp rank d0 Hrank)
      as (p & d & t & Hc & Hp & Hd & Ht & ->).
    exists p, d, t. split; [done|]. split; [done|]. split; [done|]. split; [done|].
    by apply (item_ranks pp dp tp).
  - intros p d t d0 Hp Hd Ht.
    rewrite (item_ranks pp dp tp) by done.
    by apply rank_of_coordinates.
  - intros env d Hav Hini Hw Hrank. rewrite <- Hw in Hrank.
    destruct (init_ok pp dp tp Hpp Hdp Htp env d Hav Hini Hw Hrank)
      as (self & d' & a & Hinit & Ha & Hm & _ & _ & _ & Hinv & Htpg & Hdpg & Hppg).
    rewrite Hw, Hranks in Ha. injection Ha as <-. rewrite Hw in Hrank.
    exists self, d'. split; [done|]. split; [done|].
    split; [|split].
    + eapply registered_group_size; [exact Hinv| |exact Htpg].
      by apply (tp_rows pp dp tp Hpp Hdp Htp ranks Hranks (ParallelContext.RANK env)).
    + eapply registered_group_size; [exact Hinv| |exact Hdpg].
      by apply (dp_rows pp dp tp Hpp Hdp Htp ranks Hranks (ParallelContext.RANK env)).
    + eapply registered_group_size; [exact Hinv| |exact Hppg].
      by apply (pp_rows pp dp tp Hpp Hdp Htp ranks Hranks (ParallelContext.RANK env)).
Qed.

(** ** Failing fast *)

Section TraceGrows.
Import ParallelContext.

Lemma trace_grows_ret {A} (a : A) : trace_grows (mret a).
Proof. intros d. exists []. by rewrite app_nil_r. Qed.

Lemma trace_grows_raise {A} (e : exn) : trace_grows (raise (A := A) e).
Proof. intros d. exists []. by rewrite app_nil_r. Qed.

Lemma trace_grows_bind {A B} (m : M A) (k : A -> M B) :
  trace_grows m -> (forall a, trace_grows (k a)) -> trace_grows (m ≫= k).
Proof.
  intros Hm Hk d. cbv [mbind M_bind]. destruct (Hm d) as [evs1 H1].
  destruct (m d) as [[a|e] d1]; simpl in *.
  - destruct (Hk a d1) as [evs2 H2]. exists (evs1 ++ evs2).
    by rewrite H2, H1, app_assoc.
  - by exists evs1.
Qed.

Lemma trace_grows_emit (ev : event) : trace_grows (emit ev).
Proof. intros d. by exists [ev]. Qed.

Lemma trace_grows_get {A} (f : dist -> A) : trace_grows (get f).
Proof. intros d. exists []. by rewrite app_nil_r. Qed.

Lemma trace_grows_assert (b : bool) (msg : string) : trace_grows (assert b msg).
Proof. destruct b; [apply trace_grows_ret|apply trace_grows_raise]. Qed.

Lemma trace_grows_new_group (ranks : list Z) : trace_grows (dist_new_group ranks).
Proof. intros d. by eexists [_]. Qed.

Lemma trace_grows_init_process_group (rank world_size : Z) :
  trace_grows (dist_init_process_group rank world_size).
Proof. intros d. by eexists [_]. Qed.

Lemma trace_grows_new_group_unless_registered (ranks : list Z) (reg : gmap (list Z) nat) :
  trace_grows (new_group_unless_registered ranks reg).
Proof.
  unfold new_group_unless_registered. destruct (reg !! sorted ranks).
  - apply trace_grows_ret.
  - apply trace_grows_bind; [apply trace_grows_new_group|].
    intros. apply trace_grows_ret.
Qed.

Lemma trace_grows_axis_loop (rank : Z) (rows : list (list Z)) :
  forall reg pg, trace_grows (axis_loop rank rows reg pg).
Proof.
  induction rows as [|ranks rows IH]; intros reg pg; simpl.
  - apply trace_grows_ret.
  - apply trace_grows_bind; [apply trace_grows_new_group_unless_registered|].
    intros [g reg']. apply IH.
Qed.

Lemma trace_grows_model_loop (rows : list (list Z)) :
  forall reg, trace_grows (model_loop rows reg).
Proof.
  induction rows as [|ranks rows IH]; intros reg; simpl.
  - apply trace_grows_ret.
  - apply trace_grows_bind; [apply trace_grows_new_group_unless_registered|].
    intros [g reg']. apply IH.
Qed.

Lemma trace_grows_getattr {A} (name : string) (o : option A) :
  trace_grows (getattr name o).
Proof. destruct o; [apply trace_grows_ret|apply trace_grows_raise]. Qed.

Lemma trace_grows_local {A} (name : string) (o : option A) :
  trace_grows (local name o).
Proof. destruct o; [apply trace_grows_ret|apply trace_grows_raise]. Qed.

Lemma trace_grows_pure {A} (r : result A) : trace_grows (fun d => (r, d)).
Proof. intros d. exists []. by rewrite app_nil_r. Qed.

Lemma trace_grows_init_parallel_groups (env : environ) (self : t) :
  trace_grows (init_parallel_groups env self).
Proof.
  unfold init_parallel_groups.
  repeat first
    [ apply trace_grows_ret | apply trace_grows_raise | apply trace_grows_emit
    | apply trace_grows_getattr | apply trace_grows_local | apply trace_grows_pure
    | apply trace_grows_axis_loop | apply trace_grows_model_loop
    | apply trace_grows_bind; [|intros]
    | match goal with
      | |- trace_grows (if ?b then _ else _) => destruct b
      | |- trace_grows (let '(_, _) := ?p in _) => destruct p
      | |- trace_grows (dist_barrier _) => apply trace_grows_emit
      end ].
Qed.

Lemma trace_grows_init_global_dist (self : t) (rank world_size : Z)
    (backend host : string) (port : Z) :
  trace_grows (init_global_dist self rank world_size backend host port).
Proof.
  unfold init_global_dist.
  repeat first
    [ apply trace_grows_ret | apply trace_grows_raise | apply trace_grows_assert
    | apply trace_grows_new_group | apply trace_grows_init_process_group
    | apply trace_grows_bind; [|intros]
    | match goal with
      | |- trace_grows (if ?b then _ else _) => destruct b
      end ].
Qed.

End TraceGrows.

Section FailFast.
Import ParallelContext.

Lemma bind_ok {A B} (m : M A) (k : A -> M B) (d d1 : dist) (a : A) :
  m d = (Ok a, d1) -> (m ≫= k) d = k a d1.
Proof. intros H. cbv [mbind M_bind]. by rewrite H. Qed.

Lemma bind_raise {A B} (m : M A) (k : A -> M B) (d d1 : dist) (e : exn) :
  m d = (Raise e, d1) -> (m ≫= k) d = (Raise e, d1).
Proof. intros H. cbv [mbind M_bind]. by rewrite H. Qed.

Lemma pymod_ok (a b : Z) (d : dist) : b ≠ 0 -> pymod a b d = (Ok (a mod b), d).
Proof. intros Hb. unfold pymod. by destruct (Z.eqb_spec b 0). Qed.

(** Once the sizes are accepted and [torch.distributed] is there, the
    device is set before anything else happens. *)
Lemma init_sets_device (env : environ) (tp pp dp : Z) (backend : string) (d : dist) :
  dp ≠ 0 -> tp * pp ≠ 0 -> ~ size_conditions (WORLD_SIZE env) tp pp dp ->
  dist_is_available d = true ->
  exists evs,
    trace (__init__ env tp pp dp backend d).2
    = trace d ++ SetDevice (LOCAL_RANK env) :: evs.
Proof.
  intros Hdp Htp Hok Hav. unfold size_conditions in Hok.
  assert (WORLD_SIZE env mod dp = 0) as H1 by (destruct (decide (WORLD_SIZE env mod dp = 0)); tauto).
  assert (WORLD_SIZE env mod (tp * pp) = 0) as H2
    by (destruct (decide (WORLD_SIZE env mod (tp * pp) = 0)); tauto).
  assert (tp * pp * dp = WORLD_SIZE env) as H3
    by (destruct (decide (tp * dp * pp = WORLD_SIZE env)); [lia|tauto]).
  unfold __init__.
  rewrite (bind_ok _ _ _ _ _ (pymod_ok _ _ d Hdp)), H1.
  rewrite (bind_ok (assert _ _) _ d d ()) by done.
  rewrite (bind_ok _ _ _ _ _ (pymod_ok _ _ d Htp)), H2.
  rewrite (bind_ok (assert _ _) _ d d ()) by done.
  rewrite (bind_ok (assert _ _) _ d d ()) by (by rewrite (proj2 (Z.eqb_eq _ _) H3)).
  rewrite (bind_ok (get _) _ d d true) by (by unfold get; rewrite Hav).
  cbn [negb]. rewrite (bind_ok (mret ()) _ d d ()) by done.
  erewrite (bind_ok (set_device env)) by reflexivity.
  match goal with
  | |- context [trace (?m ?d1).2] =>
      assert (trace_grows m) as Hgrow; [|destruct (Hgrow d1) as [evs Hevs]]
  end.
  { apply trace_grows_bind; [apply trace_grows_get|]. intros initialized.
    apply trace_grows_bind.
    - destruct (negb initialized);
        [apply trace_grows_init_global_dist|apply trace_grows_ret].
    - intros self. apply trace_grows_bind; [apply trace_grows_init_parallel_groups|].
      intros self'. apply trace_grows_bind; [apply trace_grows_emit|].
      intros. apply trace_grows_ret. }
  exists evs. rewrite Hevs. simpl. by rewrite <- app_assoc.
Qed.

End FailFast.

(** C2, as the code has it: for sizes whose divisors are not zero, the
    constructor raises an [AssertionError] with nothing done yet (no
    device set, no process group initialized or made) exactly when
    [world_size % dp != 0] or [world_size % (tp * pp) != 0] or
    [tp * dp * pp != world_size]; with accepted sizes it still fails before
    any group is made when [torch.distributed] is not available
    ([ValueError]) or, the default group not being initialized, when the
    backend is not "nccl" ([AssertionError]).  The exception is the result of
    the call: nothing is tried again. *)
Theorem init_fails_fast (env : ParallelContext.environ) (tp pp dp : Z)
    (backend : string) (d : ParallelContext.dist) :
  dp ≠ 0 -> tp * pp ≠ 0 ->
  ((exists msg,
      ParallelContext.__init__ env tp pp dp backend d = (Raise (AssertionError msg), d))
   <-> size_conditions (ParallelContext.WORLD_SIZE env) tp pp dp)
  /\ (~ size_conditions (ParallelContext.WORLD_SIZE env) tp pp dp ->
      ParallelContext.dist_is_available d = false ->
      ParallelContext.__init__ env tp pp dp backend d
      = (Raise (ValueError "`torch.distributed is not available as a package, please install it."), d))
  /\ (~ size_conditions (ParallelContext.WORLD_SIZE env) tp pp dp ->
      ParallelContext.dist_is_available d = true ->
      ParallelContext.dist_is_initialized d = false ->
      backend ≠ "nccl" ->
      exists d',
        ParallelContext.__init__ env tp pp dp backend d
        = (Raise (AssertionError "Only nccl backend is supported for now."), d')
        /\ ParallelContext.created d' = ParallelContext.created d
        /\ ParallelContext.trace d'
           = ParallelContext.trace d
             ++ [ParallelContext.SetDevice (ParallelContext.LOCAL_RANK env)]).
Proof.
  intros Hdp Htp.
  assert (Hval : size_conditions (ParallelContext.WORLD_SIZE env) tp pp dp ->
                 exists msg, ParallelContext.__init__ env tp pp dp backend d
                             = (Raise (AssertionError msg), d)).
  { intros Hc. unfold ParallelContext.__init__.
    rewrite (bind_ok _ _ _ _ _ (pymod_ok _ _ d Hdp)).
    destruct (Z.eqb_spec (ParallelContext.WORLD_SIZE env mod dp) 0) as [H1|H1];
      [|eexists; reflexivity].
    rewrite (bind_ok (ParallelContext.assert true _) _ d d ()) by done.
    rewrite (bind_ok _ _ _ _ _ (pymod_ok _ _ d Htp)).
    destruct (Z.eqb_spec (ParallelContext.WORLD_SIZE env mod (tp * pp)) 0) as [H2|H2];
      [|eexists; reflexivity].
    rewrite (bind_ok (ParallelContext.assert true _) _ d d ()) by done.
    destruct (Z.eqb_spec (tp * pp * dp) (ParallelContext.WORLD_SIZE env)) as [H3|H3];
      [|eexists; reflexivity].
    exfalso. destruct Hc as [Hc|[Hc|Hc]]; [done|done|lia]. }
  assert (Hpass : ~ size_conditions (ParallelContext.WORLD_SIZE env) tp pp dp ->
                  ParallelContext.__init__ env tp pp dp backend d
                  = ((available ← ParallelContext.get ParallelContext.dist_is_available;
                      _ ← (if negb available
                           then ParallelContext.raise (ValueError "`torch.distributed is not available as a package, please install it.")
                           else mret ());
                      _ ← ParallelContext.set_device env;
                      initialized ← ParallelContext.get ParallelContext.dist_is_initialized;
                      self ← (if negb initialized
                              then ParallelContext.init_global_dist
                                     {| ParallelContext.tensor_parallel_size := tp;
                                        ParallelContext.pipeline_parallel_size := pp;
                                        ParallelContext.data_parallel_size := dp;
                                        ParallelContext._groups := [];
                                        ParallelContext.world_pg := None;
                                        ParallelContext.tp_pg := None;
                                        ParallelContext.dp_pg := None;
                                        ParallelContext.pp_pg := None;
                                        ParallelContext.world_rank_matrix := [];
                                        ParallelContext.world_ranks_to_pg := ∅ |}
                                     (ParallelContext.RANK env) (ParallelContext.WORLD_SIZE env)
                                     backend (ParallelContext.MASTER_ADDR env)
                                     (ParallelContext.MASTER_PORT env)
                              else mret
                                     {| ParallelContext.tensor_parallel_size := tp;
                                        ParallelContext.pipeline_parallel_size := pp;
                                        ParallelContext.data_parallel_size := dp;
                                        ParallelContext._groups := [];
                                        ParallelContext.world_pg := None;
                                        ParallelContext.tp_pg := None;
                                        ParallelContext.dp_pg := None;
                                        ParallelContext.pp_pg := None;
                                        ParallelContext.world_rank_matrix := [];
                                        ParallelContext.world_ranks_to_pg := ∅ |});
                      self ← ParallelContext.init_parallel_groups env self;
                      _ ← ParallelContext.dist_barrier None;
                      mret self) : ParallelContext.M ParallelContext.t) d).
  { intros Hok. unfold size_conditions in Hok.
    assert (ParallelContext.WORLD_SIZE env mod dp = 0) as H1
      by (destruct (decide (ParallelContext.WORLD_SIZE env mod dp = 0)); tauto).
    assert (ParallelContext.WORLD_SIZE env mod (tp * pp) = 0) as H2
      by (destruct (decide (ParallelContext.WORLD_SIZE env mod (tp * pp) = 0)); tauto).
    assert (tp * pp * dp = ParallelContext.WORLD_SIZE env) as H3
      by (destruct (decide (tp * dp * pp = ParallelContext.WORLD_SIZE env)); [lia|tauto]).
    unfold ParallelContext.__init__.
    rewrite (bind_ok _ _ _ _ _ (pymod_ok _ _ d Hdp)), H1.
    rewrite (bind_ok (ParallelContext.assert _ _) _ d d ()) by done.
    rewrite (bind_ok _ _ _ _ _ (pymod_ok _ _ d Htp)), H2.
    rewrite (bind_ok (ParallelContext.assert _ _) _ d d ()) by done.
    rewrite (bind_ok (ParallelContext.assert _ _) _ d d ())
      by (by rewrite (proj2 (Z.eqb_eq _ _) H3)).
    done. }
  split; [split; [|exact Hval]|split].
  - intros [msg Hmsg]. destruct (decide (size_conditions (ParallelContext.WORLD_SIZE env) tp pp dp))
      as [Hc|Hc]; [done|exfalso].
    destruct (ParallelContext.dist_is_available d) eqn:Hav.
    + destruct (init_sets_device env tp pp dp backend d Hdp Htp Hc Hav) as [evs Hevs].
      rewrite Hmsg in Hevs. simpl in Hevs.
      apply (f_equal length) in Hevs. rewrite length_app in Hevs. simpl in Hevs. lia.
    + rewrite (Hpass Hc) in Hmsg.
      rewrite (bind_ok (ParallelContext.get _) _ d d false) in Hmsg
        by (by unfold ParallelContext.get; rewrite Hav).
      cbn [negb] in Hmsg.
      erewrite bind_raise in Hmsg by reflexivity.
      discriminate.
  - intros Hc Hav. rewrite (Hpass Hc).
    rewrite (bind_ok (ParallelContext.get _) _ d d false)
      by (by unfold ParallelContext.get; rewrite Hav).
    cbn [negb]. by erewrite bind_raise by reflexivity.
  - intros Hc Hav Hini Hbackend. rewrite (Hpass Hc).
    rewrite (bind_ok (ParallelContext.get _) _ d d true)
      by (by unfold ParallelContext.get; rewrite Hav).
    cbn [negb]. rewrite (bind_ok (mret ()) _ d d ()) by done.
    erewrite (bind_ok (ParallelContext.set_device env)) by reflexivity.
    erewrite (bind_ok (ParallelContext.get _))
      by (unfold ParallelContext.get; cbn; rewrite Hini; reflexivity).
    cbn [negb]. eexists. split.
    + erewrite bind_raise; [reflexivity|].
      unfold ParallelContext.init_global_dist.
      erewrite bind_raise; [reflexivity|].
      unfold ParallelContext.assert. by rewrite bool_decide_eq_false_2.
    + done.
Qed.

(** The specification's reading fails: with sizes that pass the three
    conditions, a backend other than "nccl" makes the constructor raise
    before any group is made. *)
Lemma init_gloo_rejected :
  ~ size_conditions 1 1 1 1
  /\ ParallelContext.__init__ (Examples.env 1 0) 1 1 1 "gloo" Examples.fresh
     = (Raise (AssertionError "Only nccl backend is supported for now."),
        {| ParallelContext.dist_is_available := true;
           ParallelContext.dist_is_initialized := false;
           ParallelContext.created := [];
           ParallelContext.trace := [ParallelContext.SetDevice 0] |}).
Proof.
  split; [|reflexivity].
  intros [H|[H|H]]; vm_compute in H; congruence.
Qed.

Lemma init_fails_fast_witness :
  exists msg,
    ParallelContext.__init__ (Examples.env 8 0) 2 2 3 "nccl" Examples.fresh
    = (Raise (AssertionError msg), Examples.fresh).
Proof.
  destruct (init_fails_fast (Examples.env 8 0) 2 2 3 "nccl" Examples.fresh) as [[_ H] _];
    [lia|lia|].
  apply H. left. vm_compute. congruence.
Defined.

(** ** One group per sorted tuple of ranks *)

(** C3: the registry maps a sorted tuple of ranks to one group, made of
    those ranks, and no two groups made by the enumeration have the same
    sorted ranks: each turn of the loops keeps this, reusing the registered
    group, with no new group made, when the sorted tuple is registered, and
    the registry at the end of the constructor has it. *)
Theorem registry_one_group_per_key :
  (forall (b : nat) (ranks : list Z) (reg : gmap (list Z) nat) (d : ParallelContext.dist),
     registry_inv b reg d -> (b <= length (ParallelContext.created d))%nat ->
     exists g reg' d',
       ParallelContext.new_group_unless_registered ranks reg d = (Ok (Some g, reg'), d')
       /\ registry_inv b reg' d'
       /\ reg' !! ParallelContext.sorted ranks = Some g
       /\ (forall g0, reg !! ParallelContext.sorted ranks = Some g0 ->
             g = g0 /\ reg' = reg /\ d' = d)
       /\ (reg !! ParallelContext.sorted ranks = None ->
           g = length (ParallelContext.created d)
           /\ reg' = <[ParallelContext.sorted ranks := g]> reg
           /\ ParallelContext.created d' = ParallelContext.created d ++ [ranks]))
  /\ (forall (pp dp tp : nat) (env : ParallelContext.environ) (d : ParallelContext.dist),
        (0 < pp)%nat -> (0 < dp)%nat -> (0 < tp)%nat ->
        ParallelContext.dist_is_available d = true ->
        ParallelContext.dist_is_initialized d = false ->
        ParallelContext.WORLD_SIZE env = Z.of_nat (pp * dp * tp) ->
        0 <= ParallelContext.RANK env < ParallelContext.WORLD_SIZE env ->
        exists self d',
          ParallelContext.__init__ env (Z.of_nat tp) (Z.of_nat pp) (Z.of_nat dp) "nccl" d
          = (Ok self, d')
          /\ registry_inv (S (length (ParallelContext.created d)))
               (ParallelContext.world_ranks_to_pg self) d'
          /\ forall g1 g2 ranks1 ranks2,
               (length (ParallelContext.created d) < g1)%nat ->
               (length (ParallelContext.created d) < g2)%nat ->
               ParallelContext.created d' !! g1 = Some ranks1 ->
               ParallelContext.created d' !! g2 = Some ranks2 ->
               ParallelContext.sorted ranks1 = ParallelContext.sorted ranks2 ->
               g1 = g2).
Proof.
  split.
  - intros b ranks reg d Hinv Hb.
    destruct (new_group_step b ranks reg d Hinv Hb)
      as (g & reg' & d' & H1 & H2 & H3 & _ & _ & _ & _ & H4 & H5).
    exists g, reg', d'. split; [done|]. split; [done|]. split; [done|].
    split; [done|]. intros Hnone. destruct (H5 Hnone) as (? & ? & ? & _). done.
  - intros pp dp tp env d Hpp Hdp Htp Hav Hini Hws Hrank.
    destruct (init_ok pp dp tp Hpp Hdp Htp env d Hav Hini Hws Hrank)
      as (self & d' & a & Hinit & _ & _ & _ & _ & _ & Hinv & _).
    exists self, d'. split; [done|]. split; [done|].
    intros g1 g2 r1 r2 Hg1 Hg2 Hr1 Hr2 Hs. destruct Hinv as [_ Hcre].
    pose proof (Hcre g1 r1 ltac:(lia) Hr1) as E1.
    pose proof (Hcre g2 r2 ltac:(lia) Hr2) as E2.
    rewrite Hs in E1. congruence.
Qed.

Lemma registry_one_group_per_key_witness :
  exists self d',
    ParallelContext.__init__ (Examples.env 2 1) 2 1 1 "nccl" Examples.fresh = (Ok self, d')
    /\ registry_inv 1 (ParallelContext.world_ranks_to_pg self) d'.
Proof.
  destruct registry_one_group_per_key as [_ H].
  destruct (H 1%nat 1%nat 2%nat (Examples.env 2 1) Examples.fresh)
    as (self & d' & H1 & H2 & _); [lia|lia|lia|reflexivity|reflexivity|reflexivity| |].
  - simpl. lia.
  - exists self, d'. split; [exact H1|exact H2].
Defined.

(** With two ranks in one tensor group, the groups of the data and
    pipeline rows are the same two singletons and the model group is the
    tensor group: three groups are made after the global one, for seven
    rows. *)
Example registry_reuse_example :
  let '(r, d') := ParallelContext.__init__ (Examples.env 2 1) 2 1 1 "nccl" Examples.fresh in
  ParallelContext.created d' = [[0; 1]; [0; 1]; [0]; [1]]
  /\ match r with
     | Ok self =>
         ParallelContext.tp_pg self = Some 1%nat
         /\ ParallelContext.dp_pg self = Some 3%nat
         /\ ParallelContext.pp_pg self = Some 3%nat
     | Raise _ => False
     end.
Proof. vm_compute. repeat split. Qed.

Lemma mesh_coordinates_and_groups_witness :
  exists self d',
    ParallelContext.__init__ (Examples.env 8 5) 2 2 2 "nccl" Examples.fresh = (Ok self, d')
    /\ (exists g members,
          ParallelContext.tp_pg self = Some g
          /\ ParallelContext.created d' !! g = Some members
          /\ length members = 2%nat /\ NoDup members /\ 5 ∈ members).
Proof.
  destruct mesh_coordinates_and_groups as [H _].
  destruct (H 2%nat 2%nat 2%nat) as (ranks & _ & _ & _ & Hg); [lia|lia|lia|].
  destruct (Hg (Examples.env 8 5) Examples.fresh) as (self & d' & H1 & _ & H2 & _);
    [reflexivity|reflexivity|reflexivity|simpl; lia|].
  exists self, d'. split; [exact H1|exact H2].
Defined.

Example tensor_group_of_rank_5 :
  let '(r, d') := ParallelContext.__init__ (Examples.env 8 5) 2 2 2 "nccl" Examples.fresh in
  match r with
  | Ok self =>
      (g ← ParallelContext.tp_pg self; ParallelContext.created d' !! g) = Some [4; 5]
      /\ (g ← ParallelContext.dp_pg self; ParallelContext.created d' !! g) = Some [5; 7]
      /\ (g ← ParallelContext.pp_pg self; ParallelContext.created d' !! g) = Some [1; 5]
      /\ length (ParallelContext.created d') = 15%nat
  | Raise _ => False
  end.
Proof. vm_compute. repeat split. Qed.

(** ** Teardown *)

(** After a successful build no group is stored in [_groups]: [destroy]
    raises on its first line and nothing is synchronized or released. *)
Lemma destroy_after_init (pp dp tp : nat) (env : ParallelContext.environ)
    (d : ParallelContext.dist) :
  (0 < pp)%nat -> (0 < dp)%nat -> (0 < tp)%nat ->
  ParallelContext.dist_is_available d = true ->
  ParallelContext.dist_is_initialized d = false ->
  ParallelContext.WORLD_SIZE env = Z.of_nat (pp * dp * tp) ->
  0 <= ParallelContext.RANK env < ParallelContext.WORLD_SIZE env ->
  exists self d',
    ParallelContext.__init__ env (Z.of_nat tp) (Z.of_nat pp) (Z.of_nat dp) "nccl" d
    = (Ok self, d')
    /\ ParallelContext.world_pg self = Some (length (ParallelContext.created d))
    /\ ParallelContext._groups self = []
    /\ ParallelContext.destroy self d'
       = (Raise (AssertionError "Global group must be initialized before destroying."), d').
Proof.
  intros Hpp Hdp Htp Hav Hini Hws Hrank.
  destruct (init_ok pp dp tp Hpp Hdp Htp env d Hav Hini Hws Hrank)
    as (self & d' & a & Hinit & _ & _ & Hg & Hw & _).
  exists self, d'. split; [done|]. split; [done|]. split; [done|].
  unfold ParallelContext.destroy, ParallelContext.is_initialized. by rewrite Hg.
Qed.

(** Had the groups been stored with [add_group], [destroy] would release
    the global group when it is the only one, and stop at the first other
    group, for which it calls [get_world_size], a method the class has
    commented out. *)
Lemma destroy_stored_groups (self : ParallelContext.t) (d : ParallelContext.dist)
    (world g : nat) :
  ParallelContext._groups self = [] ->
  let with_global := ParallelContext.add_group self ParallelContext.GLOBAL world in
  let with_tensor := ParallelContext.add_group with_global ParallelContext.TENSOR g in
  (exists self' d',
     ParallelContext.destroy with_global d = (Ok self', d')
     /\ ParallelContext._groups self' = []
     /\ ParallelContext.trace d'
        = ParallelContext.trace d
          ++ [ParallelContext.Barrier None; ParallelContext.DestroyProcessGroup None])
  /\ ParallelContext.destroy with_tensor d = (Raise (AttributeError "get_world_size"), d).
Proof.
  intros Hg with_global with_tensor. subst with_global with_tensor.
  unfold ParallelContext.add_group. rewrite Hg. split.
  - eexists _, _. split; [reflexivity|]. split; [done|]. simpl. by rewrite <- app_assoc.
  - reflexivity.
Qed.

(** C6 (where the code departs from the specification): after the successful
    build of a one-process job, [destroy] raises the [AssertionError] of its
    first line, with no barrier and no group released, because the
    constructor never stores a group in [_groups]. *)
Theorem destroy_after_build_raises :
  exists self d',
    ParallelContext.__init__ (Examples.env 1 0) 1 1 1 "nccl" Examples.fresh = (Ok self, d')
    /\ ParallelContext.world_pg self = Some 0%nat
    /\ ParallelContext._groups self = []
    /\ ParallelContext.destroy self d'
       = (Raise (AssertionError "Global group must be initialized before destroying."), d').
Proof.
  destruct (destroy_after_init 1 1 1 (Examples.env 1 0) Examples.fresh)
    as (self & d' & H1 & H2 & H3 & H4);
    [lia|lia|lia|reflexivity|reflexivity|reflexivity|simpl; lia|].
  exists self, d'. auto.
Qed.

(** * Further properties of the code *)

(** ** [SkipBatchSampler]: length and iteration *)



(** ** [CombinedDataset]: items *)

Lemma py_getitem_nonneg {A} (l : list A) (i : nat) (x : A) :
  l !! i = Some x -> py_getitem l (Z.of_nat i) = Ok x.
Proof.
  intros H. unfold py_getitem.
  destruct (Z.ltb_spec (Z.of_nat i) 0) as [|_]; [lia|].
  destruct (Z.ltb_spec (Z.of_nat i) 0) as [|_]; [lia|].
  by rewrite Nat2Z.id, H.
Qed.

Lemma sum_lengths_take {A} (ds : list (list A)) (j : nat) :
  sum (take j (map (fun d => Z.of_nat (length d)) ds))
  = Z.of_nat (length (concat (take j ds))).
Proof.
  revert j. induction ds as [|d ds IH]; intros [|j]; simpl; try done.
  rewrite length_app, Nat2Z.inj_add, <- IH. unfold sum. simpl. done.
Qed.

Lemma lookup_concat_take {A} (ds : list (list A)) (j loc : nat) (d : list A) :
  ds !! j = Some d -> (loc < length d)%nat ->
  concat ds !! (length (concat (take j ds)) + loc)%nat = d !! loc.
Proof.
  revert j. induction ds as [|d0 ds IH]; intros [|j] Hj Hloc; simpl in *; try done.
  - injection Hj as ->. by rewrite lookup_app_l.
  - rewrite length_app, <- Nat.add_assoc, lookup_app_r by lia.
    replace (length d0 + (length (concat (take j ds)) + loc) - length d0)%nat
      with (length (concat (take j ds)) + loc)%nat by lia.
    by apply IH.
Qed.

Lemma get_sample_concat {sample} (ds : list (list sample)) (g : Z) :
  0 <= g < sum (map (fun d => Z.of_nat (length d)) ds) ->
  exists x,
    CombinedDataset.get_sample (CombinedDataset.__init__ ds) g = Ok x
    /\ concat ds !! Z.to_nat g = Some x.
Proof.
  intros [Hg0 Hg]. set (L := map (fun d => Z.of_nat (length d)) ds) in *.
  assert (HL : Forall (fun x => 0 <= x) L).
  { subst L. clear. induction ds; simpl; constructor; [lia|done]. }
  pose proof (scan_from L g HL (S (length L - 1)) 0 ltac:(lia)) as Hscan.
  rewrite drop_0, take_0 in Hscan. specialize (Hscan Hg0).
  unfold CombinedDataset.get_sample, CombinedDataset.get_dataset_and_local_index.
  cbn [CombinedDataset.lengths CombinedDataset.offsets CombinedDataset.datasets
       CombinedDataset.__init__]. fold L.
  destruct (CombinedDataset.scan L 0 (cumsum (0 :: removelast L)) g) as [[j loc]|e].
  - destruct Hscan as (Hj & -> & Hlo & Hhi). cbn [mbind result_bind].
    assert (j < length ds)%nat as Hj' by (subst L; by rewrite length_map in Hj).
    destruct (lookup_lt_is_Some_2 ds j Hj') as [d Hd]. rewrite Hd.
    assert (L !! j = Some (Z.of_nat (length d))) as HLj.
    { subst L. change (((fun d => Z.of_nat (length d)) <$> ds) !! j = Some (Z.of_nat (length d))).
      by rewrite list_lookup_fmap, Hd. }
    rewrite (sum_take_S _ _ _ HLj) in Hhi. subst L. rewrite sum_lengths_take in *.
    set (base := length (concat (take j ds))) in *.
    assert (Z.to_nat (g - Z.of_nat base) < length d)%nat as Hloc by lia.
    destruct (lookup_lt_is_Some_2 d _ Hloc) as [x Hx].
    exists x. split.
    + replace (g - Z.of_nat base) with (Z.of_nat (Z.to_nat (g - Z.of_nat base))) by lia.
      by apply py_getitem_nonneg.
    + replace (Z.to_nat g) with (base + Z.to_nat (g - Z.of_nat base))%nat by lia.
      subst base. by rewrite (lookup_concat_take ds j _ d).
  - destruct Hscan as [_ ?]. lia.
Qed.

(** X2: the combined dataset reads as the concatenation of its
    sub-datasets: for in-range global indices [__getitem__] returns the
    samples at those positions of the concatenation, for one index and for a
    list of indices alike. *)
Theorem combined_dataset_getitem {sample} (ds : list (list sample)) :
  let self := CombinedDataset.__init__ ds in
  let total := sum (map (fun d => Z.of_nat (length d)) ds) in
  (forall g, 0 <= g < total ->
     exists x, CombinedDataset.__getitem__ self (CombinedDataset.Index g)
               = Ok (CombinedDataset.Sample x)
               /\ concat ds !! Z.to_nat g = Some x)
  /\ (forall gs, Forall (fun g => 0 <= g < total) gs ->
        exists xs, CombinedDataset.__getitem__ self (CombinedDataset.Indices gs)
                   = Ok (CombinedDataset.Samples xs)
                   /\ Forall2 (fun g x => concat ds !! Z.to_nat g = Some x) gs xs).
Proof.
  intros self total. split.
  - intros g Hg. destruct (get_sample_concat ds g Hg) as (x & Hx & Hc).
    exists x. split; [|done]. unfold CombinedDataset.__getitem__. fold self in Hx.
    by rewrite Hx.
  - intros gs Hgs.
    assert (exists xs, mapM (CombinedDataset.get_sample self) gs = Ok xs
                       /\ Forall2 (fun g x => concat ds !! Z.to_nat g = Some x) gs xs)
      as (xs & Hxs & HF).
    { induction Hgs as [|g gs Hg _ (xs & Hxs & HF)].
      - exists []. split; [done|constructor].
      - destruct (get_sample_concat ds g Hg) as (x & Hx & Hc). fold self in Hx.
        exists (x :: xs). split; [|by constructor].
        cbn [mapM]. rewrite Hx. cbn [mbind result_bind]. by rewrite Hxs. }
    exists xs. split; [|done]. unfold CombinedDataset.__getitem__. by rewrite Hxs.
Qed.

Lemma combined_dataset_getitem_witness :
  exists xs,
    CombinedDataset.__getitem__ (CombinedDataset.__init__ [[10; 11]; [20; 21; 22]])
      (CombinedDataset.Indices [4; 0; 2])
    = Ok (CombinedDataset.Samples xs)
    /\ Forall2 (fun g x => concat [[10; 11]; [20; 21; 22]] !! Z.to_nat g = Some x)
         [4; 0; 2] xs.
Proof.
  destruct (combined_dataset_getitem [[10; 11]; [20; 21; 22]]) as [_ H].
  apply H. repeat constructor; vm_compute; congruence.
Defined.

(** X3: a negative global index does not count from the end of the
    combined dataset: it is handed to the first sub-dataset, which takes it
    from its own end or raises [IndexError]. *)
Theorem combined_dataset_negative_index {sample} (d0 : list sample)
    (ds : list (list sample)) (g : Z) :
  g < 0 ->
  CombinedDataset.get_dataset_and_local_index (CombinedDataset.__init__ (d0 :: ds)) g
  = Ok (0%nat, g)
  /\ CombinedDataset.get_sample (CombinedDataset.__init__ (d0 :: ds)) g = py_getitem d0 g
  /\ (- Z.of_nat (length d0) <= g ->
      exists x, py_getitem d0 g = Ok x
                /\ d0 !! Z.to_nat (Z.of_nat (length d0) + g) = Some x)
  /\ (g < - Z.of_nat (length d0) -> exists msg, py_getitem d0 g = Raise (IndexError msg)).
Proof.
  intros Hg.
  assert (CombinedDataset.get_dataset_and_local_index
            (CombinedDataset.__init__ (d0 :: ds)) g = Ok (0%nat, g)) as Hscan.
  { unfold CombinedDataset.get_dataset_and_local_index. simpl.
    destruct (Z.ltb_spec g (0 + 0 + Z.of_nat (length d0))) as [_|]; [|lia].
    by rewrite Z.sub_0_r. }
  split; [done|]. split.
  { unfold CombinedDataset.get_sample. rewrite Hscan. done. }
  unfold py_getitem. destruct (Z.ltb_spec g 0) as [_|]; [|lia]. split.
  - intros Hlo. destruct (Z.ltb_spec (g + Z.of_nat (length d0)) 0) as [|_]; [lia|].
    assert (Z.to_nat (g + Z.of_nat (length d0)) < length d0)%nat as Hlt by lia.
    destruct (lookup_lt_is_Some_2 d0 _ Hlt) as [x Hx]. rewrite Hx.
    exists x. split; [done|]. by rewrite Z.add_comm.
  - intros Hlo. destruct (Z.ltb_spec (g + Z.of_nat (length d0)) 0) as [_|]; [|lia]. eauto.
Qed.

Lemma combined_dataset_negative_index_witness :
  CombinedDataset.get_sample (CombinedDataset.__init__ [[10; 11]; [20; 21; 22]]) (-1)
  = py_getitem [10; 11] (-1).
Proof.
  destruct (combined_dataset_negative_index [10; 11] [[20; 21; 22]] (-1)) as (_ & H & _);
    [lia|exact H].
Defined.

(** ** Rounding up to a multiple *)

Lemma ceil_exact (q : Q) (c : Z) : (q == inject_Z c)%Q -> Float.ceil (Float.Finite q) = Ok c.
Proof.
  intros E. cbn [Float.ceil]. f_equal. apply Qceiling_unique; rewrite E; lra.
Qed.

(** X4: the sampler's [total_size].  With fewer than [2^53] samples and a
    positive batch size below [2^53] it is the least multiple of the batch
    size that is not below the summed length of the sub-datasets; a batch
    size of zero raises; a batch size from [2^1128] on gives 0, which is
    below the number of samples, because the float quotient is rounded to
    zero. *)
Theorem calculate_total_size_least_multiple {sample} (ds : list (list sample)) (bs : Z) :
  let total := sum (map (fun d => Z.of_nat (length d)) ds) in
  (bs = 0 ->
   DistributedSamplerForDoReMi.calculate_total_size ds bs = Raise ZeroDivisionError)
  /\ (total < 2 ^ 53 -> 0 < bs < 2 ^ 53 ->
      exists ts,
        DistributedSamplerForDoReMi.calculate_total_size ds bs = Ok ts
        /\ total <= ts < total + bs /\ (bs | ts)
        /\ forall m, (bs | m) -> total <= m -> ts <= m)
  /\ (0 < total < 2 ^ 53 -> 2 ^ 1128 <= bs ->
      DistributedSamplerForDoReMi.calculate_total_size ds bs = Ok 0).
Proof.
  intros total. split; [|split].
  - by intros ->.
  - intros Htotal Hbs.
    destruct (calculate_total_size_ok ds bs Htotal ltac:(lia)) as (ts & Hts & _ & Hx).
    exists ts. split; [done|]. rewrite (Hx ltac:(lia)). apply ceil_multiple. lia.
  - intros Htotal Hbs. unfold DistributedSamplerForDoReMi.calculate_total_size. fold total.
    unfold Float.int_truediv.
    assert (2 ^ 53 < 2 ^ 1128) by (apply Z.pow_lt_mono_r; lia).
    destruct (Z.eqb_spec bs 0) as [|_]; [lia|].
    rewrite round_underflow; [done|done| |].
    + apply Qlt_shift_div_l; [rewrite <- (Zlt_Qlt 0); lia|]. rewrite Qmult_0_l.
      rewrite <- (Zlt_Qlt 0). lia.
    + apply Qlt_shift_div_r; [rewrite <- (Zlt_Qlt 0); lia|].
      apply Qlt_le_trans with (inject_Z (2 ^ 53)); [rewrite <- Zlt_Qlt; lia|].
      apply Qle_trans with (Float.pow2 (Float.emin Float.binary64 - 1) * inject_Z (2 ^ 1128))%Q.
      * rewrite <- !pow2_Z by done. rewrite <- pow2_add. apply pow2_le. by vm_compute.
      * apply Qmult_le_l; [apply pow2_gt_0|]. by rewrite <- Zle_Qle.
Qed.

Lemma calculate_total_size_least_multiple_witness :
  exists ts,
    DistributedSamplerForDoReMi.calculate_total_size [replicate 100 (); replicate 50 ()] 4
    = Ok ts
    /\ 150 <= ts < 150 + 4 /\ (4 | ts).
Proof.
  destruct (calculate_total_size_least_multiple [replicate 100 (); replicate 50 ()] 4)
    as (_ & H & _).
  destruct (H ltac:(by vm_compute) ltac:(lia)) as (ts & H1 & H2 & H3 & _).
  exists ts. split; [exact H1|]. split; [exact H2|exact H3].
Defined.

(** X5: the padded vocabulary size.  For a size from 0 to below [2^53]
    and a product of the two divisors from 1 to below [2^53] it is the least
    multiple of that product not below the original size, the padding is
    logged exactly when the size changes, and padding a padded size changes
    nothing.  A product of zero raises.  From [2^53] on the float quotient
    is rounded: [2^53 + 1] is "padded" to [2^53]. *)
Theorem vocab_size_with_padding_least_multiple (orig pg_size divisible_by : Z) :
  (0 <= orig < 2 ^ 53 -> 0 < divisible_by * pg_size < 2 ^ 53 ->
   exists after,
     Helpers._vocab_size_with_padding orig pg_size divisible_by
     = Ok (after, negb (after =? orig))
     /\ orig <= after < orig + divisible_by * pg_size
     /\ (divisible_by * pg_size | after)
     /\ (forall m, (divisible_by * pg_size | m) -> orig <= m -> after <= m)
     /\ ((divisible_by * pg_size | orig) <-> after = orig)
     /\ Helpers._vocab_size_with_padding after pg_size divisible_by = Ok (after, false))
  /\ (divisible_by * pg_size = 0 ->
      Helpers._vocab_size_with_padding orig pg_size divisible_by = Raise ZeroDivisionError)
  /\ Helpers._vocab_size_with_padding (2 ^ 53 + 1) 1 1 = Ok (2 ^ 53, true).
Proof.
  split; [|split; [|by vm_compute]].
  - intros Ho Hm. unfold Helpers._vocab_size_with_padding.
    set (m := divisible_by * pg_size) in *.
    destruct (ceil_truediv orig m Ho Hm) as (q & Hq & Hc).
    rewrite Hq. cbn [mbind result_bind]. rewrite Hc. cbn [mbind result_bind].
    destruct (ceil_multiple orig m ltac:(lia)) as (Hb & Hd & Hleast).
    set (c := - (- orig / m)) in *. set (after := c * m) in *.
    exists after. split; [done|]. split; [done|]. split; [done|]. split; [done|].
    split.
    + split; [|intros E; rewrite <- E; exact Hd].
      intros Hdiv. pose proof (Hleast orig Hdiv ltac:(lia)). lia.
    + assert (0 <= c <= 2 ^ 53) as Hc0 by (subst after; nia).
      destruct (truediv_multiple c m Hc0 ltac:(lia)) as (q' & Hq' & Eq').
      fold after in Hq'. rewrite Hq'. cbn [mbind result_bind].
      rewrite (ceil_exact q' c Eq'). cbn [mbind result_bind]. fold after.
      by rewrite Z.eqb_refl.
  - intros Hm. unfold Helpers._vocab_size_with_padding, Float.int_truediv. by rewrite Hm.
Qed.

Lemma vocab_size_with_padding_least_multiple_witness :
  exists after,
    Helpers._vocab_size_with_padding 50257 4 128 = Ok (after, negb (after =? 50257))
    /\ 50257 <= after < 50257 + 128 * 4.
Proof.
  destruct (vocab_size_with_padding_least_multiple 50257 4 128) as (H & _).
  destruct (H ltac:(lia) ltac:(lia)) as (after & H1 & H2 & _).
  exists after. split; [exact H1|exact H2].
Defined.

(** ** One pass of the DoReMi sampler *)

Lemma scan_in_dataset {sample} (ds : list (list sample)) (i : nat) (d : list sample) (g : Z) :
  let L := map (fun d => Z.of_nat (length d)) ds in
  ds !! i = Some d ->
  sum (take i L) <= g < sum (take i L) + Z.of_nat (length d) ->
  CombinedDataset.get_dataset_and_local_index (CombinedDataset.__init__ ds) g
  = Ok (i, g - sum (take i L)).
Proof.
  intros L Hd [Hlo Hhi].
  pose proof (lengths_nonneg ds) as HL. fold L in HL.
  pose proof (lengths_lookup ds i d Hd) as HLi. fold L in HLi.
  rewrite <- (sum_take_S _ _ _ HLi) in Hhi.
  assert (0 <= g) as Hg0.
  { pose proof (sum_take_mono L 0 i HL ltac:(lia)) as H. rewrite take_0 in H.
    unfold sum in H at 1; simpl in H. lia. }
  pose proof (scan_from L g HL (S (length L - 1)) 0 ltac:(lia)) as Hscan.
  rewrite drop_0, take_0 in Hscan. specialize (Hscan Hg0).
  unfold CombinedDataset.get_dataset_and_local_index.
  cbn [CombinedDataset.lengths CombinedDataset.offsets CombinedDataset.__init__]. fold L.
  destruct (CombinedDataset.scan L 0 (cumsum (0 :: removelast L)) g) as [[j loc]|e].
  - destruct Hscan as (Hj & -> & Hjlo & Hjhi).
    destruct (Nat.lt_trichotomy j i) as [Hlt|[->|Hgt]]; [|done|].
    + pose proof (sum_take_mono L (S j) i HL ltac:(lia)). lia.
    + pose proof (sum_take_mono L (S i) j HL ltac:(lia)). lia.
  - destruct Hscan as [_ Hge].
    pose proof (sum_take_mono L (S i) (length L) HL) as H.
    rewrite (take_ge L (length L)) in H by lia.
    apply lookup_lt_Some in HLi. lia.
Qed.

Lemma NoDup_concat_sorted (gs : list (list Z)) (bound : nat -> Z) :
  (forall j, bound j <= bound (S j)) ->
  (forall j g, gs !! j = Some g ->
               NoDup g /\ Forall (fun x => bound j <= x < bound (S j)) g) ->
  NoDup (concat gs).
Proof.
  revert bound. induction gs as [|g gs IH]; intros bound Hmono H; [constructor|].
  simpl. apply NoDup_app. destruct (H 0%nat g eq_refl) as [Hnd Hr].
  split; [done|]. split.
  - intros x Hx Hx'. apply list_elem_of_In, in_concat in Hx' as (g' & Hg' & Hxg').
    apply list_elem_of_In in Hxg'.
    apply list_elem_of_In, list_elem_of_lookup in Hg' as [j Hj].
    destruct (H (S j) g' Hj) as [_ Hr'].
    rewrite Forall_forall in Hr, Hr'.
    pose proof (Hr x Hx). pose proof (Hr' x Hxg').
    assert (bound 1%nat <= bound (S j)); [|lia].
    clear -Hmono. induction j as [|j IHj]; [lia|]. pose proof (Hmono (S j)). lia.
  - apply (IH (fun j => bound (S j))); [intros j; apply Hmono|].
    intros j g' Hj. apply (H (S j) g' Hj).
Qed.

Lemma block_index_unique (L : list Z) (j1 j2 : nat) (x : Z) :
  Forall (fun x => 0 <= x) L ->
  sum (take j1 L) <= x < sum (take (S j1) L) ->
  sum (take j2 L) <= x < sum (take (S j2) L) ->
  j1 = j2.
Proof.
  intros HL H1 H2. destruct (Nat.lt_trichotomy j1 j2) as [Hlt|[->|Hgt]]; [|done|].
  - pose proof (sum_take_mono L (S j1) j2 HL ltac:(lia)). lia.
  - pose proof (sum_take_mono L (S j2) j1 HL ltac:(lia)). lia.
Qed.

Lemma partition_in_dataset (len nr rk : Z) :
  0 <= len -> 0 <= rk < nr ->
  0 <= rk * (len / nr) /\ rk * (len / nr) + len / nr <= len.
Proof.
  intros Hlen Hrk.
  assert (0 <= len / nr) by (apply Z.div_pos; lia).
  pose proof (Z.mul_div_le len nr ltac:(lia)). nia.
Qed.

Lemma elem_of_concat_lookup {A} (gs : list (list A)) (x : A) :
  x ∈ concat gs -> exists j g, gs !! j = Some g /\ x ∈ g.
Proof.
  intros Hx. apply list_elem_of_In, in_concat in Hx as (g & Hg & Hxg).
  apply list_elem_of_In, list_elem_of_lookup in Hg as [j Hj].
  exists j, g. split; [done|]. by apply list_elem_of_In.
Qed.

(** What a pass yields is part of what it drew. *)
Lemma yielded_of_drawn (shuffle : list Z -> list Z) (k bs : nat) (pool : list Z) :
  shuffle_permutes shuffle -> (0 < bs)%nat ->
  let kept := take k (shuffle pool) in
  let bl := DistributedSamplerForDoReMi.batches (length kept) bs kept in
  (forall x, x ∈ concat bl -> x ∈ pool) /\ (NoDup pool -> NoDup (concat bl)).
Proof.
  intros Hshuffle Hbs kept bl.
  destruct (batches_spec bs (length kept) kept Hbs ltac:(lia)) as (Hc & _).
  fold bl in Hc. rewrite Hc. split.
  - intros x Hx. rewrite <- (Hshuffle pool).
    eapply elem_of_sublist; [exact Hx|apply sublist_take].
  - intros Hnd. eapply sublist_NoDup; [|apply sublist_take]. by rewrite (Hshuffle pool).
Qed.

(** X6: one pass of the DoReMi sampler.  The constructor raises
    [ValueError] for a rank outside [[0, num_replicas)].  On a rank inside,
    with a positive batch size, fewer than [2^53] samples and batch size,
    weights that are finite floats of the tensor's dtype, none negative and
    one positive, a weight for every sub-dataset, and numpy drawing without
    replacement and shuffling by permutation, [__iter__] succeeds; the
    truncation to [total_size] removes nothing; the batches are the shuffled
    pool of drawn indices cut into [ceil(pool / batch_size)] consecutive
    pieces, each non-empty and of [batch_size] indices except possibly the
    last. *)
Theorem sampler_iter_batches {sample} (dtype : Float.format)
    (tensor_sum : list Float.float -> Float.float) (choice : nat -> Z -> Z -> list Z)
    (shuffle : list Z -> list Z) (weights : list Float.float) (ds : list (list sample))
    (bs nr rk : Z) :
  (rk < 0 \/ nr <= rk ->
   exists msg, DistributedSamplerForDoReMi.__init__ dtype tensor_sum weights ds bs nr rk
               = Raise (ValueError msg))
  /\ (Float.torch_float dtype -> sum_dominates dtype tensor_sum ->
      choice_without_replacement choice -> shuffle_permutes shuffle ->
      Forall (nonneg_float dtype) weights ->
      Exists (fun w => Float.flt (Float.Finite 0) w = true) weights ->
      (length ds <= length weights)%nat ->
      0 <= rk < nr -> 0 < bs < 2 ^ 53 ->
      sum (map (fun d => Z.of_nat (length d)) ds) < 2 ^ 53 ->
      exists self pool bl,
        DistributedSamplerForDoReMi.__init__ dtype tensor_sum weights ds bs nr rk = Ok self
        /\ DistributedSamplerForDoReMi.domain_indices choice self = Ok pool
        /\ DistributedSamplerForDoReMi.slice_to
             (DistributedSamplerForDoReMi.total_size self) (shuffle pool) = shuffle pool
        /\ DistributedSamplerForDoReMi.__iter__ choice shuffle self = Ok bl
        /\ concat bl = shuffle pool
        /\ Permutation (concat bl) pool
        /\ Forall (fun c => (0 < length c <= Z.to_nat bs)%nat) bl
        /\ (forall i c, bl !! i = Some c -> (S i < length bl)%nat -> length c = Z.to_nat bs)
        /\ Z.of_nat (length bl) = - ((- Z.of_nat (length pool)) / bs)).
Proof.
  split.
  { intros Hrk. eexists. unfold DistributedSamplerForDoReMi.__init__,
      DistributedSamplerForDoReMi.super_init.
    assert ((nr <=? rk) || (rk <? 0) = true) as ->; [|reflexivity].
    destruct Hrk; [destruct (Z.ltb_spec rk 0); [apply orb_true_r|lia]
                  |destruct (Z.leb_spec nr rk); [done|lia]]. }
  intros Hdtype Hsum Hchoice Hshuffle Hws Hex Hlen Hrk Hbs Htotal.
  destruct (sampler_pass dtype tensor_sum choice shuffle Hdtype Hsum Hchoice
              weights ds bs nr rk Hws Hex Hlen Hrk ltac:(lia) Htotal)
    as (self & gs & Hself & _ & Hts & _ & Hdi & _ & _ & Hiter).
  pose proof (Permutation_length (Hshuffle (concat gs))) as Hl.
  destruct (Hiter Hl) as [Hit Hpool]. cbv zeta in Hit, Hpool.
  specialize (Hpool ltac:(lia)). rewrite Hpool in Hit.
  destruct (batches_spec (Z.to_nat bs) (length (shuffle (concat gs))) (shuffle (concat gs))
              ltac:(lia) ltac:(lia)) as (Hc & Hf & Hfull & Hn).
  eexists self, (concat gs), _.
  split; [done|]. split; [done|].
  split; [by rewrite slice_to_nonneg|]. split; [exact Hit|].
  split; [done|]. split; [rewrite Hc; apply Hshuffle|]. split; [done|]. split; [done|].
  rewrite Hn, Hl, Z2Nat.id by lia. done.
Qed.

Lemma half_half_nonneg :
  Forall (nonneg_float Float.binary32) [Float.Finite (1 # 2); Float.Finite (1 # 2)].
Proof. repeat constructor; exists (1 # 2)%Q; done. Qed.

Lemma half_half_positive :
  Exists (fun w => Float.flt (Float.Finite 0) w = true)
         [Float.Finite (1 # 2); Float.Finite (1 # 2)].
Proof. left. reflexivity. Qed.

Lemma sampler_iter_batches_witness :
  exists self pool bl,
    DistributedSamplerForDoReMi.__init__ Float.binary32 (Float.sequential_sum Float.binary32)
      [Float.Finite (1 # 2); Float.Finite (1 # 2)]
      [replicate 100 (); replicate 50 ()] 4 2 0 = Ok self
    /\ DistributedSamplerForDoReMi.__iter__ Examples.first_indices Examples.no_shuffle self
       = Ok bl
    /\ Permutation (concat bl) pool
    /\ Z.of_nat (length bl) = - ((- Z.of_nat (length pool)) / 4).
Proof.
  destruct (sampler_iter_batches Float.binary32 (Float.sequential_sum Float.binary32)
              Examples.first_indices Examples.no_shuffle
              [Float.Finite (1 # 2); Float.Finite (1 # 2)]
              [replicate 100 (); replicate 50 ()] 4 2 0) as [_ H].
  destruct (H (or_intror (or_intror (or_introl eq_refl))) sequential_sum_binary32
              first_indices_without_replacement (fun l => Permutation_refl l)
              half_half_nonneg half_half_positive (le_n 2)
              ltac:(lia) ltac:(lia) ltac:(by vm_compute))
    as (self & pool & bl & H1 & _ & _ & H4 & _ & H6 & _ & _ & H9).
  exists self, pool, bl. split; [exact H1|]. split; [exact H4|]. split; [exact H6|exact H9].
Defined.

(** X7: the sampler feeds the combined dataset.  On a data-parallel rank
    [0 <= rank < num_replicas], with fewer than [2^53] samples and weights
    that are finite floats of the tensor's dtype, none negative and one
    positive, no index is yielded twice in a pass, and
    [CombinedDataset.__getitem__] on a yielded batch succeeds: every index
    of the batch resolves to a sub-dataset and a local index inside this
    rank's partition [rank * size, (rank + 1) * size) of it, and the sample
    returned is the one stored there. *)
Theorem sampler_batches_resolve {sample} (dtype : Float.format)
    (tensor_sum : list Float.float -> Float.float) (choice : nat -> Z -> Z -> list Z)
    (shuffle : list Z -> list Z) (weights : list Float.float) (ds : list (list sample))
    (bs nr rk : Z) :
  Float.torch_float dtype -> sum_dominates dtype tensor_sum ->
  choice_without_replacement choice -> shuffle_permutes shuffle ->
  Forall (nonneg_float dtype) weights ->
  Exists (fun w => Float.flt (Float.Finite 0) w = true) weights ->
  0 <= rk < nr -> 0 < bs -> (length ds <= length weights)%nat ->
  sum (map (fun d => Z.of_nat (length d)) ds) < 2 ^ 53 ->
  exists self bl,
    DistributedSamplerForDoReMi.__init__ dtype tensor_sum weights ds bs nr rk = Ok self
    /\ DistributedSamplerForDoReMi.__iter__ choice shuffle self = Ok bl
    /\ NoDup (concat bl)
    /\ forall c, c ∈ bl ->
         exists xs,
           CombinedDataset.__getitem__ (CombinedDataset.__init__ ds)
             (CombinedDataset.Indices c) = Ok (CombinedDataset.Samples xs)
           /\ Forall2 (fun x s =>
                 exists i dataset local,
                   ds !! i = Some dataset
                   /\ CombinedDataset.get_dataset_and_local_index
                        (CombinedDataset.__init__ ds) x = Ok (i, local)
                   /\ rk * (Z.of_nat (length dataset) / nr) <= local
                      < (rk + 1) * (Z.of_nat (length dataset) / nr)
                   /\ dataset !! Z.to_nat local = Some s) c xs.
Proof.
  intros Hdtype Hsum Hchoice Hshuffle Hws Hex Hrk Hbs Hlen Htotal.
  destruct (sampler_pass dtype tensor_sum choice shuffle Hdtype Hsum Hchoice
              weights ds bs nr rk Hws Hex Hlen Hrk Hbs Htotal)
    as (self & gs & Hself & _ & _ & _ & _ & _ & Hblocks & Hiter).
  pose proof (Permutation_length (Hshuffle (concat gs))) as Hl.
  destruct (Hiter Hl) as [Hit _]. cbv zeta in Hit.
  destruct (yielded_of_drawn shuffle (Z.to_nat (DistributedSamplerForDoReMi.total_size self))
              (Z.to_nat bs) (concat gs) Hshuffle ltac:(lia)) as [Hsub Hnodup].
  cbv zeta in Hsub, Hnodup.
  set (L := map (fun d => Z.of_nat (length d)) ds) in *.
  pose proof (lengths_nonneg ds) as HL. fold L in HL.
  eexists self, _.
  split; [done|]. split; [exact Hit|]. split.
  { apply Hnodup.
    apply (NoDup_concat_sorted gs (fun j => sum (take j L))).
    - intros j. apply sum_take_mono; [done|lia].
    - intros j g Hg.
      destruct (Hblocks j g Hg) as (d & nw & p & Hd & _ & _ & _ & _ & _ & _ & Hnd & Hr).
      split; [done|]. rewrite (sum_take_S L j _ (lengths_lookup ds j d Hd)).
      destruct (partition_in_dataset (Z.of_nat (length d)) nr rk ltac:(lia) Hrk).
      eapply Forall_impl; [exact Hr|]. intros x Hx. simpl in Hx. lia. }
  intros c Hcbl.
  assert (Hmem : forall x, x ∈ c ->
            exists s i dataset local,
              CombinedDataset.get_sample (CombinedDataset.__init__ ds) x = Ok s
              /\ ds !! i = Some dataset
              /\ CombinedDataset.get_dataset_and_local_index
                   (CombinedDataset.__init__ ds) x = Ok (i, local)
              /\ rk * (Z.of_nat (length dataset) / nr) <= local
                 < (rk + 1) * (Z.of_nat (length dataset) / nr)
              /\ dataset !! Z.to_nat local = Some s).
  { intros x Hx.
    assert (x ∈ concat gs) as Hxg.
    { apply Hsub. apply list_elem_of_In, in_concat. exists c. split; by apply list_elem_of_In. }
    apply elem_of_concat_lookup in Hxg as (j & g & Hg & Hxg).
    destruct (Hblocks j g Hg) as (d & nw & p & Hd & _ & _ & _ & _ & _ & _ & _ & Hr).
    rewrite Forall_forall in Hr. specialize (Hr x Hxg). fold L in Hr.
    destruct (partition_in_dataset (Z.of_nat (length d)) nr rk ltac:(lia) Hrk).
    pose proof (scan_in_dataset ds j d x Hd) as Hscan. fold L in Hscan.
    specialize (Hscan ltac:(lia)).
    set (local := x - sum (take j L)) in *.
    assert (Z.to_nat local < length d)%nat as Hloc by lia.
    destruct (lookup_lt_is_Some_2 d _ Hloc) as [s Hsd].
    exists s, j, d, local. split.
    - unfold CombinedDataset.get_sample. rewrite Hscan. cbn [mbind result_bind].
      cbn [CombinedDataset.datasets CombinedDataset.__init__]. rewrite Hd.
      replace local with (Z.of_nat (Z.to_nat local)) by lia. by apply py_getitem_nonneg.
    - split; [done|]. split; [done|]. split; [lia|done]. }
  clear Hcbl.
  assert (exists xs,
            mapM (CombinedDataset.get_sample (CombinedDataset.__init__ ds)) c = Ok xs
            /\ Forall2 (fun x s =>
                 exists i dataset local,
                   ds !! i = Some dataset
                   /\ CombinedDataset.get_dataset_and_local_index
                        (CombinedDataset.__init__ ds) x = Ok (i, local)
                   /\ rk * (Z.of_nat (length dataset) / nr) <= local
                      < (rk + 1) * (Z.of_nat (length dataset) / nr)
                   /\ dataset !! Z.to_nat local = Some s) c xs) as (xs & Hxs & HF).
  { induction c as [|x c IH].
    - exists []. split; [done|constructor].
    - destruct (Hmem x ltac:(left)) as (s & i & d & local & Hsx & Hrest).
      destruct IH as (xs & Hxs & HF); [intros y Hy; apply Hmem; by right|].
      exists (s :: xs). split.
      + cbn [mapM]. rewrite Hsx. cbn [mbind result_bind]. by rewrite Hxs.
      + constructor; [|done]. by exists i, d, local. }
  exists xs. split; [|done]. unfold CombinedDataset.__getitem__. by rewrite Hxs.
Qed.

Lemma sampler_batches_resolve_witness :
  exists self bl,
    DistributedSamplerForDoReMi.__init__ Float.binary32 (Float.sequential_sum Float.binary32)
      [Float.Finite (1 # 2); Float.Finite (1 # 2)]
      [replicate 100 (); replicate 50 ()] 4 2 1 = Ok self
    /\ DistributedSamplerForDoReMi.__iter__ Examples.first_indices Examples.no_shuffle self
       = Ok bl
    /\ NoDup (concat bl).
Proof.
  destruct (sampler_batches_resolve Float.binary32 (Float.sequential_sum Float.binary32)
              Examples.first_indices Examples.no_shuffle
              [Float.Finite (1 # 2); Float.Finite (1 # 2)]
              [replicate 100 (); replicate 50 ()] 4 2 1
              (or_intror (or_intror (or_introl eq_refl))) sequential_sum_binary32
              first_indices_without_replacement (fun l => Permutation_refl l)
              half_half_nonneg half_half_positive
              (conj (Z.le_0_1) eq_refl) eq_refl (le_n 2) ltac:(by vm_compute))
    as (self & bl & H1 & H2 & H3 & _).
  exists self, bl. split; [exact H1|]. split; [exact H2|exact H3].
Defined.

(** X8: data-parallel ranks read disjoint data.  Two different ranks
    below [num_replicas], each with its own random draws, never yield the
    same global index in their passes over the same sub-datasets, for fewer
    than [2^53] samples and weights that are finite floats of the tensor's
    dtype, none negative and one positive. *)
Theorem sampler_ranks_disjoint {sample} (dtype : Float.format)
    (tensor_sum : list Float.float -> Float.float)
    (choice1 choice2 : nat -> Z -> Z -> list Z)
    (shuffle1 shuffle2 : list Z -> list Z) (weights : list Float.float)
    (ds : list (list sample)) (bs nr rk1 rk2 : Z) :
  Float.torch_float dtype -> sum_dominates dtype tensor_sum ->
  choice_without_replacement choice1 -> choice_without_replacement choice2 ->
  shuffle_permutes shuffle1 -> shuffle_permutes shuffle2 ->
  Forall (nonneg_float dtype) weights ->
  Exists (fun w => Float.flt (Float.Finite 0) w = true) weights ->
  0 <= rk1 < nr -> 0 <= rk2 < nr -> rk1 ≠ rk2 ->
  0 < bs -> (length ds <= length weights)%nat ->
  sum (map (fun d => Z.of_nat (length d)) ds) < 2 ^ 53 ->
  exists self1 self2 bl1 bl2,
    DistributedSamplerForDoReMi.__init__ dtype tensor_sum weights ds bs nr rk1 = Ok self1
    /\ DistributedSamplerForDoReMi.__init__ dtype tensor_sum weights ds bs nr rk2 = Ok self2
    /\ DistributedSamplerForDoReMi.__iter__ choice1 shuffle1 self1 = Ok bl1
    /\ DistributedSamplerForDoReMi.__iter__ choice2 shuffle2 self2 = Ok bl2
    /\ forall x, x ∈ concat bl1 -> x ∉ concat bl2.
Proof.
  intros Hdtype Hsum Hchoice1 Hchoice2 Hshuffle1 Hshuffle2 Hws Hex Hrk1 Hrk2 Hne Hbs Hlen
    Htotal.
  destruct (sampler_pass dtype tensor_sum choice1 shuffle1 Hdtype Hsum Hchoice1
              weights ds bs nr rk1 Hws Hex Hlen Hrk1 Hbs Htotal)
    as (self1 & gs1 & Hself1 & _ & _ & _ & _ & _ & Hblocks1 & Hiter1).
  destruct (sampler_pass dtype tensor_sum choice2 shuffle2 Hdtype Hsum Hchoice2
              weights ds bs nr rk2 Hws Hex Hlen Hrk2 Hbs Htotal)
    as (self2 & gs2 & Hself2 & _ & _ & _ & _ & _ & Hblocks2 & Hiter2).
  pose proof (Permutation_length (Hshuffle1 (concat gs1))) as Hl1.
  pose proof (Permutation_length (Hshuffle2 (concat gs2))) as Hl2.
  destruct (Hiter1 Hl1) as [Hit1 _]. destruct (Hiter2 Hl2) as [Hit2 _].
  cbv zeta in Hit1, Hit2.
  destruct (yielded_of_drawn shuffle1
              (Z.to_nat (DistributedSamplerForDoReMi.total_size self1))
              (Z.to_nat bs) (concat gs1) Hshuffle1 ltac:(lia)) as [Hsub1 _].
  destruct (yielded_of_drawn shuffle2
              (Z.to_nat (DistributedSamplerForDoReMi.total_size self2))
              (Z.to_nat bs) (concat gs2) Hshuffle2 ltac:(lia)) as [Hsub2 _].
  cbv zeta in Hsub1, Hsub2.
  set (L := map (fun d => Z.of_nat (length d)) ds) in *.
  pose proof (lengths_nonneg ds) as HL. fold L in HL.
  eexists self1, self2, _, _.
  split; [done|]. split; [done|]. split; [exact Hit1|]. split; [exact Hit2|].
  intros x Hx1 Hx2. apply Hsub1 in Hx1. apply Hsub2 in Hx2.
  apply elem_of_concat_lookup in Hx1 as (j1 & g1 & Hg1 & Hx1).
  apply elem_of_concat_lookup in Hx2 as (j2 & g2 & Hg2 & Hx2).
  destruct (Hblocks1 j1 g1 Hg1) as (d1 & ? & ? & Hd1 & _ & _ & _ & _ & _ & _ & _ & Hr1).
  destruct (Hblocks2 j2 g2 Hg2) as (d2 & ? & ? & Hd2 & _ & _ & _ & _ & _ & _ & _ & Hr2).
  rewrite Forall_forall in Hr1, Hr2. specialize (Hr1 x Hx1). specialize (Hr2 x Hx2).
  destruct (partition_in_dataset (Z.of_nat (length d1)) nr rk1 ltac:(lia) Hrk1).
  destruct (partition_in_dataset (Z.of_nat (length d2)) nr rk2 ltac:(lia) Hrk2).
  pose proof (sum_take_S L j1 _ (lengths_lookup ds j1 d1 Hd1)) as E1.
  pose proof (sum_take_S L j2 _ (lengths_lookup ds j2 d2 Hd2)) as E2.
  assert (j1 = j2) as <- by (apply (block_index_unique L j1 j2 x HL); lia).
  rewrite Hd1 in Hd2. injection Hd2 as <-.
  set (ps := Z.of_nat (length d1) / nr) in *. nia.
Qed.

Lemma sampler_ranks_disjoint_witness :
  exists self1 self2 bl1 bl2,
    DistributedSamplerForDoReMi.__init__ Float.binary32 (Float.sequential_sum Float.binary32)
      [Float.Finite (1 # 2); Float.Finite (1 # 2)]
      [replicate 100 (); replicate 50 ()] 4 2 0 = Ok self1
    /\ DistributedSamplerForDoReMi.__init__ Float.binary32
         (Float.sequential_sum Float.binary32)
         [Float.Finite (1 # 2); Float.Finite (1 # 2)]
         [replicate 100 (); replicate 50 ()] 4 2 1 = Ok self2
    /\ DistributedSamplerForDoReMi.__iter__ Examples.first_indices Examples.no_shuffle self1
       = Ok bl1
    /\ DistributedSamplerForDoReMi.__iter__ Examples.first_indices Examples.no_shuffle self2
       = Ok bl2
    /\ forall x, x ∈ concat bl1 -> x ∉ concat bl2.
Proof.
  apply (sampler_ranks_disjoint Float.binary32 (Float.sequential_sum Float.binary32)
           Examples.first_indices Examples.first_indices
           Examples.no_shuffle Examples.no_shuffle
           [Float.Finite (1 # 2); Float.Finite (1 # 2)]
           [replicate 100 (); replicate 50 ()] 4 2 0 1
           (or_intror (or_intror (or_introl eq_refl))) sequential_sum_binary32
           first_indices_without_replacement first_indices_without_replacement
           (fun l => Permutation_refl l) (fun l => Permutation_refl l)
           half_half_nonneg half_half_positive);
    [lia|lia|lia|lia|simpl; lia|by vm_compute].
Defined.

(** ** The sanity-check generator *)

Lemma check_batch_unchanged (ignore : bool) (dpg : SanityCheck.DistributedProcessGroups)
    (n : nat) (batch mb : SanityCheck.micro_batch) (l : SanityCheck.log) :
  SanityCheck.check_batch ignore dpg n batch = (Ok mb, l) -> mb = batch.
Proof.
  unfold SanityCheck.check_batch. destruct ignore; simpl; [congruence|].
  destruct (SanityCheck.dp_loop _ _ _ _) as [[[]|e] l1]; [|congruence].
  destruct (SanityCheck.tp_loop _ _ _ _) as [[[]|e] l2]; congruence.
Qed.

(** X9: the sanity-check generator passes micro-batches through
    unchanged and in order.  What it yields is a prefix of the dataloader:
    every yielded batch is the input batch at the same position and passed
    its checks; when an exception ends the iteration it is the one raised
    by the checks of the first batch not yielded; otherwise everything was
    yielded.  With [ignore_sanity_checks] set, nothing is compared and
    every batch is yielded. *)
Theorem sanity_check_dataloader_prefix (dataloader : list SanityCheck.micro_batch)
    (dpg : SanityCheck.DistributedProcessGroups) (ignore_sanity_checks : bool) :
  let yielded := (SanityCheck.sanity_check_dataloader dataloader dpg ignore_sanity_checks).1 in
  let raised := (SanityCheck.sanity_check_dataloader dataloader dpg ignore_sanity_checks).2 in
  yielded = take (length yielded) dataloader
  /\ (forall n b, yielded !! n = Some b ->
        exists l, SanityCheck.check_batch ignore_sanity_checks dpg n b = (Ok b, l))
  /\ match raised with
     | None => yielded = dataloader
     | Some e =>
         exists b l,
           dataloader !! length yielded = Some b
           /\ SanityCheck.check_batch ignore_sanity_checks dpg (length yielded) b
              = (Raise e, l)
     end
  /\ (ignore_sanity_checks = true ->
      yielded = dataloader /\ raised = None
      /\ forall n b, (SanityCheck.check_batch true dpg n b).2 = []).
Proof.
  unfold SanityCheck.sanity_check_dataloader.
  assert (H : forall dl n,
      let r := SanityCheck.sanity_check_dataloader_from ignore_sanity_checks dpg n dl in
      r.1 = take (length r.1) dl
      /\ (forall k b, r.1 !! k = Some b ->
            exists l, SanityCheck.check_batch ignore_sanity_checks dpg (n + k) b = (Ok b, l))
      /\ match r.2 with
         | None => r.1 = dl
         | Some e =>
             exists b l,
               dl !! length r.1 = Some b
               /\ SanityCheck.check_batch ignore_sanity_checks dpg (n + length r.1) b
                  = (Raise e, l)
         end
      /\ (ignore_sanity_checks = true -> r.1 = dl /\ r.2 = None)).
  { induction dl as [|batch dl IH]; intros n; cbn [SanityCheck.sanity_check_dataloader_from].
    - simpl. repeat split; try done.
    - destruct (SanityCheck.check_batch ignore_sanity_checks dpg n batch) as [[mb|e] l] eqn:E.
      + apply check_batch_unchanged in E as Emb. subst mb.
        specialize (IH (S n)). cbv zeta in IH.
        destruct (SanityCheck.sanity_check_dataloader_from ignore_sanity_checks dpg (S n) dl)
          as [ys e'].
        cbn [fst snd] in *. destruct IH as (IH1 & IH2 & IH3 & IH4).
        split; [simpl; by f_equal|]. split.
        { intros [|k] b Hk; simpl in Hk.
          - injection Hk as <-. rewrite Nat.add_0_r. eauto.
          - replace (n + S k)%nat with (S n + k)%nat by lia. by apply IH2. }
        split.
        { destruct e' as [e'|]; [|by f_equal].
          destruct IH3 as (b & l' & Hb & Hc). exists b, l'. split; [done|].
          simpl length. replace (n + S (length ys))%nat with (S n + length ys)%nat by lia.
          done. }
        intros Hi. destruct (IH4 Hi) as [-> ->]. done.
      + cbn [fst snd]. split; [done|]. split; [done|]. split.
        { exists batch, l. simpl. rewrite Nat.add_0_r. done. }
        intros ->. unfold SanityCheck.check_batch in E. simpl in E. congruence. }
  destruct (H dataloader 0%nat) as (H1 & H2 & H3 & H4). cbn [Nat.add] in H2, H3.
  split; [done|]. split; [done|]. split; [done|].
  intros Hi. destruct (H4 Hi) as [? ?]. split; [done|]. split; [done|].
  intros n b. done.
Qed.

(** ** The collator for causal language modelling *)

Lemma collator_getitem_rows (rows : list (list Z)) :
  mapM (fun e => DataCollatorForCLM.getitem e "input_ids")
       (map (fun r => [("input_ids", r)]) rows) = Ok rows.
Proof.
  induction rows as [|r rows IH]; [done|].
  cbn [map mapM]. rewrite IH. done.
Qed.

Lemma collator_examples_rows (examples : list DataCollatorForCLM.example) :
  forallb (fun e => bool_decide (map fst e = ["input_ids"])) examples = true ->
  exists rows, examples = map (fun r => [("input_ids", r)]) rows.
Proof.
  induction examples as [|e examples IH]; intros H; [by exists []|].
  simpl in H. apply andb_true_iff in H as [He H]. apply bool_decide_eq_true in He.
  destruct (IH H) as [rows ->].
  destruct e as [|[k r] [|? ?]]; simpl in He; try done.
  injection He as ->. by exists (r :: rows).
Qed.

Lemma vstack_ok (rows m : list (list Z)) :
  DataCollatorForCLM.vstack rows = Ok m ->
  m = rows /\ rows <> []
  /\ Forall (fun r => length r = length (hd [] rows)) rows.
Proof.
  unfold DataCollatorForCLM.vstack. destruct rows as [|r rows]; [done|].
  destruct (forallb _ _) eqn:E; [|done]. intros [= <-].
  split; [done|]. split; [done|].
  rewrite forallb_forall in E. apply Forall_forall. intros x Hx.
  apply Nat.eqb_eq, E. by apply list_elem_of_In.
Qed.

Lemma collator_call_rows (self : DataCollatorForCLM.t) (rows : list (list Z)) :
  DataCollatorForCLM.pp_rank self = DataCollatorForCLM.input_pp_rank self
  \/ DataCollatorForCLM.pp_rank self = DataCollatorForCLM.output_pp_rank self ->
  rows <> [] -> 0 <= DataCollatorForCLM.sequence_length self ->
  Forall (fun r => Z.of_nat (length r) = DataCollatorForCLM.sequence_length self + 1) rows ->
  let ones :=
    replicate (length rows)
      (replicate (Z.to_nat (DataCollatorForCLM.sequence_length self)) true) in
  let on_input :=
    DataCollatorForCLM.pp_rank self =? DataCollatorForCLM.input_pp_rank self in
  let on_output :=
    DataCollatorForCLM.pp_rank self =? DataCollatorForCLM.output_pp_rank self in
  DataCollatorForCLM.__call__ self (map (fun r => [("input_ids", r)]) rows)
  = Ok [("input_ids",
         if on_input then DataCollatorForCLM.Tensor (map (fun row => removelast row) rows)
         else DataCollatorForCLM.TensorPointer (DataCollatorForCLM.input_pp_rank self));
        ("input_mask",
         if on_input then DataCollatorForCLM.Mask ones
         else DataCollatorForCLM.TensorPointer (DataCollatorForCLM.input_pp_rank self));
        ("label_ids",
         if on_output then DataCollatorForCLM.Tensor (map (fun row => tail row) rows)
         else DataCollatorForCLM.TensorPointer (DataCollatorForCLM.output_pp_rank self));
        ("label_mask",
         if on_output then DataCollatorForCLM.Mask ones
         else DataCollatorForCLM.TensorPointer (DataCollatorForCLM.output_pp_rank self))].
Proof.
  intros Hrank Hne Hseq Hrows ones on_input on_output.
  unfold DataCollatorForCLM.__call__.
  rewrite bool_decide_eq_true_2
    by (destruct Hrank as [-> | ->]; [left | right; left]).
  cbn [negb].
  assert (forallb (fun e : list (string * list Z) =>
                     bool_decide (map fst e = ["input_ids"]))
            (map (fun r => [("input_ids", r)]) rows) = true) as ->.
  { clear. induction rows as [|r rows IH]; [done|]. simpl. done. }
  cbn [negb]. rewrite collator_getitem_rows. cbn [mbind result_bind].
  destruct rows as [|r rows]; [done|].
  assert (Hr : Z.of_nat (length r) = DataCollatorForCLM.sequence_length self + 1)
    by (by inversion Hrows).
  assert (DataCollatorForCLM.vstack (r :: rows) = Ok (r :: rows)) as ->.
  { unfold DataCollatorForCLM.vstack.
    assert (forallb (fun r' => (length r' =? length r)%nat) (r :: rows) = true) as ->; [|done].
    apply forallb_forall. intros x Hx. apply Nat.eqb_eq.
    apply list_elem_of_In in Hx. rewrite Forall_forall in Hrows.
    specialize (Hrows x Hx). lia. }
  cbn [mbind result_bind DataCollatorForCLM.shape hd]. rewrite Hr, Z.eqb_refl. cbn [negb].
  unfold DataCollatorForCLM.np_ones.
  destruct (Z.ltb_spec (DataCollatorForCLM.sequence_length self) 0) as [|_]; [lia|].
  fold on_input on_output. fold ones.
  destruct on_input, on_output; reflexivity.
Qed.

(** X10: on the input or output pipeline rank, examples that hold only
    an [input_ids] row of [sequence_length + 1] tokens are collated into a
    batch whose four fields are, in order, [input_ids], [input_mask],
    [label_ids], [label_mask]; a field is data on the rank that owns it and a
    pointer to the owner elsewhere.  Inputs and labels have
    [sequence_length] columns, the input row is the example without its last
    token, and the label row is the example shifted left by one: label [j]
    is token [j + 1]. *)
Theorem collator_inputs_and_shifted_labels (self : DataCollatorForCLM.t)
    (rows : list (list Z)) :
  DataCollatorForCLM.pp_rank self = DataCollatorForCLM.input_pp_rank self
  \/ DataCollatorForCLM.pp_rank self = DataCollatorForCLM.output_pp_rank self ->
  rows <> [] -> 0 <= DataCollatorForCLM.sequence_length self ->
  Forall (fun r => Z.of_nat (length r) = DataCollatorForCLM.sequence_length self + 1) rows ->
  let seq := DataCollatorForCLM.sequence_length self in
  let ones := replicate (length rows) (replicate (Z.to_nat seq) true) in
  exists input_ids input_mask label_ids label_mask,
    DataCollatorForCLM.__call__ self (map (fun r => [("input_ids", r)]) rows)
    = Ok [("input_ids", input_ids); ("input_mask", input_mask);
          ("label_ids", label_ids); ("label_mask", label_mask)]
    /\ (if DataCollatorForCLM.pp_rank self =? DataCollatorForCLM.input_pp_rank self
        then exists m, input_ids = DataCollatorForCLM.Tensor m
                       /\ input_mask = DataCollatorForCLM.Mask ones
                       /\ length m = length rows
                       /\ forall i row, rows !! i = Some row ->
                            exists row', m !! i = Some row'
                              /\ Z.of_nat (length row') = seq
                              /\ forall j, (j < length row')%nat -> row' !! j = row !! j
        else input_ids
             = DataCollatorForCLM.TensorPointer (DataCollatorForCLM.input_pp_rank self)
             /\ input_mask
                = DataCollatorForCLM.TensorPointer (DataCollatorForCLM.input_pp_rank self))
    /\ (if DataCollatorForCLM.pp_rank self =? DataCollatorForCLM.output_pp_rank self
        then exists m, label_ids = DataCollatorForCLM.Tensor m
                       /\ label_mask = DataCollatorForCLM.Mask ones
                       /\ length m = length rows
                       /\ forall i row, rows !! i = Some row ->
                            exists row', m !! i = Some row'
                              /\ Z.of_nat (length row') = seq
                              /\ forall j, row' !! j = row !! S j
        else label_ids
             = DataCollatorForCLM.TensorPointer (DataCollatorForCLM.output_pp_rank self)
             /\ label_mask
                = DataCollatorForCLM.TensorPointer (DataCollatorForCLM.output_pp_rank self)).
Proof.
  intros Hrank Hne Hseq Hrows seq ones.
  pose proof (collator_call_rows self rows Hrank Hne Hseq Hrows) as Hcall. cbv zeta in Hcall.
  eexists _, _, _, _. split; [exact Hcall|]. fold seq in Hrows, Hseq. split.
  - destruct (DataCollatorForCLM.pp_rank self =? DataCollatorForCLM.input_pp_rank self);
      [|done].
    eexists. split; [reflexivity|]. split; [done|]. split; [by rewrite length_map|].
    intros i row Hi. exists (removelast row).
    split.
    { change (((fun row => removelast row) <$> rows) !! i = Some (removelast row)).
      by rewrite list_lookup_fmap, Hi. }
    rewrite Forall_forall in Hrows. apply list_elem_of_lookup_2 in Hi as Hin.
    specialize (Hrows row Hin).
    destruct (exists_last (l := row)) as (pre & x & ->);
      [intros ->; simpl in Hrows; lia|].
    rewrite removelast_last, length_app in *. simpl in Hrows.
    split; [lia|]. intros j Hj. by rewrite lookup_app_l.
  - destruct (DataCollatorForCLM.pp_rank self =? DataCollatorForCLM.output_pp_rank self);
      [|done].
    eexists. split; [reflexivity|]. split; [done|]. split; [by rewrite length_map|].
    intros i row Hi. exists (tail row).
    split.
    { change (((fun row => tail row) <$> rows) !! i = Some (tail row)).
      by rewrite list_lookup_fmap, Hi. }
    rewrite Forall_forall in Hrows. apply list_elem_of_lookup_2 in Hi as Hin.
    specialize (Hrows row Hin).
    destruct row as [|x row]; simpl in *; [|split; [lia|done]].
    split; [|done]. lia.
Qed.

Lemma collator_inputs_and_shifted_labels_witness :
  exists input_ids label_ids,
    DataCollatorForCLM.__call__
      {| DataCollatorForCLM.sequence_length := 3; DataCollatorForCLM.input_pp_rank := 0;
         DataCollatorForCLM.output_pp_rank := 1; DataCollatorForCLM.pp_rank := 1 |}
      [[("input_ids", [5; 6; 7; 8])]; [("input_ids", [1; 2; 3; 4])]]
    = Ok [("input_ids", input_ids); ("input_mask", DataCollatorForCLM.TensorPointer 0);
          ("label_ids", label_ids);
          ("label_mask", DataCollatorForCLM.Mask [[true; true; true]; [true; true; true]])].
Proof.
  destruct (collator_inputs_and_shifted_labels
              {| DataCollatorForCLM.sequence_length := 3;
                 DataCollatorForCLM.input_pp_rank := 0;
                 DataCollatorForCLM.output_pp_rank := 1; DataCollatorForCLM.pp_rank := 1 |}
              [[5; 6; 7; 8]; [1; 2; 3; 4]])
    as (i & im & l & lm & Hcall & Hin & Hout).
  - right. reflexivity.
  - discriminate.
  - simpl. lia.
  - repeat constructor.
  - simpl in Hin, Hout. destruct Hin as [_ ->]. destruct Hout as (m & _ & -> & _).
    exists i, l. exact Hcall.
Defined.

(** X11: when the collator succeeds.  On the input or output pipeline
    rank a call returns a batch exactly when there is at least one example,
    every example is a dict with the single key [input_ids] whose row has
    [sequence_length + 1] tokens, and [sequence_length] is not negative.  On
    any other rank it returns exactly when every example is empty, and the
    batch then holds four pointers and no data.  Whatever the rank, a
    failure is an [AssertionError] or a [ValueError]. *)
Theorem collator_success_iff (self : DataCollatorForCLM.t)
    (examples : list DataCollatorForCLM.example) :
  let seq := DataCollatorForCLM.sequence_length self in
  let input := DataCollatorForCLM.input_pp_rank self in
  let output := DataCollatorForCLM.output_pp_rank self in
  (DataCollatorForCLM.pp_rank self = input \/ DataCollatorForCLM.pp_rank self = output ->
   ((exists batch, DataCollatorForCLM.__call__ self examples = Ok batch)
    <-> examples <> [] /\ 0 <= seq
        /\ Forall (fun e => exists row, e = [("input_ids", row)]
                                        /\ Z.of_nat (length row) = seq + 1) examples))
  /\ (DataCollatorForCLM.pp_rank self <> input ->
      DataCollatorForCLM.pp_rank self <> output ->
      ((exists batch, DataCollatorForCLM.__call__ self examples = Ok batch)
       <-> Forall (fun e => e = []) examples)
      /\ forall batch,
           DataCollatorForCLM.__call__ self examples = Ok batch ->
           batch = [("input_ids", DataCollatorForCLM.TensorPointer input);
                    ("input_mask", DataCollatorForCLM.TensorPointer input);
                    ("label_ids", DataCollatorForCLM.TensorPointer output);
                    ("label_mask", DataCollatorForCLM.TensorPointer output)])
  /\ (forall e, DataCollatorForCLM.__call__ self examples = Raise e ->
        exists msg, e = AssertionError msg \/ e = ValueError msg).
Proof.
  intros seq input output. split; [|split].
  - intros Hrank. split.
    + intros [batch Hcall]. unfold DataCollatorForCLM.__call__ in Hcall.
      rewrite bool_decide_eq_true_2 in Hcall
        by (destruct Hrank as [-> | ->]; [left | right; left]).
      cbn [negb] in Hcall.
      match type of Hcall with
      | context [forallb ?f examples] => destruct (forallb f examples) eqn:Hkeys
      end; [|done].
      cbn [negb] in Hcall.
      destruct (collator_examples_rows examples Hkeys) as [rows ->].
      rewrite collator_getitem_rows in Hcall. cbn [mbind result_bind] in Hcall.
      destruct (DataCollatorForCLM.vstack rows) as [m|] eqn:Hv; [|done].
      apply vstack_ok in Hv as (-> & Hne & Hlen).
      cbn [mbind result_bind DataCollatorForCLM.shape] in Hcall. fold seq in Hcall.
      destruct (Z.eqb_spec (Z.of_nat (length (hd [] rows))) (seq + 1)) as [Hs|]; [|done].
      cbn [negb] in Hcall.
      assert (0 <= seq) as Hseq.
      { destruct (Z.ltb_spec seq 0) as [Hneg|]; [|done]. exfalso.
        unfold DataCollatorForCLM.np_ones in Hcall.
        destruct (Z.ltb_spec seq 0) as [_|]; [|lia].
        fold input output in Hcall, Hrank.
        destruct Hrank as [Hr|Hr]; rewrite Hr, Z.eqb_refl in Hcall.
        - done.
        - destruct (output =? input); done. }
      split; [by destruct rows|]. split; [done|].
      apply Forall_fmap. eapply Forall_impl; [exact Hlen|].
      intros r Hr. cbv beta in Hr. simpl. exists r. split; [done|]. rewrite Hr. exact Hs.
    + intros (Hne & Hseq & Hall).
      assert (exists rows, examples = map (fun r => [("input_ids", r)]) rows
                           /\ Forall (fun r => Z.of_nat (length r) = seq + 1) rows)
        as (rows & -> & Hrows).
      { clear -Hall. induction Hall as [|e examples (row & -> & Hrow) _ (rows & -> & IH)].
        - exists []. split; [done|constructor].
        - exists (row :: rows). split; [done|by constructor]. }
      eexists. apply collator_call_rows; [done| |done|done]. by destruct rows.
  - intros Hin Hout.
    assert (forallb (fun e : list (string * list Z) => (length e =? 0)%nat) examples = true
            <-> Forall (fun e => e = []) examples) as Hempty.
    { rewrite forallb_forall, Forall_forall. split; intros H e He.
      - apply list_elem_of_In, H, Nat.eqb_eq in He. by destruct e.
      - apply list_elem_of_In, H in He. by subst e. }
    unfold DataCollatorForCLM.__call__.
    rewrite bool_decide_eq_false_2.
    2:{ intros Hel. apply elem_of_cons in Hel as [|Hel]; [done|].
        apply elem_of_cons in Hel as [|Hel]; [done|]. by apply elem_of_nil in Hel. }
    cbn [negb].
    match goal with
    | |- context [forallb ?f examples] => destruct (forallb f examples) eqn:E
    end.
    + split; [split; [intros _; by apply Hempty|eauto]|]. intros batch [= <-]. done.
    + split; [split; [by intros [? ?]|]|done].
      intros H. apply Hempty in H. congruence.
  - intros e. unfold DataCollatorForCLM.__call__.
    destruct (negb (bool_decide _)).
    { match goal with
      | |- context [forallb ?f examples] => destruct (forallb f examples)
      end; [done|].
      intros [= <-]. eauto. }
    match goal with
    | |- context [forallb ?f examples] => destruct (forallb f examples) eqn:Hkeys
    end; cbn [negb]; [|intros [= <-]; eauto].
    destruct (collator_examples_rows examples Hkeys) as [rows ->].
    rewrite collator_getitem_rows. cbn [mbind result_bind].
    unfold DataCollatorForCLM.vstack.
    destruct rows as [|r rows]; [intros [= <-]; eauto|].
    match goal with
    | |- context [forallb ?f (r :: rows)] => destruct (forallb f (r :: rows))
    end; [|intros [= <-]; eauto].
    cbn [mbind result_bind DataCollatorForCLM.shape].
    destruct (negb _); [intros [= <-]; eauto|].
    unfold DataCollatorForCLM.np_ones.
    destruct (DataCollatorForCLM.sequence_length self <? 0);
      destruct (_ =? DataCollatorForCLM.input_pp_rank self);
      destruct (_ =? DataCollatorForCLM.output_pp_rank self);
      cbn [mbind result_bind]; try done; intros [= <-]; eauto.
Qed.

Lemma collator_success_iff_witness :
  (exists batch,
     DataCollatorForCLM.__call__
       {| DataCollatorForCLM.sequence_length := 3; DataCollatorForCLM.input_pp_rank := 0;
          DataCollatorForCLM.output_pp_rank := 1; DataCollatorForCLM.pp_rank := 0 |}
       [[("input_ids", [5; 6; 7])]] = Ok batch)
  <-> [[("input_ids", [5; 6; 7])]] <> [] /\ 0 <= 3
      /\ Forall (fun e => exists row, e = [("input_ids", row)]
                                      /\ Z.of_nat (length row) = 3 + 1)
           [[("input_ids", [5; 6; 7])]].
Proof.
  destruct (collator_success_iff
              {| DataCollatorForCLM.sequence_length := 3;
                 DataCollatorForCLM.input_pp_rank := 0;
                 DataCollatorForCLM.output_pp_rank := 1; DataCollatorForCLM.pp_rank := 0 |}
              [[("input_ids", [5; 6; 7])]]) as [H _].
  apply H. left. reflexivity.
Defined.

(** ** Chunks of [sequence_length + 1] tokens *)

Lemma py_slice_nonneg {A} (l : list A) (a b : Z) :
  0 <= a <= b ->
  py_slice l a b = take (Z.to_nat (b - a)) (drop (Z.to_nat a) l).
Proof.
  intros Hab. unfold py_slice.
  destruct (Z.ltb_spec a 0) as [|_]; [lia|]. destruct (Z.ltb_spec b 0) as [|_]; [lia|].
  set (n := Z.of_nat (length l)).
  destruct (Z.le_gt_cases n a) as [Hge|Hlt].
  - rewrite !drop_ge by lia. by rewrite !take_nil.
  - replace (Z.min n (Z.max 0 a)) with a by lia.
    destruct (Z.le_gt_cases b n) as [Hb|Hb].
    + replace (Z.min n (Z.max 0 b)) with b by lia. done.
    + replace (Z.min n (Z.max 0 b)) with n by lia.
      rewrite !take_ge; [done| |]; rewrite length_drop; lia.
Qed.

Lemma py_range_from_zero (stop step : Z) :
  0 < step ->
  py_range 0 stop step = Ok (map (fun k => k * step) (seqZ 0 (- ((- stop) / step)))).
Proof.
  intros Hstep. unfold py_range.
  destruct (Z.eqb_spec step 0) as [|_]; [lia|].
  destruct (Z.ltb_spec 0 step) as [_|]; [|lia].
  replace (0 - stop) with (- stop) by lia. done.
Qed.

Lemma concatenate_columns (cols : list (string * list (list Z))) :
  Forall (fun c => c.2 <> []) cols ->
  mapM (fun '(k, v) => t ← ClmProcess.np_concatenate v; Ok (k, t)) cols
  = Ok (map (fun c => (c.1, concat c.2)) cols).
Proof.
  induction 1 as [|[k v] cols Hv _ IH]; [done|].
  cbn [mapM map]. rewrite IH. destruct v; [done|]. done.
Qed.

(** X12: [group_texts] with a positive [sequence_length] on columns that
    each hold at least one array.  With [n] tokens in the first column and
    [k = (n - 1) // sequence_length], every column is cut into
    [max(0, k - 1)] chunks, chunk [j] being the tokens from position
    [j * sequence_length] up to [sequence_length + 1] further, so that
    neighbouring chunks share one token; in a column at least as long as
    the first every chunk is full.  The range stops one step early: the
    tokens after position [(k - 1) * sequence_length] appear in no chunk,
    and exactly [sequence_length + 1] tokens give no chunk at all. *)
Theorem group_texts_chunks (sequence_length : Z)
    (first : string * list (list Z)) (others : list (string * list (list Z))) :
  0 < sequence_length ->
  Forall (fun c => c.2 <> []) (first :: others) ->
  let n := Z.of_nat (length (concat first.2)) in
  let k := (n - 1) / sequence_length in
  exists out,
    ClmProcess.group_texts sequence_length first others = Ok out
    /\ map fst out = map fst (first :: others)
    /\ (forall idx key arrays,
          (first :: others) !! idx = Some (key, arrays) ->
          exists chunks,
            out !! idx = Some (key, chunks)
            /\ Z.of_nat (length chunks) = Z.max 0 (k - 1)
            /\ forall j chunk,
                 chunks !! j = Some chunk ->
                 chunk = take (Z.to_nat (sequence_length + 1))
                              (drop (j * Z.to_nat sequence_length) (concat arrays))
                 /\ (n <= Z.of_nat (length (concat arrays)) ->
                     Z.of_nat (length chunk) = sequence_length + 1))
    /\ (n <= sequence_length + 1 -> Forall (fun c => c.2 = []) out).
Proof.
  intros Hseq Hcols n k. unfold ClmProcess.group_texts.
  rewrite (concatenate_columns _ Hcols). cbn [mbind result_bind].
  set (cols := first :: others) in *.
  assert (Z.of_nat (length (hd [] (map snd (map (fun c : string * list (list Z) =>
                                                  (c.1, concat c.2)) cols)))) = n) as ->
    by (subst cols; by destruct first).
  set (total := if n >=? sequence_length + 1
                then (n - 1) / sequence_length * sequence_length + 1 else n).
  assert ((if n >=? sequence_length + 1
           then if sequence_length =? 0 then Raise ZeroDivisionError
                else Ok ((n - 1) / sequence_length * sequence_length + 1)
           else Ok n) = Ok total) as ->.
  { subst total. destruct (n >=? sequence_length + 1); [|done].
    destruct (Z.eqb_spec sequence_length 0); [lia|done]. }
  cbn [mbind result_bind]. rewrite py_range_from_zero by done. cbn [mbind result_bind].
  set (count := - (- (total - (sequence_length + 1)) / sequence_length)).
  assert (Hcount : Z.max 0 count = Z.max 0 (k - 1)).
  { subst count total. fold k. destruct (Z.geb_spec n (sequence_length + 1)) as [Hge|Hlt].
    - replace (- (k * sequence_length + 1 - (sequence_length + 1)))
        with ((- (k - 1)) * sequence_length) by lia.
      rewrite Z.div_mul by lia. lia.
    - assert (k <= 0).
      { subst k. apply Z.lt_succ_r, Z.div_lt_upper_bound; lia. }
      assert (0 <= - (n - (sequence_length + 1)) / sequence_length); [|lia].
      apply Z.div_pos; lia. }
  assert (Hk : 0 < count -> count = k - 1 /\ (k - 1) * sequence_length + 1 <= n).
  { intros Hpos. split; [lia|]. subst k.
    pose proof (Z.mul_div_le (n - 1) sequence_length Hseq). nia. }
  eexists. split; [reflexivity|]. split; [|split].
  - rewrite !map_map. apply map_ext. by intros [? ?].
  - intros idx key arrays Hidx.
    exists (map (fun i => py_slice (concat arrays) i (i + sequence_length + 1))
              (map (fun k1 => k1 * sequence_length) (seqZ 0 count))).
    split.
    { rewrite map_map.
      match goal with
      | |- map ?f cols !! idx = _ =>
          change (map f cols) with (f <$> cols); rewrite list_lookup_fmap
      end.
      rewrite Hidx. reflexivity. }
    cbn [fst snd]. split; [rewrite !length_map, length_seqZ; lia|].
    intros j chunk Hj. rewrite map_map in Hj.
    change (((fun x => py_slice (concat arrays) (x * sequence_length)
                         (x * sequence_length + sequence_length + 1)) <$> seqZ 0 count)
            !! j = Some chunk) in Hj.
    rewrite list_lookup_fmap in Hj.
    destruct (seqZ 0 count !! j) as [x|] eqn:Hx; [|done].
    apply lookup_seqZ in Hx as [-> Hjc]. simpl in Hj. injection Hj as <-.
    rewrite py_slice_nonneg by nia.
    replace (Z.to_nat ((0 + Z.of_nat j) * sequence_length + sequence_length + 1
                       - (0 + Z.of_nat j) * sequence_length))
      with (Z.to_nat (sequence_length + 1)) by lia.
    replace (Z.to_nat ((0 + Z.of_nat j) * sequence_length))
      with (j * Z.to_nat sequence_length)%nat by nia.
    split; [done|]. intros Hlen.
    destruct (Hk ltac:(lia)) as [Hc Hn].
    rewrite length_take, length_drop. nia.
  - intros Hn. rewrite Forall_forall. intros c Hc.
    apply list_elem_of_fmap in Hc as ([k1 t] & -> & _). cbn [snd].
    assert (count <= 0) as Hle.
    { assert (k - 1 <= 0); [|lia].
      assert (k < 2); [|lia]. subst k. apply Z.div_lt_upper_bound; lia. }
    rewrite seqZ_nil by lia. done.
Qed.

Lemma group_texts_chunks_witness :
  exists out,
    ClmProcess.group_texts 2 ("input_ids", [[1; 2]; [3; 4; 5]; [6; 7]]) [] = Ok out
    /\ map fst out = ["input_ids"].
Proof.
  destruct (group_texts_chunks 2 ("input_ids", [[1; 2]; [3; 4; 5]; [6; 7]]) [])
    as (out & H1 & H2 & _).
  - lia.
  - repeat constructor. discriminate.
  - exists out. split; [exact H1|exact H2].
Defined.

(** ** Seeds of the dataloader workers *)

Lemma pow3_mod2 (k : Z) : 0 <= k -> 3 ^ k mod 2 = 1.
Proof.
  intros Hk. pattern k. apply natlike_ind; [done| |done].
  intros x Hx IH. rewrite Z.pow_succ_r by done.
  rewrite <- Z.mul_mod_idemp_r, IH by lia. done.
Qed.

Lemma worker_seed_factor (a m : Z) :
  0 <= a <= 32 ->
  (2 ^ a * m) mod 2 ^ 32 = 2 ^ a * (m mod 2 ^ (32 - a)).
Proof.
  intros Ha. replace (2 ^ 32) with (2 ^ a * 2 ^ (32 - a)).
  - apply Z.mul_mod_distr_l; apply Z.pow_nonzero; lia.
  - rewrite <- Z.pow_add_r by lia. f_equal. lia.
Qed.

Lemma mod_pow2_odd (m j : Z) : 0 < j -> m mod 2 = 1 -> (m mod 2 ^ j) mod 2 = 1.
Proof.
  intros Hj Hm. rewrite <- Hm. apply Z.mod_mod_divide.
  exists (2 ^ (j - 1)). replace j with (Z.succ (j - 1)) at 1 by lia.
  rewrite Z.pow_succ_r by lia. lia.
Qed.

Lemma pow2_odd_unique (a1 a2 o1 o2 : Z) :
  0 <= a1 -> 0 <= a2 -> o1 mod 2 = 1 -> o2 mod 2 = 1 ->
  2 ^ a1 * o1 = 2 ^ a2 * o2 -> a1 = a2.
Proof.
  assert (H : forall a1 a2 o1 o2, 0 <= a1 < a2 -> o1 mod 2 = 1 ->
                2 ^ a1 * o1 = 2 ^ a2 * o2 -> False).
  { clear. intros a1 a2 o1 o2 Ha Ho1 E.
    replace a2 with (a1 + Z.succ (a2 - a1 - 1)) in E by lia.
    rewrite Z.pow_add_r, Z.pow_succ_r, <- Z.mul_assoc in E by lia.
    apply Z.mul_cancel_l in E; [|apply Z.pow_nonzero; lia].
    rewrite E, <- Z.mul_assoc, Z.mul_comm, Z.mod_mul in Ho1 by lia. done. }
  intros H1 H2 Ho1 Ho2 E.
  destruct (Z.lt_trichotomy a1 a2) as [Hlt|[->|Hgt]]; [exfalso|done|exfalso].
  - by apply (H a1 a2 o1 o2).
  - by apply (H a2 a1 o2 o1).
Qed.

(** X13: the seed of a dataloader worker.  For a worker id and a
    data-parallel rank from 0 the seed lies in [0, 2^32); it is 0 for every
    worker id from 31 on and [2^31] for worker id 30, whatever the rank;
    below 31 it is not 0, and two workers with different ids never get the
    same seed, on the same rank or on different ones. *)
Theorem worker_seed_by_worker_id (dp_rank worker_id : Z) :
  0 <= dp_rank -> 0 <= worker_id ->
  exists seed,
    WorkerInit.dataloader_worker_init dp_rank worker_id = Ok seed
    /\ 0 <= seed < 2 ^ 32
    /\ (seed = 0 <-> 31 <= worker_id)
    /\ (worker_id = 30 -> seed = 2 ^ 31)
    /\ (worker_id < 31 ->
        forall dp_rank' worker_id',
          0 <= dp_rank' -> 0 <= worker_id' ->
          WorkerInit.dataloader_worker_init dp_rank' worker_id' = Ok seed ->
          worker_id' = worker_id).
Proof.
  intros Hr Hw.
  assert (Hdef : forall r w, 0 <= r -> 0 <= w ->
            WorkerInit.dataloader_worker_init r w
            = Ok ((2 ^ (1 + w) * 3 ^ (1 + r)) mod 2 ^ 32)).
  { intros r w ? ?. unfold WorkerInit.dataloader_worker_init.
    destruct (Z.ltb_spec (1 + w) 0); [lia|]. destruct (Z.ltb_spec (1 + r) 0); [lia|]. done. }
  assert (Hhigh : forall r w, 0 <= r -> 31 <= w -> (2 ^ (1 + w) * 3 ^ (1 + r)) mod 2 ^ 32 = 0).
  { intros r w ? ?. replace (1 + w) with (32 + (w - 31)) by lia.
    rewrite Z.pow_add_r by lia.
    rewrite <- Z.mul_assoc, Z.mul_comm, Z.mod_mul by lia. done. }
  assert (Hlow : forall r w, 0 <= r -> 0 <= w < 31 ->
            exists o, (2 ^ (1 + w) * 3 ^ (1 + r)) mod 2 ^ 32 = 2 ^ (1 + w) * o
                      /\ o mod 2 = 1 /\ o = 3 ^ (1 + r) mod 2 ^ (32 - (1 + w))).
  { intros r w ? ?. eexists. split; [apply worker_seed_factor; lia|].
    split; [|done]. apply mod_pow2_odd; [lia|]. apply pow3_mod2. lia. }
  eexists. split; [by apply Hdef|].
  split; [apply Z.mod_pos_bound; lia|]. split; [split|split].
  - intros E. destruct (Z.le_gt_cases 31 worker_id) as [|Hlt]; [done|exfalso].
    destruct (Hlow dp_rank worker_id Hr ltac:(lia)) as (o & Eo & Hodd & _).
    rewrite Eo in E. apply Z.mul_eq_0 in E as [E|E].
    + by apply Z.pow_nonzero in E; [|lia|lia].
    + subst o. done.
  - intros H. by apply Hhigh.
  - intros ->. destruct (Hlow dp_rank 30 Hr ltac:(lia)) as (o & Eo & Hodd & Ho).
    rewrite Eo. replace (32 - (1 + 30)) with 1 in Ho by lia.
    change (2 ^ 1) with 2 in Ho.
    assert (0 <= o < 2) as Hb by (rewrite Ho; apply Z.mod_pos_bound; lia).
    rewrite Z.mod_small in Hodd by done. rewrite Hodd. done.
  - intros Hlt r' w' Hr' Hw' E. rewrite Hdef in E by done. injection E as E.
    destruct (Hlow dp_rank worker_id Hr ltac:(lia)) as (o & Eo & Hodd & _).
    destruct (Z.le_gt_cases 31 w') as [Hge|Hlt'].
    + rewrite Hhigh, Eo in E by done. symmetry in E. apply Z.mul_eq_0 in E as [E|E].
      * by apply Z.pow_nonzero in E; [|lia|lia].
      * subst o. done.
    + destruct (Hlow r' w' Hr' ltac:(lia)) as (o' & Eo' & Hodd' & _).
      rewrite Eo, Eo' in E.
      pose proof (pow2_odd_unique (1 + w') (1 + worker_id) o' o
                    ltac:(lia) ltac:(lia) Hodd' Hodd E). lia.
Qed.

Lemma worker_seed_by_worker_id_witness :
  exists seed,
    WorkerInit.dataloader_worker_init 2 29 = Ok seed /\ 0 <= seed < 2 ^ 32.
Proof.
  destruct (worker_seed_by_worker_id 2 29) as (seed & H1 & H2 & _); [lia|lia|].
  exists seed. split; [exact H1|exact H2].
Defined.

(** ** Mixing datasets *)

Section DatasetMixFacts.
Import DatasetMix.
Context {row : Type}.
Variable load_dataset : string -> string -> result (list row).
Variable shuffle : Z -> list row -> list row.

Lemma split_loop_bound (ds : string) (splits : list string) (a a' : @locals row) :
  split_loop load_dataset ds splits a = Ok a' ->
  (split a = None <-> raw_train_datasets a = [] /\ raw_test_datasets a = []) ->
  (split a' = None <-> raw_train_datasets a' = [] /\ raw_test_datasets a' = [])
  /\ (splits <> [] -> split a' <> None)
  /\ (splits = [] -> a' = a).
Proof.
  revert a. induction splits as [|s splits IH]; intros a Hloop Hinv.
  - simpl in Hloop. injection Hloop as <-. done.
  - cbn [split_loop] in Hloop.
    assert (forall b : @locals row,
              split_loop load_dataset ds splits b = Ok a' ->
              split b <> None ->
              raw_train_datasets b <> [] \/ raw_test_datasets b <> [] ->
              (split a' = None <-> raw_train_datasets a' = [] /\ raw_test_datasets a' = [])
              /\ (s :: splits <> [] -> split a' <> None)
              /\ (s :: splits = [] -> a' = a)) as Hstep.
    { intros b Hb Hsb Hne.
      destruct (IH b Hb) as (H1 & H2 & H3).
      { split; [done|]. intros [? ?]. destruct Hne; done. }
      split; [done|]. split; [|done]. intros _.
      destruct splits as [|s' splits']; [rewrite (H3 eq_refl); done|by apply H2]. }
    destruct (contains "train" s).
    + destruct (load_dataset ds s) as [d|]; [|done]. cbn [mbind result_bind] in Hloop.
      apply (Hstep _ Hloop); simpl; [done|]. left. by destruct (raw_train_datasets a).
    + destruct (contains "test" s); [|done].
      destruct (load_dataset ds s) as [d|]; [|done]. cbn [mbind result_bind] in Hloop.
      apply (Hstep _ Hloop); simpl; [done|]. right. by destruct (raw_test_datasets a).
Qed.

Lemma dataset_loop_bound (items : list (string * Float.float)) (splits : list string)
    (a a' : @locals row) :
  dataset_loop load_dataset items splits a = Ok a' ->
  (split a = None <-> raw_train_datasets a = [] /\ raw_test_datasets a = []) ->
  (split a' = None <-> raw_train_datasets a' = [] /\ raw_test_datasets a' = [])
  /\ (items <> [] -> splits <> [] -> split a' <> None)
  /\ (items = [] \/ splits = [] ->
      split a' = split a /\ raw_train_datasets a' = raw_train_datasets a
      /\ raw_test_datasets a' = raw_test_datasets a).
Proof.
  revert a. induction items as [|[ds frac] items IH]; intros a Hloop Hinv.
  - simpl in Hloop. injection Hloop as <-. done.
  - cbn [dataset_loop] in Hloop. destruct (Float.flt frac _); [done|].
    destruct (split_loop load_dataset ds splits _) as [b|] eqn:Hb; [|done].
    cbn [mbind result_bind] in Hloop.
    destruct (split_loop_bound _ _ _ _ Hb Hinv) as (H1 & H2 & H3).
    destruct (IH b Hloop H1) as (I1 & I2 & I3).
    split; [done|]. split.
    + intros _ Hs. specialize (H2 Hs).
      destruct items as [|it items'].
      * destruct (I3 (or_introl eq_refl)) as [-> _]. done.
      * by apply I2.
    + intros [|Hs]; [done|]. rewrite (H3 Hs) in I3. simpl in I3.
      apply I3. by right.
Qed.

Lemma split_loop_total (data : string -> string -> list row) (ds : string)
    (splits : list string) (a : @locals row) :
  (forall s, load_dataset ds s = Ok (data ds s)) ->
  Forall (fun s => contains "train" s || contains "test" s = true) splits ->
  exists a',
    split_loop load_dataset ds splits a = Ok a'
    /\ raw_train_datasets a'
       = raw_train_datasets a ++ map (data ds) (filter (fun s => contains "train" s = true) splits)
    /\ raw_test_datasets a'
       = raw_test_datasets a
         ++ map (data ds) (filter (fun s => contains "train" s = false) splits)
    /\ fracs a' = fracs a.
Proof.
  intros Hload Hsplits. revert a.
  induction Hsplits as [|s splits Hs _ IH]; intros a.
  - exists a. simpl. by rewrite !app_nil_r.
  - cbn [split_loop]. rewrite Hload. cbn [mbind result_bind].
    destruct (contains "train" s) eqn:Htrain.
    + destruct (IH {| raw_train_datasets := raw_train_datasets a ++ [data ds s];
                      raw_test_datasets := raw_test_datasets a;
                      fracs := fracs a; split := Some s |}) as (a' & H1 & H2 & H3 & H4).
      exists a'. split; [done|]. simpl in *.
      rewrite filter_cons_True by done. rewrite filter_cons_False by congruence.
      rewrite H2, H3, <- app_assoc. done.
    + simpl in Hs. rewrite Hs.
      destruct (IH {| raw_train_datasets := raw_train_datasets a;
                      raw_test_datasets := raw_test_datasets a ++ [data ds s];
                      fracs := fracs a; split := Some s |}) as (a' & H1 & H2 & H3 & H4).
      exists a'. split; [done|]. simpl in *.
      rewrite filter_cons_False by congruence. rewrite filter_cons_True by done.
      rewrite H2, H3, <- app_assoc. done.
Qed.

Lemma dataset_loop_total (data : string -> string -> list row)
    (items : list (string * Float.float)) (splits : list string) (a : @locals row) :
  (forall ds s, load_dataset ds s = Ok (data ds s)) ->
  Forall (fun s => contains "train" s || contains "test" s = true) splits ->
  Forall (fun it => Float.flt it.2 (Float.Finite 0) = false) items ->
  exists a',
    dataset_loop load_dataset items splits a = Ok a'
    /\ raw_train_datasets a'
       = raw_train_datasets a
         ++ flat_map (fun it => map (data it.1)
                                  (filter (fun s => contains "train" s = true) splits)) items
    /\ raw_test_datasets a'
       = raw_test_datasets a
         ++ flat_map (fun it => map (data it.1)
                                  (filter (fun s => contains "train" s = false) splits)) items
    /\ fracs a' = fracs a ++ map snd items.
Proof.
  intros Hload Hsplits Hitems. revert a.
  induction Hitems as [|[ds frac] items Hfrac _ IH]; intros a.
  - exists a. simpl. by rewrite !app_nil_r.
  - cbn [dataset_loop]. simpl in Hfrac. rewrite Hfrac.
    destruct (split_loop_total data ds splits
                {| raw_train_datasets := raw_train_datasets a;
                   raw_test_datasets := raw_test_datasets a;
                   fracs := fracs a ++ [frac]; split := split a |}
                (Hload ds) Hsplits) as (b & Hb & Hb1 & Hb2 & Hb3).
    rewrite Hb. cbn [mbind result_bind].
    destruct (IH b) as (a' & H1 & H2 & H3 & H4).
    exists a'. split; [done|]. simpl in *.
    rewrite H2, H3, H4, Hb1, Hb2, Hb3, <- !app_assoc. done.
Qed.

Lemma train_subsets_total (pairs : list (list row * Float.float)) :
  Forall (fun p => Z.of_nat (length p.1) < 2 ^ 53
                   /\ exists f, p.2 = Float.Finite f /\ (0 <= f <= 1)%Q) pairs ->
  exists counts,
    mapM (fun '(dataset, frac) => train_subset dataset frac) pairs
    = Ok (zip_with (fun p n => take (Z.to_nat n) p.1) pairs counts)
    /\ Forall2 (fun p n =>
         exists f product,
           p.2 = Float.Finite f
           /\ Float.round Float.binary64 (inject_Z (Z.of_nat (length p.1)) * f)
              = Float.Finite product
           /\ n = Qfloor product /\ 0 <= n <= Z.of_nat (length p.1)) pairs counts.
Proof.
  induction 1 as [|[d frac] pairs (Hlen & f & Hf & Hf01) _ (counts & IH & HF)].
  { exists []. split; [done|constructor]. }
  cbn [fst snd] in *. subst frac.
  destruct (int_times_unit (Z.of_nat (length d)) f ltac:(lia) Hf01)
    as (q & Hq & Hr & Hi & Hb).
  exists (Qfloor q :: counts). split.
  - cbn [mapM zip_with]. rewrite IH. unfold train_subset.
    rewrite Hq. cbn [mbind result_bind]. rewrite Hi. cbn [mbind result_bind].
    unfold select_range.
    by destruct (Z.ltb_spec (Z.of_nat (length d)) (Qfloor q)) as [|_]; [lia|].
  - constructor; [|done]. by exists f, q.
Qed.

End DatasetMixFacts.

Lemma flat_map_length_const {A B} (f : A -> list B) (l : list A) (n : nat) :
  (forall x, length (f x) = n) -> length (flat_map f l) = (length l * n)%nat.
Proof.
  intros H. induction l as [|x l IH]; [done|]. simpl. rewrite length_app, H, IH. done.
Qed.

(** X14: the last check of [_get_dataset_mix] never reports what its
    message says.  A returned [DatasetDict] is never empty and needs at
    least one dataset and one split.  When the loops end without having
    loaded anything, the dict of datasets or the list of splits was empty,
    the loop variable [split] was never bound, and building the message
    raises [UnboundLocalError] in place of the [ValueError]. *)
Theorem dataset_mix_nothing_loaded {row} (load_dataset : string -> string -> result (list row))
    (shuffle : Z -> list row -> list row)
    (dataset_dict : list (string * Float.float)) (splits : list string) (seed : Z) :
  let start := {| DatasetMix.raw_train_datasets := []; DatasetMix.raw_test_datasets := [];
                  DatasetMix.fracs := []; DatasetMix.split := None |} in
  (forall raw_datasets,
     DatasetMix._get_dataset_mix load_dataset shuffle dataset_dict splits seed
     = Ok raw_datasets ->
     raw_datasets <> [] /\ dataset_dict <> [] /\ splits <> [])
  /\ (forall a,
        DatasetMix.dataset_loop load_dataset dataset_dict splits start = Ok a ->
        DatasetMix.raw_train_datasets a = [] -> DatasetMix.raw_test_datasets a = [] ->
        (dataset_dict = [] \/ splits = [])
        /\ DatasetMix.split a = None
        /\ DatasetMix._get_dataset_mix load_dataset shuffle dataset_dict splits seed
           = Raise (UnboundLocalError "split"))
  /\ (dataset_dict = [] \/ splits = [] ->
      Forall (fun it => Float.flt it.2 (Float.Finite 0) = false) dataset_dict ->
      DatasetMix._get_dataset_mix load_dataset shuffle dataset_dict splits seed
      = Raise (UnboundLocalError "split")).
Proof.
  intros start.
  assert (Hinv : DatasetMix.split start = None
                 <-> DatasetMix.raw_train_datasets start = []
                     /\ DatasetMix.raw_test_datasets start = []) by done.
  assert (Hempty : forall a,
            DatasetMix.dataset_loop load_dataset dataset_dict splits start = Ok a ->
            DatasetMix.raw_train_datasets a = [] -> DatasetMix.raw_test_datasets a = [] ->
            DatasetMix.split a = None
            /\ DatasetMix._get_dataset_mix load_dataset shuffle dataset_dict splits seed
               = Raise (UnboundLocalError "split")).
  { intros a Ha Htrain Htest.
    destruct (dataset_loop_bound load_dataset _ _ _ _ Ha Hinv) as (H1 & _ & _).
    assert (DatasetMix.split a = None) as Hs by (by apply H1).
    split; [done|]. unfold DatasetMix._get_dataset_mix. fold start. rewrite Ha.
    cbn [mbind result_bind]. rewrite Htrain, Htest, Hs. done. }
  split; [|split].
  - intros out Hout. pose proof Hout as Hout'.
    unfold DatasetMix._get_dataset_mix in Hout. fold start in Hout.
    destruct (DatasetMix.dataset_loop load_dataset dataset_dict splits start)
      as [a|] eqn:Ha; [|done].
    destruct (dataset_loop_bound load_dataset _ _ _ _ Ha Hinv) as (H1 & H2 & H3).
    split.
    { cbn [mbind result_bind] in Hout.
      destruct (if (0 <? length (DatasetMix.raw_train_datasets a))%nat then _ else _)
        as [train|]; [|done].
      cbn [mbind result_bind] in Hout.
      destruct (length _ =? 0)%nat eqn:E; [by destruct (DatasetMix.split a)|].
      injection Hout as <-. intros E'. rewrite E' in E. done. }
    assert (~ (dataset_dict = [] \/ splits = [])) as Hne.
    { intros Hor. destruct (H3 Hor) as (_ & Htrain & Htest).
      destruct (Hempty a eq_refl Htrain Htest) as [_ Hraise]. congruence. }
    split; intros ->; apply Hne; [by left|by right].
  - intros a Ha Htrain Htest.
    destruct (dataset_loop_bound load_dataset _ _ _ _ Ha Hinv) as (H1 & H2 & _).
    destruct (Hempty a Ha Htrain Htest) as [Hs Hraise].
    split; [|done].
    destruct dataset_dict as [|it items]; [by left|].
    destruct splits as [|s splits']; [by right|].
    exfalso. by apply H2.
  - intros Hor Hfracs.
    assert (exists a, DatasetMix.dataset_loop load_dataset dataset_dict splits start = Ok a)
      as [a Ha].
    { destruct Hor as [-> | ->]; [by eexists|].
      generalize start. clear -Hfracs.
      induction Hfracs as [|[ds frac] items Hf _ IH]; intros a; [by eexists|].
      cbn [DatasetMix.dataset_loop DatasetMix.split_loop].
      simpl in Hf. rewrite Hf. cbn [mbind result_bind].
      apply IH. }
    destruct (dataset_loop_bound load_dataset _ _ _ _ Ha Hinv) as (_ & _ & H3).
    destruct (H3 Hor) as (_ & Htrain & Htest).
    by apply (Hempty a Ha).
Qed.

Lemma dataset_mix_nothing_loaded_witness :
  DatasetMix._get_dataset_mix (fun ds s => Ok [ds; s]) (fun _ l => l)
    [("wiki", Float.Finite (1 # 2)); ("code", Float.Finite (1 # 4))] [] 42
  = Raise (UnboundLocalError "split").
Proof.
  destruct (dataset_mix_nothing_loaded (fun ds s => Ok [ds; s]) (fun _ l => l)
              [("wiki", Float.Finite (1 # 2)); ("code", Float.Finite (1 # 4))] [] 42)
    as (_ & _ & H).
  apply H; [by right|]. repeat constructor; done.
Defined.

(** X15: what [_get_dataset_mix] returns when every load succeeds,
    every split names train or test, every fraction is a float in [[0, 1]]
    and every dataset has fewer than [2^53] rows.  The train entry is there
    exactly when a split names train; it is the shuffled concatenation of
    leading rows of the loaded train datasets, where the [j]-th loaded
    dataset is cut with the [j]-th fraction: to the integer part of the
    double product of the fraction and the number of rows, which is at most
    that number.  With one train split each dataset is cut with its own
    fraction; with more, only as many loaded datasets as there are
    fractions are used.  The test entry concatenates every loaded test
    dataset in full. *)
Theorem dataset_mix_pairing {row} (data : string -> string -> list row)
    (shuffle : Z -> list row -> list row)
    (dataset_dict : list (string * Float.float)) (splits : list string) (seed : Z) :
  Forall (fun s => DatasetMix.contains "train" s || DatasetMix.contains "test" s = true)
         splits ->
  Forall (fun it => exists f, it.2 = Float.Finite f /\ (0 <= f <= 1)%Q) dataset_dict ->
  (forall ds s, Z.of_nat (length (data ds s)) < 2 ^ 53) ->
  dataset_dict <> [] -> splits <> [] ->
  let train_splits := filter (fun s => DatasetMix.contains "train" s = true) splits in
  let test_splits := filter (fun s => DatasetMix.contains "train" s = false) splits in
  let loaded_train := flat_map (fun it => map (data it.1) train_splits) dataset_dict in
  let loaded_test := flat_map (fun it => map (data it.1) test_splits) dataset_dict in
  let pairs := zip loaded_train (map snd dataset_dict) in
  exists counts,
    DatasetMix._get_dataset_mix (fun ds s => Ok (data ds s)) shuffle dataset_dict splits seed
    = Ok ((match train_splits with
           | [] => []
           | _ => [("train",
                    shuffle seed
                      (concat (zip_with (fun p n => take (Z.to_nat n) p.1) pairs counts)))]
           end)
          ++ (match test_splits with
              | [] => []
              | _ => [("test", shuffle seed (concat loaded_test))]
              end))
    /\ Forall2 (fun p n =>
         exists f product,
           p.2 = Float.Finite f
           /\ Float.round Float.binary64 (inject_Z (Z.of_nat (length p.1)) * f)
              = Float.Finite product
           /\ n = Qfloor product /\ 0 <= n <= Z.of_nat (length p.1)) pairs counts
    /\ length loaded_train = (length dataset_dict * length train_splits)%nat
    /\ length pairs = Nat.min (length loaded_train) (length dataset_dict)
    /\ (forall s, train_splits = [s] ->
          pairs = map (fun it => (data it.1 s, it.2)) dataset_dict).
Proof.
  intros Hsplits Hfracs Hrows Hdict Hne train_splits test_splits loaded_train loaded_test
    pairs.
  assert (Hlen_train : length loaded_train = (length dataset_dict * length train_splits)%nat).
  { apply flat_map_length_const. intros x. by rewrite length_map. }
  assert (Hlen_test : length loaded_test = (length dataset_dict * length test_splits)%nat).
  { apply flat_map_length_const. intros x. by rewrite length_map. }
  assert (Hsome : train_splits <> [] \/ test_splits <> []).
  { subst train_splits test_splits. destruct splits as [|s splits']; [done|].
    destruct (DatasetMix.contains "train" s) eqn:E.
    - left. rewrite filter_cons_True by done. done.
    - right. rewrite filter_cons_True by done. done. }
  destruct (train_subsets_total pairs) as (counts & Hsub & HF).
  { subst pairs. apply Forall_forall. intros [d f] Hin. simpl. split.
    - apply elem_of_zip_l in Hin. subst loaded_train.
      apply list_elem_of_In, in_flat_map in Hin as (it & _ & Hin).
      apply in_map_iff in Hin as (s & <- & _). apply Hrows.
    - apply elem_of_zip_r in Hin. apply list_elem_of_fmap in Hin as (it & -> & Hit).
      rewrite Forall_forall in Hfracs. by apply Hfracs. }
  exists counts. split; [|split; [done|split; [done|split]]].
  - destruct (dataset_loop_total (fun ds s => Ok (data ds s)) data dataset_dict splits
                {| DatasetMix.raw_train_datasets := []; DatasetMix.raw_test_datasets := [];
                   DatasetMix.fracs := []; DatasetMix.split := None |})
      as (a & Ha & Htrain & Htest & Hfr); [done|done| |].
    { eapply Forall_impl; [exact Hfracs|]. intros it (f & -> & Hf & _). simpl.
      by rewrite Qle_bool_true. }
    simpl in Htrain, Htest, Hfr. fold train_splits loaded_train in Htrain.
    fold test_splits loaded_test in Htest.
    unfold DatasetMix._get_dataset_mix. rewrite Ha. cbn [mbind result_bind].
    rewrite Htrain, Htest, Hfr. fold pairs. rewrite Hsub.
    assert (length dataset_dict <> 0)%nat by (by destruct dataset_dict).
    destruct train_splits as [|s1 ts] eqn:Ets; destruct test_splits as [|s2 tt] eqn:Ett.
    + destruct Hsome; done.
    + simpl in Hlen_train, Hlen_test.
      destruct loaded_train; [|simpl in Hlen_train; lia].
      destruct loaded_test; [simpl in Hlen_test; lia|]. done.
    + simpl in Hlen_train, Hlen_test.
      destruct loaded_test; [|simpl in Hlen_test; lia].
      destruct loaded_train; [simpl in Hlen_train; lia|]. done.
    + simpl in Hlen_train, Hlen_test.
      destruct loaded_train; [simpl in Hlen_train; lia|].
      destruct loaded_test; [simpl in Hlen_test; lia|]. done.
  - subst pairs. rewrite length_zip, length_map. done.
  - intros s Hs. subst pairs loaded_train. rewrite Hs. clear.
    induction dataset_dict as [|[ds f] items IH]; [done|]. simpl. f_equal. exact IH.
Qed.

Lemma dataset_mix_pairing_witness :
  exists train,
    DatasetMix._get_dataset_mix (fun ds s => Ok [ds; s; ds; s]) (fun _ l => l)
      [("wiki", Float.Finite (1 # 2)); ("code", Float.Finite (1 # 4))]
      ["train_a"; "train_b"] 42
    = Ok [("train", train)].
Proof.
  destruct (dataset_mix_pairing (fun ds s => [ds; s; ds; s]) (fun _ l => l)
              [("wiki", Float.Finite (1 # 2)); ("code", Float.Finite (1 # 4))]
              ["train_a"; "train_b"] 42)
    as (counts & H & _).
  - repeat constructor.
  - repeat constructor; eexists; (split; [reflexivity|split; done]).
  - intros ds s. by vm_compute.
  - discriminate.
  - discriminate.
  - eexists. exact H.
Defined.

(** The product of the fraction and the number of rows is rounded before
    [int] cuts it: the double nearest to 0.7 takes 7 of 10 rows, although
    it is below 7/10, and the double nearest to 0.29 takes 28 of 100. *)
Example train_subset_rounding :
  DatasetMix.train_subset (seq 0 10) (Float.round Float.binary64 (7 # 10)) = Ok (seq 0 7)
  /\ Float.flt (Float.round Float.binary64 (7 # 10)) (Float.Finite (7 # 10)) = true
  /\ DatasetMix.train_subset (seq 0 100) (Float.round Float.binary64 (29 # 100))
     = Ok (seq 0 28).
Proof. by vm_compute. Qed.

(** ** More on the parallel context *)

Section ContextFacts.
Import ParallelContext.

Lemma dict_get_set (groups : list (ParallelMode * nat)) (mode mode' : ParallelMode)
    (group : nat) :
  dict_get (dict_set groups mode group) mode'
  = if bool_decide (mode = mode') then Some group else dict_get groups mode'.
Proof.
  induction groups as [|[k v] groups IH]; cbn [dict_get dict_set].
  - by destruct (bool_decide (mode = mode')).
  - destruct (decide (k = mode)) as [Hk|Hk].
    + rewrite (bool_decide_eq_true_2 (k = mode)) by done. cbn [dict_get]. subst k.
      by destruct (bool_decide (mode = mode')).
    + rewrite (bool_decide_eq_false_2 (k = mode)) by done. cbn [dict_get]. rewrite IH.
      destruct (decide (k = mode')) as [Hk'|Hk'].
      * rewrite (bool_decide_eq_true_2 (k = mode')) by done.
        rewrite (bool_decide_eq_false_2 (mode = mode')) by congruence. done.
      * rewrite (bool_decide_eq_false_2 (k = mode')) by done. done.
Qed.

Lemma dict_set_keys (groups : list (ParallelMode * nat)) (mode : ParallelMode)
    (group : nat) :
  map fst (dict_set groups mode group)
  = if bool_decide (mode ∈ map fst groups) then map fst groups
    else map fst groups ++ [mode].
Proof.
  induction groups as [|[k v] groups IH]; cbn [dict_set map fst app].
  - rewrite bool_decide_eq_false_2; [done|]. apply not_elem_of_nil.
  - destruct (decide (k = mode)) as [Hk|Hk].
    + rewrite (bool_decide_eq_true_2 (k = mode)) by done. cbn [map fst]. subst k.
      rewrite bool_decide_eq_true_2; [done|left].
    + rewrite (bool_decide_eq_false_2 (k = mode)) by done. cbn [map fst]. rewrite IH.
      destruct (decide (mode ∈ map fst groups)) as [Hin|Hin].
      * rewrite !bool_decide_eq_true_2; [done|by right|done].
      * rewrite !bool_decide_eq_false_2; [done| |done].
        intros [?|?]%elem_of_cons; [congruence|done].
Qed.

Lemma dict_get_keys (groups : list (ParallelMode * nat)) (mode : ParallelMode) :
  mode ∈ map fst groups <-> exists group, dict_get groups mode = Some group.
Proof.
  induction groups as [|[k v] groups IH]; cbn [dict_get map fst].
  - split; [by intros ?%elem_of_nil|by intros [? ?]].
  - destruct (decide (k = mode)) as [Hk|Hk].
    + rewrite (bool_decide_eq_true_2 (k = mode)) by done. subst k. split; [eauto|left].
    + rewrite (bool_decide_eq_false_2 (k = mode)) by done. rewrite <- IH. split.
      * intros [?|?]%elem_of_cons; [congruence|done].
      * by right.
Qed.

Lemma destroy_loop_only_global (self : t) (items : list (ParallelMode * nat)) (d : dist) :
  Forall (fun k => k ∈ map fst (_groups self)) (map fst items) ->
  destroy_loop self items d
  = if bool_decide (Forall (fun k => k = GLOBAL) (map fst items)) then (Ok (), d)
    else (Raise (AttributeError "get_world_size"), d).
Proof.
  induction items as [|[k v] items IH]; intros Hin; [done|].
  cbn [destroy_loop map fst]. inversion Hin as [|? ? Hk Hrest]; subst.
  destruct (decide (k = GLOBAL)) as [->|Hne].
  - rewrite (bool_decide_eq_false_2 (GLOBAL ≠ GLOBAL)) by (by intros ?).
    rewrite (bind_ok (mret ()) _ d d ()) by done. rewrite IH by done.
    destruct (decide (Forall (fun k => k = GLOBAL) (map fst items))) as [Hall|Hall].
    + rewrite !bool_decide_eq_true_2; [done|by constructor|done].
    + rewrite !bool_decide_eq_false_2; [done| |done].
      intros H. by inversion H.
  - rewrite (bool_decide_eq_true_2 (k ≠ GLOBAL)) by done.
    unfold is_initialized. rewrite bool_decide_eq_true_2 by done.
    rewrite (bool_decide_eq_false_2 (Forall _ _)) by (intros H; by inversion H).
    reflexivity.
Qed.

End ContextFacts.

(** X16: a default process group that some other code has initialized
    makes the constructor fail.  With accepted sizes and [torch.distributed]
    available and initialized, [init_global_dist] is skipped, [world_pg] is
    never assigned, and [init_parallel_groups] raises [AttributeError] when
    it reads it: only the device has been set. *)
Theorem init_with_initialized_default_group (env : ParallelContext.environ)
    (tp pp dp : Z) (backend : string) (d : ParallelContext.dist) :
  dp ≠ 0 -> tp * pp ≠ 0 ->
  ~ size_conditions (ParallelContext.WORLD_SIZE env) tp pp dp ->
  ParallelContext.dist_is_available d = true ->
  ParallelContext.dist_is_initialized d = true ->
  exists d',
    ParallelContext.__init__ env tp pp dp backend d = (Raise (AttributeError "world_pg"), d')
    /\ ParallelContext.created d' = ParallelContext.created d
    /\ ParallelContext.trace d'
       = ParallelContext.trace d
         ++ [ParallelContext.SetDevice (ParallelContext.LOCAL_RANK env)].
Proof.
  intros Hdp Htp Hok Hav Hini. unfold size_conditions in Hok.
  assert (ParallelContext.WORLD_SIZE env mod dp = 0) as H1
    by (destruct (decide (ParallelContext.WORLD_SIZE env mod dp = 0)); tauto).
  assert (ParallelContext.WORLD_SIZE env mod (tp * pp) = 0) as H2
    by (destruct (decide (ParallelContext.WORLD_SIZE env mod (tp * pp) = 0)); tauto).
  assert (tp * pp * dp = ParallelContext.WORLD_SIZE env) as H3
    by (destruct (decide (tp * dp * pp = ParallelContext.WORLD_SIZE env)); [lia|tauto]).
  unfold ParallelContext.__init__.
  rewrite (bind_ok _ _ _ _ _ (pymod_ok _ _ d Hdp)), H1.
  rewrite (bind_ok (ParallelContext.assert _ _) _ d d ()) by done.
  rewrite (bind_ok _ _ _ _ _ (pymod_ok _ _ d Htp)), H2.
  rewrite (bind_ok (ParallelContext.assert _ _) _ d d ()) by done.
  rewrite (bind_ok (ParallelContext.assert _ _) _ d d ())
    by (by rewrite (proj2 (Z.eqb_eq _ _) H3)).
  rewrite (bind_ok (ParallelContext.get _) _ d d true)
    by (by unfold ParallelContext.get; rewrite Hav).
  cbn [negb]. rewrite (bind_ok (mret ()) _ d d ()) by done.
  erewrite (bind_ok (ParallelContext.set_device env)) by reflexivity.
  erewrite (bind_ok (ParallelContext.get _)) by reflexivity.
  cbn [ParallelContext.dist_is_initialized]. rewrite Hini. cbn [negb].
  erewrite (bind_ok (mret _)) by reflexivity.
  eexists. split; [reflexivity|]. done.
Qed.

Lemma init_with_initialized_default_group_witness :
  exists d',
    ParallelContext.__init__ (Examples.env 8 5) 2 2 2 "nccl"
      {| ParallelContext.dist_is_available := true;
         ParallelContext.dist_is_initialized := true;
         ParallelContext.created := [];
         ParallelContext.trace := [] |}
    = (Raise (AttributeError "world_pg"), d').
Proof.
  destruct (init_with_initialized_default_group (Examples.env 8 5) 2 2 2 "nccl"
              {| ParallelContext.dist_is_available := true;
                 ParallelContext.dist_is_initialized := true;
                 ParallelContext.created := [];
                 ParallelContext.trace := [] |}) as (d' & H & _).
  - lia.
  - lia.
  - unfold size_conditions. vm_compute. intros [H|[H|H]]; by apply H.
  - reflexivity.
  - reflexivity.
  - exists d'. exact H.
Defined.

(** X17: [add_group], [get_group] and [is_initialized] behave as a
    dict with one group per mode.  After [add_group] the mode is
    initialized and [get_group] returns the group added last; other modes
    are not touched; the modes stay distinct; and [get_group] raises
    [KeyError] exactly for the modes that are not initialized. *)
Theorem group_registry_round_trip (self : ParallelContext.t)
    (mode : ParallelContext.ParallelMode) (group : nat) (d : ParallelContext.dist) :
  let self' := ParallelContext.add_group self mode group in
  ParallelContext.is_initialized self' mode = true
  /\ ParallelContext.get_group self' mode d = (Ok group, d)
  /\ (forall group', ParallelContext.add_group self' mode group'
                     = ParallelContext.add_group self mode group')
  /\ (forall mode', mode' ≠ mode ->
        ParallelContext.is_initialized self' mode' = ParallelContext.is_initialized self mode'
        /\ ParallelContext.get_group self' mode' d = ParallelContext.get_group self mode' d)
  /\ (NoDup (map fst (ParallelContext._groups self)) ->
      NoDup (map fst (ParallelContext._groups self')))
  /\ (forall mode',
        ParallelContext.is_initialized self mode' = false
        <-> ParallelContext.get_group self mode' d = (Raise (KeyError "parallel_mode"), d)).
Proof.
  intros self'. subst self'.
  unfold ParallelContext.is_initialized, ParallelContext.get_group,
    ParallelContext.add_group.
  cbn [ParallelContext._groups ParallelContext.with_groups].
  split; [|split; [|split; [|split; [|split]]]].
  - apply bool_decide_eq_true_2. rewrite dict_set_keys.
    destruct (decide (mode ∈ map fst (ParallelContext._groups self))) as [H|H].
    + by rewrite bool_decide_eq_true_2.
    + rewrite bool_decide_eq_false_2 by done. apply elem_of_app. right. left.
  - rewrite dict_get_set, bool_decide_eq_true_2 by done. done.
  - intros group'. unfold ParallelContext.with_groups. simpl. f_equal.
    generalize (ParallelContext._groups self). clear.
    induction l as [|[k v] l IH]; simpl.
    + by rewrite bool_decide_eq_true_2.
    + destruct (decide (k = mode)) as [->|Hk].
      * rewrite !bool_decide_eq_true_2 by done. simpl.
        by rewrite bool_decide_eq_true_2.
      * rewrite !bool_decide_eq_false_2 by done. simpl.
        rewrite bool_decide_eq_false_2 by done. by rewrite IH.
  - intros mode' Hne. split.
    + rewrite dict_set_keys.
      destruct (decide (mode ∈ map fst (ParallelContext._groups self))) as [H|H].
      * by rewrite (bool_decide_eq_true_2 _ H).
      * rewrite (bool_decide_eq_false_2 _ H). apply bool_decide_ext.
        rewrite elem_of_app, list_elem_of_singleton. split; [|by left].
        intros [?|?]; [done|congruence].
    + rewrite dict_get_set, bool_decide_eq_false_2 by done. done.
  - intros Hnd. rewrite dict_set_keys.
    destruct (decide (mode ∈ map fst (ParallelContext._groups self))) as [H|H].
    + by rewrite bool_decide_eq_true_2.
    + rewrite bool_decide_eq_false_2 by done. apply NoDup_app.
      split; [done|]. split; [|apply NoDup_singleton].
      intros x Hx ->%list_elem_of_singleton. done.
  - intros mode'. rewrite bool_decide_eq_false, dict_get_keys. split.
    + intros H. destruct (ParallelContext.dict_get _ mode') as [g|]; [|done].
      exfalso. apply H. eauto.
    + intros H [g Hg]. rewrite Hg in H. done.
Qed.

Lemma group_registry_round_trip_witness :
  ParallelContext.get_group
    (ParallelContext.add_group
       (ParallelContext.add_group
          (ParallelContext.with_groups
             {| ParallelContext.tensor_parallel_size := 2;
                ParallelContext.pipeline_parallel_size := 2;
                ParallelContext.data_parallel_size := 2;
                ParallelContext._groups := [];
                ParallelContext.world_pg := None;
                ParallelContext.tp_pg := None;
                ParallelContext.dp_pg := None;
                ParallelContext.pp_pg := None;
                ParallelContext.world_rank_matrix := [];
                ParallelContext.world_ranks_to_pg := ∅ |} [])
          ParallelContext.TENSOR 3)
       ParallelContext.DATA 4)
    ParallelContext.TENSOR Examples.fresh
  = (Ok 3%nat, Examples.fresh).
Proof.
  set (self0 := ParallelContext.with_groups _ []).
  destruct (group_registry_round_trip
              (ParallelContext.add_group self0 ParallelContext.TENSOR 3)
              ParallelContext.DATA 4 Examples.fresh) as (_ & _ & _ & H & _).
  destruct (H ParallelContext.TENSOR) as [_ ->]; [discriminate|].
  reflexivity.
Defined.

(** X18: [destroy] releases the default group and nothing else.  It
    returns exactly when [GLOBAL] is a stored mode and no other mode is
    stored; it then waits on and destroys the default group and empties the
    registry.  In every other case it raises, an [AssertionError] without
    [GLOBAL] and an [AttributeError] for the missing [get_world_size]
    otherwise, and the process has done nothing: no group of another mode is
    ever destroyed. *)
Theorem destroy_only_global (self : ParallelContext.t) (d : ParallelContext.dist) :
  let modes := map fst (ParallelContext._groups self) in
  (ParallelContext.GLOBAL ∈ modes /\ Forall (fun k => k = ParallelContext.GLOBAL) modes ->
   exists self' d',
     ParallelContext.destroy self d = (Ok self', d')
     /\ ParallelContext._groups self' = []
     /\ ParallelContext.created d' = ParallelContext.created d
     /\ ParallelContext.trace d'
        = ParallelContext.trace d
          ++ [ParallelContext.Barrier None; ParallelContext.DestroyProcessGroup None])
  /\ (ParallelContext.GLOBAL ∉ modes ->
      ParallelContext.destroy self d
      = (Raise (AssertionError "Global group must be initialized before destroying."), d))
  /\ (ParallelContext.GLOBAL ∈ modes ->
      ~ Forall (fun k => k = ParallelContext.GLOBAL) modes ->
      ParallelContext.destroy self d = (Raise (AttributeError "get_world_size"), d)).
Proof.
  intros modes. unfold ParallelContext.destroy, ParallelContext.is_initialized.
  fold modes.
  assert (Hloop := destroy_loop_only_global self (ParallelContext._groups self) d).
  fold modes in Hloop.
  assert (Forall (fun k => k ∈ modes) modes) as Hin by (by apply Forall_forall).
  specialize (Hloop Hin).
  split; [|split].
  - intros [Hg Hall]. rewrite bool_decide_eq_true_2 by done.
    rewrite (bind_ok (ParallelContext.assert _ _) _ d d ()) by done.
    rewrite bool_decide_eq_true_2 in Hloop by done.
    rewrite (bind_ok _ _ _ _ _ Hloop).
    eexists _, _. split; [reflexivity|]. simpl. split; [done|]. split; [done|].
    by rewrite <- app_assoc.
  - intros Hg. rewrite bool_decide_eq_false_2 by done. reflexivity.
  - intros Hg Hall. rewrite bool_decide_eq_true_2 by done.
    rewrite (bind_ok (ParallelContext.assert _ _) _ d d ()) by done.
    rewrite bool_decide_eq_false_2 in Hloop by done.
    by rewrite (bind_raise _ _ _ _ _ Hloop).
Qed.

Lemma destroy_only_global_witness :
  ParallelContext.destroy
    (ParallelContext.add_group
       (ParallelContext.add_group
          {| ParallelContext.tensor_parallel_size := 2;
             ParallelContext.pipeline_parallel_size := 2;
             ParallelContext.data_parallel_size := 2;
             ParallelContext._groups := [];
             ParallelContext.world_pg := None;
             ParallelContext.tp_pg := None;
             ParallelContext.dp_pg := None;
             ParallelContext.pp_pg := None;
             ParallelContext.world_rank_matrix := [];
             ParallelContext.world_ranks_to_pg := ∅ |}
          ParallelContext.GLOBAL 0)
       ParallelContext.PIPELINE 5)
    Examples.fresh
  = (Raise (AttributeError "get_world_size"), Examples.fresh).
Proof.
  match goal with
  | |- ParallelContext.destroy ?s _ = _ =>
      destruct (destroy_only_global s Examples.fresh) as (_ & _ & H)
  end.
  apply H.
  - vm_compute. left.
  - vm_compute. intros H'. inversion H' as [|? ? _ H'']. inversion H'' as [|? ? E _].
    discriminate E.
Defined.

(** ** Groups as coordinate classes *)

Lemma coordinates_unique (pp dp tp p d t p' d' t' : nat) :
  (p < pp)%nat -> (d < dp)%nat -> (t < tp)%nat ->
  (p' < pp)%nat -> (d' < dp)%nat -> (t' < tp)%nat ->
  Z.of_nat ((p' * dp + d') * tp + t') = Z.of_nat ((p * dp + d) * tp + t) ->
  p' = p /\ d' = d /\ t' = t.
Proof.
  intros p_lt d_lt t_lt Hp Hd Ht E.
  set (d0 := {| ParallelContext.dist_is_available := true;
                ParallelContext.dist_is_initialized := true;
                ParallelContext.created := []; ParallelContext.trace := [] |}).
  destruct (rank_of_coordinates pp dp tp ltac:(lia) ltac:(lia) ltac:(lia)
              p' d' t' d0 Hp Hd Ht) as [_ H1].
  destruct (rank_of_coordinates pp dp tp ltac:(lia) ltac:(lia) ltac:(lia)
              p d t d0 p_lt d_lt t_lt) as [_ H2].
  cbv zeta in H1, H2. rewrite E, H2 in H1. injection H1 as ? ? ?. lia.
Qed.

Lemma tp_row_of_rank (pp dp tp : nat) (a : ParallelContext.ndarray3) (p d t : nat)
    (row : list Z) :
  ParallelContext.arange_reshape (Z.of_nat (pp * dp * tp)) pp dp tp = Ok a ->
  (p < pp)%nat -> (d < dp)%nat -> (t < tp)%nat ->
  row ∈ ParallelContext.ranks_with_tp_last a ->
  Z.of_nat ((p * dp + d) * tp + t) ∈ row ->
  row = map (fun t' => Z.of_nat ((p * dp + d) * tp + t')) (seq 0 tp).
Proof.
  intros a_ranks p_lt d_lt t_lt. unfold ParallelContext.ranks_with_tp_last.
  rewrite (concat_ranks pp dp tp ltac:(lia) ltac:(lia) ltac:(lia) a a_ranks).
  intros [k Hk]%list_elem_of_lookup Hin.
  assert (k < pp * dp)%nat as Hlt.
  { apply lookup_lt_Some in Hk. by rewrite length_reshape, length_replicate in Hk. }
  rewrite (flat_rows_lookup pp dp tp ltac:(lia) ltac:(lia) ltac:(lia) k Hlt) in Hk.
  injection Hk as <-.
  apply elem_of_seqZ in Hin.
  assert (k = p * dp + d)%nat as -> by nia.
  apply list_eq. intros i.
  change (map ?f ?l) with (f <$> l). rewrite list_lookup_fmap.
  destruct (decide (i < tp)%nat) as [Hi|Hi].
  - rewrite lookup_seqZ_lt, lookup_seq_lt by lia. simpl. f_equal. lia.
  - rewrite lookup_seqZ_ge, lookup_seq_ge by lia. done.
Qed.

Lemma dp_row_of_rank (pp dp tp : nat) (a : ParallelContext.ndarray3) (p d t : nat)
    (row : list Z) :
  ParallelContext.arange_reshape (Z.of_nat (pp * dp * tp)) pp dp tp = Ok a ->
  (p < pp)%nat -> (d < dp)%nat -> (t < tp)%nat ->
  row ∈ ParallelContext.ranks_with_dp_last a pp dp tp ->
  Z.of_nat ((p * dp + d) * tp + t) ∈ row ->
  row = map (fun d' => Z.of_nat ((p * dp + d') * tp + t)) (seq 0 dp).
Proof.
  intros a_ranks p_lt d_lt t_lt. unfold ParallelContext.ranks_with_dp_last.
  intros (p' & t' & Hp & Ht & ->)%elem_of_grid Hin.
  apply list_elem_of_In, in_map_iff in Hin as (d' & E & Hd%in_seq).
  rewrite (item_ranks pp dp tp ltac:(lia) ltac:(lia) ltac:(lia) a p' d' t' a_ranks)
    in E by lia.
  destruct (coordinates_unique pp dp tp p d t p' d' t' p_lt d_lt t_lt Hp ltac:(lia) Ht E)
    as (-> & -> & ->).
  apply map_ext_in. intros d'' Hd''%in_seq.
  apply (item_ranks pp dp tp); [lia|lia|lia|done|done|lia|done].
Qed.

Lemma pp_row_of_rank (pp dp tp : nat) (a : ParallelContext.ndarray3) (p d t : nat)
    (row : list Z) :
  ParallelContext.arange_reshape (Z.of_nat (pp * dp * tp)) pp dp tp = Ok a ->
  (p < pp)%nat -> (d < dp)%nat -> (t < tp)%nat ->
  row ∈ ParallelContext.ranks_with_pp_last a pp dp tp ->
  Z.of_nat ((p * dp + d) * tp + t) ∈ row ->
  row = map (fun p' => Z.of_nat ((p' * dp + d) * tp + t)) (seq 0 pp).
Proof.
  intros a_ranks p_lt d_lt t_lt. unfold ParallelContext.ranks_with_pp_last.
  intros (t' & d' & Ht & Hd & ->)%elem_of_grid Hin.
  apply list_elem_of_In, in_map_iff in Hin as (p' & E & Hp%in_seq).
  rewrite (item_ranks pp dp tp ltac:(lia) ltac:(lia) ltac:(lia) a p' d' t' a_ranks)
    in E by lia.
  destruct (coordinates_unique pp dp tp p d t p' d' t' p_lt d_lt t_lt ltac:(lia) Hd Ht E)
    as (-> & -> & ->).
  apply map_ext_in. intros p'' Hp''%in_seq.
  apply (item_ranks pp dp tp); [lia|lia|lia|done|lia|done|done].
Qed.

(** X19: the groups of a rank are its coordinate classes.  On the rank
    at pipeline, data and tensor coordinates [(p, d, t)], that is rank
    [(p * dp + d) * tp + t], the constructor stores as tensor group the
    group of the [tp] ranks that differ from it in the tensor coordinate
    only, as data group the [dp] ranks that differ in the data coordinate
    only, and as pipeline group the [pp] ranks that differ in the pipeline
    coordinate only. *)
Theorem groups_are_coordinate_classes (pp dp tp p d t : nat)
    (env : ParallelContext.environ) (d0 : ParallelContext.dist) :
  (p < pp)%nat -> (d < dp)%nat -> (t < tp)%nat ->
  ParallelContext.dist_is_available d0 = true ->
  ParallelContext.dist_is_initialized d0 = false ->
  ParallelContext.WORLD_SIZE env = Z.of_nat (pp * dp * tp) ->
  ParallelContext.RANK env = Z.of_nat ((p * dp + d) * tp + t) ->
  exists self d',
    ParallelContext.__init__ env (Z.of_nat tp) (Z.of_nat pp) (Z.of_nat dp) "nccl" d0
    = (Ok self, d')
    /\ (exists g members,
          ParallelContext.tp_pg self = Some g
          /\ ParallelContext.created d' !! g = Some members
          /\ Permutation members
               (map (fun t' => Z.of_nat ((p * dp + d) * tp + t')) (seq 0 tp)))
    /\ (exists g members,
          ParallelContext.dp_pg self = Some g
          /\ ParallelContext.created d' !! g = Some members
          /\ Permutation members
               (map (fun d' => Z.of_nat ((p * dp + d') * tp + t)) (seq 0 dp)))
    /\ (exists g members,
          ParallelContext.pp_pg self = Some g
          /\ ParallelContext.created d' !! g = Some members
          /\ Permutation members
               (map (fun p' => Z.of_nat ((p' * dp + d) * tp + t)) (seq 0 pp))).
Proof.
  intros Hp Hd Ht Hav Hini Hws Hrank.
  assert (0 < pp)%nat as Hpp by lia. assert (0 < dp)%nat as Hdp by lia.
  assert (0 < tp)%nat as Htp by lia.
  assert (0 <= ParallelContext.RANK env < ParallelContext.WORLD_SIZE env) as Hr.
  { rewrite Hws, Hrank.
    destruct (rank_of_coordinates pp dp tp Hpp Hdp Htp p d t d0 Hp Hd Ht) as [H _].
    exact H. }
  destruct (init_ok pp dp tp Hpp Hdp Htp env d0 Hav Hini Hws Hr)
    as (self & d' & a & Hinit & Ha & _ & _ & _ & _ & Hinv & Htpg & Hdpg & Hppg).
  rewrite Hws in Ha. rewrite Hrank in Htpg, Hdpg, Hppg.
  exists self, d'. split; [done|]. split; [|split].
  - destruct Htpg as (row & g & Hrow & Hin & Hpg & Hreg).
    destruct (registered_group_members _ _ _ _ _ Hinv Hreg) as (members & Hm & Hperm).
    exists g, members. split; [done|]. split; [done|].
    by rewrite Hperm, (tp_row_of_rank pp dp tp a p d t row Ha Hp Hd Ht Hrow Hin).
  - destruct Hdpg as (row & g & Hrow & Hin & Hpg & Hreg).
    destruct (registered_group_members _ _ _ _ _ Hinv Hreg) as (members & Hm & Hperm).
    exists g, members. split; [done|]. split; [done|].
    by rewrite Hperm, (dp_row_of_rank pp dp tp a p d t row Ha Hp Hd Ht Hrow Hin).
  - destruct Hppg as (row & g & Hrow & Hin & Hpg & Hreg).
    destruct (registered_group_members _ _ _ _ _ Hinv Hreg) as (members & Hm & Hperm).
    exists g, members. split; [done|]. split; [done|].
    by rewrite Hperm, (pp_row_of_rank pp dp tp a p d t row Ha Hp Hd Ht Hrow Hin).
Qed.

Lemma groups_are_coordinate_classes_witness :
  exists self d',
    ParallelContext.__init__ (Examples.env 8 5) 2 2 2 "nccl" Examples.fresh = (Ok self, d')
    /\ (exists g members,
          ParallelContext.dp_pg self = Some g
          /\ ParallelContext.created d' !! g = Some members
          /\ Permutation members [5; 7]).
Proof.
  destruct (groups_are_coordinate_classes 2 2 2 1 0 1 (Examples.env 8 5) Examples.fresh)
    as (self & d' & H1 & _ & H2 & _); [lia|lia|lia|reflexivity|reflexivity|reflexivity
                                      |reflexivity|].
  exists self, d'. split; [exact H1|exact H2].
Defined.

(** ** The groups made do not depend on the rank *)

Section SameGroups.
Import ParallelContext.

Lemma new_group_same (ranks : list Z) (reg : gmap (list Z) nat) (d1 d2 : dist) :
  created d1 = created d2 ->
  exists g reg' d1' d2',
    new_group_unless_registered ranks reg d1 = (Ok (g, reg'), d1')
    /\ new_group_unless_registered ranks reg d2 = (Ok (g, reg'), d2')
    /\ created d1' = created d2'.
Proof.
  intros Hc. unfold new_group_unless_registered.
  destruct (reg !! sorted ranks) as [g|].
  - by eexists _, _, _, _.
  - cbv [dist_new_group mbind mret M_bind M_ret]. rewrite Hc.
    eexists _, _, _, _. split; [reflexivity|]. split; [reflexivity|]. done.
Qed.

Lemma axis_loop_same (rank1 rank2 : Z) (rows : list (list Z)) :
  forall (reg : gmap (list Z) nat) (pg1 pg2 : option nat) (d1 d2 : dist),
    created d1 = created d2 ->
    exists pg1' pg2' reg' d1' d2',
      axis_loop rank1 rows reg pg1 d1 = (Ok (pg1', reg'), d1')
      /\ axis_loop rank2 rows reg pg2 d2 = (Ok (pg2', reg'), d2')
      /\ created d1' = created d2'.
Proof.
  induction rows as [|ranks rows IH]; intros reg pg1 pg2 d1 d2 Hc.
  - by eexists _, _, _, _, _.
  - cbn [axis_loop].
    destruct (new_group_same ranks reg d1 d2 Hc) as (g & reg' & d1' & d2' & E1 & E2 & Hc').
    rewrite (bind_ok _ _ _ _ _ E1), (bind_ok _ _ _ _ _ E2). by apply IH.
Qed.

Lemma model_loop_same (rows : list (list Z)) :
  forall (reg : gmap (list Z) nat) (d1 d2 : dist),
    created d1 = created d2 ->
    exists reg' d1' d2',
      model_loop rows reg d1 = (Ok reg', d1')
      /\ model_loop rows reg d2 = (Ok reg', d2')
      /\ created d1' = created d2'.
Proof.
  induction rows as [|ranks rows IH]; intros reg d1 d2 Hc.
  - by eexists _, _, _.
  - cbn [model_loop].
    destruct (new_group_same ranks reg d1 d2 Hc) as (g & reg' & d1' & d2' & E1 & E2 & Hc').
    rewrite (bind_ok _ _ _ _ _ E1), (bind_ok _ _ _ _ _ E2). by apply IH.
Qed.

Lemma init_parallel_groups_same (env1 env2 : environ) (self : t) (d1 d2 : dist)
    (self1 self2 : t) (d1' d2' : dist) :
  WORLD_SIZE env1 = WORLD_SIZE env2 ->
  created d1 = created d2 ->
  init_parallel_groups env1 self d1 = (Ok self1, d1') ->
  init_parallel_groups env2 self d2 = (Ok self2, d2') ->
  created d1' = created d2'
  /\ world_ranks_to_pg self1 = world_ranks_to_pg self2
  /\ world_rank_matrix self1 = world_rank_matrix self2
  /\ world_pg self1 = world_pg self2.
Proof.
  intros Hws Hc H1 H2. unfold init_parallel_groups in H1, H2. rewrite <- Hws in H2.
  destruct (world_pg self) as [w|] eqn:Hw; [|done].
  cbv [getattr dist_barrier emit mbind mret M_bind M_ret raise] in H1, H2.
  destruct ((pipeline_parallel_size self <=? 0) || (data_parallel_size self <=? 0)
            || (tensor_parallel_size self <=? 0)); [done|].
  destruct (arange_reshape _ _ _ _) as [a|]; [|done].
  match type of H1 with
  | context [axis_loop ?r1 ?rows ?reg ?pg ?da] =>
      match type of H2 with
      | context [axis_loop ?r2 rows reg pg ?db] =>
          destruct (axis_loop_same r1 r2 rows reg pg pg da db)
            as (tp1 & tp2 & reg1 & e1 & e2 & E1 & E2 & Hc1); [simpl; by rewrite Hc|]
      end
  end.
  rewrite E1 in H1. rewrite E2 in H2.
  destruct (axis_loop_same (RANK env1) (RANK env2)
              (ranks_with_dp_last a (Z.to_nat (pipeline_parallel_size self))
                 (Z.to_nat (data_parallel_size self)) (Z.to_nat (tensor_parallel_size self)))
              reg1 None None e1 e2 Hc1)
    as (dp1 & dp2 & reg2 & f1 & f2 & F1 & F2 & Hc2).
  rewrite F1 in H1. rewrite F2 in H2.
  destruct (axis_loop_same (RANK env1) (RANK env2)
              (ranks_with_pp_last a (Z.to_nat (pipeline_parallel_size self))
                 (Z.to_nat (data_parallel_size self)) (Z.to_nat (tensor_parallel_size self)))
              reg2 None None f1 f2 Hc2)
    as (pp1 & pp2 & reg3 & g1 & g2 & G1 & G2 & Hc3).
  rewrite G1 in H1. rewrite G2 in H2.
  destruct (model_loop_same
              (pp_and_tp_ranks a (Z.to_nat (pipeline_parallel_size self))
                 (Z.to_nat (data_parallel_size self)) (Z.to_nat (tensor_parallel_size self)))
              reg3 g1 g2 Hc3)
    as (reg4 & h1 & h2 & M1 & M2 & Hc4).
  rewrite M1 in H1. rewrite M2 in H2.
  cbv [local mret M_ret raise] in H1, H2.
  destruct tp1, dp1, pp1; try done. destruct tp2, dp2, pp2; try done.
  injection H1 as <- <-. injection H2 as <- <-. simpl. done.
Qed.

End SameGroups.

(** X20: every process makes the same groups.  Two processes that build
    the context with the same sizes and world size, on any two ranks of the
    world, both succeed, and they have called [new_group] with the same
    ranks in the same order — which the collective [new_group] needs — and
    hold the same registry of groups and the same matrix of ranks. *)
Theorem groups_made_do_not_depend_on_rank (pp dp tp : nat)
    (env1 env2 : ParallelContext.environ) (d : ParallelContext.dist) :
  (0 < pp)%nat -> (0 < dp)%nat -> (0 < tp)%nat ->
  ParallelContext.dist_is_available d = true ->
  ParallelContext.dist_is_initialized d = false ->
  ParallelContext.WORLD_SIZE env1 = Z.of_nat (pp * dp * tp) ->
  ParallelContext.WORLD_SIZE env2 = Z.of_nat (pp * dp * tp) ->
  0 <= ParallelContext.RANK env1 < Z.of_nat (pp * dp * tp) ->
  0 <= ParallelContext.RANK env2 < Z.of_nat (pp * dp * tp) ->
  exists self1 d1 self2 d2,
    ParallelContext.__init__ env1 (Z.of_nat tp) (Z.of_nat pp) (Z.of_nat dp) "nccl" d
    = (Ok self1, d1)
    /\ ParallelContext.__init__ env2 (Z.of_nat tp) (Z.of_nat pp) (Z.of_nat dp) "nccl" d
       = (Ok self2, d2)
    /\ ParallelContext.created d1 = ParallelContext.created d2
    /\ ParallelContext.world_ranks_to_pg self1 = ParallelContext.world_ranks_to_pg self2
    /\ ParallelContext.world_rank_matrix self1 = ParallelContext.world_rank_matrix self2
    /\ ParallelContext.world_pg self1 = ParallelContext.world_pg self2.
Proof.
  intros Hpp Hdp Htp Hav Hini Hws1 Hws2 Hr1 Hr2.
  destruct (init_ok pp dp tp Hpp Hdp Htp env1 d Hav Hini Hws1 ltac:(lia))
    as (self1 & d1 & a1 & Hinit1 & _).
  destruct (init_ok pp dp tp Hpp Hdp Htp env2 d Hav Hini Hws2 ltac:(lia))
    as (self2 & d2 & a2 & Hinit2 & _).
  exists self1, d1, self2, d2. split; [done|]. split; [done|].
  pose proof Hinit1 as H1. pose proof Hinit2 as H2.
  unfold ParallelContext.__init__ in H1, H2.
  assert (Z.of_nat dp ≠ 0) as Hdp0 by lia.
  assert (Z.of_nat tp * Z.of_nat pp ≠ 0) as Htp0 by lia.
  assert (forall env, ParallelContext.WORLD_SIZE env = Z.of_nat (pp * dp * tp) ->
            ParallelContext.WORLD_SIZE env mod Z.of_nat dp = 0
            /\ ParallelContext.WORLD_SIZE env mod (Z.of_nat tp * Z.of_nat pp) = 0
            /\ (Z.of_nat tp * Z.of_nat pp * Z.of_nat dp =? ParallelContext.WORLD_SIZE env)
               = true
            /\ (ParallelContext.WORLD_SIZE env <=? 0) = false) as Hsizes.
  { intros env ->. split; [|split; [|split]].
    - replace (Z.of_nat (pp * dp * tp)) with (Z.of_nat (pp * tp) * Z.of_nat dp) by lia.
      apply Z_mod_mult.
    - replace (Z.of_nat (pp * dp * tp)) with (Z.of_nat dp * (Z.of_nat tp * Z.of_nat pp))
        by lia.
      apply Z_mod_mult.
    - apply Z.eqb_eq. lia.
    - apply Z.leb_gt. lia. }
  destruct (Hsizes env1 Hws1) as (A1 & B1 & C1 & D1).
  destruct (Hsizes env2 Hws2) as (A2 & B2 & C2 & D2).
  rewrite (bind_ok _ _ _ _ _ (pymod_ok _ _ d Hdp0)), A1 in H1.
  rewrite (bind_ok _ _ _ _ _ (pymod_ok _ _ d Hdp0)), A2 in H2.
  rewrite (bind_ok (ParallelContext.assert _ _) _ d d ()) in H1 by done.
  rewrite (bind_ok (ParallelContext.assert _ _) _ d d ()) in H2 by done.
  rewrite (bind_ok _ _ _ _ _ (pymod_ok _ _ d Htp0)), B1 in H1.
  rewrite (bind_ok _ _ _ _ _ (pymod_ok _ _ d Htp0)), B2 in H2.
  rewrite (bind_ok (ParallelContext.assert _ _) _ d d ()) in H1 by done.
  rewrite (bind_ok (ParallelContext.assert _ _) _ d d ()) in H2 by done.
  rewrite (bind_ok (ParallelContext.assert _ _) _ d d ()) in H1 by (by rewrite C1).
  rewrite (bind_ok (ParallelContext.assert _ _) _ d d ()) in H2 by (by rewrite C2).
  rewrite (bind_ok (ParallelContext.get _) _ d d true) in H1
    by (by unfold ParallelContext.get; rewrite Hav).
  rewrite (bind_ok (ParallelContext.get _) _ d d true) in H2
    by (by unfold ParallelContext.get; rewrite Hav).
  cbn [negb] in H1, H2.
  rewrite (bind_ok (mret ()) _ d d ()) in H1 by done.
  rewrite (bind_ok (mret ()) _ d d ()) in H2 by done.
  erewrite (bind_ok (ParallelContext.set_device env1)) in H1 by reflexivity.
  erewrite (bind_ok (ParallelContext.set_device env2)) in H2 by reflexivity.
  erewrite (bind_ok (ParallelContext.get _)) in H1 by reflexivity.
  erewrite (bind_ok (ParallelContext.get _)) in H2 by reflexivity.
  cbn [ParallelContext.dist_is_initialized] in H1, H2. rewrite Hini in H1, H2.
  cbn [negb] in H1, H2.
  unfold ParallelContext.init_global_dist in H1, H2.
  rewrite bool_decide_eq_true_2 in H1, H2 by done.
  rewrite D1 in H1. rewrite D2 in H2.
  cbv [ParallelContext.assert ParallelContext.dist_init_process_group
       ParallelContext.dist_new_group ParallelContext.dist_barrier ParallelContext.emit
       mbind mret ParallelContext.M_bind ParallelContext.M_ret] in H1, H2.
  cbn [ParallelContext.created ParallelContext.dist_is_available
       ParallelContext.dist_is_initialized ParallelContext.trace] in H1, H2.
  rewrite Hws1 in H1 at 1. rewrite Hws2 in H2 at 1.
  match type of H1 with
  | context [ParallelContext.init_parallel_groups env1 ?s ?da] =>
      destruct (ParallelContext.init_parallel_groups env1 s da) as [[s1|] e1] eqn:E1;
        [|done];
      match type of H2 with
      | context [ParallelContext.init_parallel_groups env2 ?s' ?db] =>
          destruct (ParallelContext.init_parallel_groups env2 s' db) as [[s2|] e2] eqn:E2;
            [|done]
      end
  end.
  injection H1 as <- <-. injection H2 as <- <-.
  rewrite Hws1 in E1. rewrite Hws2 in E2.
  assert (ParallelContext.WORLD_SIZE env1 = ParallelContext.WORLD_SIZE env2) as Hws
    by congruence.
  refine (init_parallel_groups_same env1 env2 _ _ _ _ _ _ _ Hws _ E1 E2). reflexivity.
Qed.

Lemma groups_made_do_not_depend_on_rank_witness :
  exists self1 d1 self2 d2,
    ParallelContext.__init__ (Examples.env 8 0) 2 2 2 "nccl" Examples.fresh = (Ok self1, d1)
    /\ ParallelContext.__init__ (Examples.env 8 5) 2 2 2 "nccl" Examples.fresh
       = (Ok self2, d2)
    /\ ParallelContext.created d1 = ParallelContext.created d2.
Proof.
  destruct (groups_made_do_not_depend_on_rank 2 2 2 (Examples.env 8 0) (Examples.env 8 5)
              Examples.fresh)
    as (self1 & d1 & self2 & d2 & H1 & H2 & H3 & _);
    [lia|lia|lia|reflexivity|reflexivity|reflexivity|reflexivity|simpl; lia|simpl; lia|].
  exists self1, d1, self2, d2. split; [exact H1|]. split; [exact H2|exact H3].
Defined.

(** X21: the accessors by parallel mode have nothing to answer with.
    [get_3d_ranks] never returns, whatever the context: it ends in the
    [KeyError] of [get_group], the [ValueError] of [get_global_rank], or the
    [AttributeError] for the missing [get_world_size], and changes nothing.
    After a successful constructor no mode is initialized, and [get_group],
    [get_global_rank_from_local_rank] and [get_3d_ranks] raise [KeyError]
    for every mode, the groups being kept in [tp_pg], [dp_pg] and [pp_pg]
    only. *)
Theorem accessors_by_mode_raise :
  (forall (self : ParallelContext.t) (local_rank : Z)
          (mode : ParallelContext.ParallelMode) (d : ParallelContext.dist),
     exists e,
       ParallelContext.get_3d_ranks self local_rank mode d = (Raise e, d)
       /\ (e = KeyError "parallel_mode"
           \/ e = ValueError "Group rank is not part of group"
           \/ e = AttributeError "get_world_size"))
  /\ (forall (pp dp tp : nat) (env : ParallelContext.environ) (d : ParallelContext.dist),
        (0 < pp)%nat -> (0 < dp)%nat -> (0 < tp)%nat ->
        ParallelContext.dist_is_available d = true ->
        ParallelContext.dist_is_initialized d = false ->
        ParallelContext.WORLD_SIZE env = Z.of_nat (pp * dp * tp) ->
        0 <= ParallelContext.RANK env < ParallelContext.WORLD_SIZE env ->
        exists self d',
          ParallelContext.__init__ env (Z.of_nat tp) (Z.of_nat pp) (Z.of_nat dp) "nccl" d
          = (Ok self, d')
          /\ (exists g, ParallelContext.tp_pg self = Some g)
          /\ forall (mode : ParallelContext.ParallelMode) (local_rank : Z)
                    (d'' : ParallelContext.dist),
               ParallelContext.is_initialized self mode = false
               /\ ParallelContext.get_group self mode d''
                  = (Raise (KeyError "parallel_mode"), d'')
               /\ ParallelContext.get_global_rank_from_local_rank self local_rank mode d''
                  = (Raise (KeyError "parallel_mode"), d'')
               /\ ParallelContext.get_3d_ranks self local_rank mode d''
                  = (Raise (KeyError "parallel_mode"), d'')).
Proof.
  split.
  - intros self local_rank mode d.
    cbv [ParallelContext.get_3d_ranks ParallelContext.get_global_rank_from_local_rank
         ParallelContext.get_group ParallelContext.get_world_size ParallelContext.get
         ParallelContext.raise mbind mret ParallelContext.M_bind ParallelContext.M_ret].
    destruct (ParallelContext.dict_get _ mode) as [g|];
      [|eexists; split; [reflexivity|auto]].
    destruct (ParallelContext.created d !! g) as [ranks|]; cbn [option_bind];
      [|eexists; split; [reflexivity|auto]].
    destruct (local_rank <? 0); [eexists; split; [reflexivity|auto]|].
    destruct (ranks !! Z.to_nat local_rank); eexists; (split; [reflexivity|auto]).
  - intros pp dp tp env d Hpp Hdp Htp Hav Hini Hws Hrank.
    destruct (init_ok pp dp tp Hpp Hdp Htp env d Hav Hini Hws Hrank)
      as (self & d' & a & Hinit & _ & _ & Hgroups & _ & _ & _ & Htpg & _).
    exists self, d'. split; [done|]. split.
    { destruct Htpg as (_ & g & _ & _ & Hg & _). eauto. }
    intros mode local_rank d''.
    cbv [ParallelContext.get_3d_ranks ParallelContext.get_global_rank_from_local_rank
         ParallelContext.get_group ParallelContext.is_initialized
         ParallelContext.raise mbind mret ParallelContext.M_bind ParallelContext.M_ret].
    rewrite Hgroups. cbn [ParallelContext.dict_get map]. split; [|done].
    apply bool_decide_eq_false_2, not_elem_of_nil.
Qed.

Lemma accessors_by_mode_raise_witness :
  exists self d',
    ParallelContext.__init__ (Examples.env 8 5) 2 2 2 "nccl" Examples.fresh = (Ok self, d')
    /\ ParallelContext.get_group self ParallelContext.TENSOR d'
       = (Raise (KeyError "parallel_mode"), d').
Proof.
  destruct accessors_by_mode_raise as [_ H].
  destruct (H 2%nat 2%nat 2%nat (Examples.env 8 5) Examples.fresh)
    as (self & d' & H1 & _ & H2);
    [lia|lia|lia|reflexivity|reflexivity|reflexivity|simpl; lia|].
  exists self, d'. split; [exact H1|].
  destruct (H2 ParallelContext.TENSOR 0 d') as (_ & H3 & _). exact H3.
Defined.

(** ** Building the optimizer from a gradient accumulator *)

Section OptimizerInit.
Import OptimizerFromGradientAccumulator.
Context {P P' Opt O G : Type}.
Variable gradient_accumulator_builder : list (string * P) -> result G.
Variable get_parameter_for_optimizer : G -> string -> result P'.
Variable optimizer_builder : list (param_group (Opt := Opt) P') -> result O.

Lemma params_loop_spec (nps : list (string * P)) :
  forall name_to_param,
    (NoDup (map fst (name_to_param ++ nps)) ->
     params_loop nps name_to_param = Ok (name_to_param ++ nps))
    /\ (NoDup (map fst name_to_param) -> ~ NoDup (map fst (name_to_param ++ nps)) ->
        exists msg, params_loop nps name_to_param = Raise (ValueError msg)).
Proof.
  induction nps as [|[name param] nps IH]; intros n2p.
  - rewrite app_nil_r. split; [done|]. intros ? ?. done.
  - cbn [params_loop].
    replace (n2p ++ (name, param) :: nps) with ((n2p ++ [(name, param)]) ++ nps)
      by (by rewrite <- app_assoc).
    destruct (IH (n2p ++ [(name, param)])) as [IH1 IH2].
    destruct (decide (name ∈ map fst n2p)) as [Hin|Hin].
    + rewrite bool_decide_eq_true_2 by done. split; [|eauto].
      intros Hnd. exfalso. rewrite !map_app in Hnd.
      apply NoDup_app in Hnd as [Hnd _]. apply NoDup_app in Hnd as (_ & Hdisj & _).
      apply (Hdisj name Hin). left.
    + rewrite bool_decide_eq_false_2 by done. split; [done|].
      intros Hnd. apply IH2. rewrite map_app. apply NoDup_app.
      split; [done|]. split; [|apply NoDup_singleton].
      intros x Hx ->%list_elem_of_singleton. done.
Qed.

Lemma groups_loop_spec (groups : list (param_group (Opt := Opt) P)) :
  forall name_to_param,
    NoDup (map fst name_to_param) ->
    (NoDup (map fst (name_to_param ++ concat (map named_params groups))) ->
     groups_loop groups name_to_param
     = Ok (name_to_param ++ concat (map named_params groups)))
    /\ (~ NoDup (map fst (name_to_param ++ concat (map named_params groups))) ->
        exists msg, groups_loop groups name_to_param = Raise (ValueError msg)).
Proof.
  induction groups as [|g groups IH]; intros n2p Hn2p.
  - simpl. rewrite app_nil_r. split; [done|]. intros ?. done.
  - cbn [groups_loop map concat]. rewrite app_assoc.
    destruct (params_loop_spec (named_params g) n2p) as [H1 H2].
    destruct (decide (NoDup (map fst (n2p ++ named_params g)))) as [Hnd|Hnd].
    + rewrite (H1 Hnd). cbn [mbind result_bind]. by apply IH.
    + destruct (H2 Hn2p Hnd) as [msg ->]. split; [|eauto].
      intros Hall. exfalso. apply Hnd. rewrite map_app in Hall.
      by apply NoDup_app in Hall as [? _].
Qed.

Lemma convert_groups_spec (acc : G) (groups : list (param_group (Opt := Opt) P)) :
  (forall name, name ∈ map fst (concat (map named_params groups)) ->
     exists p, get_parameter_for_optimizer acc name = Ok p) ->
  exists converted,
    mapM (convert_group get_parameter_for_optimizer acc) groups = Ok converted
    /\ Forall2 (fun g g' =>
                  map fst (named_params g') = map fst (named_params g)
                  /\ options g' = options g
                  /\ Forall (fun np => get_parameter_for_optimizer acc np.1 = Ok np.2)
                            (named_params g'))
               groups converted.
Proof.
  induction groups as [|g groups IH]; intros Hget.
  - exists []. split; [done|constructor].
  - destruct IH as (converted & Hc & HF).
    { intros name Hin. apply Hget. cbn [map concat]. rewrite map_app.
      apply elem_of_app. by right. }
    assert (exists nps,
              mapM (fun '(name, _) =>
                      p ← get_parameter_for_optimizer acc name; Ok (name, p))
                   (named_params g) = Ok nps
              /\ map fst nps = map fst (named_params g)
              /\ Forall (fun np => get_parameter_for_optimizer acc np.1 = Ok np.2) nps)
      as (nps & Hnps & Hnames & Hall).
    { assert (forall name, name ∈ map fst (named_params g) ->
                exists p, get_parameter_for_optimizer acc name = Ok p) as Hg.
      { intros name Hin. apply Hget. cbn [map concat]. rewrite map_app.
        apply elem_of_app. by left. }
      revert Hg. generalize (named_params g). clear.
      induction l as [|[name param] l IHl]; intros Hg.
      - exists []. split; [done|]. split; [done|constructor].
      - destruct (Hg name ltac:(left)) as [p Hp].
        destruct IHl as (nps & Hnps & Hnames & Hall);
          [intros n Hn; apply Hg; by right|].
        exists ((name, p) :: nps). split.
        + cbn [mapM]. rewrite Hp. cbn [mbind result_bind]. by rewrite Hnps.
        + split; [simpl; by f_equal|]. by constructor. }
    eexists. split.
    + cbn [mapM]. rewrite Hc. unfold convert_group. rewrite Hnps. reflexivity.
    + constructor; [|done]. done.
Qed.

End OptimizerInit.

(** X22: the constructor of the optimizer wrapper.  It raises
    [ValueError] exactly when a parameter name appears twice, in one group or
    across groups, and then before any builder is called.  With distinct
    names the gradient accumulator is built from every named parameter once,
    in the order of the groups, and the optimizer from groups that keep
    their names, their order and their other entries, each parameter being
    the one the accumulator gives for its name. *)
Theorem optimizer_init_distinct_names {P P' Opt O G : Type}
    (gradient_accumulator_builder : list (string * P) -> result G)
    (get_parameter_for_optimizer : G -> string -> result P')
    (optimizer_builder :
       list (OptimizerFromGradientAccumulator.param_group (Opt := Opt) P') -> result O)
    (x : OptimizerFromGradientAccumulator.named_params_or_groups (P := P) (Opt := Opt)) :
  let groups := OptimizerFromGradientAccumulator.as_groups x in
  let all := concat (map OptimizerFromGradientAccumulator.named_params groups) in
  let init :=
    OptimizerFromGradientAccumulator.__init__ gradient_accumulator_builder
      get_parameter_for_optimizer optimizer_builder x in
  (~ NoDup (map fst all) -> exists msg, init = Raise (ValueError msg))
  /\ (NoDup (map fst all) ->
      forall acc,
        gradient_accumulator_builder all = Ok acc ->
        (forall name, name ∈ map fst all ->
           exists p, get_parameter_for_optimizer acc name = Ok p) ->
        exists converted,
          Forall2 (fun g g' =>
                     map fst (OptimizerFromGradientAccumulator.named_params g')
                     = map fst (OptimizerFromGradientAccumulator.named_params g)
                     /\ OptimizerFromGradientAccumulator.options g'
                        = OptimizerFromGradientAccumulator.options g
                     /\ Forall (fun np => get_parameter_for_optimizer acc np.1 = Ok np.2)
                               (OptimizerFromGradientAccumulator.named_params g'))
                  groups converted
          /\ init
             = (opt ← optimizer_builder converted;
                Ok {| OptimizerFromGradientAccumulator.optimizer := opt;
                      OptimizerFromGradientAccumulator.gradient_accumulator := acc |})).
Proof.
  intros groups all init. subst init. unfold OptimizerFromGradientAccumulator.__init__.
  fold groups.
  destruct (groups_loop_spec groups [] (NoDup_nil_2 (A := string))) as [H1 H2].
  cbn [app] in H1, H2. fold all in H1, H2. split.
  - intros Hnd. destruct (H2 Hnd) as [msg ->]. eauto.
  - intros Hnd acc Hacc Hget. rewrite (H1 Hnd). cbn [mbind result_bind].
    rewrite Hacc. cbn [mbind result_bind].
    destruct (convert_groups_spec get_parameter_for_optimizer acc groups Hget)
      as (converted & -> & HF).
    exists converted. split; [done|]. reflexivity.
Qed.

Lemma optimizer_init_distinct_names_witness :
  exists msg,
    OptimizerFromGradientAccumulator.__init__ (Opt := Z)
      (fun nps : list (string * Z) => Ok (map fst nps))
      (fun (acc : list string) name => Ok name)
      (fun groups => Ok (length groups))
      (OptimizerFromGradientAccumulator.ParamGroups
         [{| OptimizerFromGradientAccumulator.named_params := [("w", 1); ("b", 2)];
             OptimizerFromGradientAccumulator.options := [("lr", 3)] |};
          {| OptimizerFromGradientAccumulator.named_params := [("w", 4)];
             OptimizerFromGradientAccumulator.options := [] |}])
    = Raise (ValueError msg).
Proof.
  match goal with
  | |- exists msg, OptimizerFromGradientAccumulator.__init__ ?a ?b ?c ?x = _ =>
      destruct (optimizer_init_distinct_names a b c x) as [H _]
  end.
  apply H. simpl. intros Hnd. inversion Hnd as [|? ? Hw _]. apply Hw. right. left.
Defined.

(** X23: a state dict can be loaded once.  A successful
    [load_state_dict] has popped the key "gradient_accumulator" from the
    caller's dict, so loading the same dict again, into this or into any
    other wrapper, raises [KeyError]. *)
Theorem optimizer_load_state_dict_consumes_key {V O G : Type}
    `{!OptimizerFromGradientAccumulator.BaseOptimizer (V := V) O,
      !OptimizerFromGradientAccumulator.GradientAccumulator (V := V) G}
    (self self' : OptimizerFromGradientAccumulator.t O G) (sd sd' : gmap string V) :
  OptimizerFromGradientAccumulator.load_state_dict self sd = Ok (self', sd') ->
  sd' = delete "gradient_accumulator" sd
  /\ "gradient_accumulator" ∈ dom sd
  /\ ("gradient_accumulator" ∉ dom sd')
  /\ forall other : OptimizerFromGradientAccumulator.t O G,
       OptimizerFromGradientAccumulator.load_state_dict other sd'
       = Raise (KeyError "gradient_accumulator").
Proof.
  unfold OptimizerFromGradientAccumulator.load_state_dict.
  destruct (sd !! "gradient_accumulator") as [v|] eqn:Hv; [|done].
  destruct (OptimizerFromGradientAccumulator.super_load_state_dict self _) as [s1|];
    [|done].
  cbn [mbind result_bind].
  destruct (OptimizerFromGradientAccumulator.acc_load_state_dict _ v) as [g|]; [|done].
  cbn [mbind result_bind]. intros [= <- <-].
  split; [done|]. split; [by apply elem_of_dom|].
  split; [apply not_elem_of_dom, lookup_delete_eq|].
  intros other. by rewrite lookup_delete_eq.
Qed.

Lemma optimizer_load_state_dict_consumes_key_witness :
  OptimizerFromGradientAccumulator.load_state_dict Examples.wrapped
    {[ "exp_avg" := [1; 2; 3] ]}
  = Raise (KeyError "gradient_accumulator").
Proof.
  destruct (optimizer_load_state_dict_consumes_key Examples.wrapped Examples.wrapped
              (<["gradient_accumulator" := [4; 5; 6]]> {[ "exp_avg" := [1; 2; 3] ]})
              {[ "exp_avg" := [1; 2; 3] ]}) as (_ & _ & _ & H).
  - vm_compute. reflexivity.
  - apply H.
Defined.

(** ** The pair-to-pair throughput test *)

Section PairTestFacts.
Import PairTest.

Lemma barriers_app (t1 t2 : list event) : barriers (t1 ++ t2) = (barriers t1 + barriers t2)%nat.
Proof. unfold barriers. by rewrite flat_map_app, length_app. Qed.

Lemma comparisons_logged_app (t1 t2 : list event) :
  comparisons_logged (t1 ++ t2) = (comparisons_logged t1 + comparisons_logged t2)%nat.
Proof. unfold comparisons_logged. by rewrite flat_map_app, length_app. Qed.

Lemma sent_to_app (dst : nat) (t1 t2 : list event) :
  sent_to dst (t1 ++ t2) = sent_to dst t1 ++ sent_to dst t2.
Proof. unfold sent_to. by rewrite flat_map_app. Qed.

Lemma received_from_app (src : nat) (t1 t2 : list event) :
  received_from src (t1 ++ t2) = received_from src t1 ++ received_from src t2.
Proof. unfold received_from. by rewrite flat_map_app. Qed.

Lemma iters_loop_counts (wr a b i : nat) (iters : Z) :
  barriers (iters_loop wr a b i iters) = 0%nat
  /\ comparisons_logged (iters_loop wr a b i iters) = 0%nat.
Proof.
  unfold iters_loop. generalize (seqZ 0 iters). intros l.
  induction l as [|k l [IH1 IH2]]; [done|]. cbn [flat_map].
  rewrite barriers_app, comparisons_logged_app, IH1, IH2.
  destruct (wr =? a)%nat; [done|]. destruct (wr =? b)%nat; done.
Qed.

Lemma iters_loop_messages (wr1 wr2 a b i : nat) (iters : Z) :
  wr1 ≠ wr2 ->
  sent_to wr2 (iters_loop wr1 a b i iters) = received_from wr1 (iters_loop wr2 a b i iters).
Proof.
  intros Hne. unfold iters_loop. generalize (seqZ 0 iters). intros l.
  induction l as [|k l IH]; [done|]. cbn [flat_map].
  rewrite sent_to_app, received_from_app, IH. f_equal.
  repeat match goal with
         | |- context [(?x =? ?y)%nat] => destruct (Nat.eqb_spec x y) as [?|?]; simpl
         end; congruence.
Qed.

(** One pass over a round, when every comparison runs its loop. *)
Lemma pair_loop_ok (wr : nat) (only : bool) (iters : Z) (j : nat) (comp : list (list nat)) :
  1 <= iters -> Forall (fun p => length p = 2%nat) comp ->
  forall i tr,
    exists tr',
      pair_loop wr only iters j i comp tr = (Ok (), tr ++ tr')
      /\ barriers tr' = length comp
      /\ (comparisons_logged tr' <= length (filter (fun p => wr ∈ p) comp))%nat
      /\ (only = false ->
          comparisons_logged tr' = length (filter (fun p => wr ∈ p) comp)).
Proof.
  intros Hiters Hcomp. induction Hcomp as [|p comp Hp _ IH]; intros i tr.
  - exists []. rewrite app_nil_r. done.
  - destruct p as [|a [|b [|c p]]]; try done. cbn [pair_loop].
    destruct (decide (wr ∈ [a; b])) as [Hin|Hin].
    + rewrite (bool_decide_eq_true_2 _ Hin). cbn [negb].
      rewrite filter_cons_True by done. cbn [length].
      destruct (only && _) eqn:Honly.
      * destruct (IH (S i) (tr ++ [Barrier])) as (tr' & -> & Hb & Hle & Heq).
        exists (Barrier :: tr'). rewrite <- app_assoc. split; [done|].
        change (Barrier :: tr') with ([Barrier] ++ tr').
        rewrite barriers_app, comparisons_logged_app, Hb.
        split; [done|]. split; [simpl; lia|].
        intros ->. done.
      * destruct (Z.leb_spec iters 0) as [|_]; [lia|].
        destruct (IH (S i) (((tr ++ [Barrier]) ++ iters_loop wr a b i iters)
                            ++ [LogResult j i a b])) as (tr' & -> & Hb & Hle & Heq).
        exists ([Barrier] ++ iters_loop wr a b i iters ++ [LogResult j i a b] ++ tr').
        rewrite <- !app_assoc. split; [done|].
        destruct (iters_loop_counts wr a b i iters) as [I1 I2].
        rewrite !barriers_app, !comparisons_logged_app, I1, I2, Hb.
        split; [done|]. split; [simpl; lia|]. intros Ho. rewrite (Heq Ho). done.
    + rewrite (bool_decide_eq_false_2 _ Hin). cbn [negb].
      rewrite filter_cons_False by done.
      destruct (IH (S i) (tr ++ [Barrier])) as (tr' & -> & Hb & Hle & Heq).
      exists (Barrier :: tr'). rewrite <- app_assoc. split; [done|].
      change (Barrier :: tr') with ([Barrier] ++ tr').
      rewrite barriers_app, comparisons_logged_app, Hb. done.
Qed.

Lemma pair_loop_messages (wr1 wr2 : nat) (only : bool) (iters : Z) (j : nat)
    (comp : list (list nat)) :
  wr1 ≠ wr2 -> 1 <= iters -> Forall (fun p => length p = 2%nat) comp ->
  forall i tr1 tr2,
    exists t1 t2,
      pair_loop wr1 only iters j i comp tr1 = (Ok (), tr1 ++ t1)
      /\ pair_loop wr2 only iters j i comp tr2 = (Ok (), tr2 ++ t2)
      /\ sent_to wr2 t1 = received_from wr1 t2.
Proof.
  intros Hne Hiters Hcomp. induction Hcomp as [|p comp Hp _ IH]; intros i tr1 tr2.
  - exists [], []. rewrite !app_nil_r. done.
  - destruct p as [|a [|b [|c p]]]; try done. cbn [pair_loop].
    destruct (Z.leb_spec iters 0) as [|_]; [lia|].
    set (skip := only && (negb (a mod 8 =? 0)%nat || negb (b mod 8 =? 0)%nat)).
    set (step := fun wr =>
           if bool_decide (wr ∈ [a; b]) && negb skip
           then [Barrier] ++ iters_loop wr a b i iters ++ [LogResult j i a b]
           else [Barrier]).
    assert (forall wr tr,
              (if negb (bool_decide (wr ∈ [a; b]))
               then pair_loop wr only iters j (S i) comp (tr ++ [Barrier])
               else if skip
                    then pair_loop wr only iters j (S i) comp (tr ++ [Barrier])
                    else pair_loop wr only iters j (S i) comp
                           (((tr ++ [Barrier]) ++ iters_loop wr a b i iters)
                            ++ [LogResult j i a b]))
              = pair_loop wr only iters j (S i) comp (tr ++ step wr)) as Hstep.
    { intros wr tr. subst step. cbv beta.
      destruct (bool_decide (wr ∈ [a; b])); [|done]. destruct skip; [done|].
      cbn [negb andb]. by rewrite <- !app_assoc. }
    rewrite (Hstep wr1 tr1), (Hstep wr2 tr2).
    destruct (IH (S i) (tr1 ++ step wr1) (tr2 ++ step wr2)) as (t1 & t2 & -> & -> & Hm).
    exists (step wr1 ++ t1), (step wr2 ++ t2). rewrite <- !app_assoc.
    split; [done|]. split; [done|].
    rewrite sent_to_app, received_from_app, Hm. f_equal.
    assert (forall wr wr', wr' ∉ [a; b] ->
              sent_to wr' (iters_loop wr a b i iters) = []
              /\ received_from wr' (iters_loop wr a b i iters) = []) as Hother.
    { intros wr wr' Hnin. unfold iters_loop. generalize (seqZ 0 iters). intros l.
      assert (wr' ≠ a /\ wr' ≠ b) as [Ha Hb].
      { split; intros ->; apply Hnin; [left|right; left]. }
      induction l as [|x l [IH1 IH2]]; [done|]. cbn [flat_map].
      rewrite sent_to_app, received_from_app, IH1, IH2.
      destruct (wr =? a)%nat; simpl.
      - by rewrite (proj2 (Nat.eqb_neq b wr')) by done.
      - destruct (wr =? b)%nat; simpl; [|done].
        by rewrite (proj2 (Nat.eqb_neq a wr')) by done. }
    subst step. cbv beta.
    destruct skip; [rewrite !andb_false_r; done|]. rewrite !andb_true_r.
    destruct (decide (wr1 ∈ [a; b])) as [Hin1|Hin1];
      destruct (decide (wr2 ∈ [a; b])) as [Hin2|Hin2];
      rewrite ?(bool_decide_eq_true_2 _ Hin1), ?(bool_decide_eq_false_2 _ Hin1),
        ?(bool_decide_eq_true_2 _ Hin2), ?(bool_decide_eq_false_2 _ Hin2);
      rewrite ?sent_to_app, ?received_from_app;
      cbn [sent_to received_from flat_map app]; rewrite ?app_nil_r.
    + by apply iters_loop_messages.
    + by destruct (Hother wr1 wr2 Hin2) as [-> _].
    + by destruct (Hother wr2 wr1 Hin1) as [_ ->].
    + done.
Qed.

Lemma round_loop_ok (wr : nat) (only : bool) (iters : Z)
    (rounds : list (list (list nat))) :
  1 <= iters -> Forall (fun round => Forall (fun p => length p = 2%nat) round) rounds ->
  forall j tr,
    exists tr',
      round_loop wr only iters j rounds tr = (Ok (), tr ++ tr')
      /\ barriers tr' = sum_list_with (fun round => S (length round)) rounds
      /\ (only = false ->
          comparisons_logged tr'
          = sum_list_with (fun round => length (filter (fun p => wr ∈ p) round)) rounds).
Proof.
  intros Hiters Hrounds. induction Hrounds as [|round rounds Hr _ IH]; intros j tr.
  - exists []. rewrite app_nil_r. done.
  - cbn [round_loop].
    destruct (pair_loop_ok wr only iters j round Hiters Hr 0 (tr ++ [Barrier]))
      as (t & -> & Hb & _ & Hl).
    destruct (IH (S j) ((tr ++ [Barrier]) ++ t)) as (t' & -> & Hb' & Hl').
    exists ([Barrier] ++ t ++ t'). rewrite <- !app_assoc. split; [done|].
    rewrite !barriers_app, !comparisons_logged_app, Hb, Hb'. split; [done|].
    intros Ho. rewrite (Hl Ho), (Hl' Ho). done.
Qed.

Lemma round_loop_messages (wr1 wr2 : nat) (only : bool) (iters : Z)
    (rounds : list (list (list nat))) :
  wr1 ≠ wr2 -> 1 <= iters ->
  Forall (fun round => Forall (fun p => length p = 2%nat) round) rounds ->
  forall j tr1 tr2,
    exists t1 t2,
      round_loop wr1 only iters j rounds tr1 = (Ok (), tr1 ++ t1)
      /\ round_loop wr2 only iters j rounds tr2 = (Ok (), tr2 ++ t2)
      /\ sent_to wr2 t1 = received_from wr1 t2.
Proof.
  intros Hne Hiters Hrounds. induction Hrounds as [|round rounds Hr _ IH]; intros j tr1 tr2.
  - exists [], []. rewrite !app_nil_r. done.
  - cbn [round_loop].
    destruct (pair_loop_messages wr1 wr2 only iters j round Hne Hiters Hr 0
                (tr1 ++ [Barrier]) (tr2 ++ [Barrier])) as (s1 & s2 & -> & -> & Hs).
    destruct (IH (S j) ((tr1 ++ [Barrier]) ++ s1) ((tr2 ++ [Barrier]) ++ s2))
      as (t1 & t2 & -> & -> & Ht).
    exists ([Barrier] ++ s1 ++ t1), ([Barrier] ++ s2 ++ t2). rewrite <- !app_assoc.
    split; [done|]. split; [done|].
    rewrite !sent_to_app, !received_from_app, Hs, Ht. done.
Qed.

Lemma one_pair_holds (wr : nat) (round : list (list nat)) :
  NoDup (concat round) -> wr ∈ concat round ->
  length (filter (fun p => wr ∈ p) round) = 1%nat.
Proof.
  induction round as [|p round IH]; cbn [concat]; [by intros _ ?%elem_of_nil|].
  intros (Hp & Hdisj & Hrest)%NoDup_app Hin.
  destruct (decide (wr ∈ p)) as [Hwp|Hwp].
  - rewrite filter_cons_True by done. cbn [length]. f_equal.
    assert (filter (fun p0 => wr ∈ p0) round = []) as ->; [|done].
    destruct (filter (fun p0 => wr ∈ p0) round) as [|q l] eqn:E; [done|exfalso].
    assert (q ∈ filter (fun p0 => wr ∈ p0) round) as Hq by (rewrite E; left).
    apply list_elem_of_filter in Hq as [Hwq Hq].
    apply (Hdisj wr Hwp), list_elem_of_In, in_concat. exists q.
    split; by apply list_elem_of_In.
  - rewrite filter_cons_False by done. apply IH; [done|].
    apply elem_of_app in Hin as [|]; done.
Qed.




Lemma replicate_barrier_quiet (m : nat) (x : nat) :
  sent_to x (replicate m Barrier) = [] /\ received_from x (replicate m Barrier) = []
  /\ comparisons_logged (replicate m Barrier) = 0%nat.
Proof. induction m as [|m (IH1 & IH2 & IH3)]; [done|]. simpl. done. Qed.

End PairTestFacts.


(** X24: the schedule of the pair-to-pair test.  In a world of [n = 2^k]
    processes, [k >= 1], with every pair tested and at least one iteration,
    the test returns on every rank; every rank passes the same
    [(n - 1) * (1 + n / 2)] barriers and takes part in exactly one
    comparison per round; and between any two ranks the tags sent by one to
    the other are, in order, the tags the other receives from it. *)
Theorem pair_test_schedule (k wr1 wr2 : nat) (throughput_iters : Z) :
  (1 <= k)%nat -> (wr1 < 2 ^ k)%nat -> (wr2 < 2 ^ k)%nat -> wr1 ≠ wr2 ->
  1 <= throughput_iters ->
  let n := (2 ^ k)%nat in
  exists tr1 tr2,
    PairTest.test_all_pair_to_pair (Z.of_nat n) wr1 throughput_iters false = (Ok (), tr1)
    /\ PairTest.test_all_pair_to_pair (Z.of_nat n) wr2 throughput_iters false = (Ok (), tr2)
    /\ PairTest.barriers tr1 = ((n - 1) * (1 + n / 2))%nat
    /\ PairTest.barriers tr2 = ((n - 1) * (1 + n / 2))%nat
    /\ PairTest.comparisons_logged tr1 = (n - 1)%nat
    /\ PairTest.comparisons_logged tr2 = (n - 1)%nat
    /\ PairTest.sent_to wr2 tr1 = PairTest.received_from wr1 tr2
    /\ PairTest.sent_to wr1 tr2 = PairTest.received_from wr2 tr1.
Proof.
  intros Hk Hwr1 Hwr2 Hne Hiters n.
  destruct (get_all_comps_power_of_two k Hk) as (rounds & Hcomps & Hlen & Hrounds).
  fold n in Hcomps, Hlen, Hrounds.
  assert (Hpairs : Forall (fun round => Forall (fun p => length p = 2%nat) round) rounds).
  { eapply Forall_impl; [exact Hrounds|]. intros round (_ & H & _). exact H. }
  assert (Hsum : sum_list_with (fun round : list (list nat) => S (length round)) rounds
                 = ((n - 1) * (1 + n / 2))%nat).
  { rewrite <- Hlen. clear -Hrounds. induction Hrounds as [|r rs (Hr & _) _ IH]; [done|].
    cbn [sum_list_with length]. rewrite IH, Hr. lia. }
  assert (Hone : forall wr, (wr < n)%nat ->
            sum_list_with (fun round => length (filter (fun p => wr ∈ p) round)) rounds
            = (n - 1)%nat).
  { intros wr Hwr. rewrite <- Hlen. clear -Hrounds Hwr.
    induction Hrounds as [|r rs (_ & _ & Hperm) _ IH]; [done|].
    cbn [sum_list_with length]. rewrite IH, one_pair_holds; [done| |].
    - rewrite Hperm. apply NoDup_seq.
    - rewrite Hperm. apply elem_of_seq. lia. }
  unfold PairTest.test_all_pair_to_pair. rewrite Hcomps.
  set (start := fun wr : nat => if (wr =? 0)%nat then [PairTest.LogComparisons] else []).
  set (stop := fun wr : nat => if (wr =? 0)%nat then [PairTest.LogDone] else []).
  fold (start wr1) (start wr2) (stop wr1) (stop wr2).
  destruct (round_loop_ok wr1 false throughput_iters rounds Hiters Hpairs 0 (start wr1))
    as (t1 & E1 & Hb1 & Hl1).
  destruct (round_loop_ok wr2 false throughput_iters rounds Hiters Hpairs 0 (start wr2))
    as (t2 & E2 & Hb2 & Hl2).
  destruct (round_loop_messages wr1 wr2 false throughput_iters rounds Hne Hiters Hpairs 0
              (start wr1) (start wr2)) as (u1 & u2 & F1 & F2 & Hm12).
  destruct (round_loop_messages wr2 wr1 false throughput_iters rounds ltac:(done) Hiters
              Hpairs 0 (start wr2) (start wr1)) as (v2 & v1 & G2 & G1 & Hm21).
  rewrite E1 in F1, G1. rewrite E2 in F2, G2.
  injection F1 as ->%app_inv_head. injection F2 as ->%app_inv_head.
  injection G1 as ->%app_inv_head. injection G2 as ->%app_inv_head.
  rewrite E1, E2. eexists _, _. split; [reflexivity|]. split; [reflexivity|].
  assert (forall wr x, PairTest.barriers (start wr) = 0%nat
                       /\ PairTest.barriers (stop wr) = 0%nat
                       /\ PairTest.comparisons_logged (start wr) = 0%nat
                       /\ PairTest.comparisons_logged (stop wr) = 0%nat
                       /\ PairTest.sent_to x (start wr) = []
                       /\ PairTest.sent_to x (stop wr) = []
                       /\ PairTest.received_from x (start wr) = []
                       /\ PairTest.received_from x (stop wr) = []) as Hquiet.
  { intros wr x. subst start stop. cbv beta. by destruct (wr =? 0)%nat. }
  destruct (Hquiet wr1 wr2) as (A1 & A2 & A3 & A4 & A5 & A6 & A7 & A8).
  destruct (Hquiet wr2 wr1) as (B1 & B2 & B3 & B4 & B5 & B6 & B7 & B8).
  rewrite !barriers_app, !comparisons_logged_app, !sent_to_app, !received_from_app.
  rewrite A1, A2, A3, A4, A5, A6, A7, A8, B1, B2, B3, B4, B5, B6, B7, B8.
  rewrite Hb1, Hb2, (Hl1 eq_refl), (Hl2 eq_refl), Hsum, !Hone by done.
  rewrite !app_nil_r. cbn [app]. rewrite Hm12, Hm21.
  repeat split; lia.
Qed.

Lemma pair_test_schedule_witness :
  exists tr1 tr2,
    PairTest.test_all_pair_to_pair 4 1 2 false = (Ok (), tr1)
    /\ PairTest.test_all_pair_to_pair 4 3 2 false = (Ok (), tr2)
    /\ PairTest.barriers tr1 = 9%nat
    /\ PairTest.sent_to 3 tr1 = PairTest.received_from 1 tr2.
Proof.
  destruct (pair_test_schedule 2 1 3 2) as (tr1 & tr2 & H1 & H2 & H3 & _ & _ & _ & H7 & _);
    [lia|simpl; lia|simpl; lia|lia|lia|].
  exists tr1, tr2. split; [exact H1|]. split; [exact H2|]. split; [exact H3|exact H7].
Defined.



(** ** The learning-rate schedule *)

Section LinearSchedule.
Import LrScheduler.
Variable math_cos : Float.float -> result Float.float.
Variables (l m : Q) (w d total : Z).
Hypothesis lr_pos : (0 < l)%Q.
Hypothesis lr_double : Float.round Float.binary64 l = Float.Finite l.
Hypothesis lo_bounds : (0 <= m <= l)%Q.
Hypothesis lo_double : Float.round Float.binary64 m = Float.Finite m.
Hypothesis steps : 1 <= w /\ 1 <= d /\ w + d <= 2 ^ 53.

Local Abbreviation args :=
  {| lr_warmup_steps := w;
     lr_warmup_style := Some "linear";
     lr_decay_steps := Some d;
     lr_decay_style := Some "linear";
     min_decay_lr := Float.Finite m |}.

Local Abbreviation of_int n := (Float.Finite (Qred (inject_Z n))).

(** The value of the schedule in its three phases. *)
Local Abbreviation warm step :=
  (Float.fdiv Float.binary64
     (Float.fdiv Float.binary64
        (Float.fmul Float.binary64 (Float.Finite l) (of_int step)) (of_int w))
     (Float.Finite l)).

Local Abbreviation cool step :=
  (Float.fdiv Float.binary64
     (Float.fadd Float.binary64 (Float.Finite m)
        (Float.fdiv Float.binary64
           (Float.fmul Float.binary64
              (Float.fsub Float.binary64 (Float.Finite l) (Float.Finite m))
              (of_int (d - (step - w))))
           (of_int d)))
     (Float.Finite l)).

Local Abbreviation rest := (Float.fdiv Float.binary64 (Float.Finite m) (Float.Finite l)).

Lemma of_int_pos (n : Z) : 0 < n -> (0 < Qred (inject_Z n))%Q.
Proof. intros H. rewrite Qred_correct. rewrite <- (Zlt_Qlt 0). lia. Qed.

Lemma of_int_le (n n' : Z) : n <= n' -> (Qred (inject_Z n) <= Qred (inject_Z n'))%Q.
Proof. intros H. rewrite !Qred_correct. by rewrite <- Zle_Qle. Qed.

Lemma div_int_pos (a : Float.float) (n : Z) :
  1 <= n <= 2 ^ 53 -> Float.div_int a n = Ok (Float.fdiv Float.binary64 a (of_int n)).
Proof.
  intros Hn. unfold Float.div_int. rewrite float_of_int_eq by lia.
  cbn [mbind result_bind]. unfold Float.float_truediv. cbn [Float.is_zero].
  rewrite Qeq_bool_false; [done|]. pose proof (of_int_pos n ltac:(lia)). lra.
Qed.

Lemma truediv_lr (a : Float.float) :
  Float.float_truediv a (Float.Finite l) = Ok (Float.fdiv Float.binary64 a (Float.Finite l)).
Proof. unfold Float.float_truediv. cbn [Float.is_zero]. rewrite Qeq_bool_false; [done|lra]. Qed.

Lemma lr_lambda_warm (step : Z) :
  0 <= step <= w -> lr_lambda math_cos (Float.Finite l) args total step = Ok (warm step).
Proof.
  intros Hs. destruct steps as (Hw & Hd & Hwd).
  unfold lr_lambda, decay_steps.
  cbn [lr_warmup_steps lr_warmup_style lr_decay_steps lr_decay_style min_decay_lr].
  destruct (Z.eqb_spec w 0) as [|_]; [lia|]. cbn [andb].
  destruct (Z.leb_spec step w) as [_|]; [|lia].
  change (String.eqb "linear" "linear") with true. cbv iota.
  unfold Float.mul_int. rewrite float_of_int_eq by lia. cbn [mbind result_bind].
  replace (Z.max w 1) with w by lia. rewrite div_int_pos by lia.
  cbn [mbind result_bind]. by rewrite truediv_lr.
Qed.

Lemma lr_lambda_cool (step : Z) :
  w < step < w + d -> lr_lambda math_cos (Float.Finite l) args total step = Ok (cool step).
Proof.
  intros Hs. destruct steps as (Hw & Hd & Hwd).
  unfold lr_lambda, decay_steps.
  cbn [lr_warmup_steps lr_warmup_style lr_decay_steps lr_decay_style min_decay_lr].
  destruct (Z.eqb_spec w 0) as [|_]; [lia|]. cbn [andb].
  destruct (Z.leb_spec step w) as [|_]; [lia|].
  destruct (Z.ltb_spec step (d + w)) as [_|]; [|lia].
  unfold decay. change (String.eqb "linear" "cosine") with false.
  change (String.eqb "linear" "linear") with true. cbv iota.
  unfold linear_decay, Float.mul_int. rewrite float_of_int_eq by lia.
  cbn [mbind result_bind]. rewrite div_int_pos by lia.
  cbn [mbind result_bind]. by rewrite truediv_lr.
Qed.

Lemma lr_lambda_rest (step : Z) :
  w + d <= step -> lr_lambda math_cos (Float.Finite l) args total step = Ok rest.
Proof.
  intros Hs. destruct steps as (Hw & Hd & Hwd).
  unfold lr_lambda, decay_steps.
  cbn [lr_warmup_steps lr_warmup_style lr_decay_steps lr_decay_style min_decay_lr].
  destruct (Z.eqb_spec w 0) as [|_]; [lia|]. cbn [andb].
  destruct (Z.leb_spec step w) as [|_]; [lia|].
  destruct (Z.ltb_spec step (d + w)) as [|_]; [lia|].
  cbn [mbind result_bind]. by rewrite truediv_lr.
Qed.

Lemma warm_mono (s1 s2 : Z) :
  0 <= s1 <= s2 ->
  Float.fle (Float.Finite 0) (warm s1) = true /\ Float.fle (warm s1) (warm s2) = true.
Proof.
  intros Hs. destruct steps as (Hw & Hd & Hwd).
  pose proof (of_int_le 0 s1 ltac:(lia)) as H0. pose proof (of_int_le s1 s2 ltac:(lia)) as H1.
  change (Qred (inject_Z 0)) with 0%Q in H0.
  destruct (fmul_mono_r Float.binary64 ltac:(done) l _ _ ltac:(lra) H0 H1) as [A0 A1].
  destruct (fdiv_mono_l Float.binary64 ltac:(done) _ _ _ (of_int_pos w ltac:(lia)) A0 A1)
    as [B0 B1].
  exact (fdiv_mono_l Float.binary64 ltac:(done) _ _ _ lr_pos B0 B1).
Qed.

Lemma difference_finite :
  exists q, Float.fsub Float.binary64 (Float.Finite l) (Float.Finite m) = Float.Finite q
            /\ (0 <= q)%Q.
Proof.
  unfold Float.fsub. cbn [Float.fneg Float.fadd].
  pose proof (round_mono Float.binary64 ltac:(done) (l + - m) l ltac:(lra) ltac:(lra)) as H1.
  pose proof (fle_zero_round Float.binary64 (l + - m) ltac:(lra)) as H0.
  rewrite lr_double in H1.
  destruct (Float.round Float.binary64 (l + - m)) as [q|[]|]; try done.
  exists q. split; [done|]. by apply fle_Finite.
Qed.

Lemma cool_mono (s1 s2 : Z) :
  w < s1 <= s2 -> s2 < w + d ->
  Float.fle rest (cool s2) = true /\ Float.fle (cool s2) (cool s1) = true.
Proof.
  intros Hs Hs2. destruct steps as (Hw & Hd & Hwd).
  destruct difference_finite as (q & -> & Hq).
  pose proof (of_int_le 0 (d - (s2 - w)) ltac:(lia)) as H0.
  pose proof (of_int_le (d - (s2 - w)) (d - (s1 - w)) ltac:(lia)) as H1.
  change (Qred (inject_Z 0)) with 0%Q in H0.
  destruct (fmul_mono_r Float.binary64 ltac:(done) q _ _ Hq H0 H1) as [A0 A1].
  destruct (fdiv_mono_l Float.binary64 ltac:(done) _ _ _ (of_int_pos d ltac:(lia)) A0 A1)
    as [B0 B1].
  destruct (fadd_mono_r Float.binary64 ltac:(done) m _ _ ltac:(lra) B0 B1) as (C0 & C1 & C2).
  assert (Float.fle (Float.Finite 0) (Float.Finite m) = true) as Hm0
    by (apply fle_Finite; lra).
  split.
  - exact (proj2 (fdiv_mono_l Float.binary64 ltac:(done) _ _ _ lr_pos Hm0 (C2 lo_double))).
  - exact (proj2 (fdiv_mono_l Float.binary64 ltac:(done) _ _ _ lr_pos C0 C1)).
Qed.

Lemma rest_nonneg : Float.fle (Float.Finite 0) rest = true.
Proof.
  assert (Float.fle (Float.Finite 0) (Float.Finite m) = true) as Hm0
    by (apply fle_Finite; lra).
  assert (Float.fle (Float.Finite m) (Float.Finite m) = true) as Hmm
    by (apply fle_Finite; lra).
  exact (proj1 (fdiv_mono_l Float.binary64 ltac:(done) _ _ _ lr_pos Hm0 Hmm)).
Qed.

Lemma fle_refl_nonneg (a : Float.float) :
  Float.fle (Float.Finite 0) a = true -> Float.fle a a = true.
Proof.
  intros H. destruct (fle_zero_cases a H) as [->|(x & -> & _)]; [done|].
  apply fle_Finite. lra.
Qed.

(** The schedule with linear warm-up and linear decay, phase by phase. *)
Lemma linear_schedule_phases :
  (forall step, 0 <= step ->
     exists f, lr_lambda math_cos (Float.Finite l) args total step = Ok f
               /\ Float.fle (Float.Finite 0) f = true)
  /\ lr_lambda math_cos (Float.Finite l) args total 0 = Ok (Float.Finite 0)
  /\ (forall s1 s2 f1 f2,
        0 <= s1 <= s2 -> s2 <= w ->
        lr_lambda math_cos (Float.Finite l) args total s1 = Ok f1 ->
        lr_lambda math_cos (Float.Finite l) args total s2 = Ok f2 ->
        Float.fle f1 f2 = true)
  /\ (forall s1 s2 f1 f2,
        w < s1 <= s2 ->
        lr_lambda math_cos (Float.Finite l) args total s1 = Ok f1 ->
        lr_lambda math_cos (Float.Finite l) args total s2 = Ok f2 ->
        Float.fle f2 f1 = true
        /\ Float.fle (Float.fdiv Float.binary64 (Float.Finite m) (Float.Finite l)) f2 = true)
  /\ (forall step, w + d <= step ->
        lr_lambda math_cos (Float.Finite l) args total step
        = Ok (Float.fdiv Float.binary64 (Float.Finite m) (Float.Finite l))).
Proof.
  destruct steps as (Hw & Hd & Hwd).
  split; [|split; [|split; [|split]]].
  - intros step Hs. destruct (Z_le_gt_dec step w) as [Hle|Hgt].
    + exists (warm step). split; [apply lr_lambda_warm; lia|].
      exact (proj1 (warm_mono step step ltac:(lia))).
    + destruct (Z_lt_le_dec step (w + d)) as [Hlt|Hge].
      * exists (cool step). split; [apply lr_lambda_cool; lia|].
        destruct (cool_mono step step ltac:(lia) Hlt) as [H1 _].
        exact (fle_trans _ _ _ rest_nonneg H1).
      * exists rest. split; [apply lr_lambda_rest; lia|apply rest_nonneg].
  - rewrite lr_lambda_warm by lia.
    change (Qred (inject_Z 0)) with 0%Q. cbn [Float.fmul].
    rewrite (round_zero Float.binary64 (l * 0)) by ring. cbn [Float.fdiv].
    pose proof (of_int_pos w ltac:(lia)) as HwQ.
    rewrite Qeq_bool_false by lra.
    rewrite (round_zero Float.binary64 (0 / Qred (inject_Z w)))
      by (unfold Qdiv; apply Qmult_0_l).
    cbn [Float.fdiv]. rewrite Qeq_bool_false by lra.
    by rewrite (round_zero Float.binary64 (0 / l)) by (unfold Qdiv; apply Qmult_0_l).
  - intros s1 s2 f1 f2 Hs Hs2. rewrite !lr_lambda_warm by lia. intros [= <-] [= <-].
    exact (proj2 (warm_mono s1 s2 Hs)).
  - intros s1 s2 f1 f2 Hs.
    destruct (Z_lt_le_dec s2 (w + d)) as [Hlt|Hge].
    + rewrite !lr_lambda_cool by lia. intros [= <-] [= <-].
      destruct (cool_mono s1 s2 Hs Hlt) as [H1 H2]. done.
    + rewrite (lr_lambda_rest s2) by lia.
      destruct (Z_lt_le_dec s1 (w + d)) as [Hlt1|Hge1].
      * rewrite lr_lambda_cool by lia. intros [= <-] [= <-].
        destruct (cool_mono s1 s1 ltac:(lia) Hlt1) as [H1 _].
        split; [exact H1|]. apply fle_refl_nonneg, rest_nonneg.
      * rewrite lr_lambda_rest by lia. intros [= <-] [= <-].
        split; apply fle_refl_nonneg, rest_nonneg.
  - intros step Hs. apply lr_lambda_rest. lia.
Qed.

End LinearSchedule.

(** X26: the linear schedule, in floats.  With a learning rate
    [l > 0] and [0 <= min_decay_lr <= l], both doubles, linear warm-up over
    [w >= 1] steps and linear decay over [d >= 1] steps, [w + d <= 2^53],
    [lr_lambda] returns a factor that is never negative; it is 0 at step
    0 and does not fall up to step [w]; after step [w] it does not rise and
    is not below the double quotient [min_decay_lr / l], which it equals from
    step [w + d] on.  The factor can exceed 1: for the double nearest to
    0.1 and three warm-up steps it is [1 + 2^-52] at step 3.  With neither
    warm-up nor decay steps the function returns the learning rate itself,
    not the factor 1. *)
Theorem lr_lambda_linear_schedule (math_cos : Float.float -> result Float.float)
    (l m : Q) (w d total : Z) :
  ((0 < l)%Q -> Float.round Float.binary64 l = Float.Finite l ->
   (0 <= m <= l)%Q -> Float.round Float.binary64 m = Float.Finite m ->
   1 <= w /\ 1 <= d /\ w + d <= 2 ^ 53 ->
   let factor :=
     LrScheduler.lr_lambda math_cos (Float.Finite l)
       {| LrScheduler.lr_warmup_steps := w;
          LrScheduler.lr_warmup_style := Some "linear";
          LrScheduler.lr_decay_steps := Some d;
          LrScheduler.lr_decay_style := Some "linear";
          LrScheduler.min_decay_lr := Float.Finite m |} total in
   (forall step, 0 <= step ->
      exists f, factor step = Ok f /\ Float.fle (Float.Finite 0) f = true)
   /\ factor 0 = Ok (Float.Finite 0)
   /\ (forall s1 s2 f1 f2,
         0 <= s1 <= s2 -> s2 <= w -> factor s1 = Ok f1 -> factor s2 = Ok f2 ->
         Float.fle f1 f2 = true)
   /\ (forall s1 s2 f1 f2,
         w < s1 <= s2 -> factor s1 = Ok f1 -> factor s2 = Ok f2 ->
         Float.fle f2 f1 = true
         /\ Float.fle (Float.fdiv Float.binary64 (Float.Finite m) (Float.Finite l)) f2
            = true)
   /\ (forall step, w + d <= step ->
         factor step = Ok (Float.fdiv Float.binary64 (Float.Finite m) (Float.Finite l))))
  /\ LrScheduler.lr_lambda math_cos (Float.round Float.binary64 (1 # 10))
       {| LrScheduler.lr_warmup_steps := 3;
          LrScheduler.lr_warmup_style := Some "linear";
          LrScheduler.lr_decay_steps := Some 7;
          LrScheduler.lr_decay_style := Some "linear";
          LrScheduler.min_decay_lr := Float.Finite 0 |} total 3
     = Ok (Float.Finite (1 + (1 # 2 ^ 52)))
  /\ (forall (learning_rate : Float.float) (args0 : LrScheduler.LRSchedulerArgs) (step : Z),
        LrScheduler.lr_warmup_steps args0 = 0 ->
        LrScheduler.decay_steps args0 total = 0 ->
        LrScheduler.lr_lambda math_cos learning_rate args0 total step = Ok learning_rate).
Proof.
  split; [|split].
  - intros Hl Hlr Hm Hlo Hsteps. cbv zeta.
    exact (linear_schedule_phases math_cos l m w d total Hl Hlr Hm Hlo Hsteps).
  - by vm_compute.
  - intros lr args0 step H1 H2. unfold LrScheduler.lr_lambda. by rewrite H1, H2.
Qed.

Lemma lr_lambda_linear_schedule_witness :
  exists f,
    LrScheduler.lr_lambda (fun x => Ok x) (Float.Finite (1 # 2))
      {| LrScheduler.lr_warmup_steps := 100;
         LrScheduler.lr_warmup_style := Some "linear";
         LrScheduler.lr_decay_steps := Some 900;
         LrScheduler.lr_decay_style := Some "linear";
         LrScheduler.min_decay_lr := Float.Finite (1 # 16) |} 1000 50 = Ok f
    /\ Float.fle (Float.Finite 0) f = true.
Proof.
  destruct (lr_lambda_linear_schedule (fun x => Ok x) (1 # 2) (1 # 16) 100 900 1000)
    as [H _].
  destruct (H eq_refl eq_refl (conj (Qle_bool_imp_le 0 (1 # 16) eq_refl)
                                    (Qle_bool_imp_le (1 # 16) (1 # 2) eq_refl))
              eq_refl ltac:(lia)) as (H1 & _).
  apply (H1 50). lia.
Defined.

(** ** [FP8Adam] and the dummy model *)

(** X27: what [FP8Adam.__init__] checks.  The assertion on the
    parameters fails exactly when there is no parameter at all and never
    looks at their types: a non-empty list is accepted even if none of its
    parameters is an [FP8Parameter].  With at least one parameter the
    constructor reaches [Optimizer.__init__] exactly when [0 <= lr],
    [0 <= eps] and both betas lie in [0, 1), and raises [ValueError]
    otherwise. *)
Theorem fp8_adam_init_checks (params : list FP8Adam.parameter) (lr : Q) (betas : Q * Q)
    (eps weight_decay : Q) (amsgrad : bool) :
  let valid := (0 <= lr)%Q /\ (0 <= eps)%Q /\ (0 <= betas.1 < 1)%Q /\ (0 <= betas.2 < 1)%Q in
  let init := FP8Adam.__init__ params lr betas eps weight_decay amsgrad in
  (params = [] <-> init = Raise (AssertionError "All parameters should be FP8Parameter"))
  /\ (params <> [] -> valid ->
      init = Ok (params, {| FP8Adam.lr := lr; FP8Adam.betas := betas; FP8Adam.eps := eps;
                            FP8Adam.weight_decay := weight_decay;
                            FP8Adam.amsgrad := amsgrad |}))
  /\ (params <> [] -> ~ valid -> exists msg, init = Raise (ValueError msg)).
Proof.
  intros valid init. subst init valid. unfold FP8Adam.__init__.
  destruct params as [|p params]; cbn [map].
  { split; [done|]. split; intros H; done. }
  assert (forall a b : Q, Qle_bool a b = true <-> (a <= b)%Q) as Hle
    by (intros; apply Qle_bool_iff).
  assert (forall a : Q, negb (Qle_bool 1 a) = true <-> (a < 1)%Q) as Hlt.
  { intros a. rewrite negb_true_iff, <- not_true_iff_false, Hle. split; lra. }
  destruct (Qle_bool 0 lr) eqn:E1; cbn [negb].
  2:{ split; [done|]. split; [|eauto]. intros _ (H & _). apply Hle in H. congruence. }
  destruct (Qle_bool 0 eps) eqn:E2; cbn [negb].
  2:{ split; [done|]. split; [|eauto]. intros _ (_ & H & _). apply Hle in H. congruence. }
  destruct (Qle_bool 0 betas.1 && negb (Qle_bool 1 betas.1)) eqn:E3; cbn [negb].
  2:{ split; [done|]. split; [|eauto]. intros _ (_ & _ & [H H'] & _).
      apply Hle in H. apply Hlt in H'. rewrite H, H' in E3. done. }
  destruct (Qle_bool 0 betas.2 && negb (Qle_bool 1 betas.2)) eqn:E4; cbn [negb].
  2:{ split; [done|]. split; [|eauto]. intros _ (_ & _ & _ & [H H']).
      apply Hle in H. apply Hlt in H'. rewrite H, H' in E4. done. }
  split; [done|]. split; [done|]. intros _ Hnot. exfalso. apply Hnot.
  apply andb_true_iff in E3 as [E3 E3']. apply andb_true_iff in E4 as [E4 E4'].
  rewrite Hle in E1, E2, E3, E4. rewrite Hlt in E3', E4'. done.
Qed.

Lemma fp8_adam_init_checks_witness :
  FP8Adam.__init__ [FP8Adam.OtherParameter "weight"] (1 # 1000) (9 # 10, 999 # 1000)
    (1 # 100000000) 0 false
  = Ok ([FP8Adam.OtherParameter "weight"],
        {| FP8Adam.lr := 1 # 1000; FP8Adam.betas := (9 # 10, 999 # 1000);
           FP8Adam.eps := 1 # 100000000; FP8Adam.weight_decay := 0;
           FP8Adam.amsgrad := false |}).
Proof.
  destruct (fp8_adam_init_checks [FP8Adam.OtherParameter "weight"] (1 # 1000)
              (9 # 10, 999 # 1000) (1 # 100000000) 0 false) as (_ & H & _).
  apply H; [discriminate|]. repeat split; done.
Defined.



